(* ===== verification/_CoqProject ===== *)
-Q . S2P
Prelude.v
Exceptions.v
Dict.v
Paths.v
TreeData.v
Tree.v
TreeFacts.v
Replicated.v
TreeErrors.v
TreeOps.v
TreeInv.v
TreeView.v
TreeAuth.v
TreeLocks.v
TreeSpec.v
Layout.v
TreeWrite.v
TreeFence.v
TreeUpload.v
TreeRefs.v
TreeGrowth.v
TreeProps.v
Crypto.v
Bytes.v
BlockToken.v
BlockStore.v
Container.v
BlockStoreProps.v
DataNode.v
DataNodeFacts.v
DataNodeProps.v
Pipeline.v
Addresses.v
Auth.v
Monitor.v
Collector.v
Replicator.v
Servicer.v
Handlers.v
ServicerProps.v
ServicerErrors.v
ServicerUpload.v
ServicerDeletes.v
ServicerSteps.v
RpcClient.v
RpcProps.v
ClientData.v
ClientRead.v
ClientWrite.v
ClientTransfer.v
ClientProps.v
ClientLocks.v
Session.v
ClusterWorld.v
ClusterFacts.v
ClusterUpload.v
ClusterDownload.v
ClusterWrite.v
ClusterProps.v
SessionProps.v
HostFs.v
FileServer.v
FileClient.v
FileServerProps.v
FileClientProps.v
FileUploads.v
ShellWords.v
ShellFacts.v
Shell.v
ShellProps.v
ShellCluster.v
Tls.v
NodeMain.v
NodeMainProps.v
Bootstrap.v
ShellMain.v
Secrets.v
SecretsProps.v
SecretsLoad.v
Inspect.v
