(* ===== verification/Prelude.v ===== *)
(** * DFSha: a distributed file system, verified

    DFSha keeps a tree of directories and files in a small group of ControlNodes
    that replicate it through Raft, and the contents of the files, cut in blocks
    of a fixed size, encrypted on DataNodes.  A client asks the leader where the
    blocks of a file are and moves the bytes itself.  This library models the
    Python code of [src/dfsha] and proves what each part promises.

    ** Parts and files

    Every file but the generic ones models one module of the program, with the
    names of its functions; a record of the model is a class of the source, a
    function of the model is a method and takes the object as an argument.

    - Generic: [Prelude] (results, the state-and-error monad [M], tactics, lists
      and integers), [Dict] (Python's insertion-ordered dict), [Bytes] (slices and
      chunks), [Crypto] (SHA-256, HMAC, PBKDF2 and scrypt, computed), [Exceptions]
      (common/exceptions.py and the gRPC status codes).
    - The tree, control_node/tree.py: [Paths] (virtual paths), [TreeData] (records,
      permissions, the plan of a write, the attributes a snapshot holds), [Tree] (every method of [ControlTree]).
      Lemmas: [TreeFacts], [TreeErrors], [TreeOps], [TreeInv] (with a concrete history),
      [TreeView], [TreeGrowth], [Layout].
    - The replicated tree, control_node/replicated_tree.py: [Replicated] (commands,
      dispatch, deduplication, snapshots).
    - Capabilities, common/block_token.py: [BlockToken].  Users and sessions,
      common/auth.py: [Auth].  Addresses, common/addresses.py: [Addresses].
    - The background processes of a ControlNode: [Monitor] (datanode_monitor.py),
      [Collector] (garbage_collector.py), [Replicator] (rereplicator.py).
    - The service of a ControlNode, control_node/servicer.py: [Servicer] (what the
      RPCs share) and [Handlers] (one definition per RPC); lemmas at
      the head of [ServicerProps].
    - A DataNode: [BlockStore] (data_node/block_store.py), [DataNode]
      (data_node/servicer.py, every RPC over a network of nodes) and [Pipeline]
      (the two threads and the bounded queue inside [_write_and_forward], as a step
      relation).  Lemmas: [Container] and [DataNodeFacts]; the specification
      of the store heads [BlockStoreProps].
    - The client, client/distributed_client.py: [RpcClient] (the call loop and the
      translation of errors), [ClientData] (reads with failover, contents of writes,
      upload streams), [ClientTransfer] (downloads), [ClientLocks] (handles, the
      table of held locks and its renewing thread), and [Session]: every public
      operation as a program over the interface [Cluster], with its RPCs in order
      and its [try], [except] and [finally] clauses.  Lemmas: [ClientRead],
      [ClientWrite].
    - The shell, client/shell.py: [ShellWords] (how [cat] decodes bytes, splitting a
      line as shlex does, resolving a path, numbers and columns) and [Shell]: every command of [handle_command] and the loop of [run_repl], over the
      interface [ShellClient] of the client it drives.  Lemmas: [ShellFacts].
    - The non-distributed version of the system: [FileServer] (server/filesystem.py and
      server/servicer.py, over a host directory) and [FileClient]
      (client/dfsha_client.py), on the host file system [HostFs] (POSIX paths as lists
      of names, the calls of pathlib and os the server makes).  [FileUploads] runs several uploads at once, step by step.
    - The processes: [Tls] (common/tls.py), [NodeMain] (the [main] and [serve] of
      control_node/main.py, data_node/main.py and server/main.py), [Bootstrap] (the
      thread that creates the first admin) and [ShellMain]
      (client/distributed_shell_main.py).  [Secrets] is scripts/generate_secrets.py, which
      makes the secrets all of them load, and the certificates of [Tls]; lemmas at the
      head of [SecretsProps].
    - The inspector, scripts/inspect_cluster.py: [Inspect], every command over an interface
      [Inspected] of the nodes, with the handlers of a ControlNode as an instance.
    - The whole stack: [ClusterWorld] makes the instance of [Cluster] from the parts
      above, the handlers of a leader over the replicated tree and a network of
      DataNodes.  Lemmas: [ClusterFacts] (with what a call, an identifier and a block
      transfer leave), [ClusterUpload], [ClusterDownload], [ClusterWrite], and, for the
      leader, [ServicerSteps].
      [ShellCluster] puts the shell on top, with an instance of [ShellClient] for each
      of the two clients.

    ** How the parts meet

    A client call is a request to [Handlers]; a handler sends a command through
    [Servicer._commit], which is one entry of the Raft log; every node applies the
    log with [Replicated.apply], which dispatches to [Tree].  The handler answers
    with block locations and a capability ([BlockToken]); the client takes both to
    [DataNode], which verifies the capability and calls [BlockStore].  The
    collector and the re-replicator read the tree and call the same DataNode RPCs.
    Interfaces: [Cluster] (between the client and the two services), [Aead] with
    [AeadLaws] (AES-GCM, between [BlockStore] and the cryptography package),
    [JwtLaws] (PyJWT), [X509] with [X509Laws] (certificates), [Inspected] with [LeaderShows]
    (between the inspector and the nodes), [ShellClient] (between the shell and a client), [Sink] (what a read writes to: a local file, or the region
    of one).  Theorems of a client are proved against the
    interface; concrete instances discharge it in the witnesses.

    ** What the theorems show

    - [ClusterProps]: end to end, the operations of a client on a file refine the
      operations on a list of bytes.  The theorem composes one lemma per operation
      ([upload_file], [write_file], [read_range_file], [download_file]), each proved
      against the answers of the handlers and of the DataNodes.  Its assumptions are
      the records [setting] (the configuration is sane, identifiers are fresh) and
      [world_ok] (every copy is of the content of its block), and that other clients
      leave this path and these write reservations alone; the witness runs a session
      on three DataNodes.  [SessionProps]: the protocols of upload, write and
      download over any cluster, on success and on failure; a write is told with the
      answers it got, so that a reservation is committed or aborted but after an
      exception the code does not catch.
    - [TreeProps], [TreeFence], [TreeAuth], [TreeLocks], [TreeSpec], [TreeUpload],
      [TreeRefs], [TreeWrite]: every log of commands keeps the invariant of the
      tree; a committed write was planned on the blocks the file has now, under the
      exclusive lock; locks exclude; whatever changes was allowed; the namespace
      refines a map of paths; uploads publish exactly what was confirmed; the
      references the collector trusts are exact; a refused command changes nothing;
      deduplication is sound; a snapshot restores the replica, also one pickled before the
      attributes added since.
    - [BlockStoreProps]: the store refines a map from ids to plaintexts; what is read
      back was sealed there; the write loop terminates.  [DataNodeProps]: an answered
      write is on every node of the pipeline, a failed one leaves nothing at its
      head, every RPC needs its capability.  [Pipeline]: the tee delivers, and when
      it hangs.
    - [BlockToken], [Auth], [Addresses], [Monitor], [Collector], [Replicator]:
      capabilities and sessions open what they say; the collector deletes what
      nothing references, all of it and nothing else; a repair is justified, and happens.
    - [ServicerProps], [ServicerErrors], [ServicerUpload], [ServicerDeletes]: authentication,
      error reports (the class and the status of the very error a call was refused with),
      placement, listings, deletions (those of AbortUpload apart, which are what it read
      before its commit).
    - [RpcProps], [ClientProps], [ClientLocks]: calls follow the leader and end
      at most one round of timeouts past their budget; errors travel; ranges, writes, downloads and uploads
      move the right bytes; the lock table is in order.

    - [ShellCluster]: commands typed at the shell over the whole distributed system
      print and store what the same commands do on lists of bytes.  [ShellProps]: the
      session survives every failure a client reports, a password is never printed, a
      command is one call, only a [cd] that the client confirms moves, a line splits into
      the words it spells, a path resolves as a walk.
    - [FileServerProps], [FileClientProps], [FileUploads]: the non-distributed server
      changes nothing outside its directory, its client's calls refine the operations on
      that directory, a download returns what an upload sent, and concurrent uploads of
      one file never mix.
    - [NodeMainProps], [Bootstrap]: a node that starts is configured as its parts expect,
      leaves nothing unprotected in silence and takes down what it brought up; the nodes
      started from one list agree on their group; the cluster gets its admin.
    - [SecretsProps], [SecretsLoad]: the certificates the script leaves fit together, also
      after a run that an exception cut; each role sees its own secrets and no other;
      running it again changes no byte, no mode and, for the same user, no owner; every
      process loads what its view holds.  What a killed run leaves is in two examples,
      [stale_certificate_stays] and [torn_secret_stays].
    - [Inspect]: the tool lists exactly what is published, and the blocks it announces as
      orphans are the ones the next cycle of the collector deletes when nothing is under way.

    ** Choices and bounds

    Times are integers (microseconds in the client) or rationals: the order and the
    sums of the source's floats, not their rounding.  An exception is its class; its
    Spanish message is not modelled, except in the shell, where an exception carries the
    text the shell prints.  White space and digits of the shell and of addresses are
    ASCII; a text is the bytes of its UTF-8 encoding.  The host file system has no
    symbolic links and no permissions.  The arguments of a process are what argparse
    gives, and its durations whole seconds.  Recursion on lists, trees and requests is
    structural.  The recursion of the inspector over the tree is bounded by
    Python's limit, a parameter: a tree no higher than it is listed ([walk_run]).  Fuel appears in five places, always with a theorem that enough of
    it gives the result: [BlockStore.drain] (one unit per pending byte,
    [write_loop_terminates]), [RpcClient.call_loop] (one unit per round,
    [call_terminates]), [ClientData.block_chunks] (one unit per byte left),
    [HostFs.read_loop] (one unit per byte of the file and one more: [read_loop_concat])
    and [Bootstrap.bootstrap_loop] (the turns a run is watched for,
    [cluster_gets_its_admin]).  The
    threads of the program are modelled where their order matters: the step relation
    of [Pipeline], the completion order of the transfers of an upload and of a
    download (any schedule), the rounds of the lock renewer.  The transfers of a thread pool
    are otherwise run one after the other.  A run of [Secrets] may be cut before any of its
    actions on the disk, by an exception or by the death of the process.

    ** Not modelled

    Raft (pysyncobj): the log is a list of commands, a barrier and a commit are
    observations of the environment.  gRPC channels, deadlines and thread pools;
    Ping and the channel caches.  AES-GCM and PyJWT, which are parameters with their
    documented laws, like the keys, signatures and PEM texts of [X509] and the generators
    of [Randomness].  argparse.
    The [main] of client/shell.py, which only reads a host and a port.  The other
    scripts: demonstrations, measurements, the generation of the gRPC stubs. *)

From stdpp Require Export prelude gmap strings list sorting.
From Stdlib Require Export ZArith Lia Ascii.

#[export] Set Default Goal Selector "!".

Declare Scope dfs_scope.
Delimit Scope dfs_scope with dfs.

(** * Results and the state-and-error monad

    A Python method that may raise is a function that returns a [result]; a
    method that also mutates its object is a state transformer [M S E A].  The
    state is returned next to an error as well, because a Python method that
    raises keeps the mutations it made before the [raise]. *)

Inductive result (E A : Type) : Type :=
| Ok (a : A)
| Err (e : E).
Arguments Ok {E A} a.
Arguments Err {E A} e.

Definition M (S E A : Type) : Type := S → S * result E A.

#[global] Instance result_ret {E} : MRet (result E) := λ A a, Ok a.
#[global] Instance result_bind {E} : MBind (result E) := λ A B f r,
  match r with
  | Ok a => f a
  | Err e => Err e
  end.

#[global] Instance result_fmap {E} : FMap (result E) := λ A B f r,
  match r with
  | Ok a => Ok (f a)
  | Err e => Err e
  end.

#[global] Instance M_ret {S E} : MRet (M S E) := λ A a s, (s, Ok a).
#[global] Instance M_bind {S E} : MBind (M S E) := λ A B f m s,
  match m s with
  | (s', Ok a) => f a s'
  | (s', Err e) => (s', Err e)
  end.

Definition raise {S E A} (e : E) : M S E A := λ s, (s, Err e).
Definition lift {S E A} (r : result E A) : M S E A := λ s, (s, r).
Definition gets {S E A} (f : S → A) : M S E A := λ s, (s, Ok (f s)).
Definition asks {S E A} (f : S → result E A) : M S E A := λ s, (s, f s).
Definition modify {S E} (f : S → S) : M S E unit := λ s, (f s, Ok tt).

(** [ensure b e]: go on when [b] holds, raise [e] otherwise. *)
Definition ensure {S E} (b : bool) (e : E) : M S E unit :=
  if b then mret tt else raise e.
Definition require_r {E} (b : bool) (e : E) : result E unit :=
  if b then Ok tt else Err e.

Definition of_option {E A} (e : E) (o : option A) : result E A :=
  match o with
  | Some a => Ok a
  | None => Err e
  end.

Definition is_ok {E A} (r : result E A) : bool :=
  match r with
  | Ok _ => true
  | Err _ => false
  end.

(** [preserves I m]: [m] keeps the invariant [I], whether it returns or raises. *)
Definition preserves {S E A} (I : S → Prop) (m : M S E A) : Prop :=
  ∀ s, I s → I (m s).1.

(** [moves R m]: [m] moves the state along [R], whether it returns or raises.
    [moves_on_err R Q m]: it does when it raises an error that satisfies [Q]. *)
Definition moves {S E A} (R : relation S) (m : M S E A) : Prop :=
  ∀ s, R s (m s).1.
Definition moves_on_err {S E A} (R : relation S) (Q : E → Prop) (m : M S E A) : Prop :=
  ∀ s s' e, m s = (s', Err e) → Q e → R s s'.

(** The relation "[f] reads the same in both states". *)
Definition same {S B} (f : S → B) : relation S := λ s s', f s' = f s.

(** * Python sequences *)

(** [l[i]]: a negative index counts from the end, out of range raises. *)
Definition py_index {A} (l : list A) (i : Z) : option nat :=
  let j := if (i <? 0)%Z then (i + Z.of_nat (length l))%Z else i in
  if ((0 <=? j) && (j <? Z.of_nat (length l)))%Z then Some (Z.to_nat j) else None.

Definition py_get {A} (l : list A) (i : Z) : option A :=
  match py_index l i with
  | Some n => l !! n
  | None => None
  end.

Definition py_set {A} (l : list A) (i : Z) (x : A) : option (list A) :=
  match py_index l i with
  | Some n => Some (<[n := x]> l)
  | None => None
  end.

(** [range(a, b)]. *)
Definition zrange (a b : Z) : list Z :=
  (λ n : nat, (a + Z.of_nat n)%Z) <$> seq 0 (Z.to_nat (b - a)).

Definition sumZ (l : list Z) : Z := foldr Z.add 0%Z l.

(** [len(l)] as an integer. *)
Definition zlen {A} (l : list A) : Z := Z.of_nat (length l).

(** Update of the first element a Python [for] loop finds and returns at. *)
Fixpoint update_first {A} (p : A → bool) (f : A → A) (l : list A) : option (list A) :=
  match l with
  | [] => None
  | x :: l' => if p x then Some (f x :: l') else cons x <$> update_first p f l'
  end.

(** [l[-1]] and [l[:-1]] of a non-empty list. *)
Definition last_str (l : list string) : string := default EmptyString (last l).
Definition init_of {A} (l : list A) : list A := take (length l - 1) l.

(** * Lemmas *)

Create HintDb dfs discriminated.

Section monad_lemmas.
Context {S E : Type}.

Lemma bind_ok_inv {A B} (m : M S E A) (f : A → M S E B) s s' b :
  (mbind f m) s = (s', Ok b) → ∃ s1 a, m s = (s1, Ok a) ∧ f a s1 = (s', Ok b).
Proof.
  unfold mbind, M_bind. destruct (m s) as [s1 [a|e]] eqn:Hm; [|congruence]. eauto.
Qed.

Lemma bind_err_inv {A B} (m : M S E A) (f : A → M S E B) s s' e :
  (mbind f m) s = (s', Err e) →
  m s = (s', Err e) ∨ ∃ s1 a, m s = (s1, Ok a) ∧ f a s1 = (s', Err e).
Proof.
  unfold mbind, M_bind. destruct (m s) as [s1 [a|e']] eqn:Hm; intros; [|left; congruence].
  right; eauto.
Qed.

Lemma bind_ok {A B} (m : M S E A) (f : A → M S E B) s s1 a :
  m s = (s1, Ok a) → (mbind f m) s = f a s1.
Proof. unfold mbind, M_bind. by intros ->. Qed.

Lemma bind_err {A B} (m : M S E A) (f : A → M S E B) s s1 e :
  m s = (s1, Err e) → (mbind f m) s = (s1, Err e).
Proof. unfold mbind, M_bind. by intros ->. Qed.

Lemma ensure_ok_inv (b : bool) (e : E) (s s' : S) u :
  ensure b e s = (s', Ok u) → b = true ∧ s' = s.
Proof. unfold ensure. destruct b; cbn; intros H; inversion H; auto. Qed.

Lemma lift_ok_inv {A} (r : result E A) (s s' : S) a :
  lift r s = (s', Ok a) → r = Ok a ∧ s' = s.
Proof. unfold lift. intros H; inversion H; auto. Qed.

Lemma asks_ok_inv {A} (f : S → result E A) s s' a :
  asks f s = (s', Ok a) → f s = Ok a ∧ s' = s.
Proof. unfold asks. intros H; inversion H; auto. Qed.

Lemma preserves_ret {A} (I : S → Prop) (a : A) : preserves (E:=E) I (mret a).
Proof. by intros s. Qed.
Lemma preserves_raise {A} (I : S → Prop) (e : E) : preserves (A:=A) I (raise e).
Proof. by intros s. Qed.
Lemma preserves_lift {A} (I : S → Prop) (r : result E A) : preserves I (lift r).
Proof. by intros s. Qed.
Lemma preserves_gets {A} (I : S → Prop) (f : S → A) : preserves (E:=E) I (gets f).
Proof. by intros s. Qed.
Lemma preserves_asks {A} (I : S → Prop) (f : S → result E A) : preserves I (asks f).
Proof. by intros s. Qed.
Lemma preserves_ensure (I : S → Prop) b (e : E) : preserves I (ensure b e).
Proof. intros s. by destruct b. Qed.
Lemma preserves_modify (I : S → Prop) (f : S → S) :
  (∀ s, I s → I (f s)) → preserves (E:=E) I (modify f).
Proof. intros Hf s. apply Hf. Qed.
Lemma preserves_bind {A B} (I : S → Prop) (m : M S E A) (f : A → M S E B) :
  preserves I m → (∀ a, preserves I (f a)) → preserves I (mbind f m).
Proof.
  intros Hm Hf s HI. specialize (Hm s HI). unfold mbind, M_bind.
  destruct (m s) as [s1 [a|e]]; [by apply Hf|done].
Qed.

(** A step whose continuation may use what the step established. *)
Lemma preserves_bind_ok {A B} (I : S → Prop) (m : M S E A) (f : A → M S E B) :
  preserves I m →
  (∀ s a s1, I s → m s = (s1, Ok a) → I (f a s1).1) →
  preserves I (mbind f m).
Proof.
  intros Hm Hf s HI. pose proof (Hm s HI) as H1. unfold mbind, M_bind.
  destruct (m s) as [s1 [a|e]] eqn:Hms; [eauto|done].
Qed.

Context (Rel : relation S) `{!PreOrder Rel}.

Lemma moves_ret {A} (a : A) : moves (E:=E) Rel (mret a).
Proof. intros s. simpl. reflexivity. Qed.
Lemma moves_raise {A} (e : E) : moves (A:=A) Rel (raise e).
Proof. intros s. simpl. reflexivity. Qed.
Lemma moves_lift {A} (r : result E A) : moves Rel (lift r).
Proof. intros s. simpl. reflexivity. Qed.
Lemma moves_gets {A} (f : S → A) : moves (E:=E) Rel (gets f).
Proof. intros s. simpl. reflexivity. Qed.
Lemma moves_asks {A} (f : S → result E A) : moves Rel (asks f).
Proof. intros s. simpl. reflexivity. Qed.
Lemma moves_ensure b (e : E) : moves Rel (ensure b e).
Proof. intros s. destruct b; simpl; reflexivity. Qed.
Lemma moves_modify (f : S → S) : (∀ s, Rel s (f s)) → moves (E:=E) Rel (modify f).
Proof. intros Hf s. apply Hf. Qed.
Lemma moves_bind {A B} (m : M S E A) (f : A → M S E B) :
  moves Rel m → (∀ a, moves Rel (f a)) → moves Rel (mbind f m).
Proof.
  intros Hm Hf s. specialize (Hm s). unfold mbind, M_bind.
  destruct (m s) as [s1 [a|e]]; simpl in *; [|done]. etrans; [done|apply Hf].
Qed.
Lemma moves_inv {A} (m : M S E A) s s' r : moves Rel m → m s = (s', r) → Rel s s'.
Proof. intros Hm Hs. specialize (Hm s). by rewrite Hs in Hm. Qed.

Lemma moves_on_err_of_moves {A} Q (m : M S E A) : moves Rel m → moves_on_err Rel Q m.
Proof. intros Hm s s' e Hs _. by eapply moves_inv. Qed.
Lemma moves_on_err_modify Q (f : S → S) : moves_on_err (E:=E) Rel Q (modify f).
Proof. by intros s s' e H. Qed.
(** A last mutation followed by a step that does not raise. *)
Lemma moves_on_err_modify_ret {A} Q (f : S → S) (a : A) :
  moves_on_err (E:=E) Rel Q (mbind (λ _, mret a) (modify f)).
Proof. by intros s s' e H. Qed.
Lemma moves_on_err_bind {A B} Q (m : M S E A) (f : A → M S E B) :
  moves Rel m → (∀ a, moves_on_err Rel Q (f a)) → moves_on_err Rel Q (mbind f m).
Proof.
  intros Hm Hf s s' e [H|(s1 & a & H1 & H2)]%bind_err_inv HQ.
  - by eapply moves_inv.
  - etrans; [by eapply moves_inv|by eapply Hf].
Qed.
End monad_lemmas.

#[global] Instance same_preorder {S B} (f : S → B) : PreOrder (same f).
Proof. split; unfold same; [done|]. intros x y z ? ?. congruence. Qed.

#[export] Hint Resolve preserves_ret preserves_raise preserves_lift preserves_gets
  preserves_asks preserves_ensure preserves_bind : dfs.
#[export] Hint Resolve moves_ret moves_raise moves_lift moves_gets moves_asks
  moves_ensure moves_bind : dfs.
#[export] Hint Resolve moves_on_err_modify moves_on_err_modify_ret moves_on_err_bind
  moves_on_err_of_moves | 2 : dfs.

(** Case analysis along a computation that returned normally: [minv H] opens
    the binds of [H : m s = (s', Ok a)] one by one. *)
Ltac minv_step H :=
  lazymatch type of H with
  | mbind _ _ _ = (_, Ok _) =>
      let s1 := fresh "s" in let a := fresh "a" in let H1 := fresh "Hm" in
      apply bind_ok_inv in H as (s1 & a & H1 & H); minv_step H1
  | ensure _ _ _ = (_, Ok _) =>
      apply ensure_ok_inv in H as [H ->]
  | lift _ _ = (_, Ok _) => apply lift_ok_inv in H as [H ->]
  | asks _ _ = (_, Ok _) => apply asks_ok_inv in H as [H ->]
  | gets _ _ = (_, Ok _) => unfold gets in H; simplify_eq
  | modify _ _ = (_, Ok _) => unfold modify in H; simplify_eq
  | mret _ _ = (_, Ok _) => unfold mret, M_ret in H; simplify_eq
  | raise _ _ = (_, Ok _) => unfold raise in H; discriminate H
  | _ => idtac
  end.
Ltac minv H := repeat (progress minv_step H).

(** Splits the first [if]/[match] of hypothesis [H]. *)
Ltac case_in H :=
  lazymatch type of H with
  | context [match ?x with _ => _ end] => let E := fresh "E" in destruct x eqn:E
  end.

Section list_lemmas.
Context {A : Type}.
Implicit Types (l : list A).

Lemma py_index_nonneg l i :
  (0 ≤ i < zlen l)%Z → py_index l i = Some (Z.to_nat i).
Proof.
  unfold py_index, zlen. intros Hi.
  destruct (Z.ltb_spec i 0); [lia|].
  destruct (Z.leb_spec 0 i), (Z.ltb_spec i (Z.of_nat (length l))); simpl; (done || lia).
Qed.

Lemma py_get_nat l (n : nat) : n < length l → py_get l (Z.of_nat n) = l !! n.
Proof.
  intros Hn. unfold py_get. rewrite py_index_nonneg; [|unfold zlen; lia].
  by rewrite Nat2Z.id.
Qed.

Lemma py_set_nat l (n : nat) x : n < length l → py_set l (Z.of_nat n) x = Some (<[n := x]> l).
Proof.
  intros Hn. unfold py_set. rewrite py_index_nonneg; [|unfold zlen; lia].
  by rewrite Nat2Z.id.
Qed.

Lemma py_set_length l i x l' : py_set l i x = Some l' → length l' = length l.
Proof.
  unfold py_set. destruct (py_index l i); intros; simplify_eq. by rewrite length_insert.
Qed.

Lemma py_set_Forall (P : A → Prop) l i x l' :
  Forall P l → P x → py_set l i x = Some l' → Forall P l'.
Proof.
  unfold py_set. destruct (py_index l i); intros; simplify_eq. by apply Forall_insert.
Qed.

Lemma update_first_Forall (P : A → Prop) p f l l' :
  Forall P l → (∀ x, P x → P (f x)) → update_first p f l = Some l' → Forall P l'.
Proof.
  intros Hl Hf. revert l'. induction Hl as [|x l Hx Hl IH]; intros l'; simpl; [done|].
  destruct (p x); [intros; simplify_eq; constructor; auto|].
  destruct (update_first p f l); intros; simplify_eq/=. constructor; auto.
Qed.

Lemma update_first_map {B} (h : A → B) p f l l' :
  (∀ x, h (f x) = h x) → update_first p f l = Some l' → h <$> l' = h <$> l.
Proof.
  intros Hf. revert l'. induction l as [|x l IH]; intros l'; simpl; [done|].
  destruct (p x); [intros; simplify_eq/=; by rewrite Hf|].
  destruct (update_first p f l); intros; simplify_eq/=. by rewrite IH.
Qed.

Lemma update_first_None p f l : update_first p f l = None ↔ Forall (λ x, p x = false) l.
Proof.
  induction l as [|x l IH]; simpl; [split; auto|].
  rewrite Forall_cons. destruct (p x); [naive_solver|].
  rewrite fmap_None, IH. naive_solver.
Qed.

Lemma init_of_snoc l x : init_of (l ++ [x]) = l.
Proof.
  unfold init_of. rewrite length_app; simpl.
  replace (length l + 1 - 1) with (length l) by lia. by rewrite take_app_length.
Qed.
End list_lemmas.

Lemma last_str_snoc l x : last_str (l ++ [x]) = x.
Proof. unfold last_str. by rewrite last_snoc. Qed.

Lemma init_last_str (l : list string) : l ≠ [] → init_of l ++ [last_str l] = l.
Proof.
  intros Hl. destruct (decide (l = [])) as [|_]; [done|].
  destruct l as [|x l] using rev_ind; [done|]. by rewrite init_of_snoc, last_str_snoc.
Qed.

(** [String.append] does not reduce under [simpl]. *)
Lemma append_cons a s t : String a s +:+ t = String a (s +:+ t).
Proof. done. Qed.
Lemma append_nil_l t : "" +:+ t = t.
Proof. done. Qed.
Lemma append_nil_r s : s +:+ "" = s.
Proof. induction s as [|a s IH]; [done|]. by rewrite append_cons, IH. Qed.
Lemma append_assoc (s t u : string) : (s +:+ t) +:+ u = s +:+ t +:+ u.
Proof. induction s as [|a s IH]; [done|]. by rewrite !append_cons, IH. Qed.
Lemma length_append (s t : string) : String.length (s +:+ t) = String.length s + String.length t.
Proof. induction s as [|a s IH]; [done|]. rewrite append_cons. simpl. by rewrite IH. Qed.
Lemma append_cancel_r (s s' t : string) : s +:+ t = s' +:+ t → s = s'.
Proof.
  intros H. assert (String.length s = String.length s') as Hlen.
  { apply (f_equal String.length) in H. rewrite !length_append in H. lia. }
  revert s' H Hlen. induction s as [|a s IH]; intros [|b s'] H Hlen; try done.
  rewrite !append_cons in H. injection H as -> H. f_equal. apply IH; [done|]. by injection Hlen.
Qed.

Lemma filter_mono {A} (P Q : A → Prop) `{∀ x, Decision (P x), ∀ x, Decision (Q x)} l :
  (∀ x, P x → Q x) → filter P l `sublist_of` filter Q l.
Proof.
  intros HPQ. induction l as [|x l IH]; [done|]. destruct (decide (P x)) as [HP|HP].
  - rewrite !filter_cons_True by auto. by apply sublist_skip.
  - rewrite (filter_cons_False P) by done. destruct (decide (Q x)).
    + rewrite filter_cons_True by done. by apply sublist_cons.
    + by rewrite filter_cons_False.
Qed.

Lemma filter_fmap {A B} (f : A → B) (P : B → Prop) `{∀ x, Decision (P x)} (l : list A) :
  filter P (f <$> l) = f <$> filter (λ x, P (f x)) l.
Proof.
  induction l as [|x l IH]; [done|]. rewrite fmap_cons. destruct (decide (P (f x))).
  - by rewrite !filter_cons_True, fmap_cons, IH.
  - by rewrite !filter_cons_False, IH.
Qed.

Lemma Forall2_eq_fmap {A B} (f : A → B) l k : Forall2 (λ a b, b = f a) l k → k = f <$> l.
Proof. induction 1 as [|a b l k -> _ IH]; [done|]. by rewrite fmap_cons, <-IH. Qed.

Lemma sumZ_app l1 l2 : sumZ (l1 ++ l2) = (sumZ l1 + sumZ l2)%Z.
Proof. induction l1 as [|x l1 IH]; simpl; [done|]. rewrite IH. lia. Qed.

Lemma zrange_nil a b : (b ≤ a)%Z → zrange a b = [].
Proof. intros. unfold zrange. by replace (Z.to_nat (b - a)) with 0 by lia. Qed.

Lemma zrange_cons a b : (a < b)%Z → zrange a b = a :: zrange (a + 1) b.
Proof.
  intros. unfold zrange.
  replace (Z.to_nat (b - a)) with (S (Z.to_nat (b - (a + 1)))) by lia.
  simpl. f_equal; [lia|]. rewrite <-fmap_S_seq, <-list_fmap_compose.
  apply list_fmap_ext. intros; simpl; lia.
Qed.

Lemma zrange_lookup a b i j : zrange a b !! i = Some j → j = (a + Z.of_nat i)%Z ∧ (j < b)%Z.
Proof.
  unfold zrange. rewrite list_lookup_fmap. intros (n & Hn & ->)%fmap_Some.
  apply lookup_seq in Hn as [-> Hlt]. simpl. lia.
Qed.
Lemma zrange_length a b : length (zrange a b) = Z.to_nat (b - a).
Proof. unfold zrange. by rewrite length_fmap, length_seq. Qed.

Lemma elem_of_zrange a b i : i ∈ zrange a b ↔ (a ≤ i < b)%Z.
Proof.
  unfold zrange. rewrite list_elem_of_fmap. split.
  - intros (n & -> & Hn%elem_of_seq). lia.
  - intros Hi. exists (Z.to_nat (i - a)). rewrite elem_of_seq. lia.
Qed.
