(* ===== verification/Exceptions.v ===== *)
(** The domain errors of [dfsha/common/exceptions.py] and the gRPC status codes
    they travel as.  An exception is modelled by its class; the Spanish message
    it carries is not modelled.  [PyError] stands for any exception outside the
    [DFShaError] hierarchy (a [ZeroDivisionError], an [IndexError], ...). *)

From S2P Require Import Prelude.

Inductive exn : Type :=
| DFShaError
| InvalidPathError
| PathNotFoundError
| PathExistsError
| NotEmptyError
| NotAFileError
| NotADirectoryError
| BlockNotFoundError
| BlockCorruptedError
| ConflictError
| AccessDeniedError
| AuthError
| PyError.

#[global] Instance exn_eq_dec : EqDecision exn.
Proof. solve_decision. Defined.

(** [type(exc).__name__]; [PyError] has no name of its own in the model. *)
Definition class_name (e : exn) : string :=
  match e with
  | DFShaError => "DFShaError"
  | InvalidPathError => "InvalidPathError"
  | PathNotFoundError => "PathNotFoundError"
  | PathExistsError => "PathExistsError"
  | NotEmptyError => "NotEmptyError"
  | NotAFileError => "NotAFileError"
  | NotADirectoryError => "NotADirectoryError"
  | BlockNotFoundError => "BlockNotFoundError"
  | BlockCorruptedError => "BlockCorruptedError"
  | ConflictError => "ConflictError"
  | AccessDeniedError => "AccessDeniedError"
  | AuthError => "AuthError"
  | PyError => "Exception"
  end.

(** The classes [exceptions.py] declares, in its order. *)
Definition domain_errors : list exn :=
  [DFShaError; InvalidPathError; PathNotFoundError; PathExistsError; NotEmptyError;
   NotAFileError; NotADirectoryError; BlockNotFoundError; BlockCorruptedError;
   ConflictError; AccessDeniedError; AuthError].

(** [isinstance(exc, DFShaError)]. *)
Definition is_domain (e : exn) : bool := bool_decide (e ∈ domain_errors).

(** [grpc.StatusCode]: the codes the program uses. *)
Inductive StatusCode : Type :=
| UNKNOWN
| INVALID_ARGUMENT
| DEADLINE_EXCEEDED
| NOT_FOUND
| ALREADY_EXISTS
| PERMISSION_DENIED
| FAILED_PRECONDITION
| ABORTED
| UNIMPLEMENTED
| UNAVAILABLE
| DATA_LOSS
| UNAUTHENTICATED.

#[global] Instance StatusCode_eq_dec : EqDecision StatusCode.
Proof. solve_decision. Defined.

Lemma class_name_inj e1 e2 : class_name e1 = class_name e2 → e1 = e2.
Proof. destruct e1, e2; simpl; intros H; (reflexivity || discriminate H). Qed.
