(* ===== verification/Dict.v ===== *)
(** A Python [dict] with string keys as an association list in insertion order:
    assigning to a key that exists keeps its place, a new key goes last, [del]
    removes it.  The order is what [iter_blocks] and the log deduplication see,
    so a finite map is not enough; [dict_to_map] relates the two. *)

From S2P Require Import Prelude.

Section dict.
Context {V : Type}.
Implicit Types (d : list (string * V)) (k : string) (v : V).

Fixpoint dict_get k d : option V :=
  match d with
  | [] => None
  | (k', v) :: d' => if decide (k' = k) then Some v else dict_get k d'
  end.

Fixpoint dict_set k v d : list (string * V) :=
  match d with
  | [] => [(k, v)]
  | (k', v') :: d' =>
      if decide (k' = k) then (k', v) :: d' else (k', v') :: dict_set k v d'
  end.

Fixpoint dict_del k d : list (string * V) :=
  match d with
  | [] => []
  | (k', v') :: d' => if decide (k' = k) then d' else (k', v') :: dict_del k d'
  end.

(** In-place mutation of the object stored under [k], if there is one. *)
Fixpoint dict_alter k (f : V → V) d : list (string * V) :=
  match d with
  | [] => []
  | (k', v') :: d' =>
      if decide (k' = k) then (k', f v') :: d' else (k', v') :: dict_alter k f d'
  end.

Definition dict_has k d : bool :=
  match dict_get k d with
  | Some _ => true
  | None => false
  end.

Definition dict_keys d : list string := d.*1.

Definition dict_ok d : Prop := NoDup (dict_keys d).

Definition dict_to_map d : gmap string V := list_to_map d.
End dict.

Section dict_lemmas.
Context {V : Type}.
Implicit Types (d : list (string * V)) (k : string) (v : V).

Lemma dict_get_app k d1 d2 :
  dict_get k (d1 ++ d2) = match dict_get k d1 with Some v => Some v | None => dict_get k d2 end.
Proof. induction d1 as [|[k1 v1] d1 IH]; simpl; [done|]. by case_decide. Qed.

Lemma dict_get_set k k' v d :
  dict_get k' (dict_set k v d) = if decide (k = k') then Some v else dict_get k' d.
Proof.
  induction d as [|[k1 v1] d IH]; simpl; [done|].
  destruct (decide (k1 = k)) as [->|]; simpl; [by repeat case_decide|].
  rewrite IH. repeat case_decide; congruence.
Qed.

Lemma dict_get_set_eq k v d : dict_get k (dict_set k v d) = Some v.
Proof. rewrite dict_get_set. by rewrite decide_True. Qed.
Lemma dict_get_set_ne k k' v d : k ≠ k' → dict_get k' (dict_set k v d) = dict_get k' d.
Proof. intros. rewrite dict_get_set. by rewrite decide_False. Qed.

Lemma dict_get_alter k k' f d :
  dict_get k' (dict_alter k f d) =
    if decide (k = k') then f <$> dict_get k' d else dict_get k' d.
Proof.
  induction d as [|[k1 v1] d IH]; simpl; [by case_decide|].
  destruct (decide (k1 = k)) as [->|]; simpl; [by repeat case_decide|].
  rewrite IH. repeat case_decide; congruence.
Qed.

Lemma dict_keys_alter k f d : dict_keys (dict_alter k f d) = dict_keys d.
Proof.
  unfold dict_keys. induction d as [|[k1 v1] d IH]; simpl; [done|].
  case_decide; csimpl; [done|]. by rewrite IH.
Qed.

Lemma dict_get_elem k v d : dict_get k d = Some v → (k, v) ∈ d.
Proof.
  induction d as [|[k1 v1] d IH]; simpl; [done|]. case_decide; intros; simplify_eq.
  - by left.
  - right; auto.
Qed.

Lemma dict_get_None k d : dict_get k d = None ↔ k ∉ dict_keys d.
Proof.
  unfold dict_keys. induction d as [|[k1 v1] d IH]; simpl; [set_solver|].
  rewrite not_elem_of_cons. case_decide; naive_solver.
Qed.

Lemma dict_elem_get k v d : dict_ok d → (k, v) ∈ d → dict_get k d = Some v.
Proof.
  unfold dict_ok, dict_keys.
  induction d as [|[k1 v1] d IH]; simpl; [intros _ H; by inversion H|].
  intros [Hni Hnd]%NoDup_cons [?|Hin]%elem_of_cons; simplify_eq; [by rewrite decide_True|].
  rewrite decide_False; [auto|]. intros ->.
  apply Hni. apply list_elem_of_fmap. exists (k, v). auto.
Qed.

Lemma dict_set_keys_elem k k' v d : k' ∈ dict_keys (dict_set k v d) → k' = k ∨ k' ∈ dict_keys d.
Proof.
  unfold dict_keys. induction d as [|[k1 v1] d IH]; simpl; [set_solver|].
  case_decide; simpl; set_solver.
Qed.

Lemma dict_ok_set k v d : dict_ok d → dict_ok (dict_set k v d).
Proof.
  unfold dict_ok, dict_keys. induction d as [|[k1 v1] d IH]; simpl.
  - intros _. apply NoDup_singleton.
  - intros [Hni Hnd]%NoDup_cons. case_decide; simpl; constructor; auto.
    intros [->|]%dict_set_keys_elem; auto.
Qed.

Lemma dict_del_sublist k d : dict_del k d `sublist_of` d.
Proof.
  induction d as [|[k1 v1] d IH]; simpl; [constructor|].
  case_decide; constructor; done.
Qed.

Lemma dict_ok_del k d : dict_ok d → dict_ok (dict_del k d).
Proof.
  unfold dict_ok, dict_keys. intros H. eapply sublist_NoDup; [exact H|].
  apply fmap_sublist, dict_del_sublist.
Qed.

Lemma dict_ok_alter k f d : dict_ok d → dict_ok (dict_alter k f d).
Proof. unfold dict_ok. by rewrite dict_keys_alter. Qed.

Lemma dict_get_del_eq k d : dict_ok d → dict_get k (dict_del k d) = None.
Proof.
  intros H. apply dict_get_None. revert H. unfold dict_ok, dict_keys.
  induction d as [|[k1 v1] d IH]; simpl; [set_solver|].
  intros [Hni Hnd]%NoDup_cons. case_decide; simpl; [by subst|].
  rewrite not_elem_of_cons. auto.
Qed.

Lemma dict_get_del_ne k k' d : k ≠ k' → dict_get k' (dict_del k d) = dict_get k' d.
Proof.
  intros. induction d as [|[k1 v1] d IH]; simpl; [done|].
  destruct (decide (k1 = k)) as [->|]; simpl.
  - by rewrite decide_False.
  - by rewrite IH.
Qed.

Lemma dict_Forall_set (P : string * V → Prop) k v d :
  Forall P d → P (k, v) → Forall P (dict_set k v d).
Proof.
  intros Hd Hk. induction Hd as [|[k1 v1] d H1 Hd IH]; simpl; [by constructor|].
  case_decide; simplify_eq; constructor; auto.
Qed.

Lemma dict_Forall_del (P : string * V → Prop) k d : Forall P d → Forall P (dict_del k d).
Proof.
  intros Hd. induction Hd as [|[k1 v1] d H1 Hd IH]; simpl; [done|].
  case_decide; [done|]. by constructor.
Qed.

Lemma dict_Forall_alter (P : string * V → Prop) k f d :
  Forall P d → (∀ v, dict_get k d = Some v → P (k, v) → P (k, f v)) →
  Forall P (dict_alter k f d).
Proof.
  intros Hd. induction Hd as [|[k1 v1] d H1 Hd IH]; simpl; [done|].
  case_decide; simplify_eq; intros Hf; constructor; auto.
Qed.

Lemma dict_to_map_lookup k d : dict_ok d → dict_to_map d !! k = dict_get k d.
Proof.
  unfold dict_to_map, dict_ok, dict_keys. induction d as [|[k1 v1] d IH]; simpl.
  - intros. apply lookup_empty.
  - intros [_ Hnd]%NoDup_cons. rewrite lookup_insert. case_decide; auto.
Qed.
End dict_lemmas.

#[export] Hint Resolve dict_ok_set dict_ok_del dict_ok_alter : dfs.
