(* ===== verification/Paths.v ===== *)
(** Virtual paths: [ControlTree._parts] and [ControlTree._canonical_path]
    (dfsha/control_node/tree.py) and the string operations they use
    ([str.split], [str.strip], [str.join]).  Strings are UTF-8 bytes: splitting
    on the ASCII slash and comparing for equality agree with Python's. *)

From S2P Require Import Prelude Exceptions.

Definition slash : ascii := "/"%char.

(** [s.split(c)] for a one-character separator: never the empty list. *)
Fixpoint split_on (c : ascii) (s : string) : list string :=
  match s with
  | EmptyString => [EmptyString]
  | String a s' =>
      if Ascii.eqb a c then EmptyString :: split_on c s'
      else match split_on c s' with
           | [] => [String a EmptyString]
           | w :: ws => String a w :: ws
           end
  end.

(** [s.strip(c)]. *)
Fixpoint lstrip (c : ascii) (s : string) : string :=
  match s with
  | EmptyString => EmptyString
  | String a s' => if Ascii.eqb a c then lstrip c s' else s
  end.

Fixpoint rstrip (c : ascii) (s : string) : string :=
  match s with
  | EmptyString => EmptyString
  | String a s' =>
      match rstrip c s' with
      | EmptyString => if Ascii.eqb a c then EmptyString else String a EmptyString
      | t => String a t
      end
  end.

Definition strip (c : ascii) (s : string) : string := rstrip c (lstrip c s).

Fixpoint has_char (c : ascii) (s : string) : bool :=
  match s with
  | EmptyString => false
  | String a s' => Ascii.eqb a c || has_char c s'
  end.

(** [sep.join(l)]. *)
Fixpoint join (sep : string) (l : list string) : string :=
  match l with
  | [] => ""
  | [x] => x
  | x :: l' => x +:+ sep +:+ join sep l'
  end.

Definition parts_of (virtual_path : string) : result exn (list string) :=
  if decide (".." ∈ split_on slash virtual_path) then Err InvalidPathError
  else Ok (filter (λ p, p ≠ "") (split_on slash (strip slash virtual_path))).

(** ["/" + "/".join(parts)]. *)
Definition path_of (parts : list string) : string := "/" +:+ join "/" parts.

Definition canonical_path (virtual_path : string) : result exn string :=
  parts ← parts_of virtual_path; mret (path_of parts).

(** What a path component produced by [parts_of] looks like. *)
Definition comp_ok (p : string) : Prop := p ≠ "" ∧ p ≠ ".." ∧ has_char slash p = false.

#[global] Instance comp_ok_dec p : Decision (comp_ok p).
Proof. unfold comp_ok. apply _. Defined.

(** * Lemmas *)

Lemma split_on_nonnil c s : split_on c s ≠ [].
Proof.
  destruct s as [|a s]; simpl; [done|]. destruct (Ascii.eqb a c); [done|].
  by destruct (split_on c s).
Qed.

Lemma split_on_nochar c s : has_char c s = false → split_on c s = [s].
Proof.
  induction s as [|a s IH]; simpl; [done|].
  intros [-> Hs]%orb_false_iff. by rewrite IH.
Qed.

Lemma split_on_app c s1 s2 :
  split_on c (s1 +:+ String c s2) = split_on c s1 ++ split_on c s2.
Proof.
  induction s1 as [|a s1 IH]; simpl.
  - by rewrite Ascii.eqb_refl.
  - destruct (Ascii.eqb a c); [by rewrite IH|]. rewrite IH.
    pose proof (split_on_nonnil c s1). by destruct (split_on c s1).
Qed.

Lemma split_on_no_sep c s : Forall (λ p, has_char c p = false) (split_on c s).
Proof.
  induction s as [|a s IH]; simpl; [by repeat constructor|].
  destruct (Ascii.eqb a c) eqn:Ha; [by constructor|].
  destruct (split_on c s) as [|w ws]; [repeat constructor; simpl; by rewrite Ha|].
  apply Forall_cons in IH as [Hw Hws]. constructor; [simpl; by rewrite Ha, Hw|done].
Qed.

Lemma filter_split_lstrip c s :
  filter (λ p, p ≠ "") (split_on c (lstrip c s)) = filter (λ p, p ≠ "") (split_on c s).
Proof.
  induction s as [|a s IH]; simpl; [done|].
  destruct (Ascii.eqb a c) eqn:Ha.
  - rewrite IH. rewrite filter_cons_False; naive_solver.
  - simpl. by rewrite Ha.
Qed.

Lemma rstrip_nil_split c s :
  rstrip c s = "" → filter (λ p, p ≠ "") (split_on c s) = [].
Proof.
  induction s as [|a s IH]; simpl; [done|].
  destruct (rstrip c s) eqn:Hr; [|done]. specialize (IH eq_refl).
  destruct (Ascii.eqb a c) eqn:Ha; [|done]. intros _.
  rewrite filter_cons_False; naive_solver.
Qed.

Lemma rstrip_nil_all c s : rstrip c s = "" → ∀ w ws, split_on c s = w :: ws → w = "".
Proof.
  destruct s as [|a s]; simpl; [naive_solver|].
  destruct (rstrip c s); [|done]. destruct (Ascii.eqb a c); [naive_solver|done].
Qed.

(** Stripping trailing separators only drops empty components; the first
    component is kept because the rest of the proof extends it. *)
Lemma split_rstrip c s :
  ∃ w ws ws', split_on c s = w :: ws ∧ split_on c (rstrip c s) = w :: ws' ∧
    filter (λ p, p ≠ "") ws' = filter (λ p, p ≠ "") ws.
Proof.
  induction s as [|a s IH]; simpl; [naive_solver|].
  destruct IH as (w & ws & ws' & H1 & H2 & H3).
  destruct (rstrip c s) as [|b t] eqn:Hr.
  - pose proof (rstrip_nil_all _ _ Hr _ _ H1) as ->.
    pose proof (rstrip_nil_split _ _ Hr) as Hf. rewrite H1 in Hf |- *.
    rewrite filter_cons_False in Hf by naive_solver.
    destruct (Ascii.eqb a c) eqn:Ha; simpl; [|rewrite Ha].
    + eexists _, _, _. split_and!; [done|done|].
      rewrite filter_cons_False by naive_solver. done.
    + eexists _, _, _. split_and!; [done|done|done].
  - remember (String b t) as u eqn:Hu. simpl. rewrite H1, H2.
    destruct (Ascii.eqb a c); [|naive_solver].
    eexists _, _, _. split_and!; [done|done|].
    rewrite !filter_cons. case_decide; congruence.
Qed.

Lemma filter_split_strip c s :
  filter (λ p, p ≠ "") (split_on c (strip c s)) = filter (λ p, p ≠ "") (split_on c s).
Proof.
  unfold strip. rewrite <-(filter_split_lstrip c s).
  destruct (split_rstrip c (lstrip c s)) as (w & ws & ws' & -> & -> & Hf).
  rewrite !filter_cons. case_decide; by rewrite Hf.
Qed.

Lemma parts_of_spec vp ps :
  parts_of vp = Ok ps ↔
    ".." ∉ split_on slash vp ∧ ps = filter (λ p, p ≠ "") (split_on slash vp).
Proof.
  unfold parts_of. rewrite filter_split_strip. case_decide; naive_solver.
Qed.

Lemma parts_of_ok vp ps : parts_of vp = Ok ps → Forall comp_ok ps.
Proof.
  intros [Hdd ->]%parts_of_spec. apply Forall_forall. intros p Hp.
  apply list_elem_of_filter in Hp as [Hne Hp]. split_and!; [done| |].
  - intros ->. done.
  - pose proof (split_on_no_sep slash vp) as Hs. by eapply Forall_forall in Hs.
Qed.

Lemma split_join ps : ps ≠ [] → Forall comp_ok ps → split_on slash (join "/" ps) = ps.
Proof.
  intros Hne Hps. induction Hps as [|p ps (H1 & H2 & H3) Hps IH]; [done|].
  destruct ps as [|q ps].
  - simpl. by apply split_on_nochar.
  - change (join "/" (p :: q :: ps)) with (p +:+ String slash (join "/" (q :: ps))).
    rewrite split_on_app, split_on_nochar by done. rewrite IH by done. done.
Qed.

(** [parts_of] inverts [path_of] on well-formed components. *)
Lemma parts_of_path_of ps : Forall comp_ok ps → parts_of (path_of ps) = Ok ps.
Proof.
  intros Hps. apply parts_of_spec. unfold path_of.
  change ("/" +:+ join "/" ps) with ("" +:+ String slash (join "/" ps)).
  rewrite split_on_app. destruct (decide (ps = [])) as [->|Hne]; [split; [set_solver|done]|].
  rewrite split_join by done. simpl. split.
  - rewrite not_elem_of_cons. split; [done|]. intros Hin.
    eapply Forall_forall in Hin; [|exact Hps]. by destruct Hin as (_ & ? & _).
  - rewrite filter_cons_False by naive_solver. symmetry.
    clear Hne. induction Hps as [|p ps (H1 & _) Hps IH]; [done|].
    rewrite filter_cons_True by done. by f_equal.
Qed.

Lemma path_of_inj ps1 ps2 :
  Forall comp_ok ps1 → Forall comp_ok ps2 → path_of ps1 = path_of ps2 → ps1 = ps2.
Proof.
  intros H1 H2 Heq. apply parts_of_path_of in H1, H2. rewrite Heq in H1. congruence.
Qed.

Lemma canonical_path_inv vp c :
  canonical_path vp = Ok c → ∃ ps, parts_of vp = Ok ps ∧ Forall comp_ok ps ∧ c = path_of ps.
Proof.
  unfold canonical_path, mbind, result_bind.
  destruct (parts_of vp) as [ps|] eqn:Hp; [|done].
  intros [= <-]. eauto using parts_of_ok.
Qed.

Lemma canonical_path_parts vp c ps :
  canonical_path vp = Ok c → parts_of c = Ok ps → parts_of vp = Ok ps.
Proof.
  intros (qs & Hq & Hok & ->)%canonical_path_inv. rewrite parts_of_path_of by done. congruence.
Qed.

Lemma Forall_init (P : string → Prop) ps : Forall P ps → Forall P (init_of ps).
Proof. unfold init_of. apply Forall_take. Qed.

Lemma last_str_ok (P : string → Prop) ps : ps ≠ [] → Forall P ps → P (last_str ps).
Proof.
  destruct ps as [|x ps _] using rev_ind; [done|].
  intros _ [_ H]%Forall_app. rewrite last_str_snoc. inversion H; subst; done.
Qed.

#[export] Hint Resolve parts_of_ok Forall_init : dfs.
