(* ===== verification/TreeData.v ===== *)
(** The data of the control node's tree (dfsha/control_node/tree.py): block
    records, file and directory nodes, locks, write reservations and users;
    the pure functions on them (permissions, names, modes, leases, the plan of
    a copy-on-write); and the attributes of the objects a snapshot pickles, which may lack
    those added to the classes since.

    A time is an integer number of clock ticks.  The source uses floats: the
    model keeps their order and their sums, not their rounding. *)

From S2P Require Import Prelude Exceptions Dict.

Open Scope Z_scope.

Definition DEFAULT_OWNER : string := "admin".
(** 0o755, 0o644, 0o777. *)
Definition DIR_MODE : Z := 493.
Definition FILE_MODE : Z := 420.
Definition ROOT_MODE : Z := 511.
Definition R : Z := 4.
Definition W : Z := 2.

(** (user, groups, is_admin); [None] in a [option Caller] is no identity. *)
Definition Caller : Type := string * list string * bool.

(** Python [bytes]. *)
Definition bytes : Type := string.

Record BlockRecord := mkBlock {
  block_id : string;
  datanode_addresses : list string;
  checksum : string;
  size_bytes : Z;
  confirmed : bool
}.

(** [BlockRecord(bid, addresses)] with the defaults of the dataclass. *)
Definition new_block (bid : string) (addresses : list string) : BlockRecord :=
  mkBlock bid addresses "" 0 false.

Inductive file_state := Pending | Committed.

#[global] Instance file_state_eq_dec : EqDecision file_state.
Proof. solve_decision. Defined.
#[global] Instance BlockRecord_eq_dec : EqDecision BlockRecord.
Proof. solve_decision. Defined.

Record FileNode := mkFile {
  f_state : file_state;
  blocks : list BlockRecord;
  f_lease_expires_at : Z;
  version : Z;
  f_block_size : Z;
  f_owner : string;
  f_group : string;
  f_mode : Z
}.

Record DirNode_ (N : Type) := mkDir {
  children : list (string * N);
  d_owner : string;
  d_group : string;
  d_mode : Z
}.
Arguments mkDir {N}.
Arguments children {N}.
Arguments d_owner {N}.
Arguments d_group {N}.
Arguments d_mode {N}.

Inductive node : Type :=
| FileN (f : FileNode)
| DirN (d : DirNode_ node).

Notation DirNode := (DirNode_ node).

Record WriteSlotRecord := mkSlot {
  slot_index : Z;
  new_block_id : string;
  new_addresses : list string;
  new_size : Z
}.

Record WriteReservation := mkReservation {
  write_id : string;
  w_path : string;
  base_version : Z;
  w_lock_id : string;
  w_block_size : Z;
  slots : list WriteSlotRecord;
  w_lease_expires_at : Z
}.

Record LockState := mkLock {
  l_mode : string;
  holders : gmap string (string * Z)
}.

Record UserRecord := mkUser {
  password_hash : bytes;
  salt : bytes;
  u_groups : list string;
  u_is_admin : bool
}.

Record DirEntryData := mkEntry {
  e_name : string;
  e_is_dir : bool;
  e_size_bytes : Z;
  e_owner : string;
  e_group : string;
  e_mode : Z
}.

(** [sum(sizes)], [offset // block_size], [range(first, last + 1)]: floor
    division and possibly empty ranges, as in Python.  Division by zero is the
    only exception outside the domain. *)
Definition plan_write_slots (sizes : list Z) (block_size offset length : Z)
    : result exn (list (Z * Z)) :=
  let size := sumZ sizes in
  if length <=? 0 then Err InvalidPathError
  else if (offset <? 0) || (size <? offset) then Err InvalidPathError
  else
    let new_size := Z.max size (offset + length) in
    if block_size =? 0 then Err PyError
    else
      let first := offset / block_size in
      let last := (offset + length - 1) / block_size in
      Ok ((λ index, (index, Z.min block_size (new_size - index * block_size)))
            <$> zrange first (last + 1)).

Definition _block_size_of (f : FileNode) (default : Z) : Z :=
  if f_block_size f =? 0 then
    match blocks f with
    | b :: _ :: _ => size_bytes b
    | _ => default
    end
  else f_block_size f.

Definition _lease_expired (f : FileNode) (now : option Z) : bool :=
  match now with
  | None => false
  | Some t => (0 <? f_lease_expires_at f) && (f_lease_expires_at f <=? t)
  end.

(** [_USERNAME_RE]: [[a-z_][a-z0-9_-]{0,31}], matched in full. *)
Definition char_in (lo hi : N) (a : ascii) : bool :=
  ((lo <=? N_of_ascii a) && (N_of_ascii a <=? hi))%N.
Definition is_lower (a : ascii) : bool := char_in 97 122 a.
Definition is_digit (a : ascii) : bool := char_in 48 57 a.
Definition name_first (a : ascii) : bool := is_lower a || Ascii.eqb a "_".
Definition name_rest (a : ascii) : bool :=
  is_lower a || is_digit a || Ascii.eqb a "_" || Ascii.eqb a "-".

Fixpoint all_chars (p : ascii → bool) (s : string) : bool :=
  match s with
  | EmptyString => true
  | String a s' => p a && all_chars p s'
  end.

Definition _valid_name (value : string) : bool :=
  match value with
  | EmptyString => false
  | String a s => name_first a && all_chars name_rest s && (String.length s <=? 31)%nat
  end.

Definition node_owner (n : node) : string :=
  match n with FileN f => f_owner f | DirN d => d_owner d end.
Definition node_group (n : node) : string :=
  match n with FileN f => f_group f | DirN d => d_group d end.
Definition node_mode (n : node) : Z :=
  match n with FileN f => f_mode f | DirN d => d_mode d end.

Definition _allows (n : node) (caller : option Caller) (want : Z) : bool :=
  match caller with
  | None => true
  | Some (username, groups, is_admin) =>
      if is_admin : bool then true
      else
        let shift :=
          if decide (username = node_owner n) then 6
          else if decide (node_group n ∈ groups) then 3 else 0 in
        Z.land (Z.shiftr (node_mode n) shift) want =? want
  end.

Definition _require (n : node) (caller : option Caller) (want : Z) : result exn unit :=
  require_r (_allows n caller want) AccessDeniedError.

Definition _owner_or_admin (n : node) (caller : option Caller) : bool :=
  match caller with
  | None => true
  | Some (username, _, is_admin) => is_admin || bool_decide (username = node_owner n)
  end.

Definition _ownership (caller : option Caller) : string * string :=
  match caller with
  | None => (DEFAULT_OWNER, DEFAULT_OWNER)
  | Some (username, groups, _) =>
      (username, match groups with g :: _ => g | [] => username end)
  end.

Definition _valid_mode (mode : Z) : bool := (0 <=? mode) && (mode <=? 511).

(** The state of a [ControlTree]; its [threading.Lock] makes each method atomic. *)
Record TreeState := mkTree {
  t_root : DirNode;
  t_locks : gmap string LockState;
  t_writes : gmap string WriteReservation;
  t_users : gmap string UserRecord
}.

(** [ControlTree.__init__]. *)
Definition tree_init : TreeState :=
  mkTree (mkDir [] DEFAULT_OWNER DEFAULT_OWNER ROOT_MODE) ∅ ∅ ∅.

(** * Attributes and pickling

    An object's own attributes are its [__dict__]; one that is not there is read from
    the class when the dataclass gives it a plain default, and raises AttributeError
    otherwise.  The objects a snapshot stores are those of the version that wrote it:
    a [FileNode] or [DirNode] may lack the attributes added since. *)

Record FileDict := mkFileDict {
  fd_state : file_state;
  fd_blocks : list BlockRecord;
  fd_lease_expires_at : option Z;
  fd_version : option Z;
  fd_block_size : option Z;
  fd_owner : option string;
  fd_group : option string;
  fd_mode : option Z
}.

Record DirDict_ (N : Type) := mkDirDict {
  dd_children : list (string * N);
  dd_owner : option string;
  dd_group : option string;
  dd_mode : option Z
}.
Arguments mkDirDict {N}.
Arguments dd_children {N}.
Arguments dd_owner {N}.
Arguments dd_group {N}.
Arguments dd_mode {N}.

Inductive node_dict : Type :=
| FileD (f : FileDict)
| DirD (d : DirDict_ node_dict).

Notation DirDict := (DirDict_ node_dict).

(** [FileNode(...)] and [DirNode(...)]: the dataclass sets every attribute. *)
Definition file_dict (f : FileNode) : FileDict :=
  mkFileDict (f_state f) (blocks f) (Some (f_lease_expires_at f)) (Some (version f)) (Some (f_block_size f))
    (Some (f_owner f)) (Some (f_group f)) (Some (f_mode f)).
Fixpoint dict_of (n : node) : node_dict :=
  match n with
  | FileN f => FileD (file_dict f)
  | DirN (mkDir ch o g m) => DirD (mkDirDict ((λ kv, (kv.1, dict_of kv.2)) <$> ch) (Some o) (Some g) (Some m))
  end.
Definition dir_dict (d : DirNode) : DirDict :=
  mkDirDict ((λ kv, (kv.1, dict_of kv.2)) <$> children d) (Some (d_owner d)) (Some (d_group d)) (Some (d_mode d)).

(** What reading the attributes gives, with the defaults of the classes. *)
Definition file_of (f : FileDict) : FileNode :=
  mkFile (fd_state f) (fd_blocks f) (default 0 (fd_lease_expires_at f)) (default 0 (fd_version f))
    (default 0 (fd_block_size f)) (default DEFAULT_OWNER (fd_owner f)) (default DEFAULT_OWNER (fd_group f))
    (default FILE_MODE (fd_mode f)).
Fixpoint node_of (n : node_dict) : node :=
  match n with
  | FileD f => FileN (file_of f)
  | DirD (mkDirDict ch o g m) =>
      DirN (mkDir ((λ kv, (kv.1, node_of kv.2)) <$> ch) (default DEFAULT_OWNER o) (default DEFAULT_OWNER g) (default DIR_MODE m))
  end.
Definition dir_of (d : DirDict) : DirNode :=
  mkDir ((λ kv, (kv.1, node_of kv.2)) <$> dd_children d) (default DEFAULT_OWNER (dd_owner d))
    (default DEFAULT_OWNER (dd_group d)) (default DIR_MODE (dd_mode d)).

(** The [__dict__] of a [ControlTree]; [a_lock]: it has its [threading.Lock]. *)
Record TreeDict := mkTreeDict {
  a_root : DirDict;
  a_lock : bool;
  a_locks : option (gmap string LockState);
  a_writes : option (gmap string WriteReservation);
  a_users : option (gmap string UserRecord)
}.

(** The object whose state is [t]. *)
Definition instance_of (t : TreeState) : TreeDict :=
  mkTreeDict (dir_dict (t_root t)) true (Some (t_locks t)) (Some (t_writes t)) (Some (t_users t)).
(** The state the methods of an object work on; each takes [self._lock] first. *)
Definition contents (o : TreeDict) : option TreeState :=
  if a_lock o then
    locks ← a_locks o; writes ← a_writes o; users ← a_users o;
    Some (mkTree (dir_of (a_root o)) locks writes users)
  else None.

(** [self.__dict__.copy()] without ["_lock"]; [del] raises KeyError if it has none. *)
Definition __getstate__ (o : TreeDict) : result exn TreeDict :=
  if a_lock o then Ok (mkTreeDict (a_root o) false (a_locks o) (a_writes o) (a_users o)) else Err PyError.

(** On an object [pickle] has just made, whose [__dict__] is empty. *)
Definition __setstate__ (state : TreeDict) : TreeDict :=
  let root := a_root state in
  mkTreeDict
    (match dd_mode root with
     | Some _ => root
     | None => mkDirDict (dd_children root) (dd_owner root) (dd_group root) (Some ROOT_MODE)
     end)
    true
    (Some (default ∅ (a_locks state)))
    (Some (default ∅ (a_writes state)))
    (Some (default ∅ (a_users state))).

(** [pickle.dumps] and [pickle.loads] of a tree: a [threading.Lock] cannot be pickled,
    everything else is copied as it is. *)
Definition dumps (o : TreeDict) : result exn TreeDict :=
  state ← __getstate__ o; if a_lock state then Err PyError else Ok state.
Definition loads (state : TreeDict) : TreeDict := __setstate__ state.

(** * Lemmas *)

(** Induction over a tree with the hypothesis for every child. *)
Lemma node_ind_children (P : node → Prop) :
  (∀ f, P (FileN f)) →
  (∀ d, Forall (λ kv, P kv.2) (children d) → P (DirN d)) →
  ∀ n, P n.
Proof.
  intros Hf Hd. fix IH 1. intros [f|[ch o g m]]; [apply Hf|].
  apply Hd. simpl. induction ch as [|[k c] ch IHch]; constructor; [apply IH|apply IHch].
Qed.

Lemma node_of_dict n : node_of (dict_of n) = n.
Proof.
  induction n as [f|[ch o g m] IH] using node_ind_children; [by destruct f|]. cbn [dict_of node_of default from_option id]. do 2 f_equal.
  rewrite <-list_fmap_compose. cbn [children] in IH. rewrite <-(list_fmap_id ch) at 2. apply Forall_fmap_ext_1.
  eapply Forall_impl; [exact IH|]. intros [k c]. cbn. by intros ->.
Qed.
Lemma dir_of_dict d : dir_of (dir_dict d) = d.
Proof.
  destruct d as [ch o g m]. unfold dir_of, dir_dict. cbn. f_equal. rewrite <-list_fmap_compose. rewrite <-(list_fmap_id ch) at 2.
  apply list_fmap_ext. intros _ [k c] _. cbn. by rewrite node_of_dict.
Qed.

Lemma plan_write_slots_ok_inv sizes bs off len plan :
  plan_write_slots sizes bs off len = Ok plan →
  0 < len ∧ 0 ≤ off ≤ sumZ sizes ∧ bs ≠ 0 ∧
  plan = (λ i, (i, Z.min bs (Z.max (sumZ sizes) (off + len) - i * bs)))
           <$> zrange (off / bs) ((off + len - 1) / bs + 1).
Proof.
  unfold plan_write_slots. destruct (Z.leb_spec len 0); [done|].
  destruct (Z.ltb_spec off 0); [done|]. destruct (Z.ltb_spec (sumZ sizes) off); [done|].
  simpl. destruct (Z.eqb_spec bs 0); [done|]. intros [= <-]. split_and!; auto; lia.
Qed.

Lemma valid_name_no_colon s : _valid_name s = true → all_chars (λ a, negb (Ascii.eqb a ":")) s = true.
Proof.
  destruct s as [|a s]; simpl; [done|].
  intros [[Ha Hs]%andb_true_iff _]%andb_true_iff. apply andb_true_iff. split.
  - destruct (Ascii.eqb_spec a ":"); [by subst|done].
  - induction s as [|b s IH]; simpl in *; [done|].
    apply andb_true_iff in Hs as [Hb Hs]. apply andb_true_iff. split; [|auto].
    destruct (Ascii.eqb_spec b ":"); [by subst|done].
Qed.
