(* ===== verification/Tree.v ===== *)
(** [ControlTree] (dfsha/control_node/tree.py): one definition per method, in
    the order of the source.  A reference to a node is the path that leads to
    it, so that a mutation through a reference is an update at that path.  An
    optional [now] or [caller] is the optional argument of the source: [None]
    in journals older than the feature. *)

From S2P Require Import Prelude Exceptions Dict Paths TreeData.

Open Scope Z_scope.

Notation TreeM := (M TreeState exn).

(** * Nodes by path *)

Fixpoint node_get (parts : list string) (n : node) : option node :=
  match parts with
  | [] => Some n
  | p :: ps =>
      match n with
      | FileN _ => None
      | DirN d =>
          match dict_get p (children d) with
          | Some c => node_get ps c
          | None => None
          end
      end
  end.

Fixpoint node_alter (parts : list string) (f : node → node) (n : node) : node :=
  match parts with
  | [] => f n
  | p :: ps =>
      match n with
      | FileN _ => n
      | DirN d =>
          DirN (mkDir (dict_alter p (node_alter ps f) (children d))
                      (d_owner d) (d_group d) (d_mode d))
      end
  end.

Definition with_children (ch : list (string * node)) (d : DirNode) : DirNode :=
  mkDir ch (d_owner d) (d_group d) (d_mode d).

Definition with_root (r : DirNode) (t : TreeState) : TreeState :=
  mkTree r (t_locks t) (t_writes t) (t_users t).
Definition with_locks (l : gmap string LockState) (t : TreeState) : TreeState :=
  mkTree (t_root t) l (t_writes t) (t_users t).
Definition with_writes (w : gmap string WriteReservation) (t : TreeState) : TreeState :=
  mkTree (t_root t) (t_locks t) w (t_users t).
Definition with_users (u : gmap string UserRecord) (t : TreeState) : TreeState :=
  mkTree (t_root t) (t_locks t) (t_writes t) u.

(** Mutation of the object at [parts]; the root stays a directory. *)
Definition alter_tree (parts : list string) (f : node → node) (t : TreeState) : TreeState :=
  match node_alter parts f (DirN (t_root t)) with
  | DirN r => with_root r t
  | FileN _ => t
  end.

Definition on_dir (f : DirNode → DirNode) (n : node) : node :=
  match n with
  | DirN d => DirN (f d)
  | FileN _ => n
  end.
Definition on_file (f : FileNode → FileNode) (n : node) : node :=
  match n with
  | FileN g => FileN (f g)
  | DirN _ => n
  end.

(** [parent.children[name] = child] and [del parent.children[name]]. *)
Definition set_child (parent : list string) (name : string) (c : node) : TreeM unit :=
  modify (alter_tree parent (on_dir (λ d, with_children (dict_set name c (children d)) d))).
Definition del_child (parent : list string) (name : string) : TreeM unit :=
  modify (alter_tree parent (on_dir (λ d, with_children (dict_del name (children d)) d))).
Definition set_file (parts : list string) (f : FileNode) : TreeM unit :=
  modify (alter_tree parts (on_file (λ _, f))).

Definition with_blocks (bs : list BlockRecord) (f : FileNode) : FileNode :=
  mkFile (f_state f) bs (f_lease_expires_at f) (version f) (f_block_size f)
         (f_owner f) (f_group f) (f_mode f).
Definition with_lease (l : Z) (f : FileNode) : FileNode :=
  mkFile (f_state f) (blocks f) l (version f) (f_block_size f)
         (f_owner f) (f_group f) (f_mode f).
Definition with_state (st : file_state) (f : FileNode) : FileNode :=
  mkFile st (blocks f) (f_lease_expires_at f) (version f) (f_block_size f)
         (f_owner f) (f_group f) (f_mode f).
Definition with_version (v bs : Z) (f : FileNode) : FileNode :=
  mkFile (f_state f) (blocks f) (f_lease_expires_at f) v bs
         (f_owner f) (f_group f) (f_mode f).

(** [node.mode = mode], [node.owner = owner], [node.group = group]. *)
Definition set_mode (mode : Z) (n : node) : node :=
  match n with
  | FileN f => FileN (mkFile (f_state f) (blocks f) (f_lease_expires_at f) (version f)
                             (f_block_size f) (f_owner f) (f_group f) mode)
  | DirN d => DirN (mkDir (children d) (d_owner d) (d_group d) mode)
  end.
Definition set_owner (owner : string) (n : node) : node :=
  match n with
  | FileN f => FileN (mkFile (f_state f) (blocks f) (f_lease_expires_at f) (version f)
                             (f_block_size f) owner (f_group f) (f_mode f))
  | DirN d => DirN (mkDir (children d) owner (d_group d) (d_mode d))
  end.
Definition set_group (group : string) (n : node) : node :=
  match n with
  | FileN f => FileN (mkFile (f_state f) (blocks f) (f_lease_expires_at f) (version f)
                             (f_block_size f) (f_owner f) group (f_mode f))
  | DirN d => DirN (mkDir (children d) (d_owner d) group (d_mode d))
  end.

(** * Walking *)

Definition _get_node (parts : list string) (t : TreeState) : option node :=
  node_get parts (DirN (t_root t)).

(** [_walk_to_parent(parts)] without [create]. *)
Fixpoint walk (parts : list string) (current : DirNode) : result exn DirNode :=
  match parts with
  | [] => Ok current
  | part :: rest =>
      match dict_get part (children current) with
      | None => Err PathNotFoundError
      | Some (FileN _) => Err NotADirectoryError
      | Some (DirN child) => walk rest child
      end
  end.

Definition _walk_to_parent (parts : list string) : TreeM DirNode :=
  asks (λ t, walk parts (t_root t)).

Definition dir_at (parts : list string) : TreeM DirNode :=
  asks (λ t, match _get_node parts t with
             | Some (DirN d) => Ok d
             | _ => Err PyError
             end).

Definition require (n : node) (caller : option Caller) (want : Z) : TreeM unit :=
  lift (_require n caller want).

Definition new_dir (caller : option Caller) : node :=
  DirN (mkDir [] (_ownership caller).1 (_ownership caller).2 DIR_MODE).

(** The loop of [_walk_to_parent(parts, create=True, caller)]: [prefix] is the
    path of [current], [created] the flag of the source.  Directories created
    before a later error stay in the tree. *)
Fixpoint walk_create (caller : option Caller) (prefix rest : list string)
    (created : bool) : TreeM unit :=
  current ← dir_at prefix;
  match rest with
  | [] => if created then mret tt else require (DirN current) caller W
  | part :: rest' =>
      match dict_get part (children current) with
      | None =>
          _ ← (if created then mret tt else require (DirN current) caller W);
          _ ← set_child prefix part (new_dir caller);
          walk_create caller (prefix ++ [part]) rest' true
      | Some (FileN _) => raise NotADirectoryError
      | Some (DirN _) => walk_create caller (prefix ++ [part]) rest' created
      end
  end.

(** * Directories *)

Definition file_size (f : FileNode) : Z := sumZ (size_bytes <$> blocks f).

Definition dir_entry (kv : string * node) : option DirEntryData :=
  match kv.2 with
  | DirN d => Some (mkEntry kv.1 true 0 (d_owner d) (d_group d) (d_mode d))
  | FileN f =>
      if decide (f_state f = Committed)
      then Some (mkEntry kv.1 false (file_size f) (f_owner f) (f_group f) (f_mode f))
      else None
  end.

Definition name_le (a b : string * node) : Prop := String.le a.1 b.1.

Definition list_dir (virtual_path : string) (caller : option Caller) : TreeM (list DirEntryData) :=
  parts ← lift (parts_of virtual_path);
  n ← gets (_get_node parts);
  match n with
  | None => raise PathNotFoundError
  | Some (FileN _) => raise NotADirectoryError
  | Some (DirN d) =>
      _ ← require (DirN d) caller R;
      mret (omap dir_entry (merge_sort name_le (children d)))
  end.

Definition make_dir (virtual_path : string) (caller : option Caller) : TreeM unit :=
  parts ← lift (parts_of virtual_path);
  _ ← ensure (bool_decide (parts ≠ [])) PathExistsError;
  parent ← _walk_to_parent (init_of parts);
  _ ← require (DirN parent) caller W;
  _ ← ensure (negb (dict_has (last_str parts) (children parent))) PathExistsError;
  set_child (init_of parts) (last_str parts) (new_dir caller).

Definition remove_dir (virtual_path : string) (caller : option Caller) : TreeM unit :=
  parts ← lift (parts_of virtual_path);
  _ ← ensure (bool_decide (parts ≠ [])) InvalidPathError;
  parent ← _walk_to_parent (init_of parts);
  _ ← require (DirN parent) caller W;
  match dict_get (last_str parts) (children parent) with
  | None => raise PathNotFoundError
  | Some (FileN _) => raise NotADirectoryError
  | Some (DirN d) =>
      _ ← ensure (bool_decide (children d = [])) NotEmptyError;
      del_child (init_of parts) (last_str parts)
  end.

(** * Locks *)

Definition live_holders (now : Z) (h : gmap string (string * Z)) : gmap string (string * Z) :=
  filter (λ kv : string * (string * Z), now < kv.2.2) h.

Definition cleanup_locks (canonical : string) (now : option Z)
    (locks : gmap string LockState) : gmap string LockState :=
  match now with
  | None => locks
  | Some t =>
      match locks !! canonical with
      | None => locks
      | Some st =>
          let h := live_holders t (holders st) in
          if decide (h = ∅) then delete canonical locks
          else <[canonical := mkLock (l_mode st) h]> locks
      end
  end.

Definition _cleanup_expired_locks (canonical : string) (now : option Z) : TreeM unit :=
  modify (λ t, with_locks (cleanup_locks canonical now (t_locks t)) t).

Definition committed_file (virtual_path : string) (t : TreeState) : result exn FileNode :=
  parts ← parts_of virtual_path;
  match _get_node parts t with
  | Some (FileN f) => if decide (f_state f = Committed) then Ok f else Err PathNotFoundError
  | _ => Err PathNotFoundError
  end.

Definition _get_committed_file (virtual_path : string) : TreeM FileNode :=
  asks (committed_file virtual_path).

Definition remove_file (virtual_path : string) (now : option Z) (caller : option Caller)
    : TreeM (list BlockRecord) :=
  parts ← lift (parts_of virtual_path);
  _ ← ensure (bool_decide (parts ≠ [])) InvalidPathError;
  parent ← _walk_to_parent (init_of parts);
  _ ← require (DirN parent) caller W;
  match dict_get (last_str parts) (children parent) with
  | None => raise PathNotFoundError
  | Some (DirN _) => raise NotAFileError
  | Some (FileN f) =>
      _ ← ensure (bool_decide (f_state f = Committed)) PathNotFoundError;
      _ ← _cleanup_expired_locks (path_of parts) now;
      locks ← gets t_locks;
      _ ← ensure (bool_decide (locks !! path_of parts = None)) ConflictError;
      _ ← del_child (init_of parts) (last_str parts);
      mret (blocks f)
  end.

Definition put_holder (canonical : string) (mode lock_id owner : string) (expires : Z)
    (h : gmap string (string * Z)) : TreeM unit :=
  modify (λ t, with_locks (<[canonical := mkLock mode (<[lock_id := (owner, expires)]> h)]> (t_locks t)) t).

Definition acquire_lock (virtual_path lock_id owner mode : string) (now lease_s : Z)
    (caller : option Caller) : TreeM string :=
  canonical ← lift (canonical_path virtual_path);
  _ ← ensure (bool_decide (mode = "r" ∨ mode = "w")) InvalidPathError;
  _ ← ensure (0 <? lease_s) InvalidPathError;
  f ← _get_committed_file canonical;
  _ ← require (FileN f) caller (if decide (mode = "r") then R else W);
  _ ← _cleanup_expired_locks canonical (Some now);
  locks ← gets t_locks;
  match locks !! canonical with
  | Some st =>
      _ ← ensure (bool_decide (l_mode st = "r" ∧ mode = "r")) ConflictError;
      _ ← ensure (bool_decide (holders st !! lock_id = None)) ConflictError;
      _ ← put_holder canonical (l_mode st) lock_id owner (now + lease_s) (holders st);
      mret lock_id
  | None =>
      _ ← put_holder canonical mode lock_id owner (now + lease_s) ∅;
      mret lock_id
  end.

Definition renew_lock (virtual_path lock_id : string) (now lease_s : Z) : TreeM unit :=
  canonical ← lift (canonical_path virtual_path);
  _ ← ensure (0 <? lease_s) InvalidPathError;
  _ ← _get_committed_file canonical;
  _ ← _cleanup_expired_locks canonical (Some now);
  locks ← gets t_locks;
  match locks !! canonical with
  | None => raise ConflictError
  | Some st =>
      match holders st !! lock_id with
      | None => raise ConflictError
      | Some (owner, _) =>
          put_holder canonical (l_mode st) lock_id owner (now + lease_s) (holders st)
      end
  end.

Definition release_lock (virtual_path lock_id : string) (now : option Z) : TreeM unit :=
  canonical ← lift (canonical_path virtual_path);
  _ ← _get_committed_file canonical;
  _ ← _cleanup_expired_locks canonical now;
  locks ← gets t_locks;
  match locks !! canonical with
  | None => if decide (now = None) then raise ConflictError else mret tt
  | Some st =>
      _ ← ensure (bool_decide (holders st !! lock_id ≠ None)) ConflictError;
      let h := delete lock_id (holders st) in
      modify (λ t, with_locks
        (if decide (h = ∅) then delete canonical (t_locks t)
         else <[canonical := mkLock (l_mode st) h]> (t_locks t)) t)
  end.

(** * Permissions *)

Definition _get_visible_node (virtual_path : string) : TreeM node :=
  parts ← lift (parts_of virtual_path);
  n ← gets (_get_node parts);
  match n with
  | None => raise PathNotFoundError
  | Some (FileN f) =>
      if decide (f_state f = Committed) then mret (FileN f) else raise PathNotFoundError
  | Some (DirN d) => mret (DirN d)
  end.

Definition chmod (virtual_path : string) (mode : Z) (caller : option Caller) : TreeM unit :=
  canonical ← lift (canonical_path virtual_path);
  n ← _get_visible_node canonical;
  _ ← ensure (_owner_or_admin n caller) AccessDeniedError;
  _ ← ensure (_valid_mode mode) InvalidPathError;
  parts ← lift (parts_of canonical);
  modify (alter_tree parts (set_mode mode)).

Definition chown_allowed (n : node) (owner group : string) (caller : option Caller) : bool :=
  match caller with
  | None => true
  | Some (username, groups, is_admin) =>
      (bool_decide (owner = "") || is_admin) &&
      (bool_decide (group = "") || is_admin ||
       (bool_decide (username = node_owner n) && bool_decide (group ∈ groups)))
  end.

Definition chown (virtual_path owner group : string) (caller : option Caller) : TreeM unit :=
  canonical ← lift (canonical_path virtual_path);
  n ← _get_visible_node canonical;
  _ ← ensure (negb (bool_decide (owner = "") && bool_decide (group = ""))) InvalidPathError;
  _ ← ensure (chown_allowed n owner group caller) AccessDeniedError;
  users ← gets t_users;
  _ ← ensure (bool_decide (owner = "" ∨ users !! owner ≠ None)) PathNotFoundError;
  _ ← ensure (bool_decide (group = "") || _valid_name group) InvalidPathError;
  parts ← lift (parts_of canonical);
  _ ← modify (alter_tree parts (if decide (owner = "") then id else set_owner owner));
  modify (alter_tree parts (if decide (group = "") then id else set_group group)).

(** * Users *)

Definition create_user (username : string) (hash slt : bytes) (groups : list string)
    (is_admin : bool) : TreeM unit :=
  _ ← ensure (_valid_name username) InvalidPathError;
  _ ← ensure (forallb _valid_name groups) InvalidPathError;
  users ← gets t_users;
  _ ← ensure (bool_decide (users !! username = None)) PathExistsError;
  modify (λ t, with_users (<[username := mkUser hash slt groups is_admin]> (t_users t)) t).

Definition change_password (username : string) (hash slt : bytes) : TreeM unit :=
  users ← gets t_users;
  match users !! username with
  | None => raise PathNotFoundError
  | Some u =>
      modify (λ t, with_users
        (<[username := mkUser hash slt (u_groups u) (u_is_admin u)]> (t_users t)) t)
  end.

Definition get_user (username : string) (t : TreeState) : option UserRecord :=
  t_users t !! username.
Definition has_users (t : TreeState) : bool := bool_decide (t_users t ≠ ∅).

(** * Uploads *)

(** [now + lease_s if now is not None and lease_s else 0.0]. *)
Definition lease_until (now lease_s : option Z) : Z :=
  match now, lease_s with
  | Some t, Some l => if l =? 0 then 0 else t + l
  | _, _ => 0
  end.

Definition begin_upload (virtual_path : string) (placements : list (string * list string))
    (now lease_s block_size : option Z) (caller : option Caller)
    : TreeM (list (string * list string) * list BlockRecord) :=
  parts ← lift (parts_of virtual_path);
  _ ← ensure (bool_decide (parts ≠ [])) InvalidPathError;
  _ ← walk_create caller [] (init_of parts) false;
  parent ← dir_at (init_of parts);
  stale_blocks ←
    match dict_get (last_str parts) (children parent) with
    | None => mret []
    | Some (FileN f) =>
        if decide (f_state f = Pending ∧ _lease_expired f now = true)
        then mret (blocks f) else raise PathExistsError
    | Some (DirN _) => raise PathExistsError
    end;
  let bs := (λ p : string * list string, new_block p.1 p.2) <$> placements in
  _ ← set_child (init_of parts) (last_str parts)
        (FileN (mkFile Pending bs (lease_until now lease_s) 0 (default 0 block_size)
                  (_ownership caller).1 (_ownership caller).2 FILE_MODE));
  mret ((λ b, (block_id b, datanode_addresses b)) <$> bs, stale_blocks).

Definition _get_pending_file (virtual_path : string) : TreeM FileNode :=
  parts ← lift (parts_of virtual_path);
  n ← gets (_get_node parts);
  match n with
  | Some (FileN f) => if decide (f_state f = Pending) then mret f else raise PathNotFoundError
  | _ => raise PathNotFoundError
  end.

Definition _require_upload_owner (f : FileNode) (caller : option Caller) : TreeM unit :=
  ensure (_owner_or_admin (FileN f) caller) AccessDeniedError.

Definition confirm_one (chk : string) (size : Z) (b : BlockRecord) : BlockRecord :=
  mkBlock (block_id b) (datanode_addresses b) chk size true.

Definition confirm_block (virtual_path bid chk : string) (size : Z)
    (now lease_s : option Z) (caller : option Caller) : TreeM unit :=
  f ← _get_pending_file virtual_path;
  _ ← _require_upload_owner f caller;
  parts ← lift (parts_of virtual_path);
  match update_first (λ b, bool_decide (block_id b = bid)) (confirm_one chk size) (blocks f) with
  | None => raise PathNotFoundError
  | Some bs =>
      let l := lease_until now lease_s in
      let renew := match now, lease_s with Some _, Some l => negb (l =? 0) | _, _ => false end in
      set_file parts (if renew : bool then with_lease l (with_blocks bs f) else with_blocks bs f)
  end.

Definition complete_upload (virtual_path : string) (caller : option Caller) : TreeM unit :=
  f ← _get_pending_file virtual_path;
  _ ← _require_upload_owner f caller;
  _ ← ensure (forallb confirmed (blocks f)) InvalidPathError;
  parts ← lift (parts_of virtual_path);
  set_file parts (with_state Committed f).

Definition abort_upload (virtual_path : string) (caller : option Caller) : TreeM unit :=
  parts ← lift (parts_of virtual_path);
  _ ← ensure (bool_decide (parts ≠ [])) InvalidPathError;
  parent ← _walk_to_parent (init_of parts);
  match dict_get (last_str parts) (children parent) with
  | Some (FileN f) =>
      _ ← ensure (bool_decide (f_state f = Pending)) PathNotFoundError;
      _ ← _require_upload_owner f caller;
      del_child (init_of parts) (last_str parts)
  | _ => raise PathNotFoundError
  end.

(** A fresh [BlockRecord] without the [confirmed] flag. *)
Definition copy_unconfirmed (b : BlockRecord) : BlockRecord :=
  mkBlock (block_id b) (datanode_addresses b) (checksum b) (size_bytes b) false.

(** Only [PathNotFoundError] and [InvalidPathError] are caught. *)
Definition pending_blocks (virtual_path : string) : TreeM (list BlockRecord) := λ t,
  match _get_pending_file virtual_path t with
  | (t', Ok f) => (t', Ok (copy_unconfirmed <$> blocks f))
  | (t', Err PathNotFoundError) | (t', Err InvalidPathError) => (t', Ok [])
  | (t', Err e) => (t', Err e)
  end.

(** * Copy-on-write writes *)

Definition write_layout (virtual_path : string) (default_block_size : Z)
    (caller : option Caller) : TreeM (Z * Z * list Z) :=
  f ← _get_committed_file virtual_path;
  _ ← require (FileN f) caller W;
  mret (version f, _block_size_of f default_block_size, size_bytes <$> blocks f).

Definition _require_write_lock (canonical lock_id : string) (now : Z) : TreeM unit :=
  _ ← _cleanup_expired_locks canonical (Some now);
  locks ← gets t_locks;
  match locks !! canonical with
  | Some st =>
      ensure (bool_decide (l_mode st = "w") && bool_decide (holders st !! lock_id ≠ None))
             ConflictError
  | None => raise ConflictError
  end.

Definition live_writes (now : Z) (ws : gmap string WriteReservation) : gmap string WriteReservation :=
  filter (λ kv : string * WriteReservation, now < w_lease_expires_at kv.2) ws.

Definition _cleanup_expired_writes (now : option Z) : TreeM unit :=
  match now with
  | None => mret tt
  | Some n => modify (λ t, with_writes (live_writes n (t_writes t)) t)
  end.

(** One row of the answer of [begin_write]: index, old block id, old size, old
    addresses, new block id, new addresses, new size. *)
Definition SlotRow : Type := Z * string * Z * list string * string * list string * Z.

(** [node.blocks[slot.index] if slot.index < len(node.blocks) else None]. *)
Definition old_block (bs : list BlockRecord) (i : Z) : result exn (option BlockRecord) :=
  if i <? zlen bs then Some <$> of_option PyError (py_get bs i) else Ok None.

Definition describe_slot (bs : list BlockRecord) (s : WriteSlotRecord) : result exn SlotRow :=
  old ← old_block bs (slot_index s);
  mret (slot_index s,
        default "" (block_id <$> old),
        default 0 (size_bytes <$> old),
        default [] (datanode_addresses <$> old),
        new_block_id s, new_addresses s, new_size s).

Definition Proposal : Type := Z * string * list string.

Definition make_slot (p : (Z * Z) * Proposal) : WriteSlotRecord :=
  match p with
  | ((index, size), (_, bid, addresses)) => mkSlot index bid addresses size
  end.

Definition begin_write (virtual_path wid lock_id : string) (expected offset len : Z)
    (proposals : list Proposal) (now lease_s default_block_size : Z) (caller : option Caller)
    : TreeM (string * Z * Z * list SlotRow) :=
  canonical ← lift (canonical_path virtual_path);
  f ← _get_committed_file canonical;
  _ ← require (FileN f) caller W;
  _ ← _require_write_lock canonical lock_id now;
  _ ← _cleanup_expired_writes (Some now);
  writes ← gets t_writes;
  _ ← ensure (bool_decide (writes !! wid = None)) ConflictError;
  _ ← ensure (version f =? expected) ConflictError;
  let bsz := _block_size_of f default_block_size in
  plan ← lift (plan_write_slots (size_bytes <$> blocks f) bsz offset len);
  _ ← ensure (bool_decide (plan.*1 = (λ p : Proposal, p.1.1) <$> proposals)) ConflictError;
  let sl := make_slot <$> zip plan proposals in
  _ ← modify (λ t, with_writes
        (<[wid := mkReservation wid canonical (version f) lock_id bsz sl (now + lease_s)]>
           (t_writes t)) t);
  rows ← lift (mapM (describe_slot (blocks f)) sl);
  mret (wid, version f, bsz, rows).

Definition Confirmed : Type := Z * string * string * Z.

(** The publishing loop of [commit_write]: the block list as the loop leaves it
    and the replaced blocks; an [IndexError] keeps what was already published. *)
Fixpoint publish (bs : list BlockRecord) (l : list (WriteSlotRecord * Confirmed))
    (replaced : list BlockRecord) : list BlockRecord * result exn (list BlockRecord) :=
  match l with
  | [] => (bs, Ok replaced)
  | (s, (_, _, chk, size)) :: l' =>
      let nb := mkBlock (new_block_id s) (new_addresses s) chk size true in
      if slot_index s <? zlen bs then
        match py_get bs (slot_index s), py_set bs (slot_index s) nb with
        | Some old, Some bs' => publish bs' l' (replaced ++ [old])
        | _, _ => (bs, Err PyError)
        end
      else publish (bs ++ [nb]) l' replaced
  end.

Definition slot_key (s : WriteSlotRecord) : Z * string * Z :=
  (slot_index s, new_block_id s, new_size s).
Definition confirmed_key (c : Confirmed) : Z * string * Z :=
  match c with (index, bid, _, size) => (index, bid, size) end.

Definition find_reservation (wid canonical : string) (e : exn) : TreeM WriteReservation :=
  writes ← gets t_writes;
  match writes !! wid with
  | Some r => if decide (w_path r = canonical) then mret r else raise e
  | None => raise e
  end.

Definition commit_write (virtual_path wid lock_id : string) (expected : Z)
    (conf : list Confirmed) (now : Z) (caller : option Caller)
    : TreeM (Z * list BlockRecord) :=
  canonical ← lift (canonical_path virtual_path);
  f ← _get_committed_file canonical;
  _ ← require (FileN f) caller W;
  _ ← _cleanup_expired_writes (Some now);
  r ← find_reservation wid canonical ConflictError;
  _ ← ensure (bool_decide (w_lock_id r = lock_id)) ConflictError;
  _ ← _require_write_lock canonical lock_id now;
  _ ← ensure ((expected =? base_version r) && (version f =? base_version r)) ConflictError;
  _ ← ensure (bool_decide (confirmed_key <$> conf = slot_key <$> slots r)) ConflictError;
  let out := publish (blocks f) (zip (slots r) conf) [] in
  parts ← lift (parts_of canonical);
  _ ← set_file parts (with_blocks out.1 f);
  replaced ← lift out.2;
  _ ← set_file parts (with_version (version f + 1) (w_block_size r) (with_blocks out.1 f));
  _ ← modify (λ t, with_writes (delete wid (t_writes t)) t);
  mret (version f + 1, replaced).

(** [BlockRecord(slot.new_block_id, list(slot.new_addresses), size_bytes=slot.new_size)]. *)
Definition slot_block (s : WriteSlotRecord) : BlockRecord :=
  mkBlock (new_block_id s) (new_addresses s) "" (new_size s) false.

Definition abort_write (virtual_path wid lock_id : string) (now : option Z)
    : TreeM (list BlockRecord) :=
  canonical ← lift (canonical_path virtual_path);
  _ ← _cleanup_expired_writes now;
  writes ← gets t_writes;
  match writes !! wid with
  | None => mret []
  | Some r =>
      if decide (w_path r = canonical) then
        _ ← ensure (bool_decide (w_lock_id r = lock_id)) ConflictError;
        _ ← modify (λ t, with_writes (delete wid (t_writes t)) t);
        mret (slot_block <$> slots r)
      else mret []
  end.

(** * Replicas and listings *)

Definition set_addresses (new : list string) (b : BlockRecord) : BlockRecord :=
  mkBlock (block_id b) new (checksum b) (size_bytes b) (confirmed b).

Definition update_block_replicas (virtual_path bid : string) (expected new : list string)
    : TreeM unit :=
  f ← _get_committed_file virtual_path;
  parts ← lift (parts_of virtual_path);
  match list_find (λ b, block_id b = bid) (blocks f) with
  | None => raise PathNotFoundError
  | Some (i, b) =>
      _ ← ensure (bool_decide (datanode_addresses b = expected)) ConflictError;
      set_file parts (with_blocks (<[i := set_addresses new b]> (blocks f)) f)
  end.

Notation Refs := (gmap string (gset string)).

(** [referenced.setdefault(bid, set()).update(addresses)]. *)
Definition add_ref (bid : string) (addresses : list string) (m : Refs) : Refs :=
  <[bid := default ∅ (m !! bid) ∪ list_to_set addresses]> m.

Definition add_block_refs (bs : list BlockRecord) (m : Refs) : Refs :=
  foldl (λ acc b, add_ref (block_id b) (datanode_addresses b) acc) m bs.

Fixpoint visit_refs (n : node) (m : Refs) : Refs :=
  match n with
  | FileN f => add_block_refs (blocks f) m
  | DirN d => foldl (λ acc kv, visit_refs (snd kv) acc) m (children d)
  end.

Definition reservation_refs (now : Z) (r : WriteReservation) (m : Refs) : Refs :=
  if now <? w_lease_expires_at r
  then foldl (λ acc s, add_ref (new_block_id s) (new_addresses s) acc) m (slots r)
  else m.

Definition referenced_blocks (now : Z) (t : TreeState) : Refs :=
  foldl (λ acc kv, reservation_refs now (snd kv) acc)
        (visit_refs (DirN (t_root t)) ∅) (map_to_list (t_writes t)).

Fixpoint visit_blocks (prefix : string) (n : node) : list (string * BlockRecord) :=
  match n with
  | FileN f =>
      if decide (f_state f = Committed) then (λ b, (prefix, b)) <$> blocks f else []
  | DirN d =>
      concat (map (λ kv, visit_blocks (prefix +:+ "/" +:+ fst kv) (snd kv)) (children d))
  end.

Definition iter_blocks (t : TreeState) : list (string * BlockRecord) :=
  visit_blocks "" (DirN (t_root t)).

Definition list_blocks (virtual_path : string) (caller : option Caller) : TreeM (list BlockRecord) :=
  parts ← lift (parts_of virtual_path);
  n ← gets (_get_node parts);
  match n with
  | Some (FileN f) =>
      _ ← ensure (bool_decide (f_state f = Committed)) PathNotFoundError;
      _ ← require (FileN f) caller R;
      mret (blocks f)
  | _ => raise PathNotFoundError
  end.

#[global] Arguments cleanup_locks : simpl never.
#[global] Arguments _cleanup_expired_locks : simpl never.
#[global] Arguments _cleanup_expired_writes : simpl never.
#[global] Arguments alter_tree : simpl never.
#[global] Arguments live_writes : simpl never.
