(* ===== verification/TreeFacts.v ===== *)
(** Lemmas about the tree: lookups after an update at a path, the abstract view
    of a tree as a map from paths to entries, what each helper of [Tree] reads
    and keeps. *)

From S2P Require Import Prelude Exceptions Dict Paths TreeData Tree.

Open Scope Z_scope.

(** * The abstract view: a partial map from paths to entries *)

Inductive entry :=
| EFile (f : FileNode)
| EDir (owner group : string) (mode : Z).

Definition entry_of (n : node) : entry :=
  match n with
  | FileN f => EFile f
  | DirN d => EDir (d_owner d) (d_group d) (d_mode d)
  end.

Definition view_from (n : node) (q : list string) : option entry := entry_of <$> node_get q n.

Definition view (t : TreeState) (q : list string) : option entry :=
  view_from (DirN (t_root t)) q.

(** A node without descendants. *)
Definition leaf (n : node) : Prop :=
  match n with
  | FileN _ => True
  | DirN d => children d = []
  end.

(** [f] keeps directories directories. *)
Definition dir_stable (f : node → node) : Prop := ∀ d, ∃ d', f (DirN d) = DirN d'.

(** [f] changes a node but not its children. *)
Definition same_children (f : node → node) : Prop :=
  ∀ n, match n, f n with
       | FileN _, FileN _ => True
       | DirN d, DirN d' => children d' = children d
       | _, _ => False
       end.

(** * Paths into a node *)

Lemma node_get_app p q n : node_get (p ++ q) n = node_get p n ≫= node_get q.
Proof.
  revert n. induction p as [|x p IH]; intros n; simpl; [done|].
  destruct n as [f|d]; simpl; [done|]. destruct (dict_get x (children d)); simpl; auto.
Qed.

Lemma node_get_snoc p x n :
  node_get (p ++ [x]) n =
    match node_get p n with
    | Some (DirN d) => dict_get x (children d)
    | _ => None
    end.
Proof.
  rewrite node_get_app. destruct (node_get p n) as [[f|d]|]; simpl; try done.
  by destruct (dict_get x (children d)).
Qed.

Lemma walk_node_get parts d d' :
  walk parts d = Ok d' ↔ node_get parts (DirN d) = Some (DirN d').
Proof.
  revert d. induction parts as [|x parts IH]; intros d; simpl; [naive_solver|].
  destruct (dict_get x (children d)) as [[f|c]|]; try done.
  destruct parts; simpl; naive_solver.
Qed.

Lemma leaf_node_get n q : leaf n → q ≠ [] → node_get q n = None.
Proof. destruct q as [|x q]; [done|]. destruct n as [f|d]; simpl; [done|]. by intros ->. Qed.

Lemma dir_stable_on_dir f : dir_stable (on_dir f).
Proof. intros d; simpl; eauto. Qed.
Lemma dir_stable_on_file f : dir_stable (on_file f).
Proof. intros d; simpl; eauto. Qed.
Lemma dir_stable_id : dir_stable id.
Proof. intros d; unfold id; eauto. Qed.
Lemma dir_stable_set_mode m : dir_stable (set_mode m).
Proof. intros d; simpl; eauto. Qed.
Lemma dir_stable_set_owner o : dir_stable (set_owner o).
Proof. intros d; simpl; eauto. Qed.
Lemma dir_stable_set_group g : dir_stable (set_group g).
Proof. intros d; simpl; eauto. Qed.

Lemma same_children_on_file f : same_children (on_file f).
Proof. by intros [g|d]; simpl. Qed.
Lemma same_children_id : same_children id.
Proof. by intros [g|d]; simpl. Qed.
Lemma same_children_set_mode m : same_children (set_mode m).
Proof. by intros [g|d]; simpl. Qed.
Lemma same_children_set_owner o : same_children (set_owner o).
Proof. by intros [g|d]; simpl. Qed.
Lemma same_children_set_group g : same_children (set_group g).
Proof. by intros [h|d]; simpl. Qed.

#[export] Hint Resolve dir_stable_on_dir dir_stable_on_file dir_stable_id dir_stable_set_mode
  dir_stable_set_owner dir_stable_set_group same_children_on_file same_children_id
  same_children_set_mode same_children_set_owner same_children_set_group : dfs.

Lemma node_alter_dir p f d : dir_stable f → ∃ d', node_alter p f (DirN d) = DirN d'.
Proof. intros Hf. destruct p; simpl; eauto. Qed.

Lemma alter_tree_root p f t :
  dir_stable f → DirN (t_root (alter_tree p f t)) = node_alter p f (DirN (t_root t)).
Proof.
  intros Hf. unfold alter_tree. destruct (node_alter_dir p f (t_root t) Hf) as [d ->]. done.
Qed.

Lemma alter_tree_locks p f t : t_locks (alter_tree p f t) = t_locks t.
Proof. unfold alter_tree. by destruct (node_alter _ _ _). Qed.
Lemma alter_tree_writes p f t : t_writes (alter_tree p f t) = t_writes t.
Proof. unfold alter_tree. by destruct (node_alter _ _ _). Qed.
Lemma alter_tree_users p f t : t_users (alter_tree p f t) = t_users t.
Proof. unfold alter_tree. by destruct (node_alter _ _ _). Qed.

(** * The view after an update *)

(** A metadata change at [p] changes the entry at [p] and nothing else. *)
Lemma view_from_alter p f n q :
  same_children f →
  view_from (node_alter p f n) q =
    if decide (q = p) then (λ m, entry_of (f m)) <$> node_get p n else view_from n q.
Proof.
  intros Hf. revert n q. induction p as [|x p IH]; intros n q; simpl.
  - unfold view_from. specialize (Hf n). destruct q as [|y q]; [done|]. rewrite decide_False by done.
    simpl. destruct n as [g|d], (f _) as [g'|d']; try done. by rewrite Hf.
  - destruct n as [g|d].
    { unfold view_from. destruct (decide (q = x :: p)) as [->|]; done. }
    destruct q as [|y q]; [done|]. unfold view_from in *. simpl.
    rewrite dict_get_alter. destruct (decide (x = y)) as [->|Hxy].
    + destruct (dict_get y (children d)) as [c|]; simpl.
      * rewrite IH. repeat case_decide; simplify_eq/=; done.
      * by case_decide.
    + rewrite decide_False by congruence. done.
Qed.

(** Putting a leaf under [name], where no subtree was, changes one path. *)
Lemma view_from_set_child p name c n d q :
  node_get p n = Some (DirN d) → leaf c →
  (∀ o, dict_get name (children d) = Some o → leaf o) →
  view_from (node_alter p (on_dir (λ d, with_children (dict_set name c (children d)) d)) n) q =
    if decide (q = p ++ [name]) then Some (entry_of c) else view_from n q.
Proof.
  revert n q. induction p as [|x p IH]; intros n q Hp Hc Ho; simpl in *.
  - simplify_eq/=. unfold view_from. destruct q as [|y q]; [done|]. simpl.
    rewrite dict_get_set. destruct (decide (name = y)) as [->|Hne].
    + destruct (decide (q = [])) as [->|Hq]; [by rewrite decide_True|].
      rewrite decide_False by congruence. rewrite leaf_node_get by done.
      destruct (dict_get y (children d)) as [o|] eqn:E; [|done].
      by rewrite leaf_node_get by auto.
    + by rewrite decide_False by congruence.
  - destruct n as [g|d0]; [done|]. destruct (dict_get x (children d0)) as [m|] eqn:E; [|done].
    destruct q as [|y q]; [done|]. unfold view_from in *. simpl.
    rewrite dict_get_alter. destruct (decide (x = y)) as [->|Hne].
    + rewrite E. simpl. rewrite IH by done. repeat case_decide; simplify_eq; done.
    + rewrite decide_False by congruence. done.
Qed.

(** Removing a leaf changes one path. *)
Lemma view_from_del_child p name n d q :
  node_get p n = Some (DirN d) → dict_ok (children d) →
  (∀ o, dict_get name (children d) = Some o → leaf o) →
  view_from (node_alter p (on_dir (λ d, with_children (dict_del name (children d)) d)) n) q =
    if decide (q = p ++ [name]) then None else view_from n q.
Proof.
  revert n q. induction p as [|x p IH]; intros n q Hp Hd Ho; simpl in *.
  - simplify_eq/=. unfold view_from. destruct q as [|y q]; [done|]. simpl.
    destruct (decide (name = y)) as [->|Hne].
    + rewrite dict_get_del_eq by done. destruct (decide (q = [])) as [->|Hq]; [by rewrite decide_True|].
      rewrite decide_False by congruence.
      destruct (dict_get y (children d)) as [o|] eqn:E; [|done].
      by rewrite leaf_node_get by auto.
    + rewrite dict_get_del_ne by done. by rewrite decide_False by congruence.
  - destruct n as [g|d0]; [done|]. destruct (dict_get x (children d0)) as [m|] eqn:E; [|done].
    destruct q as [|y q]; [done|]. unfold view_from in *. simpl.
    rewrite dict_get_alter. destruct (decide (x = y)) as [->|Hne].
    + rewrite E. simpl. rewrite IH by done. repeat case_decide; simplify_eq; done.
    + rewrite decide_False by congruence. done.
Qed.

Lemma view_alter p f t q :
  same_children f → dir_stable f →
  view (alter_tree p f t) q =
    if decide (q = p) then (λ m, entry_of (f m)) <$> _get_node p t else view t q.
Proof. intros. unfold view. rewrite alter_tree_root by done. by apply view_from_alter. Qed.

Lemma view_set_child p name c t d q :
  _get_node p t = Some (DirN d) → leaf c →
  (∀ o, dict_get name (children d) = Some o → leaf o) →
  view (alter_tree p (on_dir (λ d, with_children (dict_set name c (children d)) d)) t) q =
    if decide (q = p ++ [name]) then Some (entry_of c) else view t q.
Proof.
  intros. unfold view. rewrite alter_tree_root by auto with dfs. by eapply view_from_set_child.
Qed.

Lemma view_del_child p name t d q :
  _get_node p t = Some (DirN d) → dict_ok (children d) →
  (∀ o, dict_get name (children d) = Some o → leaf o) →
  view (alter_tree p (on_dir (λ d, with_children (dict_del name (children d)) d)) t) q =
    if decide (q = p ++ [name]) then None else view t q.
Proof.
  intros. unfold view. rewrite alter_tree_root by auto with dfs. by eapply view_from_del_child.
Qed.

(** The updates of the other three fields do not touch the view. *)
Lemma view_with_locks l t q : view (with_locks l t) q = view t q.
Proof. done. Qed.
Lemma view_with_writes w t q : view (with_writes w t) q = view t q.
Proof. done. Qed.
Lemma view_with_users u t q : view (with_users u t) q = view t q.
Proof. done. Qed.

#[export] Hint Rewrite view_with_locks view_with_writes view_with_users alter_tree_locks
  alter_tree_writes alter_tree_users : dfs.

Lemma view_file t q f : view t q = Some (EFile f) ↔ _get_node q t = Some (FileN f).
Proof.
  unfold view, view_from, _get_node. destruct (node_get _ _) as [[g|d]|]; simpl; naive_solver.
Qed.

Lemma view_None t q : view t q = None ↔ _get_node q t = None.
Proof. unfold view, view_from, _get_node. by rewrite fmap_None. Qed.

(** * What the helpers read *)

Lemma walk_to_parent_inv parts t t' d :
  _walk_to_parent parts t = (t', Ok d) → t' = t ∧ _get_node parts t = Some (DirN d).
Proof.
  unfold _walk_to_parent, asks. intros H. simplify_eq. split; [done|].
  by apply walk_node_get.
Qed.

Lemma dir_at_inv parts t t' d :
  dir_at parts t = (t', Ok d) → t' = t ∧ _get_node parts t = Some (DirN d).
Proof.
  unfold dir_at, asks. destruct (_get_node parts t) as [[g|d0]|]; intros; simplify_eq; auto.
Qed.

Lemma dir_at_ok parts t d : _get_node parts t = Some (DirN d) → dir_at parts t = (t, Ok d).
Proof. unfold dir_at, asks. by intros ->. Qed.

Lemma require_inv n caller want (t t' : TreeState) u :
  require n caller want t = (t', Ok u) → _allows n caller want = true ∧ t' = t.
Proof.
  unfold require, _require, require_r, lift. destruct (_allows n caller want); intros; simplify_eq; auto.
Qed.

Lemma committed_file_inv vp t f :
  committed_file vp t = Ok f →
  ∃ ps, parts_of vp = Ok ps ∧ _get_node ps t = Some (FileN f) ∧ f_state f = Committed.
Proof.
  unfold committed_file, mbind, result_bind. destruct (parts_of vp) as [ps|]; [|done].
  destruct (_get_node ps t) as [[g|d]|] eqn:E; try done.
  case_decide; intros; simplify_eq. eauto.
Qed.

Lemma get_committed_file_inv vp t t' f :
  _get_committed_file vp t = (t', Ok f) →
  t' = t ∧ ∃ ps, parts_of vp = Ok ps ∧ _get_node ps t = Some (FileN f) ∧ f_state f = Committed.
Proof. intros [H ->]%asks_ok_inv. split; [done|]. by apply committed_file_inv. Qed.

Lemma get_pending_file_inv vp t t' f :
  _get_pending_file vp t = (t', Ok f) →
  t' = t ∧ ∃ ps, parts_of vp = Ok ps ∧ _get_node ps t = Some (FileN f) ∧ f_state f = Pending.
Proof.
  unfold _get_pending_file. intros H. minv H.
  destruct (_get_node _ _) as [[g|d]|] eqn:E; try discriminate H.
  case_decide; [|discriminate H]. unfold mret, M_ret in H. naive_solver.
Qed.

Lemma get_visible_node_inv vp t t' n :
  _get_visible_node vp t = (t', Ok n) →
  t' = t ∧ ∃ ps, parts_of vp = Ok ps ∧ _get_node ps t = Some n ∧
    (∀ f, n = FileN f → f_state f = Committed).
Proof.
  unfold _get_visible_node. intros H. minv H.
  destruct (_get_node _ _) as [[g|d]|] eqn:E; try discriminate H.
  - case_decide; [|discriminate H]. unfold mret, M_ret in H. naive_solver.
  - unfold mret, M_ret in H. simplify_eq. naive_solver.
Qed.

Lemma parts_of_canonical vp c :
  canonical_path vp = Ok c → parts_of c = parts_of vp.
Proof. intros (ps & Hps & Hok & ->)%canonical_path_inv. by rewrite Hps, parts_of_path_of. Qed.

(** * What the helpers keep *)

Section keep.
Context (Rel : relation TreeState) `{!PreOrder Rel}.

Lemma moves_walk_to_parent ps : moves Rel (_walk_to_parent ps).
Proof. by apply moves_asks. Qed.
Lemma moves_dir_at ps : moves Rel (dir_at ps).
Proof. by apply moves_asks. Qed.
Lemma moves_require n c w : moves Rel (require n c w).
Proof. by apply moves_lift. Qed.
Lemma moves_get_committed_file vp : moves Rel (_get_committed_file vp).
Proof. by apply moves_asks. Qed.
Lemma moves_get_pending_file vp : moves Rel (_get_pending_file vp).
Proof.
  unfold _get_pending_file. apply moves_bind; [done|auto with dfs|]. intros ps.
  apply moves_bind; [done|auto with dfs|]. intros [[f|d]|]; auto with dfs.
  case_decide; auto with dfs.
Qed.
Lemma moves_get_visible_node vp : moves Rel (_get_visible_node vp).
Proof.
  unfold _get_visible_node. apply moves_bind; [done|auto with dfs|]. intros ps.
  apply moves_bind; [done|auto with dfs|]. intros [[f|d]|]; auto with dfs.
  case_decide; auto with dfs.
Qed.
Lemma moves_require_upload_owner f c : moves Rel (_require_upload_owner f c).
Proof. by apply moves_ensure. Qed.
End keep.

#[export] Hint Resolve moves_walk_to_parent moves_dir_at moves_require moves_get_committed_file
  moves_get_pending_file moves_get_visible_node moves_require_upload_owner : dfs.
