(* ===== verification/Replicated.v ===== *)
(** [ReplicatedTree] (dfsha/control_node/replicated_tree.py): the commands of
    the Raft log, their dispatch on the tree and the deduplication by [op_id].
    Raft itself (pysyncobj) is not modelled: the log is a list of entries, and
    a node is the fold of [apply] over the prefix it has applied. *)

From S2P Require Import Prelude Exceptions Dict Paths TreeData Tree.

Open Scope Z_scope.

(** One constructor per method of [MUTATIONS] with its arguments.  [CRaw] is an
    entry that names any other method, or one of them with arguments Python
    cannot bind. *)
Inductive command :=
| CMakeDir (virtual_path : string) (caller : option Caller)
| CRemoveDir (virtual_path : string) (caller : option Caller)
| CRemoveFile (virtual_path : string) (now : option Z) (caller : option Caller)
| CBeginUpload (virtual_path : string) (placements : list (string * list string))
    (now lease_s block_size : option Z) (caller : option Caller)
| CConfirmBlock (virtual_path bid chk : string) (size : Z) (now lease_s : option Z)
    (caller : option Caller)
| CCompleteUpload (virtual_path : string) (caller : option Caller)
| CAbortUpload (virtual_path : string) (caller : option Caller)
| CAcquireLock (virtual_path lock_id owner mode : string) (now lease_s : Z)
    (caller : option Caller)
| CRenewLock (virtual_path lock_id : string) (now lease_s : Z)
| CReleaseLock (virtual_path lock_id : string) (now : option Z)
| CUpdateBlockReplicas (virtual_path bid : string) (expected new : list string)
| CBeginWrite (virtual_path wid lock_id : string) (expected offset len : Z)
    (proposals : list Proposal) (now lease_s default_block_size : Z) (caller : option Caller)
| CCommitWrite (virtual_path wid lock_id : string) (expected : Z) (conf : list Confirmed)
    (now : Z) (caller : option Caller)
| CAbortWrite (virtual_path wid lock_id : string) (now : option Z)
| CCreateUser (username : string) (hash slt : bytes) (groups : list string) (is_admin : bool)
| CChangePassword (username : string) (hash slt : bytes)
| CChmod (virtual_path : string) (mode : Z) (caller : option Caller)
| CChown (virtual_path owner group : string) (caller : option Caller)
| CRaw (method : string).

Definition MUTATIONS : list string :=
  ["make_dir"; "remove_dir"; "remove_file"; "begin_upload"; "confirm_block";
   "complete_upload"; "abort_upload"; "acquire_lock"; "renew_lock"; "release_lock";
   "update_block_replicas"; "begin_write"; "commit_write"; "abort_write";
   "create_user"; "change_password"; "chmod"; "chown"].

Definition method_of (c : command) : string :=
  match c with
  | CMakeDir _ _ => "make_dir"
  | CRemoveDir _ _ => "remove_dir"
  | CRemoveFile _ _ _ => "remove_file"
  | CBeginUpload _ _ _ _ _ _ => "begin_upload"
  | CConfirmBlock _ _ _ _ _ _ _ => "confirm_block"
  | CCompleteUpload _ _ => "complete_upload"
  | CAbortUpload _ _ => "abort_upload"
  | CAcquireLock _ _ _ _ _ _ _ => "acquire_lock"
  | CRenewLock _ _ _ _ => "renew_lock"
  | CReleaseLock _ _ _ => "release_lock"
  | CUpdateBlockReplicas _ _ _ _ => "update_block_replicas"
  | CBeginWrite _ _ _ _ _ _ _ _ _ _ _ => "begin_write"
  | CCommitWrite _ _ _ _ _ _ _ => "commit_write"
  | CAbortWrite _ _ _ _ => "abort_write"
  | CCreateUser _ _ _ _ _ => "create_user"
  | CChangePassword _ _ _ => "change_password"
  | CChmod _ _ _ => "chmod"
  | CChown _ _ _ _ => "chown"
  | CRaw m => m
  end.

(** What the methods return. *)
Inductive value :=
| VNone
| VStr (s : string)
| VBlocks (bs : list BlockRecord)
| VUpload (placements : list (string * list string)) (stale : list BlockRecord)
| VBegun (wid : string) (base : Z) (bsz : Z) (rows : list SlotRow)
| VCommitted (version : Z) (replaced : list BlockRecord).

Definition as_none (m : TreeM unit) : TreeM value := _ ← m; mret VNone.
Definition as_blocks (m : TreeM (list BlockRecord)) : TreeM value := bs ← m; mret (VBlocks bs).

(** [getattr(self.tree, method)( *args)]. *)
Definition run_command (c : command) : TreeM value :=
  match c with
  | CMakeDir p cl => as_none (make_dir p cl)
  | CRemoveDir p cl => as_none (remove_dir p cl)
  | CRemoveFile p now cl => as_blocks (remove_file p now cl)
  | CBeginUpload p pl now lease bs cl =>
      r ← begin_upload p pl now lease bs cl; mret (VUpload r.1 r.2)
  | CConfirmBlock p b chk size now lease cl => as_none (confirm_block p b chk size now lease cl)
  | CCompleteUpload p cl => as_none (complete_upload p cl)
  | CAbortUpload p cl => as_none (abort_upload p cl)
  | CAcquireLock p id o mode now lease cl =>
      r ← acquire_lock p id o mode now lease cl; mret (VStr r)
  | CRenewLock p id now lease => as_none (renew_lock p id now lease)
  | CReleaseLock p id now => as_none (release_lock p id now)
  | CUpdateBlockReplicas p b e n => as_none (update_block_replicas p b e n)
  | CBeginWrite p w id e off len pr now lease dbs cl =>
      r ← begin_write p w id e off len pr now lease dbs cl;
      mret (VBegun r.1.1.1 r.1.1.2 r.1.2 r.2)
  | CCommitWrite p w id e conf now cl =>
      r ← commit_write p w id e conf now cl; mret (VCommitted r.1 r.2)
  | CAbortWrite p w id now => as_blocks (abort_write p w id now)
  | CCreateUser u h s g a => as_none (create_user u h s g a)
  | CChangePassword u h s => as_none (change_password u h s)
  | CChmod p m cl => as_none (chmod p m cl)
  | CChown p o g cl => as_none (chown p o g cl)
  | CRaw _ => raise PyError
  end.

(** [("ok", value)] or [("error", class name, message)]. *)
Inductive outcome :=
| OutOk (v : value)
| OutError (class : string).

Definition outcome_of (r : result exn value) : outcome :=
  match r with
  | Ok v => OutOk v
  | Err e => OutError (class_name (if is_domain e then e else DFShaError))
  end.

Record ReplicatedTree := mkReplicated {
  tree : TreeState;
  applied_ops : list (string * outcome)
}.

Definition replicated_init : ReplicatedTree := mkReplicated tree_init [].

Definition MAX_APPLIED_OPS : Z := 10000.

(** [while len(ops) > MAX: ops.popitem(last=False)]. *)
Definition evict (ops : list (string * outcome)) : list (string * outcome) :=
  drop (Z.to_nat (zlen ops - MAX_APPLIED_OPS)) ops.

(** The [try] of [apply]: the tree after the command and its outcome. *)
Definition dispatch (c : command) (t : TreeState) : TreeState * outcome :=
  if bool_decide (method_of c ∈ MUTATIONS) then
    let out := run_command c t in (out.1, outcome_of out.2)
  else (t, OutError (class_name InvalidPathError)).

Definition apply (op_id : string) (c : command) (s : ReplicatedTree) : ReplicatedTree * outcome :=
  match dict_get op_id (applied_ops s) with
  | Some o => (s, o)
  | None =>
      let out := dispatch c (tree s) in
      (mkReplicated out.1 (evict (dict_set op_id out.2 (applied_ops s))), out.2)
  end.

(** What the leader learns of a command it sent ([_commit_raw] of the servicer):
    the outcome, nothing (the command may or may not be applied later), or that
    it no longer is the leader. *)
Inductive raw_outcome :=
| Known (o : outcome)
| Unknown
| Unavailable.

(** A log entry and a replica that has applied a prefix of the log. *)
Notation entry_t := (string * command)%type.

Definition apply_log (l : list entry_t) (s : ReplicatedTree) : ReplicatedTree :=
  foldl (λ s e, (apply e.1 e.2 s).1) s l.

Definition read_barrier : bool := true.

(** * The specification: a machine that remembers every operation *)

Definition spec_apply (op_id : string) (c : command) (s : ReplicatedTree)
    : ReplicatedTree * outcome :=
  match dict_get op_id (applied_ops s) with
  | Some o => (s, o)
  | None =>
      let out := dispatch c (tree s) in
      (mkReplicated out.1 (dict_set op_id out.2 (applied_ops s)), out.2)
  end.

Definition spec_log (l : list entry_t) (s : ReplicatedTree) : ReplicatedTree :=
  foldl (λ s e, (spec_apply e.1 e.2 s).1) s l.

(** No [op_id] is used again more than [MAX_APPLIED_OPS] entries later. *)
Definition retries_in_window (l : list entry_t) : Prop :=
  ∀ (i j : nat) (op : string) (c1 c2 : command),
    l !! i = Some (op, c1) → l !! j = Some (op, c2) → (i < j)%nat →
    Z.of_nat j - Z.of_nat i ≤ MAX_APPLIED_OPS.

(** * Lemmas *)

Lemma apply_log_snoc l e s : apply_log (l ++ [e]) s = (apply e.1 e.2 (apply_log l s)).1.
Proof. unfold apply_log. by rewrite foldl_app. Qed.
Lemma spec_log_snoc l e s : spec_log (l ++ [e]) s = (spec_apply e.1 e.2 (spec_log l s)).1.
Proof. unfold spec_log. by rewrite foldl_app. Qed.

Lemma dict_set_fresh {V} k (v : V) d : dict_get k d = None → dict_set k v d = d ++ [(k, v)].
Proof.
  induction d as [|[k1 v1] d IH]; simpl; [done|]. case_decide; [done|].
  intros. by rewrite IH.
Qed.

Lemma dict_get_drop {V} k (d : list (string * V)) (n p : nat) v :
  dict_ok d → d !! p = Some (k, v) → (n ≤ p)%nat → dict_get k (drop n d) = Some v.
Proof.
  intros Hd Hp Hn. apply dict_elem_get.
  - unfold dict_ok, dict_keys in *. rewrite fmap_drop. eapply sublist_NoDup; [exact Hd|].
    apply sublist_drop.
  - apply list_elem_of_lookup. exists (p - n)%nat. rewrite lookup_drop.
    by replace (n + (p - n))%nat with p by lia.
Qed.

Lemma dict_get_drop_None {V} k (d : list (string * V)) (n : nat) :
  dict_get k d = None → dict_get k (drop n d) = None.
Proof.
  rewrite !dict_get_None. unfold dict_keys. rewrite fmap_drop. intros H Hin. apply H.
  rewrite <-(take_drop n (d.*1)). apply elem_of_app. by right.
Qed.

Lemma spec_log_ops_ok l : dict_ok (applied_ops (spec_log l replicated_init)).
Proof.
  induction l as [|e l IH] using rev_ind; [by constructor|].
  rewrite spec_log_snoc. unfold spec_apply. destruct (dict_get _ _); [done|]. simpl. auto with dfs.
Qed.

(** The entry an [op_id] left sits no deeper in the history than the log is long
    since it was logged. *)
Lemma spec_log_position l op o :
  dict_get op (applied_ops (spec_log l replicated_init)) = Some o →
  ∃ (i p : nat) c,
    l !! i = Some (op, c) ∧
    applied_ops (spec_log l replicated_init) !! p = Some (op, o) ∧
    (length (applied_ops (spec_log l replicated_init)) - p ≤ length l - i)%nat.
Proof.
  induction l as [|[op' c'] l IH] using rev_ind; [done|].
  rewrite spec_log_snoc. unfold spec_apply; simpl.
  destruct (dict_get op' _) as [o'|] eqn:Hop'; simpl.
  - intros H. destruct (IH H) as (i & p & c & Hi & Hp & Hle).
    exists i, p, c. split_and!; [by apply lookup_app_l_Some|done|].
    rewrite length_app; simpl. apply lookup_lt_Some in Hi. lia.
  - rewrite dict_set_fresh by done. intros Hget.
    destruct (decide (op = op')) as [->|Hne].
    + exists (length l), (length (applied_ops (spec_log l replicated_init))), c'.
      rewrite <-dict_set_fresh, dict_get_set_eq in Hget by done. simplify_eq.
      split_and!; [by apply list_lookup_middle|by apply list_lookup_middle|].
      rewrite !length_app. simpl. lia.
    + rewrite <-dict_set_fresh, dict_get_set_ne in Hget by done.
      destruct (IH Hget) as (i & p & c & Hi & Hp & Hle).
      exists i, p, c. split_and!; [by apply lookup_app_l_Some|by apply lookup_app_l_Some|].
      rewrite !length_app; simpl. apply lookup_lt_Some in Hi. lia.
Qed.

Lemma retries_in_window_prefix l e : retries_in_window (l ++ [e]) → retries_in_window l.
Proof.
  intros H i j op c1 c2 Hi Hj Hij. by eapply H; [apply lookup_app_l_Some..|].
Qed.

(** Forgetting all but the last [MAX_APPLIED_OPS] outcomes commutes with the log. *)
Lemma apply_log_spec l :
  retries_in_window l →
  apply_log l replicated_init =
    mkReplicated (tree (spec_log l replicated_init)) (evict (applied_ops (spec_log l replicated_init))).
Proof.
  induction l as [|[op c] l IH] using rev_ind; intros Hw; [done|].
  specialize (IH (retries_in_window_prefix _ _ Hw)).
  rewrite apply_log_snoc, spec_log_snoc, IH. unfold apply, spec_apply; simpl.
  set (s := spec_log l replicated_init) in *.
  destruct (dict_get op (applied_ops s)) as [o|] eqn:Hop; simpl.
  - destruct (spec_log_position _ _ _ Hop) as (i & p & c' & Hi & Hp & Hle).
    assert (Z.of_nat (length l) - Z.of_nat i ≤ MAX_APPLIED_OPS) as Hwin.
    { apply (Hw i (length l) op c' c).
      - by apply lookup_app_l_Some.
      - by apply list_lookup_middle.
      - by apply lookup_lt_Some in Hi. }
    unfold evict at 1. rewrite (dict_get_drop op _ _ p o); [done|apply spec_log_ops_ok|done|].
    fold s in Hle. unfold zlen. apply lookup_lt_Some in Hi, Hp.
    fold s in Hp. unfold MAX_APPLIED_OPS in *. lia.
  - unfold evict at 1. rewrite dict_get_drop_None by done. simpl. f_equal.
    rewrite !dict_set_fresh; [|done|unfold evict; by apply dict_get_drop_None].
    unfold evict, zlen. rewrite !length_app, length_drop. simpl.
    set (n := length (applied_ops s)). unfold MAX_APPLIED_OPS.
    rewrite <-(drop_app_le (applied_ops s) _ _) by (fold n; lia).
    rewrite drop_drop. f_equal. fold n. lia.
Qed.

Lemma evict_length ops : zlen (evict ops) ≤ MAX_APPLIED_OPS.
Proof. unfold evict, zlen. rewrite length_drop. unfold MAX_APPLIED_OPS. lia. Qed.
