(* ===== verification/TreeErrors.v ===== *)
(** What a command that fails leaves behind.  A domain error never changes the
    tree or the users; the only trace it may leave is that expired lock holders
    and expired write reservations have been swept.  The second part says which
    errors each method raises. *)

From S2P Require Import Prelude Exceptions Dict Paths TreeData Tree TreeFacts Replicated.

Open Scope Z_scope.

(** [swept t t']: [t'] is [t] with some expired state removed. *)
Record swept (t t' : TreeState) : Prop := mkSwept {
  swept_root : t_root t' = t_root t;
  swept_users : t_users t' = t_users t;
  swept_writes : t_writes t' ⊆ t_writes t;
  swept_locks : ∀ c st', t_locks t' !! c = Some st' →
    ∃ st, t_locks t !! c = Some st ∧ l_mode st' = l_mode st ∧
      holders st' ⊆ holders st ∧ (holders st ≠ ∅ → holders st' ≠ ∅)
}.

(** The errors of the domain, as opposed to a Python runtime error. *)
Definition domain_error (e : exn) : Prop := e ≠ PyError.

#[global] Instance swept_preorder : PreOrder swept.
Proof.
  split.
  - intros t. split; [done|done|done|]. intros c st H. eauto 10.
  - intros t1 t2 t3 [r1 u1 w1 l1] [r2 u2 w2 l2]. split; [congruence|congruence|by etrans|].
    intros c st3 H3. destruct (l2 _ _ H3) as (st2 & H2 & Hm2 & Hh2 & Hn2).
    destruct (l1 _ _ H2) as (st1 & H1 & Hm1 & Hh1 & Hn1).
    exists st1. split_and!; [done|congruence|by etrans|auto].
Qed.

Lemma swept_view t t' q : swept t t' → view t' q = view t q.
Proof. intros [Hr _ _ _]. unfold view. by rewrite Hr. Qed.

Lemma cleanup_locks_lookup c now ls c' st' :
  cleanup_locks c now ls !! c' = Some st' →
  ∃ st, ls !! c' = Some st ∧ l_mode st' = l_mode st ∧
    holders st' ⊆ holders st ∧ (holders st ≠ ∅ → holders st' ≠ ∅).
Proof.
  unfold cleanup_locks. destruct now as [t|]; [|eauto 10].
  destruct (ls !! c) as [st|] eqn:E; [|eauto 10]. case_decide.
  - intros [Hne H1]%lookup_delete_Some. eauto 10.
  - intros [[<- <-]|[Hne H1]]%lookup_insert_Some; [|eauto 10].
    exists st. split_and!; [done|done| |done]. apply map_filter_subseteq.
Qed.

Lemma moves_cleanup_locks c now : moves swept (_cleanup_expired_locks c now).
Proof.
  apply moves_modify. intros t. split; [done|done|done|]. simpl.
  intros c' st'. apply cleanup_locks_lookup.
Qed.

Lemma moves_cleanup_writes now : moves swept (_cleanup_expired_writes now).
Proof.
  unfold _cleanup_expired_writes. destruct now; [|apply moves_ret; apply _].
  apply moves_modify. intros t. split; [done|done| |]; simpl.
  - apply map_filter_subseteq.
  - intros c st H. eauto 10.
Qed.

Lemma sweeps_swept c now t :
  swept t (with_writes (live_writes now (t_writes t))
             (with_locks (cleanup_locks c (Some now) (t_locks t)) t)).
Proof.
  etrans; [apply (moves_cleanup_locks c (Some now) t)|].
  apply (moves_cleanup_writes (Some now) (with_locks (cleanup_locks c (Some now) (t_locks t)) t)).
Qed.

#[export] Hint Resolve moves_cleanup_locks moves_cleanup_writes : dfs.
#[export] Hint Extern 1 (PreOrder _) => apply _ : dfs.

Lemma moves_require_write_lock c id now : moves swept (_require_write_lock c id now).
Proof.
  unfold _require_write_lock. apply moves_bind; [apply _|auto with dfs|]. intros _.
  apply moves_bind; [apply _|auto with dfs|]. intros ls.
  destruct (ls !! c); auto with dfs.
Qed.

Lemma moves_find_reservation w c e : moves swept (find_reservation w c e).
Proof.
  unfold find_reservation. apply moves_bind; [apply _|auto with dfs|]. intros ws.
  destruct (ws !! w); [case_decide|]; auto with dfs.
Qed.
#[export] Hint Resolve moves_require_write_lock moves_find_reservation : dfs.

(** [fails_clean m]: a domain error of [m] leaves a swept state. *)
Notation fails_clean := (moves_on_err swept domain_error).

Ltac clean_step :=
  first
  [ apply moves_on_err_bind; [apply _|solve [auto with dfs]|intros ?]
  | progress case_match
  | solve [auto with dfs] ].

Ltac clean := repeat clean_step.

Section clean_ops.
Context (Q : exn → Prop).

Lemma set_child_clean p x c : moves_on_err swept Q (set_child p x c).
Proof. apply moves_on_err_modify. Qed.
Lemma del_child_clean p x : moves_on_err swept Q (del_child p x).
Proof. apply moves_on_err_modify. Qed.
Lemma set_file_clean p f : moves_on_err swept Q (set_file p f).
Proof. apply moves_on_err_modify. Qed.
Lemma put_holder_clean c m i o e h : moves_on_err swept Q (put_holder c m i o e h).
Proof. apply moves_on_err_modify. Qed.
Lemma del_child_ret_clean {A} p x (a : A) : moves_on_err swept Q (_ ← del_child p x; mret a).
Proof. apply moves_on_err_modify_ret. Qed.
Lemma put_holder_ret_clean {A} c m i o e h (a : A) :
  moves_on_err swept Q (_ ← put_holder c m i o e h; mret a).
Proof. apply moves_on_err_modify_ret. Qed.
#[local] Hint Resolve set_child_clean del_child_clean set_file_clean put_holder_clean
  del_child_ret_clean put_holder_ret_clean : dfs.

Lemma make_dir_clean p c : moves_on_err swept Q (make_dir p c).
Proof. unfold make_dir. clean. Qed.
Lemma remove_dir_clean p c : moves_on_err swept Q (remove_dir p c).
Proof. unfold remove_dir. clean. Qed.
Lemma remove_file_clean p now c : moves_on_err swept Q (remove_file p now c).
Proof. unfold remove_file. clean. Qed.
Lemma acquire_lock_clean p i o m now l c : moves_on_err swept Q (acquire_lock p i o m now l c).
Proof. unfold acquire_lock. clean. Qed.
Lemma renew_lock_clean p i now l : moves_on_err swept Q (renew_lock p i now l).
Proof. unfold renew_lock. clean. Qed.
Lemma release_lock_clean p i now : moves_on_err swept Q (release_lock p i now).
Proof. unfold release_lock. clean. Qed.
Lemma chmod_clean p m c : moves_on_err swept Q (chmod p m c).
Proof. unfold chmod. clean. Qed.
Lemma create_user_clean u h s g a : moves_on_err swept Q (create_user u h s g a).
Proof. unfold create_user. clean. Qed.
Lemma change_password_clean u h s : moves_on_err swept Q (change_password u h s).
Proof. unfold change_password. clean. Qed.
Lemma confirm_block_clean p b k s now l c : moves_on_err swept Q (confirm_block p b k s now l c).
Proof. unfold confirm_block. clean. Qed.
Lemma complete_upload_clean p c : moves_on_err swept Q (complete_upload p c).
Proof. unfold complete_upload. clean. Qed.
Lemma abort_upload_clean p c : moves_on_err swept Q (abort_upload p c).
Proof. unfold abort_upload. clean. Qed.
Lemma abort_write_clean p w i now : moves_on_err swept Q (abort_write p w i now).
Proof. unfold abort_write. clean. Qed.
Lemma update_block_replicas_clean p b e n : moves_on_err swept Q (update_block_replicas p b e n).
Proof. unfold update_block_replicas. clean. Qed.

Lemma chown_clean p o g c : moves_on_err swept Q (chown p o g c).
Proof.
  unfold chown. do 8 (apply moves_on_err_bind; [apply _|solve [auto with dfs]|intros ?]).
  intros s s' e H. exfalso. revert H. unfold mbind, M_bind, modify. done.
Qed.
End clean_ops.

#[export] Hint Resolve set_child_clean del_child_clean set_file_clean put_holder_clean
  del_child_ret_clean put_holder_ret_clean : dfs.

(** ** The walk that creates directories *)

Lemma node_get_alter_same p f n : node_get p (node_alter p f n) = f <$> node_get p n.
Proof.
  revert n. induction p as [|x p IH]; intros n; simpl; [done|].
  destruct n as [g|d]; simpl; [done|]. rewrite dict_get_alter, decide_True by done.
  destruct (dict_get x (children d)); simpl; auto.
Qed.

Lemma get_node_set_child p x c t d t' r :
  _get_node p t = Some (DirN d) → set_child p x c t = (t', r) →
  _get_node (p ++ [x]) t' = Some c ∧ r = Ok tt.
Proof.
  unfold set_child, modify, _get_node. intros Hp H. simplify_eq. split; [|done].
  rewrite alter_tree_root by auto with dfs.
  rewrite node_get_snoc, node_get_alter_same, Hp. simpl. apply dict_get_set_eq.
Qed.

Lemma walk_create_fresh caller rest prefix t d :
  _get_node prefix t = Some (DirN d) → children d = [] →
  ∃ t' d', walk_create caller prefix rest true t = (t', Ok tt) ∧
    _get_node (prefix ++ rest) t' = Some (DirN d') ∧ children d' = [].
Proof.
  revert prefix t d. induction rest as [|x rest IH]; intros prefix t d Hd He; simpl.
  - erewrite bind_ok by (by apply dir_at_ok). exists t, d. by rewrite app_nil_r.
  - erewrite bind_ok by (by apply dir_at_ok). rewrite He. simpl.
    destruct (set_child prefix x (new_dir caller) t) as [t1 r] eqn:Hs.
    destruct (get_node_set_child _ _ _ _ _ _ _ Hd Hs) as [Hg ->].
    erewrite bind_ok by done. erewrite bind_ok by done.
    destruct (IH _ _ _ Hg eq_refl) as (t' & d' & Hw & Hg' & He').
    exists t', d'. by rewrite <-app_assoc in Hg'.
Qed.

(** Without a directory created before, the walk either leaves the state as it
    was or ends in a fresh empty directory. *)
Lemma walk_create_cases caller rest prefix t t' r :
  walk_create caller prefix rest false t = (t', r) →
  t' = t ∨ (r = Ok tt ∧ ∃ d, _get_node (prefix ++ rest) t' = Some (DirN d) ∧ children d = []).
Proof.
  revert prefix. induction rest as [|x rest IH]; intros prefix; simpl.
  - unfold mbind, M_bind. destruct (dir_at prefix t) as [t1 [d|e]] eqn:Hd;
      [apply dir_at_inv in Hd as [-> Hd]|unfold dir_at, asks in Hd; intros; simplify_eq; auto].
    unfold require, lift. intros; simplify_eq; auto.
  - unfold mbind at 1, M_bind at 1. destruct (dir_at prefix t) as [t1 [d|e]] eqn:Hd;
      [apply dir_at_inv in Hd as [-> Hd]|unfold dir_at, asks in Hd; intros; simplify_eq; auto].
    destruct (dict_get x (children d)) as [[f|c]|]; [unfold raise; intros; simplify_eq; auto| |].
    + intros Hwc. apply IH in Hwc. by rewrite <-app_assoc in Hwc.
    + unfold mbind at 1, M_bind at 1, require, lift. destruct (_require (DirN d) caller W).
      2: { intros; simplify_eq; auto. }
      destruct (set_child prefix x (new_dir caller) t) as [t1 r1] eqn:Hs.
      destruct (get_node_set_child _ _ _ _ _ _ _ Hd Hs) as [Hg ->].
      erewrite bind_ok by done. intros H. right.
      destruct (walk_create_fresh caller rest _ _ _ Hg eq_refl) as (t2 & d2 & Hw & Hg2 & He2).
      rewrite Hw in H. simplify_eq. split; [done|]. exists d2. by rewrite <-app_assoc in Hg2.
Qed.

(** An upload that is refused leaves the tree exactly as it was. *)
Lemma begin_upload_err p pl now lease bs c t t' e :
  begin_upload p pl now lease bs c t = (t', Err e) → t' = t.
Proof.
  unfold begin_upload. intros [H|(? & ps & [Hp ->]%lift_ok_inv & H)]%bind_err_inv;
    [unfold lift in H; congruence|].
  apply bind_err_inv in H as [H|(? & ? & [Hne ->]%ensure_ok_inv & H)].
  { unfold ensure in H. case_match; unfold mret, M_ret, raise in H; congruence. }
  apply bind_err_inv in H as [H|(t1 & [] & Hw & H)].
  { apply walk_create_cases in H as [->|[? _]]; [done|congruence]. }
  apply bind_err_inv in H as [H|(t2 & d & Hd & H)].
  - apply walk_create_cases in Hw as [->|[_ (d & Hg & _)]].
    + unfold dir_at, asks in H. congruence.
    + simpl in Hg. rewrite (dir_at_ok _ _ _ Hg) in H. congruence.
  - apply dir_at_inv in Hd as [-> Hd].
    assert (t' = t1 ∧ dict_get (last_str ps) (children d) ≠ None) as [-> Hne'].
    { revert H. unfold mbind, M_bind, raise, set_child, modify, mret, M_ret.
      repeat case_match; intros; simplify_eq; split; congruence. }
    apply walk_create_cases in Hw as [->|[_ (d' & Hg & He)]]; [done|].
    simpl in Hg. rewrite Hg in Hd. simplify_eq. by rewrite He in Hne'.
Qed.

Lemma begin_upload_clean Q p pl now lease bs c : moves_on_err swept Q (begin_upload p pl now lease bs c).
Proof. intros t t' e ->%begin_upload_err _. reflexivity. Qed.

(** ** Copy-on-write: after the reservation or the publication only a Python
    runtime error is possible. *)

Definition py_only {S A} (m : M S exn A) : Prop := ∀ s s' e, m s = (s', Err e) → e = PyError.

Lemma py_only_clean {A} (m : TreeM A) : py_only m → fails_clean m.
Proof. intros H s s' e Hm He. by apply H in Hm. Qed.

Lemma describe_slot_err bs s e : describe_slot bs s = Err e → e = PyError.
Proof.
  unfold describe_slot, old_block, mbind, result_bind.
  destruct (_ <? _); [destruct (py_get bs (slot_index s))|]; simpl; intros; by simplify_eq.
Qed.

Lemma describe_slots_err bs sl e : mapM (describe_slot bs) sl = Err e → e = PyError.
Proof.
  revert e. induction sl as [|s sl IH]; intros e; simpl; [done|].
  unfold mbind, result_bind. destruct (describe_slot bs s) eqn:E.
  - destruct (mapM _ sl); intros; simplify_eq/=; auto.
  - intros; simplify_eq. by eapply describe_slot_err.
Qed.

Lemma publish_err bs l rep bs' e : publish bs l rep = (bs', Err e) → e = PyError.
Proof.
  revert bs rep. induction l as [|[s [[[i b] k] z]] l IH]; intros bs rep; simpl; [done|].
  destruct (_ <? _); [|apply IH]. repeat case_match; try apply IH; by intros [= _ <-].
Qed.

Lemma py_only_modify_bind {A} (f : TreeState → TreeState) (k : unit → TreeM A) :
  py_only (k tt) → py_only (mbind k (modify f)).
Proof. intros Hk s s' e H. by apply Hk in H. Qed.

Lemma py_only_bind_lift {A B} (r : result exn A) (k : A → TreeM B) :
  (∀ e, r = Err e → e = PyError) → (∀ a, py_only (k a)) → py_only (mbind k (lift r)).
Proof.
  intros Hr Hk s s' e. unfold mbind, M_bind, lift. destruct r; [apply Hk|].
  intros [= _ <-]. auto.
Qed.

Lemma py_only_ret {A} (a : A) : py_only (S:=TreeState) (mret a).
Proof. by intros s s' e. Qed.

Lemma begin_write_clean p w i e o l pr now ls d c :
  fails_clean (begin_write p w i e o l pr now ls d c).
Proof.
  unfold begin_write. do 10 (apply moves_on_err_bind; [apply _|solve [auto with dfs]|intros ?]).
  apply py_only_clean, py_only_modify_bind, py_only_bind_lift; [apply describe_slots_err|].
  intros; apply py_only_ret.
Qed.

Lemma commit_write_clean p w i e cf now c : fails_clean (commit_write p w i e cf now c).
Proof.
  unfold commit_write. do 9 (apply moves_on_err_bind; [apply _|solve [auto with dfs]|intros ?]).
  apply moves_on_err_bind; [apply _|auto with dfs|intros parts].
  apply py_only_clean, py_only_modify_bind, py_only_bind_lift.
  - intros e' H. destruct (publish _ _ _) eqn:E. simpl in H. subst. by eapply publish_err.
  - intros. by apply py_only_modify_bind, py_only_modify_bind, py_only_ret.
Qed.

#[export] Hint Resolve make_dir_clean remove_dir_clean remove_file_clean acquire_lock_clean
  renew_lock_clean release_lock_clean chmod_clean create_user_clean change_password_clean
  confirm_block_clean complete_upload_clean abort_upload_clean abort_write_clean
  update_block_replicas_clean chown_clean begin_upload_clean begin_write_clean
  commit_write_clean : dfs.

(** A bind whose continuation returns: its errors are those of the first step. *)
Lemma clean_then_ret {A B} (m : TreeM A) (f : A → B) :
  fails_clean m → fails_clean (a ← m; mret (f a)).
Proof.
  intros Hm s s' e [H|(s1 & a & H1 & H)]%bind_err_inv He; [eauto|].
  unfold mret, M_ret in H. congruence.
Qed.

Lemma run_command_clean c : fails_clean (run_command c).
Proof.
  destruct c; simpl; unfold as_none, as_blocks;
    first [apply clean_then_ret|apply py_only_clean; intros s s' e; unfold raise; congruence];
    auto with dfs.
Qed.

(** Which domain errors each command of the log can answer. *)

Definition errors_of (c : command) : list exn :=
  match c with
  | CMakeDir _ _ => [InvalidPathError; PathExistsError; PathNotFoundError; NotADirectoryError; AccessDeniedError]
  | CRemoveDir _ _ => [InvalidPathError; PathNotFoundError; NotADirectoryError; NotEmptyError; AccessDeniedError]
  | CRemoveFile _ _ _ =>
      [InvalidPathError; PathNotFoundError; NotADirectoryError; NotAFileError; ConflictError; AccessDeniedError]
  | CBeginUpload _ _ _ _ _ _ => [InvalidPathError; NotADirectoryError; PathExistsError; AccessDeniedError]
  | CConfirmBlock _ _ _ _ _ _ _ | CCompleteUpload _ _ | CChmod _ _ _ | CChown _ _ _ _ =>
      [InvalidPathError; PathNotFoundError; AccessDeniedError]
  | CAbortUpload _ _ => [InvalidPathError; PathNotFoundError; NotADirectoryError; AccessDeniedError]
  | CAcquireLock _ _ _ _ _ _ _ | CBeginWrite _ _ _ _ _ _ _ _ _ _ _ | CCommitWrite _ _ _ _ _ _ _ =>
      [InvalidPathError; PathNotFoundError; ConflictError; AccessDeniedError]
  | CRenewLock _ _ _ _ | CReleaseLock _ _ _ | CUpdateBlockReplicas _ _ _ _ =>
      [InvalidPathError; PathNotFoundError; ConflictError]
  | CAbortWrite _ _ _ _ => [InvalidPathError; ConflictError]
  | CCreateUser _ _ _ _ _ => [InvalidPathError; PathExistsError]
  | CChangePassword _ _ _ => [PathNotFoundError]
  | CRaw _ => []
  end.

(** Every error of [m] satisfies [Q]. *)
Definition raises {S E A} (Q : E → Prop) (m : M S E A) : Prop := ∀ s s' e, m s = (s', Err e) → Q e.

Section rules.
Context {S E : Type} (Q : E → Prop).

Lemma raises_bind {A B} (m : M S E A) (f : A → M S E B) :
  raises Q m → (∀ a, raises Q (f a)) → raises Q (mbind f m).
Proof. intros Hm Hf s s' e [H|(s1 & a & _ & H)]%bind_err_inv; [by eapply Hm|by eapply Hf]. Qed.
Lemma raises_ret {A} (a : A) : raises (S:=S) Q (mret a).
Proof. by intros s s' e. Qed.
Lemma raises_raise {A} e : Q e → raises (S:=S) (A:=A) Q (raise e).
Proof. intros He s s' e' [= _ <-]. done. Qed.
Lemma raises_gets {A} (f : S → A) : raises Q (gets f).
Proof. by intros s s' e. Qed.
Lemma raises_modify (f : S → S) : raises Q (modify f).
Proof. by intros s s' e. Qed.
Lemma raises_lift {A} (r : result E A) : (∀ e, r = Err e → Q e) → raises (S:=S) Q (lift r).
Proof. intros Hr s s' e [= _ ->]. auto. Qed.
Lemma raises_asks {A} (f : S → result E A) : (∀ s e, f s = Err e → Q e) → raises Q (asks f).
Proof. intros Hf s s' e [= _ H]. eauto. Qed.
Lemma raises_ensure b e : Q e → raises (S:=S) Q (ensure b e).
Proof. intros He. destruct b; [apply raises_ret|by apply raises_raise]. Qed.
End rules.

Lemma raises_mono {S E A} (Q Q' : E → Prop) (m : M S E A) : raises Q m → (∀ e, Q e → Q' e) → raises Q' m.
Proof. intros Hm HQ s s' e Hs. eauto. Qed.

(** Errors of the list, or a Python error. *)
Definition among (l : list exn) (e : exn) : Prop := e ∈ l ∨ e = PyError.

Lemma among_in e l : bool_decide (e ∈ l) = true → among l e.
Proof. intros H%bool_decide_eq_true. by left. Qed.
Lemma among_py l : among l PyError.
Proof. by right. Qed.

Section pieces.
Context (l : list exn).
Notation ok := (raises (among l)).
Notation has e := (bool_decide (e ∈ l) = true).

Lemma parts_raises vp : has InvalidPathError → ok (lift (S:=TreeState) (parts_of vp)).
Proof.
  intros Hl. apply raises_lift. unfold parts_of. intros e. case_match; [|done].
  intros [= <-]. by apply among_in.
Qed.
Lemma canonical_raises vp : has InvalidPathError → ok (lift (S:=TreeState) (canonical_path vp)).
Proof.
  intros Hl. apply raises_lift. unfold canonical_path, parts_of, mbind, result_bind.
  intros e. repeat case_match; intros; simplify_eq; by apply among_in.
Qed.
Lemma require_raises n c w : has AccessDeniedError → ok (require n c w).
Proof.
  intros Hl. apply raises_lift. unfold _require, require_r. intros e. case_match; [done|].
  intros [= <-]. by apply among_in.
Qed.
Lemma walk_raises ps : has PathNotFoundError → has NotADirectoryError → ok (_walk_to_parent ps).
Proof.
  intros H1 H2. apply raises_asks. intros t. generalize (t_root t) as d. induction ps as [|x ps IH]; intros d e; simpl; [done|].
  destruct (dict_get x (children d)) as [[f|c]|]; [intros [= <-]; by apply among_in|apply IH|intros [= <-]; by apply among_in].
Qed.
Lemma dir_at_raises ps : ok (dir_at ps).
Proof. apply raises_asks. intros t e. repeat case_match; intros [= <-]; apply among_py. Qed.
Lemma committed_raises vp :
  has InvalidPathError → has PathNotFoundError → ok (_get_committed_file vp).
Proof.
  intros H1 H2. apply raises_asks. intros t e. unfold committed_file, parts_of, mbind, result_bind.
  repeat case_match; intros; simplify_eq; by apply among_in.
Qed.
Lemma pending_raises vp : has InvalidPathError → has PathNotFoundError → ok (_get_pending_file vp).
Proof.
  intros H1 H2. unfold _get_pending_file. apply raises_bind; [by apply parts_raises|]. intros ps.
  apply raises_bind; [apply raises_gets|]. intros n.
  repeat case_match; (apply raises_ret || by apply raises_raise, among_in).
Qed.
Lemma visible_raises vp : has InvalidPathError → has PathNotFoundError → ok (_get_visible_node vp).
Proof.
  intros H1 H2. unfold _get_visible_node. apply raises_bind; [by apply parts_raises|]. intros ps.
  apply raises_bind; [apply raises_gets|]. intros n.
  repeat case_match; (apply raises_ret || by apply raises_raise, among_in).
Qed.
Lemma write_lock_raises c id now : has ConflictError → ok (_require_write_lock c id now).
Proof.
  intros H1. unfold _require_write_lock. apply raises_bind; [apply raises_modify|]. intros _.
  apply raises_bind; [apply raises_gets|]. intros ls. destruct (ls !! c).
  - by apply raises_ensure, among_in.
  - by apply raises_raise, among_in.
Qed.
Lemma reservation_raises w c e : has e → ok (find_reservation w c e).
Proof.
  intros H1. unfold find_reservation. apply raises_bind; [apply raises_gets|]. intros ws.
  repeat case_match; (apply raises_ret || by apply raises_raise, among_in).
Qed.
Lemma cleanup_writes_raises now : ok (_cleanup_expired_writes now).
Proof. unfold _cleanup_expired_writes. destruct now; [apply raises_modify|apply raises_ret]. Qed.
Lemma plan_raises sz bs o n : has InvalidPathError → ok (lift (S:=TreeState) (plan_write_slots sz bs o n)).
Proof.
  intros H1. apply raises_lift. unfold plan_write_slots. intros e.
  repeat case_match; intros; simplify_eq; (by apply among_in) || apply among_py.
Qed.
Lemma describe_raises bs sl : ok (lift (S:=TreeState) (mapM (describe_slot bs) sl)).
Proof. apply raises_lift. intros e ->%describe_slots_err. apply among_py. Qed.
Lemma publish_raises bs z : ok (lift (S:=TreeState) (publish bs z []).2).
Proof.
  apply raises_lift. intros e H. destruct (publish bs z []) eqn:E. simpl in H. subst.
  apply publish_err in E as ->. apply among_py.
Qed.
Lemma walk_create_raises c p r b : has NotADirectoryError → has AccessDeniedError → ok (walk_create c p r b).
Proof.
  intros H1 H2. revert p b. induction r as [|x r IH]; intros p b; simpl.
  - apply raises_bind; [apply dir_at_raises|]. intros d. destruct b; [apply raises_ret|by apply require_raises].
  - apply raises_bind; [apply dir_at_raises|]. intros d. case_match; [case_match|].
    + by apply raises_raise, among_in.
    + apply IH.
    + apply raises_bind; [destruct b; [apply raises_ret|by apply require_raises]|]. intros _.
      apply raises_bind; [apply raises_modify|]. intros _. apply IH.
Qed.
End pieces.

(** One step through a method, by its head. *)
Ltac raises_step :=
  match goal with
  | |- raises _ (mbind _ _) => apply raises_bind; [|intros ?]
  | |- raises _ (mret _) => apply raises_ret
  | |- raises _ (raise _) => apply raises_raise; first [by apply among_in|apply among_py]
  | |- raises _ (ensure _ _) => apply raises_ensure; by apply among_in
  | |- raises _ (gets _) => apply raises_gets
  | |- raises _ (modify _) => apply raises_modify
  | |- raises _ (set_child _ _ _) => apply raises_modify
  | |- raises _ (del_child _ _) => apply raises_modify
  | |- raises _ (set_file _ _) => apply raises_modify
  | |- raises _ (put_holder _ _ _ _ _ _) => apply raises_modify
  | |- raises _ (_cleanup_expired_locks _ _) => apply raises_modify
  | |- raises _ (_cleanup_expired_writes _) => apply cleanup_writes_raises
  | |- raises _ (lift (parts_of _)) => by apply parts_raises
  | |- raises _ (lift (canonical_path _)) => by apply canonical_raises
  | |- raises _ (lift (plan_write_slots _ _ _ _)) => by apply plan_raises
  | |- raises _ (lift (mapM (describe_slot _) _)) => apply describe_raises
  | |- raises _ (lift (publish _ _ _).2) => apply publish_raises
  | |- raises _ (require _ _ _) => by apply require_raises
  | |- raises _ (_walk_to_parent _) => by apply walk_raises
  | |- raises _ (walk_create _ _ _ _) => by apply walk_create_raises
  | |- raises _ (dir_at _) => apply dir_at_raises
  | |- raises _ (_get_committed_file _) => by apply committed_raises
  | |- raises _ (_get_pending_file _) => by apply pending_raises
  | |- raises _ (_require_upload_owner _ _) => apply raises_ensure; by apply among_in
  | |- raises _ (_get_visible_node _) => by apply visible_raises
  | |- raises _ (_require_write_lock _ _ _) => by apply write_lock_raises
  | |- raises _ (find_reservation _ _ _) => by apply reservation_raises
  | |- raises _ (match _ with _ => _ end) => progress case_match
  end.

Lemma run_command_raises c : raises (among (errors_of c)) (run_command c).
Proof.
  destruct c; cbn [run_command errors_of]; unfold as_none, as_blocks, make_dir, remove_dir, remove_file,
    begin_upload, confirm_block, complete_upload, abort_upload, acquire_lock, renew_lock, release_lock,
    update_block_replicas, begin_write, commit_write, abort_write, create_user, change_password, chmod, chown;
    cbv zeta; repeat raises_step.
Qed.

(** The methods that only read. *)

Lemma list_dir_raises l p c :
  forallb (λ e, bool_decide (e ∈ l)) [InvalidPathError; PathNotFoundError; NotADirectoryError; AccessDeniedError] = true →
  raises (among l) (list_dir p c).
Proof.
  simpl. rewrite !andb_true_iff. intros (H1 & H2 & H3 & H4 & _). unfold list_dir. repeat raises_step.
Qed.
Lemma list_blocks_raises l p c :
  forallb (λ e, bool_decide (e ∈ l)) [InvalidPathError; PathNotFoundError; AccessDeniedError] = true →
  raises (among l) (list_blocks p c).
Proof. simpl. rewrite !andb_true_iff. intros (H1 & H2 & H3 & _). unfold list_blocks. repeat raises_step. Qed.
Lemma write_layout_raises l p d c :
  forallb (λ e, bool_decide (e ∈ l)) [InvalidPathError; PathNotFoundError; AccessDeniedError] = true →
  raises (among l) (write_layout p d c).
Proof. simpl. rewrite !andb_true_iff. intros (H1 & H2 & H3 & _). unfold write_layout. repeat raises_step. Qed.
Lemma pending_blocks_raises l p : raises (among l) (pending_blocks p).
Proof.
  intros t t' e. unfold pending_blocks. destruct (_get_pending_file p t) as [t1 [f|x]] eqn:E; [done|].
  apply (pending_raises [InvalidPathError; PathNotFoundError] p eq_refl eq_refl) in E as [He|He].
  - rewrite !elem_of_cons in He. destruct He as [->|[->|He]]; [done..|by apply not_elem_of_nil in He].
  - subst x. intros [= _ <-]. apply among_py.
Qed.

Lemma domain_or_py e : e ≠ PyError → e ∈ domain_errors.
Proof. intros He. apply (bool_decide_unpack _). by destruct e. Qed.
Lemma errors_of_domain c : PyError ∉ errors_of c.
Proof. apply (bool_decide_unpack _). by destruct c. Qed.

(** What the leader hears of a command that was not seen before. *)
Lemma apply_fresh_error key c s s' class :
  dict_get key (applied_ops s) = None → apply key c s = (s', OutError class) →
  ∃ e, class = class_name e ∧ (e ∈ errors_of c ∨ e = DFShaError ∨ (∃ m, c = CRaw m) ∧ e = InvalidPathError).
Proof.
  unfold apply, dispatch. intros ->. case_bool_decide.
  - destruct (run_command c (tree s)) as [t [v|e]] eqn:E; simpl; [done|]. intros [= _ <-].
    apply run_command_raises in E as [He|He].
    + unfold is_domain. exists e. rewrite bool_decide_true; [auto|].
      apply domain_or_py. intros ->. by apply errors_of_domain in He.
    + subst e. exists DFShaError. auto.
  - intros [= _ <-]. exists InvalidPathError. split; [done|]. right. right. split; [|done].
    destruct c; try (by exfalso; match goal with H : _ ∉ _ |- _ => apply H; simpl; set_solver end). eauto.
Qed.
