(* ===== verification/TreeOps.v ===== *)
(** What each method of the tree did when it returned: the checks that passed
    and the state it left, in terms of the helpers.  The invariant, the
    authorisation theorem and the specification are proved from these.  Begin and commit of a
    write, with their cases, come last. *)

From S2P Require Import Prelude Exceptions Dict Paths TreeData Tree TreeFacts Replicated TreeErrors.

Open Scope Z_scope.

(** The two updates of a directory's dict. *)
Notation add_child p x c :=
  (alter_tree p (on_dir (λ d, with_children (dict_set x c (children d)) d))).
Notation drop_child p x :=
  (alter_tree p (on_dir (λ d, with_children (dict_del x (children d)) d))).
Notation put_file p f := (alter_tree p (on_file (λ _, f))).

(** The canonical path is in its last component's parent directory. *)
Definition parent_dir (t : TreeState) (ps : list string) (d : DirNode) : Prop :=
  ps ≠ [] ∧ _get_node (init_of ps) t = Some (DirN d).

Lemma parent_dir_get t ps d :
  parent_dir t ps d → _get_node ps t = dict_get (last_str ps) (children d).
Proof.
  intros [Hne Hg]. unfold _get_node in *.
  rewrite <-(init_last_str ps Hne) at 1. by rewrite node_get_snoc, Hg.
Qed.

Ltac inv_step H :=
  first
  [ lazymatch type of H with
    | _walk_to_parent _ _ = (_, Ok _) => apply walk_to_parent_inv in H as [-> H]
    | dir_at _ _ = (_, Ok _) => apply dir_at_inv in H as [-> H]
    | require _ _ _ _ = (_, Ok _) => apply require_inv in H as [H ->]
    | _require_upload_owner _ _ _ = (_, Ok _) => apply ensure_ok_inv in H as [H ->]
    | _get_committed_file _ _ = (_, Ok _) =>
        let ps := fresh "ps" in let Hps := fresh "Hps" in let Hst := fresh "Hst" in
        apply get_committed_file_inv in H as (-> & ps & Hps & H & Hst)
    | _get_pending_file _ _ = (_, Ok _) =>
        let ps := fresh "ps" in let Hps := fresh "Hps" in let Hst := fresh "Hst" in
        apply get_pending_file_inv in H as (-> & ps & Hps & H & Hst)
    | _get_visible_node _ _ = (_, Ok _) =>
        let ps := fresh "ps" in let Hps := fresh "Hps" in let Hst := fresh "Hst" in
        apply get_visible_node_inv in H as (-> & ps & Hps & H & Hst)
    | set_child _ _ _ _ = (_, Ok _) => unfold set_child, modify in H
    | del_child _ _ _ = (_, Ok _) => unfold del_child, modify in H
    | set_file _ _ _ = (_, Ok _) => unfold set_file, modify in H
    | put_holder _ _ _ _ _ _ _ = (_, Ok _) => unfold put_holder, modify in H
    | _cleanup_expired_locks _ _ _ = (_, Ok _) => unfold _cleanup_expired_locks, modify in H
    end ].

(** [ok_inv H]: opens every bind of a computation that returned. *)
Ltac ok_inv H :=
  lazymatch type of H with
  | mbind _ _ _ = (_, Ok _) =>
      let s1 := fresh "t" in let a := fresh "a" in let H1 := fresh "Hs" in
      apply bind_ok_inv in H as (s1 & a & H1 & H); ok_inv H1; ok_inv H
  | ensure _ _ _ = (_, Ok _) => apply ensure_ok_inv in H as [H ->]
  | lift _ _ = (_, Ok _) => apply lift_ok_inv in H as [H ->]
  | asks _ _ = (_, Ok _) => apply asks_ok_inv in H as [H ->]
  | gets _ _ = (_, Ok _) => unfold gets in H; simplify_eq
  | modify _ _ = (_, Ok _) => unfold modify in H; simplify_eq
  | mret _ _ = (_, Ok _) => unfold mret, M_ret in H; simplify_eq
  | raise _ _ = (_, Ok _) => unfold raise in H; discriminate H
  | match ?x with _ => _ end _ = (_, Ok _) =>
      let E := fresh "E" in destruct x eqn:E; ok_inv H
  | _ => try (inv_step H; simplify_eq)
  end.

(** Replaces a canonical path by [path_of] of its components. *)
Ltac canon :=
  repeat match goal with
  | H : canonical_path _ = Ok _ |- _ =>
      let qs := fresh "qs" in let Hq := fresh "Hq" in let Hok := fresh "Hok" in
      apply canonical_path_inv in H as (qs & Hq & Hok & ->)
  | H : parts_of (path_of ?qs) = Ok _, Hok : Forall comp_ok ?qs |- _ =>
      rewrite (parts_of_path_of qs Hok) in H; simplify_eq
  | H1 : parts_of ?x = Ok ?a, H2 : parts_of ?x = Ok ?b |- _ =>
      assert (b = a) by congruence; subst b; clear H2
  end.

Ltac tidy :=
  rewrite ?andb_true_iff, ?negb_true_iff, ?bool_decide_eq_true, ?Z.ltb_lt, ?Z.eqb_eq in *;
  canon; destruct_and?; simplify_eq/=.

Lemma make_dir_inv vp c t t' u :
  make_dir vp c t = (t', Ok u) →
  ∃ ps d, parts_of vp = Ok ps ∧ parent_dir t ps d ∧ _allows (DirN d) c W = true ∧
    dict_get (last_str ps) (children d) = None ∧
    t' = add_child (init_of ps) (last_str ps) (new_dir c) t.
Proof.
  unfold make_dir. intros H. ok_inv H. tidy. exists a, a1. split_and!; try done.
  unfold dict_has in *. by destruct (dict_get _ _).
Qed.

Lemma remove_dir_inv vp c t t' u :
  remove_dir vp c t = (t', Ok u) →
  ∃ ps d e, parts_of vp = Ok ps ∧ parent_dir t ps d ∧ _allows (DirN d) c W = true ∧
    dict_get (last_str ps) (children d) = Some (DirN e) ∧ children e = [] ∧
    t' = drop_child (init_of ps) (last_str ps) t.
Proof.
  unfold remove_dir. intros H. ok_inv H. tidy. exists a, a1, d. split_and!; done.
Qed.

Lemma remove_file_inv vp now c t t' bs :
  remove_file vp now c t = (t', Ok bs) →
  ∃ ps d f, parts_of vp = Ok ps ∧ parent_dir t ps d ∧ _allows (DirN d) c W = true ∧
    dict_get (last_str ps) (children d) = Some (FileN f) ∧ f_state f = Committed ∧
    cleanup_locks (path_of ps) now (t_locks t) !! path_of ps = None ∧ bs = blocks f ∧
    t' = drop_child (init_of ps) (last_str ps)
           (with_locks (cleanup_locks (path_of ps) now (t_locks t)) t).
Proof.
  unfold remove_file. intros H. ok_inv H. tidy. exists a, a1, f. split_and!; done.
Qed.

Lemma acquire_lock_inv vp id o m now l c t t' r :
  acquire_lock vp id o m now l c t = (t', Ok r) →
  ∃ ps f h, parts_of vp = Ok ps ∧ _get_node ps t = Some (FileN f) ∧ f_state f = Committed ∧
    (m = "r" ∨ m = "w") ∧ 0 < l ∧ r = id ∧
    _allows (FileN f) c (if decide (m = "r") then R else W) = true ∧
    h !! id = None ∧
    (cleanup_locks (path_of ps) (Some now) (t_locks t) !! path_of ps = None ∧ h = ∅ ∨
     m = "r" ∧ cleanup_locks (path_of ps) (Some now) (t_locks t) !! path_of ps = Some (mkLock "r" h)) ∧
    t' = with_locks (<[path_of ps := mkLock m (<[id := (o, now + l)]> h)]>
                       (cleanup_locks (path_of ps) (Some now) (t_locks t))) t.
Proof.
  unfold acquire_lock. intros H. ok_inv H; tidy.
  - match goal with E : _ !! _ = Some ?st |- _ => destruct st as [lm h]; simplify_eq/= end.
    eexists _, _, h. split_and!; eauto.
  - eexists _, _, ∅. split_and!; eauto.
Qed.

Lemma renew_lock_inv vp id now l t t' u :
  renew_lock vp id now l t = (t', Ok u) →
  ∃ ps f st o x, parts_of vp = Ok ps ∧ _get_node ps t = Some (FileN f) ∧
    f_state f = Committed ∧ 0 < l ∧
    cleanup_locks (path_of ps) (Some now) (t_locks t) !! path_of ps = Some st ∧
    holders st !! id = Some (o, x) ∧
    t' = with_locks (<[path_of ps := mkLock (l_mode st) (<[id := (o, now + l)]> (holders st))]>
                       (cleanup_locks (path_of ps) (Some now) (t_locks t))) t.
Proof.
  unfold renew_lock. intros H. ok_inv H; tidy. eexists _, _, _, _, _. split_and!; eauto.
Qed.

Lemma release_lock_inv vp id now t t' u :
  release_lock vp id now t = (t', Ok u) →
  ∃ ps f, parts_of vp = Ok ps ∧ _get_node ps t = Some (FileN f) ∧ f_state f = Committed ∧
    let ls := cleanup_locks (path_of ps) now (t_locks t) in
    (ls !! path_of ps = None ∧ now ≠ None ∧ t' = with_locks ls t ∨
     ∃ st, ls !! path_of ps = Some st ∧ holders st !! id ≠ None ∧
       t' = with_locks (if decide (delete id (holders st) = ∅) then delete (path_of ps) ls
                        else <[path_of ps := mkLock (l_mode st) (delete id (holders st))]> ls) t).
Proof.
  unfold release_lock. intros H. ok_inv H; tidy; eexists _, _; split_and!; eauto 10.
Qed.

Lemma chmod_inv vp m c t t' u :
  chmod vp m c t = (t', Ok u) →
  ∃ ps n, parts_of vp = Ok ps ∧ _get_node ps t = Some n ∧
    (∀ f, n = FileN f → f_state f = Committed) ∧ _owner_or_admin n c = true ∧
    _valid_mode m = true ∧ t' = alter_tree ps (set_mode m) t.
Proof. unfold chmod. intros H. ok_inv H; tidy. eexists _, _. split_and!; eauto. Qed.

Lemma chown_inv vp o g c t t' u :
  chown vp o g c t = (t', Ok u) →
  ∃ ps n, parts_of vp = Ok ps ∧ _get_node ps t = Some n ∧
    (∀ f, n = FileN f → f_state f = Committed) ∧ chown_allowed n o g c = true ∧
    ¬ (o = "" ∧ g = "") ∧
    (o = "" ∨ is_Some (t_users t !! o)) ∧ (g = "" ∨ _valid_name g = true) ∧
    t' = alter_tree ps (if decide (g = "") then id else set_group g)
           (alter_tree ps (if decide (o = "") then id else set_owner o) t).
Proof.
  unfold chown. intros H. ok_inv H; tidy. eexists _, _. split_and!; eauto.
  all: rewrite <-?not_eq_None_Some; repeat match goal with
  | H : _ || _ = true |- _ => apply orb_true_iff in H
  | H : _ && _ = false |- _ => apply andb_false_iff in H
  end; rewrite ?bool_decide_eq_true, ?bool_decide_eq_false in *; tauto.
Qed.

Lemma create_user_inv u h s g a t t' x :
  create_user u h s g a t = (t', Ok x) →
  _valid_name u = true ∧ forallb _valid_name g = true ∧ t_users t !! u = None ∧
  t' = with_users (<[u := mkUser h s g a]> (t_users t)) t.
Proof. unfold create_user. intros H. ok_inv H; tidy. auto. Qed.

Lemma change_password_inv u h s t t' x :
  change_password u h s t = (t', Ok x) →
  ∃ r, t_users t !! u = Some r ∧
    t' = with_users (<[u := mkUser h s (u_groups r) (u_is_admin r)]> (t_users t)) t.
Proof. unfold change_password. intros H. ok_inv H; tidy. eauto. Qed.

Lemma placements_blocks (pl : list (string * list string)) :
  (λ b, (block_id b, datanode_addresses b)) <$>
    ((λ p : string * list string, new_block p.1 p.2) <$> pl) = pl.
Proof. induction pl as [|[b a] pl IH]; csimpl; [done|]. by rewrite IH. Qed.

Lemma begin_upload_inv vp pl now lease bs c t t' r st :
  begin_upload vp pl now lease bs c t = (t', Ok (r, st)) →
  ∃ ps t1 d, parts_of vp = Ok ps ∧ walk_create c [] (init_of ps) false t = (t1, Ok tt) ∧
    parent_dir t1 ps d ∧
    (dict_get (last_str ps) (children d) = None ∧ st = [] ∨
     ∃ f, dict_get (last_str ps) (children d) = Some (FileN f) ∧ f_state f = Pending ∧
       _lease_expired f now = true ∧ st = blocks f) ∧
    r = pl ∧
    t' = add_child (init_of ps) (last_str ps)
           (FileN (mkFile Pending ((λ p, new_block p.1 p.2) <$> pl) (lease_until now lease) 0
                     (default 0 bs) (_ownership c).1 (_ownership c).2 FILE_MODE)) t1.
Proof.
  unfold begin_upload. intros H. ok_inv H; tidy.
  all: match goal with H : walk_create _ _ _ _ _ = (_, Ok ?u) |- _ => destruct u end.
  all: eexists _, _, _; split_and!; try done; eauto 10.
  all: apply placements_blocks.
Qed.

Lemma confirm_block_inv vp b k z now lease c t t' u :
  confirm_block vp b k z now lease c t = (t', Ok u) →
  ∃ ps f bs f', parts_of vp = Ok ps ∧ _get_node ps t = Some (FileN f) ∧ f_state f = Pending ∧
    _owner_or_admin (FileN f) c = true ∧
    update_first (λ x, bool_decide (block_id x = b)) (confirm_one k z) (blocks f) = Some bs ∧
    (f' = with_blocks bs f ∨ f' = with_lease (lease_until now lease) (with_blocks bs f)) ∧
    t' = put_file ps f' t.
Proof.
  unfold confirm_block. intros H. ok_inv H; tidy.
  eexists _, _, _, _. do 5 (split; [eauto|]). split; [|reflexivity].
  repeat case_match; auto.
Qed.

Lemma complete_upload_inv vp c t t' u :
  complete_upload vp c t = (t', Ok u) →
  ∃ ps f, parts_of vp = Ok ps ∧ _get_node ps t = Some (FileN f) ∧ f_state f = Pending ∧
    _owner_or_admin (FileN f) c = true ∧ forallb confirmed (blocks f) = true ∧
    t' = put_file ps (with_state Committed f) t.
Proof. unfold complete_upload. intros H. ok_inv H; tidy. eexists _, _. split_and!; eauto. Qed.

Lemma abort_upload_inv vp c t t' u :
  abort_upload vp c t = (t', Ok u) →
  ∃ ps d f, parts_of vp = Ok ps ∧ parent_dir t ps d ∧
    dict_get (last_str ps) (children d) = Some (FileN f) ∧ f_state f = Pending ∧
    _owner_or_admin (FileN f) c = true ∧
    t' = drop_child (init_of ps) (last_str ps) t.
Proof.
  unfold abort_upload. intros H. ok_inv H; tidy. eexists _, _, _. split_and!; eauto. done.
Qed.

Lemma update_block_replicas_inv vp b e n t t' u :
  update_block_replicas vp b e n t = (t', Ok u) →
  ∃ ps f i x, parts_of vp = Ok ps ∧ _get_node ps t = Some (FileN f) ∧ f_state f = Committed ∧
    blocks f !! i = Some x ∧ block_id x = b ∧ datanode_addresses x = e ∧
    t' = put_file ps (with_blocks (<[i := set_addresses n x]> (blocks f)) f) t.
Proof.
  unfold update_block_replicas. intros H. ok_inv H; tidy.
  match goal with E : list_find _ _ = Some _ |- _ => apply list_find_Some in E as (? & ? & _) end.
  eexists _, _, _, _. split_and!; eauto.
Qed.

(** The write lock the sweep left: exclusive and held by [id]. *)
Definition holds_write (c id : string) (now : Z) (ls : gmap string LockState) : Prop :=
  ∃ st, cleanup_locks c (Some now) ls !! c = Some st ∧ l_mode st = "w" ∧
    is_Some (holders st !! id).

Lemma require_write_lock_inv c id now t t' u :
  _require_write_lock c id now t = (t', Ok u) →
  holds_write c id now (t_locks t) ∧
  t' = with_locks (cleanup_locks c (Some now) (t_locks t)) t.
Proof.
  unfold _require_write_lock. intros H. ok_inv H; tidy. split; [|done].
  eexists. split_and!; eauto. by apply not_eq_None_Some.
Qed.

Lemma cleanup_writes_inv n t t' u :
  _cleanup_expired_writes (Some n) t = (t', Ok u) →
  t' = with_writes (live_writes n (t_writes t)) t.
Proof. unfold _cleanup_expired_writes, modify. congruence. Qed.

Lemma find_reservation_inv w c e t t' r :
  find_reservation w c e t = (t', Ok r) → t' = t ∧ t_writes t !! w = Some r ∧ w_path r = c.
Proof. unfold find_reservation. intros H. ok_inv H; tidy. auto. Qed.

(** Opens the sweeps and the reservation lookup of a write. *)
Ltac write_steps :=
  repeat match goal with
  | H : _require_write_lock _ _ _ _ = (_, Ok _) |- _ =>
      apply require_write_lock_inv in H as [H ->]
  | H : _cleanup_expired_writes _ _ = (_, Ok _) |- _ => apply cleanup_writes_inv in H as ->
  | H : find_reservation _ _ _ _ = (_, Ok _) |- _ =>
      apply find_reservation_inv in H as (-> & H & ?)
  end.

Lemma begin_write_inv vp w id e o l pr now ls d c t t' r :
  begin_write vp w id e o l pr now ls d c t = (t', Ok r) →
  ∃ ps f plan rows, parts_of vp = Ok ps ∧ _get_node ps t = Some (FileN f) ∧
    f_state f = Committed ∧ _allows (FileN f) c W = true ∧
    holds_write (path_of ps) id now (t_locks t) ∧
    live_writes now (t_writes t) !! w = None ∧ version f = e ∧
    let bsz := _block_size_of f d in
    plan_write_slots (size_bytes <$> blocks f) bsz o l = Ok plan ∧
    plan.*1 = (λ p : Proposal, p.1.1) <$> pr ∧
    let sl := make_slot <$> zip plan pr in
    mapM (describe_slot (blocks f)) sl = Ok rows ∧
    r = (w, version f, bsz, rows) ∧
    t' = with_writes
           (<[w := mkReservation w (path_of ps) (version f) id bsz sl (now + ls)]>
              (live_writes now (t_writes t)))
           (with_locks (cleanup_locks (path_of ps) (Some now) (t_locks t)) t).
Proof.
  unfold begin_write. intros H. ok_inv H; tidy.
  write_steps.
  eexists _, _, _, _. split_and!; eauto.
Qed.

Lemma commit_write_inv vp w id e cf now c t t' r :
  commit_write vp w id e cf now c t = (t', Ok r) →
  ∃ ps f res bs rep, parts_of vp = Ok ps ∧ _get_node ps t = Some (FileN f) ∧
    f_state f = Committed ∧ _allows (FileN f) c W = true ∧
    live_writes now (t_writes t) !! w = Some res ∧ w_path res = path_of ps ∧
    w_lock_id res = id ∧ holds_write (path_of ps) id now (t_locks t) ∧
    e = base_version res ∧ version f = base_version res ∧
    confirmed_key <$> cf = slot_key <$> slots res ∧
    publish (blocks f) (zip (slots res) cf) [] = (bs, Ok rep) ∧
    r = (version f + 1, rep) ∧
    t' = with_writes (delete w (live_writes now (t_writes t)))
           (put_file ps (with_version (version f + 1) (w_block_size res) (with_blocks bs f))
              (put_file ps (with_blocks bs f)
                 (with_locks (cleanup_locks (path_of ps) (Some now) (t_locks t))
                    (with_writes (live_writes now (t_writes t)) t)))).
Proof.
  unfold commit_write. intros H. ok_inv H; tidy.
  write_steps.
  destruct (publish _ _ _) as [bs out] eqn:Hp. simpl in *. subst out.
  rewrite !alter_tree_writes. eexists _, _, _, _, _. split_and!; eauto.
Qed.

Lemma abort_write_inv vp w id now t t' r :
  abort_write vp w id now t = (t', Ok r) →
  ∃ ps ws, parts_of vp = Ok ps ∧ 
    ws = (match now with Some n => live_writes n (t_writes t) | None => t_writes t end) ∧
    ((r = [] ∧ t' = with_writes ws t ∧
      ∀ res, ws !! w = Some res → w_path res ≠ path_of ps) ∨
     ∃ res, ws !! w = Some res ∧ w_path res = path_of ps ∧ w_lock_id res = id ∧
       r = slot_block <$> slots res ∧ t' = with_writes (delete w ws) t).
Proof.
  unfold abort_write. intros (? & cp & [Hc ->]%lift_ok_inv & H)%bind_ok_inv.
  apply canonical_path_inv in Hc as (ps & Hps & Hok & ->). exists ps.
  eexists. split; [done|]. split; [reflexivity|]. ok_inv H; tidy.
  all: unfold _cleanup_expired_writes, modify, mret, M_ret in *; destruct now; simplify_eq/=.
  all: first [left; split_and!; [done|by repeat match goal with t : TreeState |- _ => destruct t end|intros; congruence]
    |right; eexists; split_and!; eauto].
Qed.

(** [begin_write] and [commit_write] on every branch: they may raise a Python
    runtime error after they have changed the tree, so their effect is stated
    for any answer.  Either the state is swept at most, or every check passed
    and the reservation, respectively the publication, took place. *)

Ltac err_inv H :=
  lazymatch type of H with
  | mbind _ _ _ = (_, Err _) =>
      let s1 := fresh "t" in let a := fresh "a" in let H1 := fresh "Hs" in
      apply bind_err_inv in H as [H|(s1 & a & H1 & H)]; [|ok_inv H1; err_inv H]
  | _ => idtac
  end.

(** The state after the two sweeps of a reservation, and of a commit. *)
Notation reserving c now t :=
  (with_locks (cleanup_locks c (Some now) (t_locks t)) t).
Notation committing c now t :=
  (with_locks (cleanup_locks c (Some now) (t_locks t))
     (with_writes (live_writes now (t_writes t)) t)).

Lemma committing_swept c now t : swept t (committing c now t).
Proof.
  etrans; [apply (moves_cleanup_writes (Some now) t)|].
  apply (moves_cleanup_locks c (Some now) (with_writes (live_writes now (t_writes t)) t)).
Qed.

(** What a reservation that was made checked. *)
Record reserved (vp w id : string) (o l : Z) (pr : list Proposal) (now ls d : Z)
    (c : option Caller) (t : TreeState) (ps : list string) (f : FileNode)
    (res : WriteReservation) : Prop := mkReserved {
  rsv_path : parts_of vp = Ok ps;
  rsv_file : _get_node ps t = Some (FileN f);
  rsv_committed : f_state f = Committed;
  rsv_allowed : _allows (FileN f) c W = true;
  rsv_lock : holds_write (path_of ps) id now (t_locks t);
  rsv_plan : ∃ plan, plan_write_slots (size_bytes <$> blocks f) (_block_size_of f d) o l = Ok plan ∧
    plan.*1 = (λ p : Proposal, p.1.1) <$> pr ∧
    res = mkReservation w (path_of ps) (version f) id (_block_size_of f d)
            (make_slot <$> zip plan pr) (now + ls)
}.

Lemma begin_write_cases vp w id e o l pr now ls d c t t' r :
  begin_write vp w id e o l pr now ls d c t = (t', r) →
  swept t t' ∨ ∃ ps f res, reserved vp w id o l pr now ls d c t ps f res ∧
    t' = with_writes (<[w := res]> (live_writes now (t_writes t))) (reserving (path_of ps) now t).
Proof.
  intros H. destruct r as [r|err].
  - apply begin_write_inv in H as (ps & f & plan & rows & Hp & Hg & Hf & Ha & Hl & _ & _ & Hplan & Hpr & _ & _ & ->).
    right. exists ps, f. eexists. split; [|reflexivity]. split; eauto.
  - destruct (decide (err = PyError)) as [->|He].
    2: { left. by eapply begin_write_clean. }
    unfold begin_write in H. err_inv H; tidy; write_steps.
    all: try (left; eapply (moves_inv swept); [|exact H]; solve [auto with dfs]).
    all: try (left; eapply (moves_inv swept) in H; [|solve [auto with dfs]];
      etrans; [apply (moves_cleanup_locks (path_of ps) (Some now) t)|exact H]).
    all: try (left; eapply (moves_inv swept) in H; [|solve [auto with dfs]];
      etrans; [apply (sweeps_swept (path_of ps) now t)|exact H]).
    right. apply (f_equal fst) in H. simpl in H. subst t'. exists ps, a0. eexists.
    split; [|reflexivity]. split; eauto.
Qed.

(** What a publication that took place checked. *)
Record publishing (vp w : string) (cf : list Confirmed) (now : Z) (c : option Caller)
    (t : TreeState) (ps : list string) (f : FileNode) (res : WriteReservation) : Prop := mkPublishing {
  pub_path : parts_of vp = Ok ps;
  pub_file : _get_node ps t = Some (FileN f);
  pub_committed : f_state f = Committed;
  pub_allowed : _allows (FileN f) c W = true;
  pub_write : t_writes t !! w = Some res;
  pub_lease : now < w_lease_expires_at res;
  pub_wpath : w_path res = path_of ps;
  pub_lock : holds_write (path_of ps) (w_lock_id res) now (t_locks t);
  pub_version : version f = base_version res;
  pub_slots : confirmed_key <$> cf = slot_key <$> slots res
}.

Lemma live_writes_lookup now ws w r :
  live_writes now ws !! w = Some r ↔ ws !! w = Some r ∧ now < w_lease_expires_at r.
Proof. unfold live_writes. by rewrite map_lookup_filter_Some. Qed.

Lemma commit_write_cases vp w id e cf now c t t' r :
  commit_write vp w id e cf now c t = (t', r) →
  swept t t' ∨ ∃ ps f res bs out,
    publishing vp w cf now c t ps f res ∧ publish (blocks f) (zip (slots res) cf) [] = (bs, out) ∧
    match out with
    | Err err => r = Err PyError ∧
        t' = put_file ps (with_blocks bs f) (committing (path_of ps) now t)
    | Ok rep => r = Ok (version f + 1, rep) ∧
        t' = with_writes (delete w (live_writes now (t_writes t)))
               (put_file ps (with_version (version f + 1) (w_block_size res) (with_blocks bs f))
                  (put_file ps (with_blocks bs f) (committing (path_of ps) now t)))
    end.
Proof.
  intros H. destruct r as [r|err].
  - apply commit_write_inv in H as (ps & f & res & bs & rep & Hp & Hg & Hf & Ha & [Hw Hx]%live_writes_lookup & Hwp & <- & Hl & _ & Hv & Hm & Hpub & -> & ->).
    right. exists ps, f, res, bs, (Ok rep). split_and!; [by split|done|done|done].
  - destruct (decide (err = PyError)) as [->|He].
    2: { left. by eapply commit_write_clean. }
    unfold commit_write in H. err_inv H; tidy; write_steps.
    all: try (left; eapply (moves_inv swept); [|exact H]; solve [auto with dfs]).
    all: try (exfalso; revert H; unfold ensure, raise, mret, M_ret; case_match; congruence).
    all: try (left; eapply (moves_inv swept) in H; [|solve [auto with dfs]];
      etrans; [apply (moves_cleanup_writes (Some now) t)|exact H]).
    + unfold lift in H. rewrite parts_of_path_of in H by done. congruence.
    + right. simpl in Hs3. apply live_writes_lookup in Hs3 as [Hw Hx].
      destruct (publish (blocks a0) (zip (slots a3) cf) []) as [bs out] eqn:Hpub.
      simpl in H. injection H as <- ->. exists ps, a0, a3, bs, (Err PyError).
      split_and!; [by split|done|done|done].
Qed.

(** A publication in either form changes one path of the view. *)
Lemma publishing_view t ps f bs f2 c now q :
  _get_node ps t = Some (FileN f) →
  view (put_file ps f2 (put_file ps (with_blocks bs f) (committing c now t))) q =
    if decide (q = ps) then Some (EFile f2) else view t q.
Proof.
  intros Hg. rewrite view_alter by auto with dfs. case_decide as Hq.
  - subst. assert (_get_node ps (put_file ps (with_blocks bs f) (committing c now t)) =
      Some (FileN (with_blocks bs f))) as ->; [|done].
    apply view_file. rewrite view_alter by auto with dfs. rewrite decide_True by done.
    change (_get_node ps (committing c now t)) with (_get_node ps t). by rewrite Hg.
  - rewrite view_alter by auto with dfs. by rewrite decide_False.
Qed.
