(* ===== verification/TreeInv.v ===== *)
(** The well-formedness invariant of the control tree and its preservation by
    every command of the log.  A concrete history at the end gives the
    theorems of the tree their witnesses. *)

From S2P Require Import Prelude Exceptions Dict Paths TreeData Tree TreeFacts Replicated TreeErrors TreeOps.

Open Scope Z_scope.

(** A file: a mode in range, a version that only counts up from 0, and, once
    published, no unconfirmed block. *)
Definition file_ok (f : FileNode) : Prop :=
  _valid_mode (f_mode f) = true ∧ 0 ≤ version f ∧
  (f_state f = Committed → Forall (λ b, confirmed b = true) (blocks f)).

(** A directory: a mode in range, distinct and well-formed names. *)
Inductive node_ok : node → Prop :=
| node_ok_file f : file_ok f → node_ok (FileN f)
| node_ok_dir d :
    _valid_mode (d_mode d) = true → dict_ok (children d) →
    Forall (λ kv, comp_ok kv.1) (children d) →
    Forall (λ kv, node_ok kv.2) (children d) → node_ok (DirN d).

(** A lock: somebody holds it, and an exclusive one has exactly one holder. *)
Definition lock_ok (st : LockState) : Prop :=
  holders st ≠ ∅ ∧ (l_mode st = "r" ∨ l_mode st = "w" ∧ size (holders st) = 1%nat).

(** What is locked is a published file, under its canonical path. *)
Definition lock_target (t : TreeState) (c : string) : Prop :=
  ∃ ps f, Forall comp_ok ps ∧ c = path_of ps ∧ view t ps = Some (EFile f) ∧ f_state f = Committed.

(** A reservation is stored under its own id, names a canonical path, and its
    slots are the plan of some write. *)
Definition reservation_ok (wid : string) (r : WriteReservation) : Prop :=
  write_id r = wid ∧ (∃ ps, Forall comp_ok ps ∧ w_path r = path_of ps) ∧
  ∃ sizes off len,
    plan_write_slots sizes (w_block_size r) off len =
      Ok ((λ s, (slot_index s, new_size s)) <$> slots r).

Definition user_ok (name : string) (u : UserRecord) : Prop :=
  _valid_name name = true ∧ forallb _valid_name (u_groups u) = true.

Record tree_wf (t : TreeState) : Prop := mkWf {
  wf_root : node_ok (DirN (t_root t));
  wf_locks : map_Forall (λ _ st, lock_ok st) (t_locks t);
  wf_targets : map_Forall (λ c _, lock_target t c) (t_locks t);
  wf_writes : map_Forall reservation_ok (t_writes t);
  wf_users : map_Forall user_ok (t_users t)
}.

(** * Nodes *)

Lemma node_ok_dir_inv d :
  node_ok (DirN d) → _valid_mode (d_mode d) = true ∧ dict_ok (children d) ∧
    Forall (λ kv, comp_ok kv.1) (children d) ∧ Forall (λ kv, node_ok kv.2) (children d).
Proof. inversion 1; subst. auto. Qed.
Lemma node_ok_file_inv f : node_ok (FileN f) → file_ok f.
Proof. by inversion 1. Qed.

Lemma node_ok_child x d c : node_ok (DirN d) → dict_get x (children d) = Some c → comp_ok x ∧ node_ok c.
Proof.
  intros (_ & _ & Hk & Hc)%node_ok_dir_inv Hx%dict_get_elem.
  rewrite Forall_forall in Hk, Hc. split; [apply (Hk _ Hx)|apply (Hc _ Hx)].
Qed.

Lemma node_ok_get p n m : node_ok n → node_get p n = Some m → node_ok m ∧ Forall comp_ok p.
Proof.
  revert n. induction p as [|x p IH]; intros n Hn; simpl; [naive_solver|].
  destruct n as [f|d]; [done|]. destruct (dict_get x (children d)) as [c|] eqn:E; [|done].
  destruct (node_ok_child _ _ _ Hn E) as [Hx Hc]. intros Hg. destruct (IH _ Hc Hg). auto.
Qed.

Lemma node_ok_alter p f n :
  node_ok n → (∀ m, node_get p n = Some m → node_ok m → node_ok (f m)) →
  node_ok (node_alter p f n).
Proof.
  revert n. induction p as [|x p IH]; intros n Hn Hf; simpl in *; [auto|].
  destruct n as [g|d]; [done|].
  apply node_ok_dir_inv in Hn as (Hm & Hd & Hk & Hc). constructor; simpl.
  - done.
  - by apply dict_ok_alter.
  - apply dict_Forall_alter; auto.
  - apply dict_Forall_alter; [done|]. intros v Hv Hok. simpl in *. rewrite Hv in Hf. auto.
Qed.

Lemma node_ok_set_child x c n :
  comp_ok x → node_ok c → node_ok n →
  node_ok (on_dir (λ d, with_children (dict_set x c (children d)) d) n).
Proof.
  intros Hx Hc Hn. destruct n as [f|d]; [done|]. simpl.
  apply node_ok_dir_inv in Hn as (Hm & Hd & Hk & Hch).
  constructor; simpl; [done|auto with dfs| |]; by apply dict_Forall_set.
Qed.

Lemma node_ok_del_child x n :
  node_ok n → node_ok (on_dir (λ d, with_children (dict_del x (children d)) d) n).
Proof.
  intros Hn. destruct n as [f|d]; [done|]. simpl.
  apply node_ok_dir_inv in Hn as (Hm & Hd & Hk & Hch).
  constructor; simpl; [done|auto with dfs| |]; by apply dict_Forall_del.
Qed.

Lemma node_ok_new_dir c : node_ok (new_dir c).
Proof. by constructor; constructor. Qed.

(** * Parts of the invariant *)

(** Two states whose published files sit at the same paths. *)
Definition keeps_targets (t t' : TreeState) : Prop :=
  ∀ q f, view t q = Some (EFile f) → f_state f = Committed → is_Some (t_locks t' !! path_of q) →
    ∃ f', view t' q = Some (EFile f') ∧ f_state f' = Committed.

Lemma lock_target_keeps t t' c :
  keeps_targets t t' → is_Some (t_locks t' !! c) → lock_target t c → lock_target t' c.
Proof.
  intros Hk Hc (ps & f & Hok & -> & Hv & Hs). destruct (Hk _ _ Hv Hs Hc) as (f' & Hv' & Hs').
  exists ps, f'. auto.
Qed.

Lemma keeps_targets_same t t' : (∀ q, view t' q = view t q) → keeps_targets t t'.
Proof. intros H q f Hv Hs _. exists f. by rewrite H. Qed.

Lemma size_sub_singleton (h h' : gmap string (string * Z)) :
  h' ⊆ h → size h = 1%nat → h' ≠ ∅ → size h' = 1%nat.
Proof.
  intros Hsub Hs Hne. pose proof (map_subseteq_size _ _ Hsub).
  destruct (size h') as [|n] eqn:E; [by apply map_size_empty_iff in E|lia].
Qed.

Lemma lock_ok_sub st st' :
  lock_ok st → l_mode st' = l_mode st → holders st' ⊆ holders st → holders st' ≠ ∅ → lock_ok st'.
Proof.
  intros [Hne Hm] Hmode Hsub Hne'. split; [done|]. rewrite Hmode.
  destruct Hm as [|[? ?]]; [auto|]. right. split; [done|]. eauto using size_sub_singleton.
Qed.

Lemma wf_swept t t' : tree_wf t → swept t t' → tree_wf t'.
Proof.
  intros [Hr Hl Ht Hw Hu] Hs. pose proof (swept_view t t') as Hv.
  destruct Hs as [Sr Su Sw Sl]. split.
  - by rewrite Sr.
  - intros c st Hst. destruct (Sl _ _ Hst) as (st0 & H0 & Hm & Hh & Hn).
    specialize (Hl _ _ H0). eapply lock_ok_sub; [done..|]. apply Hn. by destruct Hl.
  - intros c st Hst. destruct (Sl _ _ Hst) as (st0 & H0 & _).
    eapply lock_target_keeps; [|by eexists|by eapply Ht].
    apply keeps_targets_same. intros q. apply Hv. by split.
  - intros w r Hr'. eapply Hw. by eapply lookup_weaken.
  - by rewrite Su.
Qed.

(** An update of the tree at a path. *)
Lemma wf_alter p f t :
  tree_wf t → dir_stable f →
  (∀ m, _get_node p t = Some m → node_ok m → node_ok (f m)) →
  keeps_targets t (alter_tree p f t) → tree_wf (alter_tree p f t).
Proof.
  intros [Hr Hl Ht Hw Hu] Hst Hf Hk.
  split; rewrite ?alter_tree_locks, ?alter_tree_writes, ?alter_tree_users; try done.
  - rewrite alter_tree_root by done. by apply node_ok_alter.
  - intros c st Hc. eapply lock_target_keeps; [done|by rewrite alter_tree_locks; eexists|].
    by eapply Ht.
Qed.

Lemma wf_cleanup_locks c now t :
  tree_wf t → tree_wf (with_locks (cleanup_locks c now (t_locks t)) t).
Proof. intros Hwf. eapply wf_swept; [done|]. apply (moves_cleanup_locks c now t). Qed.

Lemma wf_live_writes n t : tree_wf t → tree_wf (with_writes (live_writes n (t_writes t)) t).
Proof. intros Hwf. eapply wf_swept; [done|]. apply (moves_cleanup_writes (Some n) t). Qed.

Lemma wf_delete_write w t : tree_wf t → tree_wf (with_writes (delete w (t_writes t)) t).
Proof.
  intros Hwf. eapply wf_swept; [done|]. split; [done|done|apply delete_subseteq|].
  intros c st H. eauto 10.
Qed.

Lemma wf_with_writes ws t :
  tree_wf t → map_Forall reservation_ok ws → tree_wf (with_writes ws t).
Proof. intros [Hr Hl Ht Hw Hu] Hok. by split. Qed.

Lemma wf_insert_write w r t :
  tree_wf t → reservation_ok w r → tree_wf (with_writes (<[w := r]> (t_writes t)) t).
Proof. intros [Hr Hl Ht Hw Hu] Hok. split; try done. by apply map_Forall_insert_2. Qed.

Lemma wf_insert_lock ps f st t :
  tree_wf t → lock_ok st → _get_node ps t = Some (FileN f) → f_state f = Committed →
  tree_wf (with_locks (<[path_of ps := st]> (t_locks t)) t).
Proof.
  intros [Hr Hl Ht Hw Hu] Hok Hg Hs. split; try done; simpl; apply map_Forall_insert_2; try done.
  exists ps, f. split_and!; [|done|by apply view_file|done].
  by destruct (node_ok_get _ _ _ Hr Hg).
Qed.

Lemma wf_insert_swept_lock ps f st now t :
  tree_wf t → lock_ok st → _get_node ps t = Some (FileN f) → f_state f = Committed →
  tree_wf (with_locks (<[path_of ps := st]> (cleanup_locks (path_of ps) now (t_locks t))) t).
Proof.
  intros Hwf Hok Hg Hs.
  exact (wf_insert_lock ps f st (with_locks (cleanup_locks (path_of ps) now (t_locks t)) t)
           (wf_cleanup_locks _ _ _ Hwf) Hok Hg Hs).
Qed.

Lemma wf_delete_lock c t : tree_wf t → tree_wf (with_locks (delete c (t_locks t)) t).
Proof.
  intros [Hr Hl Ht Hw Hu]. split; try done; simpl; by apply map_Forall_delete.
Qed.

Lemma wf_insert_user n u t :
  tree_wf t → user_ok n u → tree_wf (with_users (<[n := u]> (t_users t)) t).
Proof. intros [Hr Hl Ht Hw Hu] Hok. split; try done. by apply map_Forall_insert_2. Qed.

Lemma wf_node t ps n : tree_wf t → _get_node ps t = Some n → node_ok n.
Proof. intros Hwf Hg. by destruct (node_ok_get _ _ _ (wf_root _ Hwf) Hg). Qed.

Lemma wf_parent t ps d : tree_wf t → parent_dir t ps d → dict_ok (children d).
Proof. intros Hwf [_ Hg]. by destruct (node_ok_dir_inv d (wf_node _ _ _ Hwf Hg)) as (_ & ? & _). Qed.

(** Adding a leaf where there was nothing, or an unpublished file. *)
Lemma wf_add_child ps d c t :
  tree_wf t → parent_dir t ps d → Forall comp_ok ps → node_ok c → leaf c →
  (∀ o, dict_get (last_str ps) (children d) = Some o → ∃ f, o = FileN f ∧ f_state f = Pending) →
  tree_wf (add_child (init_of ps) (last_str ps) c t).
Proof.
  intros Hwf [Hne Hg] Hok Hc Hl Ho. apply wf_alter; [done|auto with dfs| |].
  - intros m _ Hm. apply node_ok_set_child; [by apply last_str_ok|done|done].
  - intros q f Hv Hs _. exists f. split; [|done].
    rewrite (view_set_child _ _ _ _ d) by (try done; intros o (? & -> & _)%Ho; done).
    rewrite init_last_str by done. case_decide; [subst|done].
    apply view_file in Hv. rewrite (parent_dir_get t ps d) in Hv by done.
    destruct (Ho _ Hv) as (g & [= <-] & ?). congruence.
Qed.

(** Removing a leaf that is not a published file under lock. *)
Lemma wf_drop_child ps d o t :
  tree_wf t → parent_dir t ps d → dict_get (last_str ps) (children d) = Some o → leaf o →
  (∀ f, o = FileN f → f_state f = Committed → t_locks t !! path_of ps = None) →
  tree_wf (drop_child (init_of ps) (last_str ps) t).
Proof.
  intros Hwf Hpd Ho Hl Hk. pose proof (wf_parent _ _ _ Hwf Hpd) as Hd.
  pose proof Hpd as [Hne Hg]. apply wf_alter; [done|auto with dfs| |].
  - intros m _ Hm. by apply node_ok_del_child.
  - intros q f Hv Hs Hlk. exists f. split; [|done].
    rewrite (view_del_child _ _ _ d) by (try done; intros; by simplify_eq).
    rewrite init_last_str by done. case_decide; [subst|done].
    apply view_file in Hv. rewrite (parent_dir_get t ps d) in Hv by done.
    rewrite Hv in Ho. simplify_eq. rewrite alter_tree_locks, (Hk f) in Hlk by done. by destruct Hlk.
Qed.

(** Overwriting a file in place. *)
Lemma wf_put_file ps f f' t :
  tree_wf t → _get_node ps t = Some (FileN f) → file_ok f' →
  (f_state f = Committed → f_state f' = Committed) → tree_wf (put_file ps f' t).
Proof.
  intros Hwf Hg Hok Hs. apply wf_alter; [done|auto with dfs| |].
  - intros m _ Hm. destruct m; simpl; [by constructor|done].
  - intros q g Hv Hq _. rewrite view_alter by auto with dfs. case_decide; [subst|eauto].
    rewrite Hg. apply view_file in Hv. rewrite Hv in Hg. simplify_eq/=. eauto.
Qed.

Lemma get_put_file ps f f' t :
  _get_node ps t = Some (FileN f) → _get_node ps (put_file ps f' t) = Some (FileN f').
Proof.
  intros Hg. apply view_file. rewrite view_alter by auto with dfs.
  by rewrite decide_True, Hg.
Qed.

(** A change of owner, group or mode. *)
Lemma wf_metadata ps g t :
  tree_wf t → dir_stable g → same_children g → (∀ m, node_ok m → node_ok (g m)) →
  (∀ f, ∃ f', g (FileN f) = FileN f' ∧ f_state f' = f_state f) →
  tree_wf (alter_tree ps g t).
Proof.
  intros Hwf Hd Hs Hok Hf. apply wf_alter; [done|done|auto|].
  intros q f Hv Hc _. rewrite view_alter by done. case_decide; [subst|eauto].
  apply view_file in Hv. rewrite Hv. simpl. destruct (Hf f) as (f' & -> & Hf').
  exists f'. simpl. split; [done|congruence].
Qed.

Lemma node_ok_set_mode m n : _valid_mode m = true → node_ok n → node_ok (set_mode m n).
Proof.
  intros Hm Hn. destruct n as [f|d]; simpl.
  - apply node_ok_file_inv in Hn as (? & ? & ?). by constructor.
  - apply node_ok_dir_inv in Hn as (? & ? & ? & ?). by constructor.
Qed.
Lemma node_ok_set_owner o n : node_ok n → node_ok (set_owner o n).
Proof.
  intros Hn. destruct n as [f|d]; simpl.
  - apply node_ok_file_inv in Hn as (? & ? & ?). by constructor.
  - apply node_ok_dir_inv in Hn as (? & ? & ? & ?). by constructor.
Qed.
Lemma node_ok_set_group g n : node_ok n → node_ok (set_group g n).
Proof.
  intros Hn. destruct n as [f|d]; simpl.
  - apply node_ok_file_inv in Hn as (? & ? & ?). by constructor.
  - apply node_ok_dir_inv in Hn as (? & ? & ? & ?). by constructor.
Qed.

(** * Every method keeps the invariant *)

Lemma make_dir_wf vp c t t' u : make_dir vp c t = (t', Ok u) → tree_wf t → tree_wf t'.
Proof.
  intros (ps & d & Hp & Hpd & _ & Hn & ->)%make_dir_inv Hwf.
  apply (wf_add_child ps d); eauto using parts_of_ok, node_ok_new_dir; [done|].
  intros o. by rewrite Hn.
Qed.

Lemma remove_dir_wf vp c t t' u : remove_dir vp c t = (t', Ok u) → tree_wf t → tree_wf t'.
Proof.
  intros (ps & d & e & Hp & Hpd & _ & Hn & He & ->)%remove_dir_inv Hwf.
  by eapply wf_drop_child.
Qed.

Lemma remove_file_wf vp now c t t' bs :
  remove_file vp now c t = (t', Ok bs) → tree_wf t → tree_wf t'.
Proof.
  intros (ps & d & f & Hp & Hpd & _ & Hn & Hf & Hl & -> & ->)%remove_file_inv Hwf.
  eapply wf_drop_child; [by apply wf_cleanup_locks|exact Hpd|done|done|]. done.
Qed.

(** A new holder on a lock that was free, or shared and stays shared. *)
Lemma acquire_lock_wf vp id o m now l c t t' r :
  acquire_lock vp id o m now l c t = (t', Ok r) → tree_wf t → tree_wf t'.
Proof.
  intros (ps & f & h & Hp & Hg & Hf & Hm & _ & _ & _ & _ & Hh & ->)%acquire_lock_inv Hwf.
  apply (wf_insert_swept_lock ps f _ _ t); [done| |done|done].
  split; [apply insert_non_empty|]. destruct Hh as [[_ ->]|[-> _]]; simpl; [|auto].
  destruct Hm as [->| ->]; [auto|]. right. split; [done|]. by rewrite insert_empty, map_size_singleton.
Qed.

Lemma insert_holder_ok st id o x x' :
  lock_ok st → holders st !! id = Some (o, x) →
  lock_ok (mkLock (l_mode st) (<[id := (o, x')]> (holders st))).
Proof.
  intros [Hne Hm] Hid. split; [apply insert_non_empty|]. simpl.
  rewrite map_size_insert_Some by eauto. done.
Qed.

Lemma renew_lock_wf vp id now l t t' u :
  renew_lock vp id now l t = (t', Ok u) → tree_wf t → tree_wf t'.
Proof.
  intros (ps & f & st & o & x & Hp & Hg & Hf & _ & Hst & Hid & ->)%renew_lock_inv Hwf.
  pose proof (wf_cleanup_locks (path_of ps) (Some now) t Hwf) as Hwf1.
  apply (wf_insert_swept_lock ps f _ _ t); [done| |done|done].
  eapply insert_holder_ok; [|done]. by apply (wf_locks _ Hwf1 _ _ Hst).
Qed.

Lemma release_lock_wf vp id now t t' u :
  release_lock vp id now t = (t', Ok u) → tree_wf t → tree_wf t'.
Proof.
  intros (ps & f & Hp & Hg & Hf & H)%release_lock_inv Hwf.
  pose proof (wf_cleanup_locks (path_of ps) now t Hwf) as Hwf1.
  destruct H as [(_ & _ & ->)|(st & Hst & Hid & ->)]; [done|]. case_decide as Hd.
  - exact (wf_delete_lock _ (with_locks (cleanup_locks (path_of ps) now (t_locks t)) t) Hwf1).
  - eapply (wf_insert_lock ps f _ (with_locks _ t)); [done| |done|done].
    apply (lock_ok_sub st); [by apply (wf_locks _ Hwf1 _ _ Hst)|done|apply delete_subseteq|done].
Qed.

Lemma chmod_wf vp m c t t' u : chmod vp m c t = (t', Ok u) → tree_wf t → tree_wf t'.
Proof.
  intros (ps & n & Hp & Hg & _ & _ & Hm & ->)%chmod_inv Hwf.
  apply wf_metadata; auto with dfs; [|simpl; eauto]. intros; by apply node_ok_set_mode.
Qed.

Lemma chown_wf vp o g c t t' u : chown vp o g c t = (t', Ok u) → tree_wf t → tree_wf t'.
Proof.
  intros (ps & n & Hp & Hg & _ & _ & _ & _ & _ & ->)%chown_inv Hwf.
  apply wf_metadata; [apply wf_metadata; [done|..]|..]; case_decide; auto with dfs;
    try (simpl; eauto; fail); intros; auto using node_ok_set_owner, node_ok_set_group.
Qed.

Lemma create_user_wf u h s g a t t' x :
  create_user u h s g a t = (t', Ok x) → tree_wf t → tree_wf t'.
Proof. intros (Hu & Hg & _ & ->)%create_user_inv Hwf. by apply wf_insert_user. Qed.

Lemma change_password_wf u h s t t' x :
  change_password u h s t = (t', Ok x) → tree_wf t → tree_wf t'.
Proof.
  intros (r & Hr & ->)%change_password_inv Hwf. apply wf_insert_user; [done|].
  by apply (wf_users _ Hwf _ _ Hr).
Qed.

Lemma walk_create_wf c rest prefix b t t' r :
  walk_create c prefix rest b t = (t', r) → Forall comp_ok rest → tree_wf t → tree_wf t'.
Proof.
  revert prefix b t. induction rest as [|x rest IH]; intros prefix b t H Hok Hwf; simpl in H.
  - assert (t' = t) as ->; [|done]. revert H. unfold mbind, M_bind, mret, M_ret, dir_at, asks, require, lift.
    repeat case_match; intros; congruence.
  - apply Forall_cons in Hok as [Hx Hok]. unfold mbind at 1, M_bind at 1 in H.
    destruct (dir_at prefix t) as [t1 [d|e]] eqn:Hd;
      [apply dir_at_inv in Hd as [-> Hd]|unfold dir_at, asks in Hd; by simplify_eq].
    destruct (dict_get x (children d)) as [[f|d']|] eqn:Hx'; [unfold raise in H; by simplify_eq|eauto|].
    unfold mbind at 1, M_bind at 1 in H.
    destruct ((if b then mret () else require (DirN d) c W) t) as [t1 [u|e]] eqn:Hreq.
    2: { destruct b; [unfold mret, M_ret in Hreq; congruence|]. unfold require, lift in Hreq. by simplify_eq. }
    assert (t1 = t) as ->.
    { destruct b; [|by apply require_inv in Hreq as [_ ->]]. unfold mret, M_ret in Hreq. congruence. }
    unfold mbind, M_bind, set_child, modify in H. eapply IH; [exact H|done|].
    pose proof (wf_add_child (prefix ++ [x]) d (new_dir c) t) as Ha.
    rewrite init_of_snoc, last_str_snoc in Ha.
    apply Ha; [done| | |apply node_ok_new_dir|done|by rewrite Hx'].
    + split; [by destruct prefix|by rewrite init_of_snoc].
    + apply Forall_app. split; [|by constructor]. by destruct (node_ok_get _ _ _ (wf_root _ Hwf) Hd).
Qed.

Lemma file_ok_pending bs l z o g m :
  _valid_mode m = true → file_ok (mkFile Pending bs l 0 z o g m).
Proof. intros. by split_and!. Qed.

Lemma begin_upload_wf vp pl now lease bs c t t' r :
  begin_upload vp pl now lease bs c t = (t', Ok r) → tree_wf t → tree_wf t'.
Proof.
  destruct r as [r st]. intros (ps & t1 & d & Hp & Hw & Hpd & Hd & -> & ->)%begin_upload_inv Hwf.
  pose proof (parts_of_ok _ _ Hp) as Hok.
  eapply walk_create_wf in Hw; [|by apply Forall_init|done].
  apply (wf_add_child _ d); [done|done|done|by constructor; apply file_ok_pending|done|].
  intros o Ho. destruct Hd as [[Hd _]|(f & Hd & Hf & _)]; rewrite Hd in Ho; simplify_eq. eauto.
Qed.

Lemma confirm_block_wf vp b k z now lease c t t' u :
  confirm_block vp b k z now lease c t = (t', Ok u) → tree_wf t → tree_wf t'.
Proof.
  intros (ps & f & bs & f' & Hp & Hg & Hf & _ & _ & Hf' & ->)%confirm_block_inv Hwf.
  destruct (node_ok_file_inv _ (wf_node _ _ _ Hwf Hg)) as (Hm & Hv & _).
  eapply wf_put_file; [done|done| |congruence].
  destruct Hf' as [->| ->]; split_and!; simpl; try done; congruence.
Qed.

Lemma complete_upload_wf vp c t t' u :
  complete_upload vp c t = (t', Ok u) → tree_wf t → tree_wf t'.
Proof.
  intros (ps & f & Hp & Hg & Hf & _ & Hall & ->)%complete_upload_inv Hwf.
  destruct (node_ok_file_inv _ (wf_node _ _ _ Hwf Hg)) as (Hm & Hv & _).
  eapply wf_put_file; [done|done| |done]. split_and!; [done|done|]. intros _. simpl.
  apply Forall_forall. intros b Hb. rewrite forallb_forall in Hall.
  apply Hall. by apply list_elem_of_In.
Qed.

Lemma abort_upload_wf vp c t t' u : abort_upload vp c t = (t', Ok u) → tree_wf t → tree_wf t'.
Proof.
  intros (ps & d & f & Hp & Hpd & Hd & Hf & _ & ->)%abort_upload_inv Hwf.
  eapply wf_drop_child; [done|done|done|done|]. intros g [= <-]. congruence.
Qed.

Lemma update_block_replicas_wf vp b e n t t' u :
  update_block_replicas vp b e n t = (t', Ok u) → tree_wf t → tree_wf t'.
Proof.
  intros (ps & f & i & x & Hp & Hg & Hf & Hi & _ & _ & ->)%update_block_replicas_inv Hwf.
  destruct (node_ok_file_inv _ (wf_node _ _ _ Hwf Hg)) as (Hm & Hv & Hc).
  eapply wf_put_file; [done|done| |done]. split_and!; [done|done|]. intros _. simpl.
  specialize (Hc Hf). apply Forall_insert; [done|]. rewrite Forall_lookup in Hc. exact (Hc i x Hi).
Qed.

Lemma make_slots_plan (plan : list (Z * Z)) (pr : list Proposal) :
  plan.*1 = (λ p : Proposal, p.1.1) <$> pr →
  (λ s, (slot_index s, new_size s)) <$> (make_slot <$> zip plan pr) = plan.
Proof.
  revert pr. induction plan as [|[i z] plan IH]; intros [|[[j b] a] pr]; csimpl; try done.
  intros [= -> H]. by rewrite IH.
Qed.

Lemma reservation_ok_plan w ps base id bsz off len sizes plan pr exp :
  Forall comp_ok ps → plan_write_slots sizes bsz off len = Ok plan →
  plan.*1 = (λ p : Proposal, p.1.1) <$> pr →
  reservation_ok w (mkReservation w (path_of ps) base id bsz (make_slot <$> zip plan pr) exp).
Proof.
  intros Hok Hplan Hpr. split_and!; [done|by exists ps|]. exists sizes, off, len.
  simpl. by rewrite make_slots_plan.
Qed.

Lemma publish_confirmed bs l rep :
  Forall (λ b, confirmed b = true) bs → Forall (λ b, confirmed b = true) (publish bs l rep).1.
Proof.
  revert bs rep. induction l as [|[s [[[i b] k] z]] l IH]; intros bs rep Hbs; simpl; [done|].
  destruct (_ <? _).
  - destruct (py_get bs (slot_index s)); [|done].
    destruct (py_set bs (slot_index s) _) eqn:E; [|done]. apply IH.
    by eapply (py_set_Forall _ bs); [..|exact E].
  - apply IH. apply Forall_app. split; [done|]. by constructor.
Qed.

(** The two sweeps of a write, and a reservation on top of them. *)
Lemma wf_sweeps c now t :
  tree_wf t →
  tree_wf (with_writes (live_writes now (t_writes t))
             (with_locks (cleanup_locks c (Some now) (t_locks t)) t)).
Proof.
  intros Hwf. exact (wf_live_writes now (with_locks (cleanup_locks c (Some now) (t_locks t)) t)
                       (wf_cleanup_locks _ _ _ Hwf)).
Qed.

Lemma wf_reserve c now w r t :
  tree_wf t → reservation_ok w r →
  tree_wf (with_writes (<[w := r]> (live_writes now (t_writes t)))
             (with_locks (cleanup_locks c (Some now) (t_locks t)) t)).
Proof.
  intros Hwf Hr. exact (wf_insert_write w r _ (wf_sweeps c now t Hwf) Hr).
Qed.

Lemma begin_write_wf vp w id e o l pr now ls d c t t' r :
  begin_write vp w id e o l pr now ls d c t = (t', r) → tree_wf t → tree_wf t'.
Proof.
  intros [Hs|(ps & f & res & [Hp _ _ _ _ (plan & Hplan & Hpr & ->)] & ->)]%begin_write_cases Hwf;
    [by eapply wf_swept|].
  apply wf_reserve; [done|]. eapply reservation_ok_plan; eauto using parts_of_ok.
Qed.

Lemma commit_write_wf vp w id e cf now c t t' r :
  commit_write vp w id e cf now c t = (t', r) → tree_wf t → tree_wf t'.
Proof.
  intros [Hs|(ps & f & res & bs & out & [_ Hg Hf _ _ _ _ _ _ _] & Hpub & H)]%commit_write_cases Hwf;
    [by eapply wf_swept|].
  pose proof (wf_swept _ _ Hwf (committing_swept (path_of ps) now t)) as Hwf0.
  assert (tree_wf (put_file ps (with_blocks bs f) (committing (path_of ps) now t))) as Hwf1.
  { destruct (node_ok_file_inv _ (wf_node _ _ _ Hwf Hg)) as (Hm & Hv & Hc).
    apply (wf_put_file ps f); [exact Hwf0|exact Hg| |done]. split_and!; [done|done|].
    intros _. simpl. pose proof (publish_confirmed (blocks f) (zip (slots res) cf) [] (Hc Hf)) as Hb.
    by rewrite Hpub in Hb. }
  destruct out as [rep|err]; [|by destruct H as [_ ->]]. destruct H as [_ ->].
  apply wf_with_writes; [|apply map_Forall_delete; apply (wf_writes _ Hwf0)].
  pose proof (get_put_file ps f (with_blocks bs f) (committing (path_of ps) now t) Hg) as Hg1.
  destruct (node_ok_file_inv _ (wf_node _ _ _ Hwf1 Hg1)) as (Hm & Hv & Hc).
  eapply wf_put_file; [exact Hwf1|exact Hg1| |done]. split_and!; [done|simpl in *; lia|done].
Qed.

Lemma abort_write_wf vp w id now t t' r :
  abort_write vp w id now t = (t', Ok r) → tree_wf t → tree_wf t'.
Proof.
  intros (ps & ws & _ & -> & H)%abort_write_inv Hwf.
  assert (map_Forall reservation_ok
    (match now with Some n => live_writes n (t_writes t) | None => t_writes t end)) as Hws.
  { destruct now; [apply (wf_writes _ (wf_live_writes z t Hwf))|apply (wf_writes _ Hwf)]. }
  destruct H as [(_ & -> & _)|(res & _ & _ & _ & _ & ->)]; apply wf_with_writes;
    try done. by apply map_Forall_delete.
Qed.

(** A computation whose failures are swept and whose successes keep [tree_wf]. *)
Lemma preserves_wf {A} (m : TreeM A) :
  moves_on_err swept (λ _, True) m →
  (∀ t t' a, m t = (t', Ok a) → tree_wf t → tree_wf t') → preserves tree_wf m.
Proof.
  intros He Hs t Hwf. destruct (m t) as [t' [a|e]] eqn:E; simpl; [eauto|].
  eapply wf_swept; [done|]. by eapply He.
Qed.

Lemma preserves_of_result {A} (m : TreeM A) :
  (∀ t t' r, m t = (t', r) → tree_wf t → tree_wf t') → preserves tree_wf m.
Proof. intros H t Hwf. destruct (m t) eqn:E. eauto. Qed.

Lemma preserves_then_ret {A B} (I : TreeState → Prop) (m : TreeM A) (f : A → B) :
  preserves I m → preserves I (a ← m; mret (f a)).
Proof. intros Hm. apply preserves_bind; [done|]. intros a. apply preserves_ret. Qed.

Lemma run_command_keeps c : preserves tree_wf (run_command c).
Proof.
  destruct c; simpl; unfold as_none, as_blocks;
    first [apply preserves_then_ret|apply preserves_raise].
  all: first
    [apply preserves_of_result; intros; by eapply begin_write_wf
    |apply preserves_of_result; intros; by eapply commit_write_wf
    |apply preserves_wf; [auto with dfs|]].
  all: eauto using make_dir_wf, remove_dir_wf, remove_file_wf, acquire_lock_wf, renew_lock_wf,
    release_lock_wf, chmod_wf, chown_wf, create_user_wf, change_password_wf, begin_upload_wf,
    confirm_block_wf, complete_upload_wf, abort_upload_wf, update_block_replicas_wf, abort_write_wf.
Qed.

Lemma dispatch_keeps c t : tree_wf t → tree_wf (dispatch c t).1.
Proof. intros Hwf. unfold dispatch. case_match; simpl; [by apply run_command_keeps|done]. Qed.

Lemma apply_keeps op c s : tree_wf (tree s) → tree_wf (tree (apply op c s).1).
Proof. intros Hwf. unfold apply. case_match; simpl; [done|by apply dispatch_keeps]. Qed.

Lemma apply_log_keeps l s : tree_wf (tree s) → tree_wf (tree (apply_log l s)).
Proof.
  unfold apply_log. revert s. induction l as [|e l IH]; intros s Hwf; simpl; [done|].
  apply IH. by apply apply_keeps.
Qed.

Lemma tree_init_ok : tree_wf tree_init.
Proof. split; try apply map_Forall_empty. by constructor; constructor. Qed.

(** A state that a replica can reach. *)
Definition reachable (t : TreeState) : Prop := ∃ l, tree (apply_log l replicated_init) = t.

Lemma reachable_ok t : reachable t → tree_wf t.
Proof. intros [l <-]. apply apply_log_keeps, tree_init_ok. Qed.

(** A concrete history of the tree, used to instantiate the theorems: ana
    uploads a file of two blocks of at most four bytes, locks it for writing,
    reserves a write of four bytes at offset 2 and publishes it. *)

Definition ana : option Caller := Some ("ana", ["staff"], false).
Definition bob : option Caller := Some ("bob", ["guests"], false).

Definition demo_log : list entry_t :=
  [("op1", CMakeDir "/home" ana);
   ("op2", CBeginUpload "/home/doc" [("b0", ["d1"]); ("b1", ["d2"])] (Some 0) (Some 100) (Some 4) ana);
   ("op3", CConfirmBlock "/home/doc" "b0" "c0" 4 (Some 1) (Some 100) ana);
   ("op4", CConfirmBlock "/home/doc" "b1" "c1" 2 (Some 2) (Some 100) ana);
   ("op5", CCompleteUpload "/home/doc" ana);
   ("op6", CAcquireLock "/home/doc" "L" "ana" "w" 10 50 ana);
   ("op7", CBeginWrite "/home/doc" "W" "L" 0 2 4
      [(0, "n0", ["d1"]); (1, "n1", ["d2"])] 20 30 4 ana);
   ("op8", CCommitWrite "/home/doc" "W" "L" 0 [(0, "n0", "k0", 4); (1, "n1", "k1", 2)] 30 ana)].

(** Ana and bob both read /home/doc. *)
Definition two_readers : list entry_t :=
  take 5 demo_log ++
  [("r1", CAcquireLock "/home/doc" "A" "ana" "r" 10 50 ana);
   ("r2", CAcquireLock "/home/doc" "B" "bob" "r" 20 50 bob)].

(** The tree after the first [n] commands. *)
Definition demo (n : nat) : TreeState := tree (apply_log (take n demo_log) replicated_init).

Lemma demo_reachable n : reachable (demo n).
Proof. by exists (take n demo_log). Qed.

Lemma demo_ok n : tree_wf (demo n).
Proof. apply reachable_ok, demo_reachable. Qed.
