(* ===== verification/TreeView.v ===== *)
(** The effect of each method on the abstract view of the tree: which path it
    changes and to what, and that it changes no other path. *)

From S2P Require Import Prelude Exceptions Dict Paths TreeData Tree TreeFacts Replicated TreeErrors.
From S2P Require Import TreeOps TreeInv.

Open Scope Z_scope.

(** The view [v] with the entry at [p] replaced. *)
Definition vset (p : list string) (o : option entry) (v : list string → option entry)
    : list string → option entry := λ q, if decide (q = p) then o else v q.

Definition new_entry (c : option Caller) : entry :=
  EDir (_ownership c).1 (_ownership c).2 DIR_MODE.

(** * Single updates *)

Lemma view_add_child ps d c t q :
  parent_dir t ps d → leaf c →
  (∀ o, dict_get (last_str ps) (children d) = Some o → leaf o) →
  view (add_child (init_of ps) (last_str ps) c t) q = vset ps (Some (entry_of c)) (view t) q.
Proof.
  intros [Hne Hg] Hc Ho. rewrite (view_set_child _ _ _ _ d) by done. by rewrite init_last_str.
Qed.

Lemma view_drop_child ps d o t q :
  tree_wf t → parent_dir t ps d → dict_get (last_str ps) (children d) = Some o → leaf o →
  view (drop_child (init_of ps) (last_str ps) t) q = vset ps None (view t) q.
Proof.
  intros Hwf Hpd Ho Hl. pose proof (wf_parent _ _ _ Hwf Hpd). destruct Hpd as [Hne Hg].
  rewrite (view_del_child _ _ _ d) by (try done; intros; by simplify_eq).
  by rewrite init_last_str.
Qed.

Lemma view_put_file ps f f' t q :
  _get_node ps t = Some (FileN f) →
  view (put_file ps f' t) q = vset ps (Some (EFile f')) (view t) q.
Proof. intros Hg. rewrite view_alter by auto with dfs. by rewrite Hg. Qed.

Lemma view_parent t ps d :
  parent_dir t ps d → view t ps = entry_of <$> dict_get (last_str ps) (children d).
Proof.
  intros Hpd. rewrite <-(parent_dir_get t ps d Hpd). done.
Qed.

(** * Methods *)

Lemma make_dir_view vp c t t' u :
  make_dir vp c t = (t', Ok u) →
  ∃ ps d, parts_of vp = Ok ps ∧ parent_dir t ps d ∧ _allows (DirN d) c W = true ∧
    view t ps = None ∧ ∀ q, view t' q = vset ps (Some (new_entry c)) (view t) q.
Proof.
  intros (ps & d & Hp & Hpd & Ha & Hn & ->)%make_dir_inv. exists ps, d. split_and!; try done.
  - by rewrite (view_parent _ _ _ Hpd), Hn.
  - intros q. rewrite (view_add_child _ d) by (done || by rewrite Hn). done.
Qed.

Lemma remove_dir_view vp c t t' u :
  tree_wf t → remove_dir vp c t = (t', Ok u) →
  ∃ ps d o g m, parts_of vp = Ok ps ∧ parent_dir t ps d ∧ _allows (DirN d) c W = true ∧
    view t ps = Some (EDir o g m) ∧ (∀ x, view t (ps ++ [x]) = None) ∧
    ∀ q, view t' q = vset ps None (view t) q.
Proof.
  intros Hwf (ps & d & e & Hp & Hpd & Ha & Hn & He & ->)%remove_dir_inv.
  eexists ps, d, _, _, _. split_and!; try done.
  - by rewrite (view_parent _ _ _ Hpd), Hn.
  - intros x. apply view_None. pose proof (parent_dir_get _ _ _ Hpd) as Hg. rewrite Hn in Hg.
    unfold _get_node in *. by rewrite node_get_snoc, Hg, He.
  - intros q. by rewrite (view_drop_child _ d (DirN e)).
Qed.

Lemma remove_file_view vp now c t t' bs :
  tree_wf t → remove_file vp now c t = (t', Ok bs) →
  ∃ ps d f, parts_of vp = Ok ps ∧ parent_dir t ps d ∧ _allows (DirN d) c W = true ∧
    view t ps = Some (EFile f) ∧ f_state f = Committed ∧ bs = blocks f ∧
    ∀ q, view t' q = vset ps None (view t) q.
Proof.
  intros Hwf (ps & d & f & Hp & Hpd & Ha & Hn & Hf & _ & -> & ->)%remove_file_inv.
  exists ps, d, f. split_and!; try done.
  - by rewrite (view_parent _ _ _ Hpd), Hn.
  - intros q.
    apply (view_drop_child ps d (FileN f)
      (with_locks (cleanup_locks (path_of ps) now (t_locks t)) t)); [|done..].
    by apply wf_cleanup_locks.
Qed.

Lemma chmod_view vp m c t t' u :
  chmod vp m c t = (t', Ok u) →
  ∃ ps n, parts_of vp = Ok ps ∧ _get_node ps t = Some n ∧ _owner_or_admin n c = true ∧
    _valid_mode m = true ∧ (∀ f, n = FileN f → f_state f = Committed) ∧
    ∀ q, view t' q = vset ps (Some (entry_of (set_mode m n))) (view t) q.
Proof.
  intros (ps & n & Hp & Hg & Hf & Ho & Hm & ->)%chmod_inv. exists ps, n. split_and!; try done.
  intros q. rewrite view_alter by auto with dfs. by rewrite Hg.
Qed.

Definition chown_node (o g : string) (n : node) : node :=
  (if decide (g = "") then id else set_group g) ((if decide (o = "") then id else set_owner o) n).

Lemma node_get_alter_at p f n m :
  node_get p n = Some m → node_get p (node_alter p f n) = Some (f m).
Proof. intros H. by rewrite node_get_alter_same, H. Qed.

Lemma chown_view vp o g c t t' u :
  chown vp o g c t = (t', Ok u) →
  ∃ ps n, parts_of vp = Ok ps ∧ _get_node ps t = Some n ∧ chown_allowed n o g c = true ∧
    ¬ (o = "" ∧ g = "") ∧ (∀ f, n = FileN f → f_state f = Committed) ∧
    ∀ q, view t' q = vset ps (Some (entry_of (chown_node o g n))) (view t) q.
Proof.
  intros (ps & n & Hp & Hg & Hf & Ha & Hne & _ & _ & ->)%chown_inv. exists ps, n.
  split_and!; try done. intros q.
  rewrite !view_alter by (case_decide; auto with dfs). unfold vset. case_decide; [subst|done].
  unfold _get_node in *. rewrite alter_tree_root by (case_decide; auto with dfs).
  by rewrite (node_get_alter_at _ _ _ _ Hg).
Qed.

Lemma confirm_block_view vp b k z now lease c t t' u :
  confirm_block vp b k z now lease c t = (t', Ok u) →
  ∃ ps f f', parts_of vp = Ok ps ∧ _get_node ps t = Some (FileN f) ∧ f_state f = Pending ∧
    _owner_or_admin (FileN f) c = true ∧ f_state f' = Pending ∧
    ∀ q, view t' q = vset ps (Some (EFile f')) (view t) q.
Proof.
  intros (ps & f & bs & f' & Hp & Hg & Hf & Ho & _ & Hf' & ->)%confirm_block_inv.
  exists ps, f, f'. split_and!; try done; [by destruct Hf' as [->| ->]|].
  intros q. by rewrite (view_put_file _ f).
Qed.

Lemma complete_upload_view vp c t t' u :
  complete_upload vp c t = (t', Ok u) →
  ∃ ps f, parts_of vp = Ok ps ∧ _get_node ps t = Some (FileN f) ∧ f_state f = Pending ∧
    _owner_or_admin (FileN f) c = true ∧ forallb confirmed (blocks f) = true ∧
    ∀ q, view t' q = vset ps (Some (EFile (with_state Committed f))) (view t) q.
Proof.
  intros (ps & f & Hp & Hg & Hf & Ho & Hc & ->)%complete_upload_inv.
  exists ps, f. split_and!; try done. intros q. by rewrite (view_put_file _ f).
Qed.

Lemma abort_upload_view vp c t t' u :
  tree_wf t → abort_upload vp c t = (t', Ok u) →
  ∃ ps f, parts_of vp = Ok ps ∧ _get_node ps t = Some (FileN f) ∧ f_state f = Pending ∧
    _owner_or_admin (FileN f) c = true ∧ ∀ q, view t' q = vset ps None (view t) q.
Proof.
  intros Hwf (ps & d & f & Hp & Hpd & Hd & Hf & Ho & ->)%abort_upload_inv.
  exists ps, f. split_and!; try done; [by rewrite (parent_dir_get _ _ _ Hpd)|].
  intros q. by rewrite (view_drop_child _ d (FileN f)).
Qed.

Lemma update_block_replicas_view vp b e n t t' u :
  update_block_replicas vp b e n t = (t', Ok u) →
  ∃ ps f i x, parts_of vp = Ok ps ∧ _get_node ps t = Some (FileN f) ∧ f_state f = Committed ∧
    blocks f !! i = Some x ∧ block_id x = b ∧ datanode_addresses x = e ∧
    ∀ q, view t' q =
      vset ps (Some (EFile (with_blocks (<[i := set_addresses n x]> (blocks f)) f))) (view t) q.
Proof.
  intros (ps & f & i & x & Hp & Hg & Hf & Hi & Hb & He & ->)%update_block_replicas_inv.
  exists ps, f, i, x. split_and!; try done. intros q. by rewrite (view_put_file _ f).
Qed.

Lemma commit_write_view vp w id e cf now c t t' r :
  commit_write vp w id e cf now c t = (t', Ok r) →
  ∃ ps f res bs rep, parts_of vp = Ok ps ∧ _get_node ps t = Some (FileN f) ∧
    f_state f = Committed ∧ _allows (FileN f) c W = true ∧
    publish (blocks f) (zip (slots res) cf) [] = (bs, Ok rep) ∧
    ∀ q, view t' q =
      vset ps (Some (EFile (with_version (version f + 1) (w_block_size res) (with_blocks bs f))))
        (view t) q.
Proof.
  intros (ps & f & res & bs & rep & Hp & Hg & Hf & Ha & _ & _ & _ & _ & _ & _ & _ & Hpub & _ & ->)%commit_write_inv.
  exists ps, f, res, bs, rep. split_and!; try done. intros q. rewrite view_with_writes.
  rewrite (view_put_file _ (with_blocks bs f)) by by eapply get_put_file.
  unfold vset. case_decide; [done|]. rewrite (view_put_file _ f) by done.
  unfold vset. by rewrite decide_False.
Qed.

(** The walk that creates directories only adds entries where there were none,
    below a directory the caller may write. *)
Definition writable_dir (t : TreeState) (c : option Caller) (p : list string) : Prop :=
  ∃ d, _get_node p t = Some (DirN d) ∧ _allows (DirN d) c W = true.

Definition fresh_under (t : TreeState) (c : option Caller) (q : list string) : Prop :=
  ∃ pre x suf, q = pre ++ x :: suf ∧ writable_dir t c pre ∧ _get_node (pre ++ [x]) t = None.

Lemma fresh_under_app t c q s : fresh_under t c q → fresh_under t c (q ++ s).
Proof.
  intros (pre & x & suf & -> & Hw & Hn). exists pre, x, (suf ++ s). by rewrite <-app_assoc.
Qed.

Lemma fresh_under_None t c q : fresh_under t c q → view t q = None.
Proof.
  intros (pre & x & suf & -> & _ & Hn). apply view_None. unfold _get_node in *.
  change (x :: suf) with ([x] ++ suf). by rewrite app_assoc, node_get_app, Hn.
Qed.

(** [t] is [t0] with directories created where there was nothing. *)
Definition grown (t0 : TreeState) (c : option Caller) (t : TreeState) : Prop :=
  ∀ q, view t q = view t0 q ∨ fresh_under t0 c q ∧ view t q = Some (new_entry c).

Lemma walk_create_view_from t0 c rest prefix b t t' r :
  walk_create c prefix rest b t = (t', r) → grown t0 c t →
  (if b : bool then fresh_under t0 c prefix else t = t0) →
  grown t0 c t' ∧
  (r = Ok tt → fresh_under t0 c (prefix ++ rest) ∨ writable_dir t0 c (prefix ++ rest) ∧ t' = t0).
Proof.
  revert prefix b t. induction rest as [|x rest IH]; intros prefix b t H Hg Hb; simpl in H.
  all: unfold mbind at 1, M_bind at 1 in H; destruct (dir_at prefix t) as [t1 [d|e]] eqn:Hd;
    [apply dir_at_inv in Hd as [-> Hd]
    |unfold dir_at, asks in Hd; simplify_eq; split; [done|congruence]].
  - rewrite app_nil_r. destruct b; [unfold mret, M_ret in H; simplify_eq; auto|].
    subst t. assert (t' = t0) as -> by (unfold require, lift in H; congruence).
    split; [done|]. intros ->. apply require_inv in H as [H _]. right. split; [|done]. by exists d.
  - destruct (dict_get x (children d)) as [[f|d']|] eqn:Hx.
    + unfold raise in H. simplify_eq. split; [done|congruence].
    + replace (prefix ++ x :: rest) with ((prefix ++ [x]) ++ rest) by by rewrite <-app_assoc.
      eapply IH; [done|done|]. destruct b; [by apply fresh_under_app|done].
    + unfold mbind at 1, M_bind at 1 in H.
      destruct ((if b then mret () else require (DirN d) c W) t) as [t1 [u|e]] eqn:Hreq.
      2: { destruct b; [unfold mret, M_ret in Hreq; congruence|]. unfold require, lift in Hreq.
           simplify_eq. split; [done|congruence]. }
      assert (t1 = t ∧ fresh_under t0 c (prefix ++ [x])) as [-> Hfr].
      { destruct b; [unfold mret, M_ret in Hreq; split; [congruence|by apply fresh_under_app]|].
        subst t. apply require_inv in Hreq as [Ha ->]. split; [done|].
        exists prefix, x, []. split_and!; [done|by exists d|].
        unfold _get_node in *. by rewrite node_get_snoc, Hd. }
      unfold mbind, M_bind, set_child, modify in H.
      replace (prefix ++ x :: rest) with ((prefix ++ [x]) ++ rest) by by rewrite <-app_assoc.
      eapply IH; [exact H| |done]. intros q.
      rewrite (view_set_child _ _ _ _ d) by (done || by rewrite Hx).
      case_decide; [subst|done]. right. split; [done|]. done.
Qed.

Lemma walk_create_view c ps t t' r :
  walk_create c [] ps false t = (t', r) →
  grown t c t' ∧ (r = Ok tt → fresh_under t c ps ∨ writable_dir t c ps ∧ t' = t).
Proof. intros H. eapply (walk_create_view_from t) in H; [done| |done]. intros q. by left. Qed.

Lemma begin_upload_view vp pl now lease bs c t t' r st :
  begin_upload vp pl now lease bs c t = (t', Ok (r, st)) →
  ∃ ps, parts_of vp = Ok ps ∧ ps ≠ [] ∧ r = pl ∧
    (fresh_under t c ps ∨ writable_dir t c (init_of ps)) ∧
    (view t ps = None ∧ st = [] ∨
     ∃ f, view t ps = Some (EFile f) ∧ f_state f = Pending ∧ _lease_expired f now = true ∧
       st = blocks f) ∧
    (∀ q, q ≠ ps → view t' q = view t q ∨ fresh_under t c q ∧ view t' q = Some (new_entry c)) ∧
    view t' ps = Some (EFile (mkFile Pending ((λ p, new_block p.1 p.2) <$> pl)
      (lease_until now lease) 0 (default 0 bs) (_ownership c).1 (_ownership c).2 FILE_MODE)).
Proof.
  intros (ps & t1 & d & Hp & Hw & Hpd & Hd & -> & ->)%begin_upload_inv.
  apply walk_create_view in Hw as [Hgr Hw]. specialize (Hw eq_refl).
  pose proof Hpd as [Hne _]. pose proof (view_parent _ _ _ Hpd) as Hv.
  assert (∀ q, view (add_child (init_of ps) (last_str ps)
    (FileN (mkFile Pending ((λ p, new_block p.1 p.2) <$> pl) (lease_until now lease) 0
      (default 0 bs) (_ownership c).1 (_ownership c).2 FILE_MODE)) t1) q =
    vset ps (Some (EFile (mkFile Pending ((λ p, new_block p.1 p.2) <$> pl)
      (lease_until now lease) 0 (default 0 bs) (_ownership c).1 (_ownership c).2 FILE_MODE)))
      (view t1) q) as Hq.
  { intros q. apply (view_add_child ps d); [done|done|]. intros o Ho.
    destruct Hd as [[Hd _]|(f & Hd & _)]; rewrite Hd in Ho; by simplify_eq. }
  exists ps. split_and!; try done.
  - destruct Hw as [Hw|[Hw _]]; [|by right]. left.
    rewrite <-(init_last_str ps Hne). by apply fresh_under_app.
  - destruct (Hgr ps) as [E|[_ E]]; rewrite Hv in E.
    + rewrite <-E. destruct Hd as [[-> ->]|(f & -> & ? & ? & ->)]; [auto|].
      right. exists f. auto.
    + destruct Hd as [[Hd _]|(f & Hd & _)]; rewrite Hd in E; by simplify_eq/=.
  - intros q Hne'. rewrite Hq. unfold vset. by rewrite decide_False.
  - rewrite Hq. unfold vset. by rewrite decide_True.
Qed.
