(* ===== verification/TreeAuth.v ===== *)
(** Authorisation: whatever a command with a caller changes in the tree, the
    permissions of the tree before it allow that caller to change. *)

From S2P Require Import Prelude Exceptions Dict Paths TreeData Tree TreeFacts Replicated TreeErrors.
From S2P Require Import TreeOps TreeInv TreeView.

Open Scope Z_scope.

(** The identity a command carries; the internal commands carry none. *)
Definition caller_of (c : command) : option (option Caller) :=
  match c with
  | CMakeDir _ cl | CRemoveDir _ cl | CRemoveFile _ _ cl | CBeginUpload _ _ _ _ _ cl
  | CConfirmBlock _ _ _ _ _ _ cl | CCompleteUpload _ cl | CAbortUpload _ cl
  | CAcquireLock _ _ _ _ _ _ cl | CBeginWrite _ _ _ _ _ _ _ _ _ _ cl
  | CCommitWrite _ _ _ _ _ _ cl | CChmod _ _ cl | CChown _ _ _ cl => Some cl
  | _ => None
  end.

(** The ways a caller may change the entry at [q]: write permission on its
    directory, on the closest existing directory above it when it is new, on
    the file itself, or ownership of it. *)
Inductive may_touch (t : TreeState) (c : option Caller) (q : list string) : Prop :=
| touch_parent : q ≠ [] → writable_dir t c (init_of q) → may_touch t c q
| touch_new : fresh_under t c q → may_touch t c q
| touch_file f : _get_node q t = Some (FileN f) → _allows (FileN f) c W = true → may_touch t c q
| touch_owner n : _get_node q t = Some n → _owner_or_admin n c = true → may_touch t c q.

Lemma vset_ne_inv p o v q : vset p o v q ≠ v q → q = p.
Proof. unfold vset. case_decide; done. Qed.

Lemma chown_allowed_owner n o g c :
  chown_allowed n o g c = true → ¬ (o = "" ∧ g = "") → _owner_or_admin n c = true.
Proof.
  unfold chown_allowed, _owner_or_admin. destruct c as [[[u gs] [|]]|]; [done| |done].
  rewrite !orb_false_r. intros [Ho Hg]%andb_true_iff Hne. simpl.
  apply bool_decide_eq_true in Ho. apply orb_true_iff in Hg as [Hg|Hg].
  - apply bool_decide_eq_true in Hg. tauto.
  - by apply andb_true_iff in Hg as [? _].
Qed.

Lemma swept_untouched t t' q : swept t t' → view t' q ≠ view t q → False.
Proof. intros H. by rewrite (swept_view t t' q H). Qed.

Lemma clean_untouched {A} (m : TreeM A) t t' e q :
  moves_on_err swept (λ _, True) m → m t = (t', Err e) → view t' q = view t q.
Proof. intros Hm H. apply swept_view. by eapply Hm. Qed.

(** The commands that never change the tree itself. *)
Section same_root.
Notation keeps_root := (moves (same t_root)).

Lemma keeps_root_cleanup_locks c now : keeps_root (_cleanup_expired_locks c now).
Proof. by apply moves_modify. Qed.
Lemma keeps_root_cleanup_writes now : keeps_root (_cleanup_expired_writes now).
Proof. destruct now; [by apply moves_modify|apply moves_ret; apply _]. Qed.
Lemma keeps_root_with_writes f : keeps_root (modify (λ t, with_writes (f t) t) : TreeM unit).
Proof. by apply moves_modify. Qed.
Lemma keeps_root_put_holder c m i o e h : keeps_root (put_holder c m i o e h).
Proof. by apply moves_modify. Qed.
#[local] Hint Resolve keeps_root_cleanup_locks keeps_root_cleanup_writes keeps_root_with_writes
  keeps_root_put_holder : dfs.

Ltac keeps := repeat first
  [ solve [auto with dfs]
  | apply moves_bind; [apply _|solve [auto with dfs]|intros ?]
  | progress case_match ].

Lemma acquire_lock_root p i o m now l c : keeps_root (acquire_lock p i o m now l c).
Proof. unfold acquire_lock. keeps. Qed.

Lemma require_write_lock_root c i now : keeps_root (_require_write_lock c i now).
Proof. unfold _require_write_lock. keeps. Qed.
#[local] Hint Resolve require_write_lock_root : dfs.

Lemma begin_write_root p w i e o l pr now ls d c :
  keeps_root (begin_write p w i e o l pr now ls d c).
Proof. unfold begin_write. keeps. Qed.

Lemma find_reservation_root w c e : keeps_root (find_reservation w c e).
Proof. unfold find_reservation. keeps. Qed.

End same_root.

Lemma same_root_view t t' q : same t_root t t' → view t' q = view t q.
Proof. unfold same, view. by intros ->. Qed.

(** A commit touches its file only, even when it stops half-way. *)
Lemma commit_write_touch vp w id e cf now c t t' r q :
  commit_write vp w id e cf now c t = (t', r) → view t' q ≠ view t q →
  ∃ f, _get_node q t = Some (FileN f) ∧ _allows (FileN f) c W = true.
Proof.
  intros [Hs|(ps & f & res & bs & out & [_ Hg _ Ha _ _ _ _ _ _] & _ & H)]%commit_write_cases Hq.
  { by rewrite (swept_view _ _ q Hs) in Hq. }
  assert (q = ps) as ->; [|eauto]. destruct (decide (q = ps)) as [|Hne]; [done|]. destruct Hq.
  destruct out as [rep|err]; destruct H as [_ ->].
  - rewrite view_with_writes, publishing_view by done. by rewrite decide_False.
  - rewrite view_alter by auto with dfs. by rewrite decide_False.
Qed.

Lemma begin_upload_touch vp pl now lease bs c t t' r q :
  begin_upload vp pl now lease bs c t = (t', Ok r) → view t' q ≠ view t q → may_touch t c q.
Proof.
  destruct r as [r st].
  intros (ps & _ & Hne & _ & Hw & _ & Hother & _)%begin_upload_view Hq.
  destruct (decide (q = ps)) as [->|Hqp].
  - destruct Hw; [by apply touch_new|by apply touch_parent].
  - destruct (Hother q Hqp) as [E|[E _]]; [congruence|by apply touch_new].
Qed.

(** What a command that returned changed, it was allowed to change. *)
Lemma command_touch c cl t t' v q :
  caller_of c = Some cl → tree_wf t → run_command c t = (t', Ok v) →
  view t' q ≠ view t q → may_touch t cl q.
Proof.
  intros Hc Hwf H Hq. destruct c; simplify_eq/=; unfold as_none, as_blocks in H;
    apply bind_ok_inv in H as (t1 & a & H & [= -> _]).
  - apply make_dir_view in H as (ps & d & _ & [Hne Hg] & Ha & _ & Hv). rewrite Hv in Hq.
    apply vset_ne_inv in Hq as ->. apply touch_parent; [done|by exists d].
  - apply remove_dir_view in H as (ps & d & ? & ? & ? & _ & [Hne Hg] & Ha & _ & _ & Hv); [|done].
    rewrite Hv in Hq. apply vset_ne_inv in Hq as ->. apply touch_parent; [done|by exists d].
  - apply remove_file_view in H as (ps & d & f & _ & [Hne Hg] & Ha & _ & _ & _ & Hv); [|done].
    rewrite Hv in Hq. apply vset_ne_inv in Hq as ->. apply touch_parent; [done|by exists d].
  - by eapply begin_upload_touch.
  - apply confirm_block_view in H as (ps & f & f' & _ & Hg & _ & Ho & _ & Hv). rewrite Hv in Hq.
    apply vset_ne_inv in Hq as ->. by eapply touch_owner.
  - apply complete_upload_view in H as (ps & f & _ & Hg & _ & Ho & _ & Hv). rewrite Hv in Hq.
    apply vset_ne_inv in Hq as ->. by eapply touch_owner.
  - apply abort_upload_view in H as (ps & f & _ & Hg & _ & Ho & Hv); [|done]. rewrite Hv in Hq.
    apply vset_ne_inv in Hq as ->. by eapply touch_owner.
  - eapply (moves_inv (same t_root)) in H; [|apply acquire_lock_root].
    by rewrite (same_root_view _ _ q H) in Hq.
  - eapply (moves_inv (same t_root)) in H; [|apply begin_write_root].
    by rewrite (same_root_view _ _ q H) in Hq.
  - destruct (commit_write_touch _ _ _ _ _ _ _ _ _ _ q H Hq) as (f & Hg & Ha).
    by eapply touch_file.
  - apply chmod_view in H as (ps & n & _ & Hg & Ho & _ & _ & Hv). rewrite Hv in Hq.
    apply vset_ne_inv in Hq as ->. by eapply touch_owner.
  - apply chown_view in H as (ps & n & _ & Hg & Ha & Hne & _ & Hv). rewrite Hv in Hq.
    apply vset_ne_inv in Hq as ->. eapply touch_owner; [done|]. by eapply chown_allowed_owner.
Qed.

(** What a command that raised left changed, if anything. *)
Lemma command_err_touch c cl t t' e q :
  caller_of c = Some cl → run_command c t = (t', Err e) →
  view t' q ≠ view t q → may_touch t cl q.
Proof.
  intros Hc H Hq. destruct (decide (e = PyError)) as [->|He].
  2: { exfalso. eapply swept_untouched; [|exact Hq]. by eapply run_command_clean. }
  destruct c; simplify_eq/=; unfold as_none, as_blocks in H;
    (apply bind_err_inv in H as [H|(? & ? & _ & H)]; [|unfold mret, M_ret in H; congruence]).
  all: try (exfalso; apply Hq; eapply clean_untouched; [|exact H]; solve [auto with dfs]).
  - eapply (moves_inv (same t_root)) in H; [|apply begin_write_root].
    by rewrite (same_root_view _ _ q H) in Hq.
  - destruct (commit_write_touch _ _ _ _ _ _ _ _ _ _ q H Hq) as (f & Hg & Ha).
    by eapply touch_file.
Qed.

(** C8. Whatever a command sent on behalf of a caller changes in the tree, the
    permissions of the tree before the command allowed that caller to change:
    for every path whose entry differs afterwards (created, removed, rewritten,
    or given another owner, group or mode), the caller could write its
    directory, or the closest existing directory when the path is new, or the
    file itself, or owned the node, or is an administrator.  This holds for
    commands that fail as well. *)
Theorem changes_are_authorized c cl t t' r q :
  caller_of c = Some cl → tree_wf t → run_command c t = (t', r) →
  view t' q ≠ view t q → may_touch t cl q.
Proof. destruct r; eauto using command_touch, command_err_touch. Qed.

Lemma changes_are_authorized_witness : may_touch (demo 5) ana ["home"; "doc"].
Proof.
  eapply (changes_are_authorized (CChmod "/home//doc" 384 ana));
    [reflexivity|apply demo_ok|vm_compute; reflexivity|vm_compute; discriminate].
Defined.
