(* ===== verification/TreeLocks.v ===== *)
(** Locks with leases: who holds a lock at a time, when [acquire_lock] grants
    one, and that a write is only ever published under an exclusive one. *)

From S2P Require Import Prelude Exceptions Dict Paths TreeData Tree TreeFacts Replicated TreeErrors.
From S2P Require Import TreeOps TreeInv.

Open Scope Z_scope.

(** [id] holds the lock of path [c] in mode [m], and its lease runs at [now]. *)
Definition live_holder (t : TreeState) (c : string) (now : Z) (m id : string) : Prop :=
  ∃ h o x, t_locks t !! c = Some (mkLock m h) ∧ h !! id = Some (o, x) ∧ now < x.

(** * The sweep keeps exactly the live holders *)

Lemma live_holders_lookup now h id o x :
  live_holders now h !! id = Some (o, x) ↔ h !! id = Some (o, x) ∧ now < x.
Proof. unfold live_holders. by rewrite map_lookup_filter_Some. Qed.

Lemma cleanup_locks_Some c now t st :
  cleanup_locks c (Some now) (t_locks t) !! c = Some st →
  ∃ h, t_locks t !! c = Some (mkLock (l_mode st) h) ∧ holders st = live_holders now h ∧
    holders st ≠ ∅.
Proof.
  unfold cleanup_locks. destruct (t_locks t !! c) as [[m h]|] eqn:E; [|congruence].
  simpl. case_decide as Hd; [by rewrite lookup_delete_eq|].
  rewrite lookup_insert_eq. intros [= <-]. eauto.
Qed.

Lemma cleanup_locks_None c now t :
  cleanup_locks c (Some now) (t_locks t) !! c = None →
  ∀ m id, ¬ live_holder t c now m id.
Proof.
  unfold cleanup_locks. intros H m id (h & o & x & Hl & Hh & Hx). rewrite Hl in H. simpl in H.
  case_decide as Hd; [|by rewrite lookup_insert_eq in H].
  assert (live_holders now h !! id = Some (o, x)) as E by by apply live_holders_lookup.
  rewrite Hd in E. by rewrite lookup_empty in E.
Qed.

Lemma cleanup_locks_holder c now t st id :
  cleanup_locks c (Some now) (t_locks t) !! c = Some st →
  is_Some (holders st !! id) ↔ live_holder t c now (l_mode st) id.
Proof.
  intros (h & Hl & Hh & _)%cleanup_locks_Some. rewrite Hh. split.
  - intros [[o x] [Hx Hn]%live_holders_lookup]. exists h, o, x. auto.
  - intros (h' & o & x & Hl' & Hx & Hn). exists (o, x). simplify_eq.
    by apply live_holders_lookup.
Qed.

Lemma live_holder_mode t c now m m' id id' :
  live_holder t c now m id → live_holder t c now m' id' → m' = m.
Proof. intros (h & o & x & Hl & _) (h' & o' & x' & Hl' & _). congruence. Qed.

(** Two live holders of a path share it. *)
Lemma live_holders_share t c now m id1 id2 :
  tree_wf t → live_holder t c now m id1 → live_holder t c now m id2 → id1 ≠ id2 → m = "r".
Proof.
  intros Hwf (h & o1 & x1 & Hl & H1 & _) (h' & o2 & x2 & Hl' & H2 & _) Hne. simplify_eq.
  destruct (wf_locks _ Hwf _ _ Hl) as [_ [Hr|[_ Hs]]]; simpl in *; [done|].
  assert (delete id1 h = ∅) as He.
  { apply map_size_empty_inv. rewrite map_size_delete_Some by eauto. by rewrite Hs. }
  assert (delete id1 h !! id2 = Some (o2, x2)) as H by by rewrite lookup_delete_ne.
  by rewrite He, lookup_empty in H.
Qed.

(** * Acquiring *)

(** What the caller of [acquire_lock] needs besides the lock being free. *)
Definition lockable (t : TreeState) (vp m : string) (caller : option Caller) (ps : list string) : Prop :=
  parts_of vp = Ok ps ∧
  ∃ f, _get_node ps t = Some (FileN f) ∧ f_state f = Committed ∧ (m = "r" ∨ m = "w") ∧
    _allows (FileN f) caller (if decide (m = "r") then R else W) = true.

Lemma committed_file_path ps f t :
  Forall comp_ok ps → _get_node ps t = Some (FileN f) → f_state f = Committed →
  committed_file (path_of ps) t = Ok f.
Proof.
  intros Hok Hg Hf. unfold committed_file. rewrite parts_of_path_of by done.
  simpl. rewrite Hg. by rewrite decide_True.
Qed.

(** Past its checks, [acquire_lock] only looks at the swept lock. *)
Lemma acquire_lock_checked vp id o m now l caller t ps :
  lockable t vp m caller ps → 0 < l →
  let ls := cleanup_locks (path_of ps) (Some now) (t_locks t) in
  (acquire_lock vp id o m now l caller t).2 =
    match ls !! path_of ps with
    | Some st => if bool_decide (l_mode st = "r" ∧ m = "r") && bool_decide (holders st !! id = None)
                 then Ok id else Err ConflictError
    | None => Ok id
    end.
Proof.
  intros (Hp & f & Hg & Hf & Hm & Ha) Hl. pose proof (parts_of_ok _ _ Hp) as Hok.
  unfold acquire_lock, canonical_path. rewrite Hp. simpl.
  unfold mbind, M_bind, lift. simpl. rewrite bool_decide_true by done. simpl.
  replace (0 <? l) with true by (symmetry; by apply Z.ltb_lt). simpl.
  unfold _get_committed_file, asks. rewrite (committed_file_path _ _ _ Hok Hg Hf).
  unfold require, _require, lift. rewrite Ha. simpl.
  unfold _cleanup_expired_locks, modify. simpl.
  destruct (cleanup_locks _ _ _ !! _) as [st|]; [|done].
  unfold ensure. destruct (bool_decide (_ ∧ _)); [|done]. by destruct (bool_decide _).
Qed.

Lemma lock_not_free c now t st :
  tree_wf t → cleanup_locks c (Some now) (t_locks t) !! c = Some st →
  ∃ id, live_holder t c now (l_mode st) id.
Proof.
  intros Hwf Hst. pose proof Hst as (h & Hl & Hh & Hne)%cleanup_locks_Some.
  apply map_choose in Hne as (id & v & Hid). exists id.
  apply (cleanup_locks_holder c now t st id Hst). by eexists.
Qed.

(** The locks of [commit_write] and [begin_write]. *)
Lemma holds_write_live c id now t :
  holds_write c id now (t_locks t) → live_holder t c now "w" id.
Proof.
  intros (st & Hst & Hm & Hid). rewrite <-Hm. by apply (cleanup_locks_holder c now t st id Hst).
Qed.

Lemma only_writer t c now id m id' :
  tree_wf t → live_holder t c now "w" id → live_holder t c now m id' → id' = id.
Proof.
  intros Hwf H1 H2. destruct (decide (id' = id)) as [|Hne]; [done|].
  pose proof (live_holder_mode _ _ _ _ _ _ _ H1 H2) as ->.
  by pose proof (live_holders_share _ _ _ _ _ _ Hwf H1 H2 (not_eq_sym Hne)).
Qed.

(** * Theorems *)

(** [acquire_lock] grants the lock exactly when it is compatible with the
    holders whose lease still runs: nobody, or readers if a reader asks under an
    id not in use.  Otherwise it answers [ConflictError]. *)
Theorem acquire_lock_grants t vp ps id o m now l caller :
  tree_wf t → lockable t vp m caller ps → 0 < l →
  let r := (acquire_lock vp id o m now l caller t).2 in
  (r = Ok id ↔ ∀ m' id', live_holder t (path_of ps) now m' id' → m = "r" ∧ m' = "r" ∧ id' ≠ id) ∧
  (r = Ok id ∨ r = Err ConflictError).
Proof.
  intros Hwf Hlk Hl. simpl. rewrite (acquire_lock_checked _ _ _ _ _ _ _ _ _ Hlk Hl).
  destruct (cleanup_locks _ _ _ !! _) as [st|] eqn:Hst.
  - pose proof (λ i, cleanup_locks_holder _ _ _ _ i Hst) as Hh.
    destruct (lock_not_free _ _ _ _ Hwf Hst) as [id0 Hid0].
    destruct (bool_decide_reflect (l_mode st = "r" ∧ m = "r")) as [[Hr ->]|Hr]; simpl.
    + destruct (bool_decide_reflect (holders st !! id = None)) as [Hn|Hn]; (split; [|by auto]).
      * split; [|done]. intros _ m' id' Hlive.
        pose proof (live_holder_mode _ _ _ _ _ _ _ Hid0 Hlive) as ->.
        split_and!; [done|done|]. intros ->. apply Hh in Hlive. rewrite Hn in Hlive.
        by destruct Hlive.
      * split; [done|]. intros H. exfalso.
        assert (live_holder t (path_of ps) now (l_mode st) id) as Hlive
          by by apply Hh, not_eq_None_Some.
        by destruct (H _ _ Hlive) as (_ & _ & ?).
    + split; [|by auto]. split; [done|]. intros H.
      destruct (H _ _ Hid0) as (? & ? & _). tauto.
  - split; [|by auto]. split; [|done]. intros _ m' id' Hlive.
    by apply (cleanup_locks_None _ _ _ Hst) in Hlive.
Qed.

Lemma acquire_lock_grants_witness :
  lockable (demo 6) "/home/doc" "r" bob ["home"; "doc"] ∧
  ((acquire_lock "/home/doc" "K" "bob" "r" 30 50 bob (demo 6)).2 = Ok "K" ∨
   (acquire_lock "/home/doc" "K" "bob" "r" 30 50 bob (demo 6)).2 = Err ConflictError).
Proof.
  assert (lockable (demo 6) "/home/doc" "r" bob ["home"; "doc"]) as Hl.
  { split; [vm_compute; reflexivity|]. eexists. split_and!; [vm_compute; reflexivity| |by left|];
      vm_compute; reflexivity. }
  split; [exact Hl|].
  exact (proj2 (acquire_lock_grants _ _ _ "K" "bob" "r" 30 50 bob (demo_ok 6) Hl eq_refl)).
Defined.

(** C9. In every state a replica can reach, two different ids that hold the lock
    of a path at the same time are both readers. *)
Theorem locks_exclude t c now m1 m2 id1 id2 :
  reachable t → live_holder t c now m1 id1 → live_holder t c now m2 id2 → id1 ≠ id2 →
  m1 = "r" ∧ m2 = "r".
Proof.
  intros Hr%reachable_ok H1 H2 Hne. pose proof (live_holder_mode _ _ _ _ _ _ _ H1 H2) as ->.
  by pose proof (live_holders_share _ _ _ _ _ _ Hr H1 H2 Hne).
Qed.

Lemma locks_exclude_witness : "r" = "r" ∧ "r" = "r".
Proof.
  apply (locks_exclude (tree (apply_log two_readers replicated_init)) "/home/doc" 25 "r" "r" "A" "B").
  - by exists two_readers.
  - do 3 eexists. split_and!; [vm_compute; reflexivity|vm_compute; reflexivity|reflexivity].
  - do 3 eexists. split_and!; [vm_compute; reflexivity|vm_compute; reflexivity|reflexivity].
  - done.
Defined.

(** A write is published only while the committing client holds the
    exclusive lock under which the write began, and nobody else holds it. *)
Theorem commit_under_lock vp wid id e cf now c t t' r :
  tree_wf t → commit_write vp wid id e cf now c t = (t', Ok r) →
  ∃ ps res, parts_of vp = Ok ps ∧ t_writes t !! wid = Some res ∧ w_lock_id res = id ∧
    now < w_lease_expires_at res ∧ live_holder t (path_of ps) now "w" id ∧
    ∀ m id', live_holder t (path_of ps) now m id' → id' = id.
Proof.
  intros Hwf (ps & f & res & bs & rep & Hp & Hg & _ & _ & Hw & _ & Hid & Hlk & _)%commit_write_inv.
  apply holds_write_live in Hlk.
  unfold live_writes in Hw. rewrite map_lookup_filter_Some in Hw. destruct Hw as [Hw Hx].
  exists ps, res. split_and!; eauto using only_writer.
Qed.

Lemma commit_under_lock_witness :
  ∃ ps res, parts_of "/home/doc" = Ok ps ∧ t_writes (demo 7) !! "W" = Some res ∧
    w_lock_id res = "L" ∧ 30 < w_lease_expires_at res ∧
    live_holder (demo 7) (path_of ps) 30 "w" "L" ∧
    ∀ m id', live_holder (demo 7) (path_of ps) 30 m id' → id' = "L".
Proof.
  eapply (commit_under_lock "/home/doc" "W" "L" 0 [(0, "n0", "k0", 4); (1, "n1", "k1", 2)] 30 ana);
    [apply demo_ok|vm_compute; reflexivity].
Defined.
