(* ===== verification/TreeSpec.v ===== *)
(** The namespace as a partial map from paths to entries: a specification of
    [make_dir], [remove_dir] and [remove_file] that knows nothing of nodes,
    dictionaries or lock tables, and the proof that the tree refines it, errors
    included. *)

From S2P Require Import Prelude Exceptions Dict Paths TreeData Tree TreeFacts Replicated TreeErrors.
From S2P Require Import TreeOps TreeInv TreeView TreeLocks.

Open Scope Z_scope.

Notation namespace := (list string → option entry).

(** Permission bits of an entry, as [_allows] reads them on a node. *)
Definition entry_node (e : entry) : node :=
  match e with
  | EFile f => FileN f
  | EDir o g m => DirN (mkDir [] o g m)
  end.
Definition entry_allows (e : entry) (c : option Caller) (want : Z) : bool :=
  _allows (entry_node e) c want.

(** Every proper prefix must be a directory. *)
Fixpoint spec_walk (v : namespace) (pre ps : list string) : result exn unit :=
  match ps with
  | [] => Ok tt
  | x :: ps' =>
      match v (pre ++ [x]) with
      | None => Err PathNotFoundError
      | Some (EFile _) => Err NotADirectoryError
      | Some (EDir _ _ _) => spec_walk v (pre ++ [x]) ps'
      end
  end.

Inductive ns_op := Mkdir | Rmdir | Rm.

(** [ns_spec v locked c op ps r v']: operation [op] on the path [ps] answers
    [r] and leaves the namespace [v']. *)
Inductive ns_spec (v : namespace) (locked : list string → Prop) (c : option Caller)
    : ns_op → list string → result exn unit → namespace → Prop :=
| ns_mkdir_root : ns_spec v locked c Mkdir [] (Err PathExistsError) v
| ns_remove_root op : op ≠ Mkdir → ns_spec v locked c op [] (Err InvalidPathError) v
| ns_walk op ps e :
    ps ≠ [] → spec_walk v [] (init_of ps) = Err e → ns_spec v locked c op ps (Err e) v
| ns_denied op ps e :
    ps ≠ [] → spec_walk v [] (init_of ps) = Ok tt → v (init_of ps) = Some e →
    entry_allows e c W = false → ns_spec v locked c op ps (Err AccessDeniedError) v
| ns_checked op ps e r v' :
    ps ≠ [] → spec_walk v [] (init_of ps) = Ok tt → v (init_of ps) = Some e →
    entry_allows e c W = true → ns_do v locked c op ps r v' → ns_spec v locked c op ps r v'
with ns_do (v : namespace) (locked : list string → Prop) (c : option Caller)
    : ns_op → list string → result exn unit → namespace → Prop :=
| do_mkdir ps :
    v ps = None → ns_do v locked c Mkdir ps (Ok tt) (vset ps (Some (new_entry c)) v)
| do_mkdir_exists ps e : v ps = Some e → ns_do v locked c Mkdir ps (Err PathExistsError) v
| do_missing op ps : op ≠ Mkdir → v ps = None → ns_do v locked c op ps (Err PathNotFoundError) v
| do_rmdir_file ps f : v ps = Some (EFile f) → ns_do v locked c Rmdir ps (Err NotADirectoryError) v
| do_rmdir_full ps o g m x :
    v ps = Some (EDir o g m) → v (ps ++ [x]) ≠ None → ns_do v locked c Rmdir ps (Err NotEmptyError) v
| do_rmdir ps o g m :
    v ps = Some (EDir o g m) → (∀ x, v (ps ++ [x]) = None) →
    ns_do v locked c Rmdir ps (Ok tt) (vset ps None v)
| do_rm_dir ps o g m : v ps = Some (EDir o g m) → ns_do v locked c Rm ps (Err NotAFileError) v
| do_rm_pending ps f :
    v ps = Some (EFile f) → f_state f = Pending → ns_do v locked c Rm ps (Err PathNotFoundError) v
| do_rm_locked ps f :
    v ps = Some (EFile f) → f_state f = Committed → locked ps →
    ns_do v locked c Rm ps (Err ConflictError) v
| do_rm ps f :
    v ps = Some (EFile f) → f_state f = Committed → ¬ locked ps →
    ns_do v locked c Rm ps (Ok tt) (vset ps None v).

(** A path is locked at [now] when somebody holds its lock; without a time
    (journals older than the leases) when there is a lock at all. *)
Definition locked_at (t : TreeState) (now : option Z) (ps : list string) : Prop :=
  match now with
  | Some n => ∃ m id, live_holder t (path_of ps) n m id
  | None => t_locks t !! path_of ps ≠ None
  end.

(** The operations of the tree, their answers reduced to success or error. *)
Definition ns_run (op : ns_op) (vp : string) (now : option Z) (c : option Caller) : TreeM unit :=
  match op with
  | Mkdir => make_dir vp c
  | Rmdir => remove_dir vp c
  | Rm => _ ← remove_file vp now c; mret tt
  end.

(** * Lemmas *)

Lemma entry_allows_node n c w : entry_allows (entry_of n) c w = _allows n c w.
Proof. by destruct n as [f|[ch o g m]]. Qed.

Lemma spec_walk_from t pre ps d :
  _get_node pre t = Some (DirN d) →
  spec_walk (view t) pre ps = match walk ps d with Ok _ => Ok tt | Err e => Err e end.
Proof.
  revert pre d. induction ps as [|x ps IH]; intros pre d Hd; simpl; [done|].
  unfold view, view_from. unfold _get_node in Hd. rewrite node_get_snoc, Hd.
  destruct (dict_get x (children d)) as [[f|d']|] eqn:Hx; simpl; try done.
  apply IH. unfold _get_node. by rewrite node_get_snoc, Hd.
Qed.

Lemma spec_walk_walk t ps :
  spec_walk (view t) [] ps = match walk ps (t_root t) with Ok _ => Ok tt | Err e => Err e end.
Proof. by apply spec_walk_from. Qed.

Lemma locked_at_cleanup t now ps :
  tree_wf t →
  cleanup_locks (path_of ps) now (t_locks t) !! path_of ps ≠ None ↔ locked_at t now ps.
Proof.
  intros Hwf. destruct now as [n|]; simpl; [|done]. split.
  - destruct (cleanup_locks _ _ _ !! _) as [st|] eqn:E; [|done]. intros _.
    destruct (lock_not_free _ _ _ _ Hwf E) as [id Hid]. eauto.
  - intros (m & id & Hl) H. by eapply cleanup_locks_None.
Qed.

Lemma dict_nonempty {V} (d : list (string * V)) : d ≠ [] → ∃ x, dict_get x d ≠ None.
Proof. destruct d as [|[k v] d]; [done|]. exists k. simpl. by rewrite decide_True. Qed.

Lemma dir_nonempty t ps d :
  _get_node ps t = Some (DirN d) → children d ≠ [] → ∃ x, view t (ps ++ [x]) ≠ None.
Proof.
  intros Hg [x Hx]%dict_nonempty. exists x. rewrite view_None. unfold _get_node in *.
  by rewrite node_get_snoc, Hg.
Qed.

(** The checks every operation starts with. *)
Lemma ns_prologue (t : TreeState) (c : option Caller) (ps : list string) {A}
    (k : DirNode → TreeM A) t' r :
  (parent ← _walk_to_parent (init_of ps); _ ← require (DirN parent) c W; k parent) t = (t', r) →
  (∃ e, spec_walk (view t) [] (init_of ps) = Err e ∧ r = Err e ∧ t' = t) ∨
  ∃ d, spec_walk (view t) [] (init_of ps) = Ok tt ∧
    _get_node (init_of ps) t = Some (DirN d) ∧
    (_allows (DirN d) c W = false ∧ r = Err AccessDeniedError ∧ t' = t ∨
     _allows (DirN d) c W = true ∧ k d t = (t', r)).
Proof.
  unfold mbind at 1, M_bind at 1, _walk_to_parent, asks. rewrite spec_walk_walk.
  destruct (walk _ _) as [d|e] eqn:Hw.
  - apply walk_node_get in Hw. intros H. right. exists d. split_and!; [done|done|].
    revert H. unfold mbind, M_bind, require, _require, require_r, lift.
    destruct (_allows _ _ _); intros; simplify_eq; auto.
  - intros. simplify_eq. left. eauto.
Qed.

Definition no_value {A} (r : result exn A) : result exn unit := (λ _, tt) <$> r.

Lemma no_value_unit (r : result exn unit) : no_value r = r.
Proof. by destruct r as [[]|]. Qed.

Lemma ns_finish op t now c ps {A} (k : DirNode → TreeM A) t' r :
  ps ≠ [] →
  (parent ← _walk_to_parent (init_of ps); _ ← require (DirN parent) c W; k parent) t = (t', r) →
  (∀ d, parent_dir t ps d → k d t = (t', r) →
    ∃ v', ns_do (view t) (locked_at t now) c op ps (no_value r) v' ∧ ∀ q, view t' q = v' q) →
  ∃ v', ns_spec (view t) (locked_at t now) c op ps (no_value r) v' ∧ ∀ q, view t' q = v' q.
Proof.
  intros Hne H Hk. apply ns_prologue in H as [(e & Hw & -> & ->)|(d & Hw & Hg & H)].
  { exists (view t). split; [by apply ns_walk|done]. }
  assert (view t (init_of ps) = Some (entry_of (DirN d))) as Hv.
  { unfold view, view_from. unfold _get_node in Hg. by rewrite Hg. }
  destruct H as [(Ha & -> & ->)|[Ha H]].
  - exists (view t). split; [|done]. eapply ns_denied; [done..|]. by rewrite entry_allows_node.
  - destruct (Hk d) as (v' & Hdo & Hq); [by split|done|]. exists v'. split; [|done].
    eapply ns_checked; [done..| |done]. by rewrite entry_allows_node.
Qed.

Lemma make_dir_refines vp now c t t' r ps :
  parts_of vp = Ok ps → make_dir vp c t = (t', r) →
  ∃ v', ns_spec (view t) (locked_at t now) c Mkdir ps (no_value r) v' ∧ ∀ q, view t' q = v' q.
Proof.
  intros Hp. unfold make_dir. rewrite Hp. erewrite bind_ok by done. intros H.
  destruct (decide (ps = [])) as [->|Hne].
  { simpl in H. unfold mbind, M_bind, raise in H. simplify_eq. exists (view t').
    split; [constructor|done]. }
  erewrite bind_ok in H by (unfold ensure; by rewrite bool_decide_true).
  eapply ns_finish; [done|exact H|]. intros d Hpd Hk. cbv beta in Hk.
  pose proof (view_parent _ _ _ Hpd) as Hv.
  unfold ensure, dict_has in Hk. destruct (dict_get _ _) as [o|] eqn:Ho; simpl in Hk.
  - unfold mbind, M_bind, raise in Hk. simplify_eq. exists (view t').
    split; [by eapply do_mkdir_exists|done].
  - unfold mbind, M_bind, mret, M_ret, set_child, modify in Hk. simplify_eq.
    eexists. split; [by eapply do_mkdir|]. intros q.
    rewrite (view_add_child _ d) by (done || by rewrite Ho). done.
Qed.

Lemma remove_dir_refines vp now c t t' r ps :
  tree_wf t → parts_of vp = Ok ps → remove_dir vp c t = (t', r) →
  ∃ v', ns_spec (view t) (locked_at t now) c Rmdir ps (no_value r) v' ∧ ∀ q, view t' q = v' q.
Proof.
  intros Hwf Hp. unfold remove_dir. rewrite Hp. erewrite bind_ok by done. intros H.
  destruct (decide (ps = [])) as [->|Hne].
  { simpl in H. unfold mbind, M_bind, raise in H. simplify_eq. exists (view t').
    split; [by constructor|done]. }
  erewrite bind_ok in H by (unfold ensure; by rewrite bool_decide_true).
  eapply ns_finish; [done|exact H|]. intros d Hpd Hk. cbv beta in Hk.
  pose proof (view_parent _ _ _ Hpd) as Hv.
  destruct (dict_get _ _) as [[f|e]|] eqn:Ho; simpl in Hk.
  - unfold raise in Hk. simplify_eq. exists (view t'). split; [by eapply do_rmdir_file|done].
  - unfold mbind, M_bind, ensure, mret, M_ret, raise in Hk.
    destruct (bool_decide_reflect (children e = [])) as [He|He]; simplify_eq.
    + unfold del_child, modify in Hk. simplify_eq. eexists. split.
      * eapply do_rmdir; [exact Hv|]. intros x. apply view_None.
        pose proof (parent_dir_get _ _ _ Hpd) as Hg. rewrite Ho in Hg. unfold _get_node in *.
        by rewrite node_get_snoc, Hg, He.
      * intros q. by apply (view_drop_child _ d (DirN e)).
    + destruct (dir_nonempty t' ps e) as [x Hx]; [by rewrite (parent_dir_get _ _ _ Hpd)|done|].
      exists (view t'). split; [by eapply do_rmdir_full|done].
  - unfold raise in Hk. simplify_eq. exists (view t'). split; [by eapply do_missing|done].
Qed.

Lemma remove_file_refines vp now c t t' r ps :
  tree_wf t → parts_of vp = Ok ps → remove_file vp now c t = (t', r) →
  ∃ v', ns_spec (view t) (locked_at t now) c Rm ps (no_value r) v' ∧ ∀ q, view t' q = v' q.
Proof.
  intros Hwf Hp. unfold remove_file. rewrite Hp. erewrite bind_ok by done. intros H.
  destruct (decide (ps = [])) as [->|Hne].
  { simpl in H. unfold mbind, M_bind, raise in H. simplify_eq. exists (view t').
    split; [by constructor|done]. }
  erewrite bind_ok in H by (unfold ensure; by rewrite bool_decide_true).
  eapply ns_finish; [done|exact H|]. intros d Hpd Hk. cbv beta in Hk.
  pose proof (view_parent _ _ _ Hpd) as Hv.
  destruct (dict_get _ _) as [[f|e]|] eqn:Ho; simpl in Hk.
  - unfold ensure in Hk. destruct (bool_decide_reflect (f_state f = Committed)) as [Hf|Hf].
    + erewrite bind_ok in Hk by done.
      unfold mbind, M_bind, _cleanup_expired_locks, modify, gets in Hk. simpl in Hk.
      destruct (bool_decide_reflect
        (cleanup_locks (path_of ps) now (t_locks t) !! path_of ps = None)) as [Hl|Hl];
        unfold mret, M_ret, raise, del_child, modify in Hk; simplify_eq.
      * eexists. split.
        -- eapply do_rm; [exact Hv|done|]. intros Hk%locked_at_cleanup; done.
        -- intros q. apply (view_drop_child ps d (FileN f)
             (with_locks (cleanup_locks (path_of ps) now (t_locks t)) t)); [|done..].
           by apply wf_cleanup_locks.
      * exists (view t). split; [|done]. eapply do_rm_locked; [exact Hv|done|].
        by apply locked_at_cleanup.
    + unfold mbind, M_bind, raise in Hk. simplify_eq. exists (view t'). split; [|done].
      eapply do_rm_pending; [exact Hv|]. by destruct (f_state f).
  - unfold raise in Hk. simplify_eq. exists (view t'). split; [by eapply do_rm_dir|done].
  - unfold raise in Hk. simplify_eq. exists (view t'). split; [by eapply do_missing|done].
Qed.

(** * The refinement *)

(** C10. [make_dir], [remove_dir] and [remove_file] do exactly what the
    specification on the partial map of paths says, whatever their arguments:
    the same error on every refused request, the same single change of the
    namespace on success. *)
Theorem namespace_refines op vp now c t t' r :
  tree_wf t → ns_run op vp now c t = (t', r) →
  match parts_of vp with
  | Err e => r = Err e ∧ t' = t
  | Ok ps => ∃ v', ns_spec (view t) (locked_at t now) c op ps r v' ∧ ∀ q, view t' q = v' q
  end.
Proof.
  intros Hwf H. destruct (parts_of vp) as [ps|e] eqn:Hp.
  - destruct op; simpl in H.
    + rewrite <-(no_value_unit r). by eapply make_dir_refines.
    + rewrite <-(no_value_unit r). by eapply remove_dir_refines.
    + destruct (remove_file vp now c t) as [t1 r1] eqn:Hr.
      assert (t' = t1 ∧ r = no_value r1) as [-> ->]; [|by eapply remove_file_refines].
      unfold mbind, M_bind in H. rewrite Hr in H.
      destruct r1; unfold mret, M_ret in H; by simplify_eq.
  - destruct op; simpl in H; unfold make_dir, remove_dir, remove_file in H;
      rewrite Hp in H; unfold mbind, M_bind, lift in H; by simplify_eq.
Qed.

Lemma namespace_refines_witness :
  ∃ v', ns_spec (view (demo 8)) (locked_at (demo 8) (Some 90)) ana Rm ["home"; "doc"] (Ok tt) v' ∧
    ∀ q, view (ns_run Rm "/home//doc/" (Some 90) ana (demo 8)).1 q = v' q.
Proof.
  refine (namespace_refines Rm "/home//doc/" (Some 90) ana (demo 8) _ (Ok tt) (demo_ok 8) _).
  vm_compute. reflexivity.
Defined.
