(* ===== verification/Layout.v ===== *)
(** Arithmetic of fixed-size blocks: the block sizes of a file of [n] bytes
    (every block but the last is full), and how the plan of a copy-on-write
    changes them. *)

From S2P Require Import Prelude Exceptions Dict TreeData.

Open Scope Z_scope.

(** The number of blocks of [n] bytes and their sizes. *)
Definition block_count (bs n : Z) : Z := (n + bs - 1) / bs.
Definition block_len (bs n i : Z) : Z := Z.min bs (n - i * bs).
Definition layout (bs n : Z) : list Z := block_len bs n <$> zrange 0 (block_count bs n).

(** * Ranges *)

Lemma zrange_app a b c : a ≤ b ≤ c → zrange a c = zrange a b ++ zrange b c.
Proof.
  intros H. remember (Z.to_nat (b - a)) as n eqn:Hn. revert a H Hn.
  induction n as [|n IH]; intros a H Hn.
  - replace a with b by lia. by rewrite (zrange_nil b b) by lia.
  - rewrite (zrange_cons a c), (zrange_cons a b) by lia. simpl. by rewrite <-IH by lia.
Qed.

Lemma take_zrange a b n : a ≤ n ≤ b → take (Z.to_nat (n - a)) (zrange a b) = zrange a n.
Proof.
  intros H. rewrite (zrange_app a n b) by lia.
  rewrite <-(zrange_length a n). by rewrite take_app_length.
Qed.

Lemma drop_zrange a b n : a ≤ n → drop (Z.to_nat (n - a)) (zrange a b) = zrange n b.
Proof.
  intros H. destruct (Z.le_gt_cases n b).
  - rewrite (zrange_app a n b) by lia. rewrite <-(zrange_length a n). by rewrite drop_app_length.
  - rewrite drop_ge by (rewrite zrange_length; lia). by rewrite zrange_nil by lia.
Qed.

Lemma fmap_zrange_ext {A} (f g : Z → A) a b :
  (∀ i, a ≤ i < b → f i = g i) → f <$> zrange a b = g <$> zrange a b.
Proof.
  intros H. apply list_fmap_ext. intros k i Hi. apply H.
  apply elem_of_zrange. by eapply list_elem_of_lookup_2.
Qed.

(** * Counting blocks *)

Lemma block_count_bounds bs n :
  0 < bs → 0 ≤ n → (block_count bs n - 1) * bs < n ≤ block_count bs n * bs ∨
    n = 0 ∧ block_count bs n = 0.
Proof.
  intros Hbs Hn. unfold block_count.
  pose proof (Z.div_mod (n + bs - 1) bs) as Hd. pose proof (Z.mod_pos_bound (n + bs - 1) bs Hbs).
  set (q := (n + bs - 1) / bs) in *. destruct (Z.eq_dec n 0) as [->|].
  - right. split; [done|]. subst q. apply Z.div_small. lia.
  - left. split; nia.
Qed.

Lemma block_count_unique bs n k :
  0 < bs → (k - 1) * bs < n ≤ k * bs → block_count bs n = k.
Proof.
  intros Hbs Hk. unfold block_count. symmetry.
  apply (Z.div_unique_pos _ _ _ (n + bs - 1 - k * bs)); nia.
Qed.

Lemma block_count_nonneg bs n : 0 < bs → 0 ≤ n → 0 ≤ block_count bs n.
Proof. intros. unfold block_count. apply Z.div_pos; lia. Qed.

Lemma layout_length bs n : 0 < bs → 0 ≤ n → zlen (layout bs n) = block_count bs n.
Proof.
  intros Hbs Hn. unfold zlen, layout. rewrite length_fmap, zrange_length.
  pose proof (block_count_nonneg bs n Hbs Hn). lia.
Qed.

Lemma sum_blocks_from bs n a :
  0 < bs → 0 ≤ a ≤ block_count bs n → a * bs ≤ n →
  sumZ (block_len bs n <$> zrange a (block_count bs n)) = n - a * bs.
Proof.
  intros Hbs. remember (Z.to_nat (block_count bs n - a)) as k eqn:Hk. revert a Hk.
  induction k as [|k IH]; intros a Hk Ha Hn.
  - rewrite zrange_nil by lia. simpl.
    destruct (block_count_bounds bs n Hbs) as [?|[? ?]]; nia.
  - rewrite zrange_cons by lia. simpl. unfold block_len at 1.
    destruct (Z.le_gt_cases ((a + 1) * bs) n) as [Hle|Hgt].
    + rewrite IH by lia. lia.
    + destruct (block_count_bounds bs n Hbs ltac:(nia)) as [?|[? ?]]; [|nia].
      replace (block_count bs n) with (a + 1) by nia. rewrite zrange_nil by lia. simpl. nia.
Qed.

(** The blocks of [n] bytes hold [n] bytes. *)
Lemma sum_layout bs n : 0 < bs → 0 ≤ n → sumZ (layout bs n) = n.
Proof.
  intros Hbs Hn. unfold layout. rewrite sum_blocks_from; [lia|done| |lia].
  pose proof (block_count_nonneg bs n Hbs Hn). lia.
Qed.

(** * The plan of a write *)

(** Replacing the planned blocks of a file of [size] bytes gives the blocks of
    the new size: nothing else moves. *)
Lemma layout_splice bs size off len :
  0 < bs → 0 ≤ off ≤ size → 0 < len →
  let new := Z.max size (off + len) in
  let first := off / bs in
  let last := (off + len - 1) / bs in
  take (Z.to_nat first) (layout bs size) ++
    (block_len bs new <$> zrange first (last + 1)) ++
    drop (Z.to_nat (last + 1)) (layout bs size) = layout bs new.
Proof.
  intros Hbs Hoff Hlen new first last.
  assert (first * bs ≤ off < (first + 1) * bs) as Hf.
  { unfold first. pose proof (Z.div_mod off bs). pose proof (Z.mod_pos_bound off bs Hbs). nia. }
  assert (last * bs ≤ off + len - 1 < (last + 1) * bs) as Hl.
  { unfold last. pose proof (Z.div_mod (off + len - 1) bs).
    pose proof (Z.mod_pos_bound (off + len - 1) bs Hbs). nia. }
  assert (0 ≤ first) by nia. assert (first ≤ last) by nia.
  set (c := block_count bs size).
  assert (first ≤ c) as Hfc.
  { unfold c. destruct (block_count_bounds bs size Hbs) as [?|[? ->]]; nia. }
  assert (block_count bs new = Z.max c (last + 1)) as Hnew.
  { apply block_count_unique; [done|]. unfold c.
    destruct (block_count_bounds bs size Hbs ltac:(lia)) as [?|[? ->]]; nia. }
  unfold layout. fold c. rewrite Hnew, <-fmap_take, <-fmap_drop.
  replace (Z.to_nat first) with (Z.to_nat (first - 0)) by (f_equal; lia).
  replace (Z.to_nat (last + 1)) with (Z.to_nat (last + 1 - 0)) by (f_equal; lia).
  rewrite take_zrange, drop_zrange by lia.
  rewrite (zrange_app 0 first (Z.max c (last + 1))) by lia.
  rewrite (zrange_app first (last + 1) (Z.max c (last + 1))) by lia.
  rewrite !fmap_app. f_equal; [|f_equal].
  - apply fmap_zrange_ext. intros i Hi. unfold block_len, new. nia.
  - destruct (Z.le_gt_cases c (last + 1)).
    + by rewrite !zrange_nil by lia.
    + rewrite Z.max_l by lia. apply fmap_zrange_ext. intros i Hi. unfold block_len, new.
      assert ((c - 1) * bs < size).
      { unfold c. destruct (block_count_bounds bs size Hbs) as [?|[? ->]]; nia. }
      f_equal. f_equal. nia.
Qed.
