(* ===== verification/TreeWrite.v ===== *)
(** Copy-on-write writes: what a reservation plans, what its publication does to
    the block list, and that a published write keeps the block layout. *)

From S2P Require Import Prelude Exceptions Dict Paths TreeData Tree TreeFacts Replicated TreeErrors.
From S2P Require Import TreeOps TreeInv TreeView TreeLocks Layout.

Open Scope Z_scope.

(** The block a slot and its confirmation publish. *)
Definition slot_new (p : WriteSlotRecord * Confirmed) : BlockRecord :=
  match p with
  | (s, (_, _, chk, size)) => mkBlock (new_block_id s) (new_addresses s) chk size true
  end.

(** A file in fixed-size blocks: all but the last are full. *)
Definition well_laid (f : FileNode) : Prop :=
  0 < f_block_size f ∧ size_bytes <$> blocks f = layout (f_block_size f) (file_size f).

(** * The publishing loop *)

(** Slots with consecutive indices from [first] replace that run of blocks. *)
Lemma publish_run bs l rep first :
  0 ≤ first ≤ zlen bs →
  (slot_index ∘ fst) <$> l = zrange first (first + zlen l) →
  publish bs l rep =
    (take (Z.to_nat first) bs ++ (slot_new <$> l) ++ drop (Z.to_nat first + length l) bs,
     Ok (rep ++ take (length l) (drop (Z.to_nat first) bs))).
Proof.
  revert bs rep first. induction l as [|[s [[[i b] k] z]] l IH]; intros bs rep first Hf Hidx.
  - simpl. by rewrite Nat.add_0_r, take_drop, app_nil_r.
  - unfold zlen in Hidx, Hf. rewrite zrange_cons in Hidx by (simpl; lia). simpl in Hidx.
    injection Hidx as Hi Hidx. simpl. rewrite Hi. unfold zlen in *. case_match eqn:Hlt.
    + apply Z.ltb_lt in Hlt. unfold py_get, py_set.
      rewrite !py_index_nonneg by (unfold zlen; lia).
      destruct (lookup_lt_is_Some_2 bs (Z.to_nat first)) as [old Hold]; [lia|]. rewrite Hold.
      rewrite (IH _ _ (first + 1)); [|rewrite length_insert; lia|].
      2: { etrans; [exact Hidx|]. f_equal; unfold zlen; lia. }
      replace (Z.to_nat (first + 1)) with (S (Z.to_nat first)) by lia. f_equal.
      * rewrite (take_S_r _ _ (mkBlock (new_block_id s) (new_addresses s) k z true))
          by (apply list_lookup_insert_eq; lia).
        rewrite take_insert_ge by lia. rewrite <-app_assoc. simpl. do 3 f_equal.
        rewrite drop_insert_lt by lia. f_equal. lia.
      * rewrite <-app_assoc. do 2 f_equal. rewrite (drop_S bs old) by done. simpl.
        by rewrite drop_insert_lt by lia.
    + apply Z.ltb_ge in Hlt. assert (Z.to_nat first = length bs) as Hfl by lia.
      rewrite (IH _ _ (first + 1)); [|rewrite length_app; simpl; lia|].
      2: { etrans; [exact Hidx|]. f_equal; unfold zlen; lia. }
      replace (Z.to_nat (first + 1)) with (S (Z.to_nat first)) by lia. rewrite Hfl.
      rewrite !(drop_ge bs) by lia. rewrite !(drop_ge (bs ++ _)) by (rewrite length_app; simpl; lia).
      rewrite !take_nil, !app_nil_r. rewrite (take_ge (bs ++ _)) by (rewrite length_app; simpl; lia).
      rewrite take_ge by lia. by rewrite <-app_assoc.
Qed.

(** Slots and confirmations that match carry the planned indices and sizes. *)
Lemma matched_plan sl cf :
  confirmed_key <$> cf = slot_key <$> sl →
  length (zip sl cf) = length sl ∧
  (slot_index ∘ fst) <$> zip sl cf = slot_index <$> sl ∧
  size_bytes <$> (slot_new <$> zip sl cf) = new_size <$> sl ∧
  block_id <$> (slot_new <$> zip sl cf) = new_block_id <$> sl.
Proof.
  revert cf. induction sl as [|s sl IH]; intros [|[[[i b] k] z] cf]; csimpl; try done.
  intros [= -> -> -> H]. destruct (IH _ H) as (H1 & H2 & H3 & H4).
  rewrite H1, H3, H4. unfold compose in *. csimpl. by rewrite H2.
Qed.

Lemma plan_indices sl (g : Z → Z) a b :
  (λ s, (slot_index s, new_size s)) <$> sl = (λ i, (i, g i)) <$> zrange a b →
  slot_index <$> sl = zrange a b.
Proof.
  intros Hplan. apply (f_equal (fmap fst)) in Hplan. rewrite <-!list_fmap_compose in Hplan.
  rewrite <-(list_fmap_id (zrange _ _)). exact Hplan.
Qed.

(** What a matching commit does to the blocks of its file. *)
Lemma publish_planned bs sl cf off len bsz :
  confirmed_key <$> cf = slot_key <$> sl → 0 < bsz →
  (λ s, (slot_index s, new_size s)) <$> sl =
    (λ i, (i, block_len bsz (Z.max (sumZ (size_bytes <$> bs)) (off + len)) i))
      <$> zrange (off / bsz) ((off + len - 1) / bsz + 1) →
  0 < len → 0 ≤ off → off / bsz ≤ zlen bs →
  let first := Z.to_nat (off / bsz) in
  let last := Z.to_nat ((off + len - 1) / bsz + 1) in
  publish bs (zip sl cf) [] =
    (take first bs ++ (slot_new <$> zip sl cf) ++ drop last bs,
     Ok (take (last - first) (drop first bs))).
Proof.
  intros Hm Hbs Hplan Hlen Hoff Hfirst. simpl.
  destruct (matched_plan _ _ Hm) as (Hl & Hi & _).
  pose proof (plan_indices _ _ _ _ Hplan) as Hidx.
  assert (0 ≤ off / bsz ≤ (off + len - 1) / bsz) as Hfl.
  { split; [apply Z.div_pos; lia|apply Z.div_le_mono; lia]. }
  assert (length (zip sl cf) = Z.to_nat ((off + len - 1) / bsz + 1 - off / bsz)) as Hn.
  { rewrite Hl. rewrite <-zrange_length, <-Hidx. by rewrite length_fmap. }
  rewrite (publish_run _ _ _ (off / bsz)); [|lia|].
  2: { rewrite Hi, Hidx. f_equal. unfold zlen. rewrite Hn. lia. }
  rewrite Hn. f_equal; [do 2 f_equal; f_equal; lia|].
  simpl. do 2 f_equal. lia.
Qed.

(** The first planned block is at most one past the last block of the file. *)
Lemma first_in_layout bsz size off :
  0 < bsz → 0 ≤ off ≤ size → off / bsz ≤ block_count bsz size.
Proof.
  intros Hbs Hoff. pose proof (Z.div_mod off bsz). pose proof (Z.mod_pos_bound off bsz Hbs).
  destruct (block_count_bounds bsz size Hbs ltac:(lia)) as [?|[-> ->]]; [nia|].
  replace off with 0 by lia. by rewrite Z.div_0_l by lia.
Qed.

(** Publishing a write of [len] bytes at [off] over well-laid blocks. *)
Lemma publish_layout bs sl cf off len bsz :
  confirmed_key <$> cf = slot_key <$> sl → 0 < bsz →
  size_bytes <$> bs = layout bsz (sumZ (size_bytes <$> bs)) →
  plan_write_slots (size_bytes <$> bs) bsz off len = Ok ((λ s, (slot_index s, new_size s)) <$> sl) →
  let first := Z.to_nat (off / bsz) in
  let last := Z.to_nat ((off + len - 1) / bsz + 1) in
  let new := Z.max (sumZ (size_bytes <$> bs)) (off + len) in
  ∃ bs', publish bs (zip sl cf) [] = (bs', Ok (take (last - first) (drop first bs))) ∧
    size_bytes <$> bs' = layout bsz new ∧
    take first bs' = take first bs ∧ drop last bs' = drop last bs ∧
    block_id <$> take (last - first) (drop first bs') = new_block_id <$> sl.
Proof.
  intros Hm Hbs Hlay Hplan. cbv zeta.
  apply plan_write_slots_ok_inv in Hplan as (Hlen & Hoff & _ & Hplan).
  set (size := sumZ (size_bytes <$> bs)) in *.
  assert (zlen bs = block_count bsz size) as Hcount.
  { rewrite <-layout_length by lia. rewrite <-Hlay. unfold zlen. by rewrite length_fmap. }
  pose proof (first_in_layout bsz size off Hbs Hoff) as Hfirst.
  assert (0 ≤ off / bsz ≤ (off + len - 1) / bsz) as Hfl.
  { split; [apply Z.div_pos; lia|apply Z.div_le_mono; lia]. }
  destruct (matched_plan _ _ Hm) as (Hl & _ & Hsz & Hids).
  assert (length (slot_new <$> zip sl cf) =
    Z.to_nat ((off + len - 1) / bsz + 1) - Z.to_nat (off / bsz))%nat as Hn.
  { rewrite length_fmap, Hl. apply (f_equal length) in Hplan.
    rewrite !length_fmap, zrange_length in Hplan. lia. }
  assert (length (take (Z.to_nat (off / bsz)) bs) = Z.to_nat (off / bsz)) as Htk.
  { rewrite length_take. unfold zlen in Hcount. lia. }
  eexists. split_and!; [apply publish_planned; try done; try lia| | | |].
  - rewrite !fmap_app, Hsz, fmap_take, fmap_drop, Hlay.
    rewrite <-(layout_splice bsz size off len Hbs Hoff Hlen). do 2 f_equal.
    apply (f_equal (fmap snd)) in Hplan. rewrite <-!list_fmap_compose in Hplan. exact Hplan.
  - by rewrite <-Htk at 1; rewrite take_app_length.
  - rewrite (app_assoc (take _ _)). rewrite drop_app_length'; [done|].
    rewrite length_app, Htk, Hn. lia.
  - rewrite drop_app_length' by done. rewrite take_app_length' by done. exact Hids.
Qed.

(** * A whole write *)

(** The reservation plans a write of [len] bytes at [off] of the file [f]. *)
Definition plans (res : WriteReservation) (f : FileNode) (off len : Z) : Prop :=
  w_block_size res = f_block_size f ∧
  plan_write_slots (size_bytes <$> blocks f) (w_block_size res) off len =
    Ok ((λ s, (slot_index s, new_size s)) <$> slots res).

(** [f'] is [f] after the write of [len] bytes at [off] in the blocks [ids],
    which replaced the blocks [replaced]. *)
Record written (f f' : FileNode) (off len : Z) (ids : list string) (replaced : list BlockRecord)
    : Prop := mkWritten {
  written_size : file_size f' = Z.max (file_size f) (off + len);
  written_layout : well_laid f';
  written_version : version f' = version f + 1;
  written_before : take (Z.to_nat (off / f_block_size f)) (blocks f') =
    take (Z.to_nat (off / f_block_size f)) (blocks f);
  written_after : drop (Z.to_nat ((off + len - 1) / f_block_size f + 1)) (blocks f') =
    drop (Z.to_nat ((off + len - 1) / f_block_size f + 1)) (blocks f);
  written_ids : block_id <$> take (length ids) (drop (Z.to_nat (off / f_block_size f)) (blocks f')) = ids;
  written_replaced :
    take (Z.to_nat (off / f_block_size f)) (blocks f) ++ replaced ++
      drop (Z.to_nat ((off + len - 1) / f_block_size f + 1)) (blocks f) = blocks f;
  written_meta : f_state f' = f_state f ∧ f_owner f' = f_owner f ∧ f_group f' = f_group f ∧
    f_mode f' = f_mode f ∧ f_block_size f' = f_block_size f
}.

Lemma take_drop_range {A} (l : list A) (a b : nat) :
  (a ≤ b)%nat → take a l ++ take (b - a) (drop a l) ++ drop b l = l.
Proof.
  intros H. replace (drop b l) with (drop (b - a) (drop a l)) by (rewrite drop_drop; f_equal; lia).
  by rewrite take_drop, take_drop.
Qed.

Lemma commit_write_lands vp wid id e cf now c t t' v replaced ps f res off len :
  commit_write vp wid id e cf now c t = (t', Ok (v, replaced)) →
  parts_of vp = Ok ps → view t ps = Some (EFile f) → t_writes t !! wid = Some res →
  plans res f off len → well_laid f →
  ∃ f', written f f' off len (new_block_id <$> slots res) replaced ∧ v = version f' ∧
    (∀ q, view t' q = vset ps (Some (EFile f')) (view t) q) ∧ t_writes t' !! wid = None.
Proof.
  intros Hcw Hp Hv Hres [Hbsz Hplan] [Hbs Hlay]. apply view_file in Hv.
  apply commit_write_inv in Hcw
    as (ps' & f0 & res0 & bs & rep & Hp' & Hg & _ & _ & Hw & _ & _ & _ & _ & _ & Hm & Hpub & [= -> ->] & ->).
  unfold live_writes in Hw. rewrite map_lookup_filter_Some in Hw. destruct Hw as [Hw _].
  assert (ps' = ps) as -> by congruence. assert (f0 = f) as -> by congruence.
  assert (res0 = res) as -> by congruence. rewrite Hbsz in Hplan.
  destruct (publish_layout _ _ _ _ _ _ Hm Hbs Hlay Hplan) as (bs' & Hpub' & Hsz & Htk & Hdr & Hids).
  rewrite Hpub in Hpub'. injection Hpub' as <- ->.
  apply plan_write_slots_ok_inv in Hplan as (Hlen & Hoff & _ & Hplan).
  assert (0 ≤ off / f_block_size f ≤ (off + len - 1) / f_block_size f) as Hfl.
  { split; [apply Z.div_pos; lia|apply Z.div_le_mono; lia]. }
  assert (length (new_block_id <$> slots res) =
    Z.to_nat ((off + len - 1) / f_block_size f + 1) - Z.to_nat (off / f_block_size f))%nat as Hn.
  { rewrite length_fmap. apply (f_equal length) in Hplan.
    rewrite !length_fmap, zrange_length in Hplan. lia. }
  exists (with_version (version f + 1) (w_block_size res) (with_blocks bs f)). split_and!.
  - assert (sumZ (size_bytes <$> bs) = Z.max (file_size f) (off + len)) as Hsum.
    { rewrite Hsz, sum_layout; [done|done|]. unfold file_size. lia. }
    split; simpl; try done.
    + split; simpl; rewrite Hbsz; [done|]. unfold file_size. simpl. by rewrite Hsum.
    + by rewrite Hn.
    + apply take_drop_range. lia.
  - done.
  - intros q. rewrite view_with_writes.
    rewrite (view_put_file _ (with_blocks bs f)) by by eapply get_put_file.
    unfold vset. case_decide; [done|]. rewrite (view_put_file _ f) by done.
    unfold vset. by rewrite decide_False.
  - simpl. apply lookup_delete_eq.
Qed.
