(* ===== verification/TreeFence.v ===== *)
(** Fencing: a reservation that can still be committed was planned on the very
    blocks the file has now.  The version of a file is not enough for this (a
    file removed and uploaded again starts at version 0): what excludes the
    stale write is that its lock cannot be held any more, because the servicer
    never uses a lock id twice. *)

From S2P Require Import Prelude Exceptions Dict Paths TreeData Tree TreeFacts Replicated TreeErrors.
From S2P Require Import TreeOps TreeInv TreeView TreeAuth TreeLocks Layout TreeWrite.

Open Scope Z_scope.

(** [id] is recorded as a holder of the lock of [c], expired or not. *)
Definition held (t : TreeState) (c id : string) : Prop :=
  ∃ st, t_locks t !! c = Some st ∧ is_Some (holders st !! id).

(** The lock id a command brings. *)
Definition acquires (c : command) : option string :=
  match c with
  | CAcquireLock _ id _ _ _ _ _ => Some id
  | _ => None
  end.
Definition acquired (l : list entry_t) : list string := omap (λ e, acquires e.2) l.

(** No lock id is used for two acquisitions. *)
Definition fresh_locks (l : list entry_t) : Prop := NoDup (acquired l).

Record guarded (used : list string) (t : TreeState) : Prop := mkGuarded {
  g_held : ∀ c id, held t c id → id ∈ used;
  g_res : ∀ w r, t_writes t !! w = Some r → w_lock_id r ∈ used;
  g_plan : ∀ w r ps, t_writes t !! w = Some r → Forall comp_ok ps → w_path r = path_of ps →
    held t (w_path r) (w_lock_id r) →
    ∃ f, view t ps = Some (EFile f) ∧ f_state f = Committed ∧ base_version r ≤ version f ∧
      (version f = base_version r → 0 < f_block_size f → ∃ off len, plans r f off len)
}.

(** The published file [f'] continues [f]: a new version, or the same blocks. *)
Definition continues (f f' : FileNode) : Prop :=
  f_state f' = Committed ∧ version f ≤ version f' ∧
  (version f' = version f → 0 < f_block_size f' →
     size_bytes <$> blocks f' = size_bytes <$> blocks f ∧ f_block_size f' = f_block_size f).

(** [quiet used new t t']: no reservation appears, no lock is taken except under
    an id in [new], and locked files are continued. *)
Record quiet (new : list string) (t t' : TreeState) : Prop := mkQuiet {
  q_held : ∀ c id, held t' c id → held t c id ∨ id ∈ new;
  q_writes : t_writes t' ⊆ t_writes t;
  q_files : ∀ ps f id, view t ps = Some (EFile f) → f_state f = Committed →
    held t' (path_of ps) id → ∃ f', view t' ps = Some (EFile f') ∧ continues f f'
}.

Lemma guarded_quiet used new t t' :
  guarded used t → quiet new t t' → (∀ id, id ∈ new → id ∉ used) → guarded (used ++ new) t'.
Proof.
  intros [Gh Gr Gp] [Qh Qw Qf] Hnew. split.
  - intros c id Hid. apply elem_of_app. destruct (Qh _ _ Hid) as [H|H]; [left; by eapply Gh|auto].
  - intros w r Hr. apply elem_of_app. left. eapply Gr. by eapply lookup_weaken.
  - intros w r ps Hr Hok Hp Hheld. pose proof (lookup_weaken _ _ _ _ Hr Qw) as Hr0.
    destruct (Qh _ _ Hheld) as [H|H]; [|by destruct (Hnew _ H); eapply Gr].
    destruct (Gp _ _ _ Hr0 Hok Hp H) as (f & Hv & Hc & Hb & Hplan).
    rewrite Hp in Hheld. destruct (Qf _ _ _ Hv Hc Hheld) as (f' & Hv' & Hc' & Hle & Hsame).
    exists f'. split_and!; [done|done|lia|]. intros Hver Hbs.
    destruct (Hsame ltac:(lia) Hbs) as [Hsz Hbz].
    destruct Hplan as (off & len & Hw & Hpl); [lia|lia|].
    exists off, len. split; [by rewrite Hbz|by rewrite Hsz].
Qed.

Lemma continues_refl f : f_state f = Committed → continues f f.
Proof. unfold continues. intros. by split_and!. Qed.

Lemma held_locks t t' c id : t_locks t' = t_locks t → held t' c id → held t c id.
Proof. unfold held. by intros ->. Qed.

(** The view and the reservations unchanged, the locks shrunk. *)
Lemma quiet_same_view new t t' :
  (∀ c id, held t' c id → held t c id ∨ id ∈ new) → t_writes t' ⊆ t_writes t →
  (∀ q, view t' q = view t q) → quiet new t t'.
Proof.
  intros Hh Hw Hv. split; [done|done|]. intros ps f id Hf Hc _. exists f.
  rewrite Hv. auto using continues_refl.
Qed.

Lemma held_swept t t' c id : swept t t' → held t' c id → held t c id.
Proof.
  intros [_ _ _ Hl] (st & Hst & [x Hx]). destruct (Hl _ _ Hst) as (st0 & H0 & _ & Hsub & _).
  exists st0. split; [done|]. exists x. by eapply lookup_weaken.
Qed.

Lemma quiet_swept t t' : swept t t' → quiet [] t t'.
Proof.
  intros Hs. apply quiet_same_view; [|by destruct Hs|intros q; by apply swept_view].
  intros c id H. left. by eapply held_swept.
Qed.

(** One path changed, locks and reservations swept at most. *)
Lemma quiet_vset t t' ps o :
  (∀ q, view t' q = vset ps o (view t) q) → t_writes t' ⊆ t_writes t →
  (∀ c id, held t' c id → held t c id) →
  (∀ f id, view t ps = Some (EFile f) → f_state f = Committed → held t' (path_of ps) id →
     ∃ f', o = Some (EFile f') ∧ continues f f') → quiet [] t t'.
Proof.
  intros Hv Hw Hh Hf. split; [auto|done|]. intros q f id Hq Hc Hheld. rewrite Hv. unfold vset.
  case_decide; [subst|exists f; auto using continues_refl]. by eapply Hf.
Qed.

(** * Every command is quiet, but for the locks and reservations it creates *)

Lemma locks_alter p f t c id : held (alter_tree p f t) c id → held t c id.
Proof. apply held_locks, alter_tree_locks. Qed.

Lemma make_dir_quiet vp c t t' u : make_dir vp c t = (t', Ok u) → quiet [] t t'.
Proof.
  intros H. pose proof H as (ps & d & _ & _ & _ & _ & ->)%make_dir_inv.
  apply make_dir_view in H as (ps' & d' & _ & _ & _ & Hn & Hv).
  eapply quiet_vset; [exact Hv|by rewrite alter_tree_writes|apply locks_alter|]. congruence.
Qed.

Lemma remove_dir_quiet vp c t t' u :
  tree_wf t → remove_dir vp c t = (t', Ok u) → quiet [] t t'.
Proof.
  intros Hwf H. pose proof H as (ps & d & e & _ & _ & _ & _ & _ & ->)%remove_dir_inv.
  apply remove_dir_view in H as (ps' & d' & ? & ? & ? & _ & _ & _ & Hn & _ & Hv); [|done].
  eapply quiet_vset; [exact Hv|by rewrite alter_tree_writes|apply locks_alter|]. congruence.
Qed.

(** A removed file is not locked: nobody can still hold its lock. *)
Lemma remove_file_quiet vp now c t t' bs :
  tree_wf t → remove_file vp now c t = (t', Ok bs) → quiet [] t t'.
Proof.
  intros Hwf H. pose proof H as (ps & d & f & Hp & _ & _ & _ & _ & Hl & _ & Ht)%remove_file_inv.
  apply remove_file_view in H as (ps' & d' & f' & Hp' & _ & _ & Hn & _ & _ & Hv); [|done].
  assert (ps' = ps) as -> by congruence.
  assert (swept t (with_locks (cleanup_locks (path_of ps) now (t_locks t)) t)) as Hs
    by apply (moves_cleanup_locks (path_of ps) now t).
  eapply quiet_vset; [exact Hv|subst; by rewrite alter_tree_writes| |].
  - intros q id Hh. subst. eapply held_swept, locks_alter; [exact Hs|exact Hh].
  - intros g id _ _ (st & Hst & _). subst. rewrite alter_tree_locks in Hst. simpl in Hst. congruence.
Qed.

Lemma chmod_quiet vp m c t t' u : chmod vp m c t = (t', Ok u) → quiet [] t t'.
Proof.
  intros H. pose proof H as (ps & n & _ & _ & _ & _ & _ & ->)%chmod_inv.
  apply chmod_view in H as (ps' & n' & _ & Hg & _ & _ & _ & Hv).
  eapply quiet_vset; [exact Hv|by rewrite alter_tree_writes|apply locks_alter|].
  intros f id Hf%view_file Hc _. rewrite Hg in Hf. simplify_eq/=. eexists. split; [done|].
  unfold continues. by split_and!.
Qed.

Lemma chown_quiet vp o g c t t' u : chown vp o g c t = (t', Ok u) → quiet [] t t'.
Proof.
  intros H. pose proof H as (ps & n & _ & _ & _ & _ & _ & _ & _ & Ht)%chown_inv.
  apply chown_view in H as (ps' & n' & _ & Hg & _ & _ & _ & Hv).
  eapply quiet_vset; [exact Hv|subst; by rewrite !alter_tree_writes
    |intros q id Hh; subst; by do 2 eapply locks_alter|].
  intros f id Hf%view_file Hc _. rewrite Hg in Hf. simplify_eq. unfold chown_node.
  repeat case_decide; eexists; (split; [reflexivity|]);
    unfold continues; by split_and!.
Qed.

(** Uploads only touch unpublished files. *)
Lemma quiet_put_pending t t' ps f f' :
  _get_node ps t = Some (FileN f) → f_state f = Pending → t' = put_file ps f' t → quiet [] t t'.
Proof.
  intros Hg Hf ->.
  eapply quiet_vset; [intros q; by apply (view_put_file _ f)|by rewrite alter_tree_writes
    |apply locks_alter|].
  intros g id Hv%view_file Hc. congruence.
Qed.

Lemma confirm_block_quiet vp b k z now lease c t t' u :
  confirm_block vp b k z now lease c t = (t', Ok u) → quiet [] t t'.
Proof.
  intros (ps & f & bs & f' & _ & Hg & Hf & _ & _ & _ & ->)%confirm_block_inv.
  by eapply quiet_put_pending.
Qed.

Lemma complete_upload_quiet vp c t t' u :
  complete_upload vp c t = (t', Ok u) → quiet [] t t'.
Proof.
  intros (ps & f & _ & Hg & Hf & _ & _ & ->)%complete_upload_inv. by eapply quiet_put_pending.
Qed.

Lemma abort_upload_quiet vp c t t' u :
  tree_wf t → abort_upload vp c t = (t', Ok u) → quiet [] t t'.
Proof.
  intros Hwf H. pose proof H as (ps & d & f & _ & _ & _ & _ & _ & ->)%abort_upload_inv.
  apply abort_upload_view in H as (ps' & f' & _ & Hg & Hf & _ & Hv); [|done].
  eapply quiet_vset; [exact Hv|by rewrite alter_tree_writes|apply locks_alter|].
  intros g id Hv'%view_file Hc. congruence.
Qed.

Lemma update_block_replicas_quiet vp b e n t t' u :
  update_block_replicas vp b e n t = (t', Ok u) → quiet [] t t'.
Proof.
  intros (ps & f & i & x & _ & Hg & Hf & Hi & _ & _ & ->)%update_block_replicas_inv.
  eapply quiet_vset; [intros q; by apply (view_put_file _ f)|by rewrite alter_tree_writes
    |apply locks_alter|].
  intros g id Hv%view_file _ _. rewrite Hg in Hv. simplify_eq. eexists. split; [done|].
  unfold continues. split_and!; [done|done|]. intros _ _. split; [|done]. simpl. rewrite list_fmap_insert.
  apply list_insert_id. simpl. rewrite list_lookup_fmap, Hi. done.
Qed.

(** The walk and the upload leave locks and reservations alone. *)
Definition tables (t : TreeState) := (t_locks t, t_writes t).

Lemma set_child_tables p x c : moves (same tables) (set_child p x c).
Proof.
  apply moves_modify. intros t. unfold same, tables.
  by rewrite alter_tree_locks, alter_tree_writes.
Qed.

Lemma walk_create_tables c rest prefix b : moves (same tables) (walk_create c prefix rest b).
Proof.
  revert prefix b. induction rest as [|x rest IH]; intros prefix b; simpl.
  - apply moves_bind; [apply _|auto with dfs|]. intros d. destruct b; auto with dfs.
  - apply moves_bind; [apply _|auto with dfs|]. intros d.
    destruct (dict_get x (children d)) as [[f|d']|]; [auto with dfs|auto|].
    apply moves_bind; [apply _|destruct b; auto with dfs|]. intros _.
    apply moves_bind; [apply _|apply set_child_tables|auto].
Qed.

Lemma begin_upload_tables vp pl now lease bs c t t' r :
  begin_upload vp pl now lease bs c t = (t', Ok r) → tables t' = tables t.
Proof.
  destruct r as [r st]. intros (ps & t1 & d & _ & Hw & _ & _ & _ & ->)%begin_upload_inv.
  eapply (moves_inv (same tables)) in Hw; [|apply walk_create_tables].
  rewrite <-Hw. unfold tables. by rewrite alter_tree_locks, alter_tree_writes.
Qed.

Lemma begin_upload_quiet vp pl now lease bs c t t' r :
  begin_upload vp pl now lease bs c t = (t', Ok r) → quiet [] t t'.
Proof.
  intros H. pose proof (begin_upload_tables _ _ _ _ _ _ _ _ _ H) as [= Hl Hw].
  destruct r as [r st].
  apply begin_upload_view in H as (ps & _ & _ & _ & _ & Hold & Hother & Hps).
  split; [intros c' id; left; by eapply held_locks|by rewrite Hw|].
  intros q f id Hv Hc _. destruct (decide (q = ps)) as [->|Hne].
  - destruct Hold as [[Hn _]|(g & Hg & Hs & _)]; congruence.
  - exists f. split; [|by apply continues_refl].
    destruct (Hother q Hne) as [->|[Hfr _]]; [done|].
    apply fresh_under_None in Hfr. congruence.
Qed.

(** ** Locks *)

Lemma held_cleanup c now t c' id :
  held (with_locks (cleanup_locks c now (t_locks t)) t) c' id → held t c' id.
Proof. apply held_swept. apply (moves_cleanup_locks c now t). Qed.

(** The lock of [c] replaced by one with no new holder. *)
Lemma held_replaced c now t st' :
  (∀ id, is_Some (holders st' !! id) →
     ∃ st, cleanup_locks c now (t_locks t) !! c = Some st ∧ is_Some (holders st !! id)) →
  ∀ c' id,
    held (with_locks (<[c := st']> (cleanup_locks c now (t_locks t))) t) c' id → held t c' id.
Proof.
  intros H c' id (st & Hst & Hid). apply (held_cleanup c now). simpl in Hst.
  destruct (decide (c = c')) as [<-|Hne].
  - rewrite lookup_insert_eq in Hst. simplify_eq. by destruct (H _ Hid) as (st0 & ? & ?); exists st0.
  - rewrite lookup_insert_ne in Hst by done. by exists st.
Qed.

Lemma acquire_lock_quiet vp id o m now l c t t' r :
  acquire_lock vp id o m now l c t = (t', Ok r) → quiet [id] t t'.
Proof.
  intros (ps & f & h & _ & _ & _ & _ & _ & _ & _ & _ & Hh & ->)%acquire_lock_inv.
  apply quiet_same_view; [|done|done]. intros c' id' (st & Hst & Hid). simpl in Hst.
  destruct (decide (id' = id)) as [->|Hne]; [right; by left|]. left.
  apply (held_cleanup (path_of ps) (Some now)).
  destruct (decide (path_of ps = c')) as [<-|Hc].
  - rewrite lookup_insert_eq in Hst. simplify_eq/=. rewrite lookup_insert_ne in Hid by done.
    destruct Hh as [[_ ->]|[_ Hl]]; [by rewrite lookup_empty in Hid; destruct Hid|].
    by eexists.
  - rewrite lookup_insert_ne in Hst by done. by exists st.
Qed.

Lemma renew_lock_quiet vp id now l t t' u :
  renew_lock vp id now l t = (t', Ok u) → quiet [] t t'.
Proof.
  intros (ps & f & st & o & x & _ & _ & _ & _ & Hst & Hid & ->)%renew_lock_inv.
  apply quiet_same_view; [|done|done]. intros c' id' Hheld. left. revert c' id' Hheld.
  apply held_replaced. simpl. intros id' Hid'. exists st. split; [done|].
  destruct (decide (id' = id)) as [->|]; [by rewrite Hid|]. by rewrite lookup_insert_ne in Hid'.
Qed.

Lemma release_lock_quiet vp id now t t' u :
  release_lock vp id now t = (t', Ok u) → quiet [] t t'.
Proof.
  intros (ps & f & _ & _ & _ & H)%release_lock_inv. cbv zeta in H.
  assert (∀ c' id', held t' c' id' → held t c' id') as Hheld.
  { destruct H as [(_ & _ & ->)|(st & Hst & Hid & ->)]; [intros c' id'; apply held_cleanup|].
    case_decide.
    - intros c' id' (st' & Hst' & ?). apply (held_cleanup (path_of ps) now). exists st'.
      simpl in Hst'. by apply lookup_delete_Some in Hst' as [_ Hst'].
    - apply held_replaced. simpl. intros id' [x Hx]. apply lookup_delete_Some in Hx as [_ Hx].
      exists st. split; [done|by exists x]. }
  apply quiet_same_view; [auto| |]; by destruct H as [(_ & _ & ->)|(st & _ & _ & ->)].
Qed.

(** ** Users and reservations *)

Lemma quiet_users t u : quiet [] t (with_users u t).
Proof. by apply quiet_same_view; auto. Qed.

Lemma abort_write_quiet vp w id now t t' r : abort_write vp w id now t = (t', Ok r) → quiet [] t t'.
Proof.
  intros (ps & ws & _ & Hws & H)%abort_write_inv.
  assert (ws ⊆ t_writes t) as Hsub.
  { subst. destruct now; [apply map_filter_subseteq|done]. }
  destruct H as [(_ & -> & _)|(res & _ & _ & _ & _ & ->)]; apply quiet_same_view; auto.
  simpl. etrans; [apply delete_subseteq|done].
Qed.

(** ** Commits *)

Lemma publish_ok bs l rep :
  Forall (λ p, 0 ≤ slot_index p.1) l → ∃ bs' rep', publish bs l rep = (bs', Ok rep').
Proof.
  intros Hl. revert bs rep. induction Hl as [|[s [[[i b] k] z]] l Hs Hl IH]; intros bs rep; simpl.
  - eauto.
  - simpl in Hs. destruct (Z.ltb_spec (slot_index s) (zlen bs)); [|apply IH].
    unfold py_get, py_set. rewrite py_index_nonneg by lia.
    destruct (lookup_lt_is_Some_2 bs (Z.to_nat (slot_index s))) as [old ->];
      [unfold zlen in *; lia|apply IH].
Qed.

Lemma plans_nonneg res f off len :
  plans res f off len → 0 < f_block_size f → Forall (λ s, 0 ≤ slot_index s) (slots res).
Proof.
  intros [Hb (Hlen & Hoff & _ & Hp)%plan_write_slots_ok_inv] Hbs. rewrite Hb in Hp.
  apply plan_indices in Hp. apply Forall_forall. intros s Hs.
  assert (slot_index s ∈ slot_index <$> slots res) as Hi by (apply list_elem_of_fmap; by exists s).
  rewrite Hp in Hi.
  apply elem_of_zrange in Hi. pose proof (Z.div_pos off (f_block_size f)). lia.
Qed.

Lemma Forall_zip_l {A B} (P : A → Prop) (l : list A) (k : list B) :
  Forall P l → Forall (λ p, P p.1) (zip l k).
Proof. intros H. revert k. induction H; intros [|y k]; simpl; constructor; auto. Qed.

(** The two sweeps of a commit. *)
Lemma held_commit c now t c' id :
  held (with_locks (cleanup_locks c (Some now) (t_locks t))
          (with_writes (live_writes now (t_writes t)) t)) c' id → held t c' id.
Proof. apply (held_cleanup c (Some now) (with_writes (live_writes now (t_writes t)) t)). Qed.

Lemma live_writes_sub now ws : live_writes now ws ⊆ ws.
Proof. apply map_filter_subseteq. Qed.

Lemma holds_write_held c id now t : holds_write c id now (t_locks t) → held t c id.
Proof.
  intros (h & o & x & Hl & Hid & _)%holds_write_live. exists (mkLock "w" h). simpl. eauto.
Qed.

(** A commit that breaks off had no file of positive block size before it. *)
Lemma commit_broken used t ps f res w cf :
  guarded used t → Forall comp_ok ps → _get_node ps t = Some (FileN f) →
  t_writes t !! w = Some res → w_path res = path_of ps → held t (path_of ps) (w_lock_id res) →
  version f = base_version res → 0 < f_block_size f →
  ∃ bs rep, publish (blocks f) (zip (slots res) cf) [] = (bs, Ok rep).
Proof.
  intros Hg Hok Hf Hr Hp Hh Hv Hbs. rewrite <-Hp in Hh.
  destruct (g_plan _ _ Hg _ _ _ Hr Hok Hp Hh) as (f0 & Hv0 & _ & _ & Hplan).
  apply view_file in Hv0. simplify_eq. destruct (Hplan Hv Hbs) as (off & len & Hpl).
  apply publish_ok, (Forall_zip_l (λ s, 0 ≤ slot_index s)). by eapply plans_nonneg.
Qed.

Lemma commit_write_quiet used vp w id e cf now c t t' r :
  guarded used t → commit_write vp w id e cf now c t = (t', r) → quiet [] t t'.
Proof.
  intros Hgd [Hs|(ps & f & res & bs & out & [Hp Hg Hf _ Hw _ Hwp Hlk Hv _] & Hpub & H)]%commit_write_cases;
    [by apply quiet_swept|].
  pose proof (committing_swept (path_of ps) now t) as Hs.
  assert (t_locks t' = t_locks (committing (path_of ps) now t) ∧
    t_writes t' ⊆ t_writes (committing (path_of ps) now t)) as [Hl Hsub].
  { destruct out; destruct H as [_ ->]; simpl; rewrite ?alter_tree_locks, ?alter_tree_writes;
      (split; [done|]); [apply delete_subseteq|done]. }
  assert (∃ f', (∀ q, view t' q = vset ps (Some (EFile f')) (view t) q) ∧ continues f f')
    as (f' & Hq & Hcont).
  { destruct out as [rep|err]; destruct H as [_ ->]; eexists; split.
    - intros q. rewrite view_with_writes. by apply publishing_view.
    - unfold continues. simpl. split_and!; [done|lia|lia].
    - intros q. etrans; [by apply (view_put_file _ f)|reflexivity].
    - split_and!; [done|done|]. intros _ Hbs. exfalso. apply holds_write_held in Hlk.
      destruct (commit_broken used t ps f res w cf) as (bs' & rep & E); try done.
      + by eapply parts_of_ok.
      + congruence. }
  eapply quiet_vset; [exact Hq|by etrans; [exact Hsub|apply Hs]| |].
  - intros c' id' Hh. eapply held_swept; [exact Hs|]. by eapply held_locks.
  - intros g id' Hgv%view_file _ _. assert (g = f) as -> by congruence. eauto.
Qed.

(** ** Reservations *)

(** The reservation of a write of the file the lock protects. *)
Lemma guarded_reserve used t ps f w id d now x off len plan pr :
  guarded used t → Forall comp_ok ps → _get_node ps t = Some (FileN f) → f_state f = Committed →
  holds_write (path_of ps) id now (t_locks t) →
  plan_write_slots (size_bytes <$> blocks f) (_block_size_of f d) off len = Ok plan →
  plan.*1 = (λ p : Proposal, p.1.1) <$> pr →
  guarded used (with_writes
    (<[w := mkReservation w (path_of ps) (version f) id (_block_size_of f d)
              (make_slot <$> zip plan pr) x]> (live_writes now (t_writes t)))
    (with_locks (cleanup_locks (path_of ps) (Some now) (t_locks t)) t)).
Proof.
  intros Hg Hok Hf Hc Hlk Hplan Hpr. pose proof (holds_write_held _ _ _ _ Hlk) as Hheld.
  pose proof (guarded_quiet used [] _ _ Hg (quiet_swept _ _ (sweeps_swept (path_of ps) now t))) as Hg1.
  rewrite app_nil_r in Hg1. destruct Hg1 as [G1 G2 G3]; [intros ? H; by apply not_elem_of_nil in H|].
  split.
  - intros c' id' Hh. apply (G1 c' id' Hh).
  - intros w' r Hr. simpl in Hr. apply lookup_insert_Some in Hr as [[<- <-]|[_ Hr]].
    + by eapply g_held.
    + by eapply G2.
  - intros w' r qs Hr Hqs Hp Hh. simpl in Hr. apply lookup_insert_Some in Hr as [[<- <-]|[_ Hr]].
    + simpl in *. apply path_of_inj in Hp; [|done|done]. subst qs. exists f.
      split_and!; [by apply view_file|done|lia|]. intros _ Hbs. exists off, len.
      split; simpl.
      * unfold _block_size_of. destruct (Z.eqb_spec (f_block_size f) 0); [lia|done].
      * by rewrite make_slots_plan.
    + by eapply G3.
Qed.

Lemma begin_write_guarded used vp w id e o l pr now ls d c t t' r :
  guarded used t → begin_write vp w id e o l pr now ls d c t = (t', r) → guarded used t'.
Proof.
  intros Hgd [Hs|(ps & f & res & [Hp Hg Hf _ Hlk (plan & Hplan & Hpr & ->)] & ->)]%begin_write_cases.
  - rewrite <-(app_nil_r used). eapply guarded_quiet; [done|by apply quiet_swept|].
    intros ? Hn. by apply not_elem_of_nil in Hn.
  - eapply guarded_reserve; eauto using parts_of_ok.
Qed.

(** * Every log *)

Lemma guarded_weaken used n t : guarded used t → guarded (used ++ n) t.
Proof.
  intros [G1 G2 G3]. split; [..|done]; intros; apply elem_of_app; eauto.
Qed.

Lemma quiet_weaken new t t' : quiet [] t t' → quiet new t t'.
Proof.
  intros [Qh Qw Qf]. split; [|done|done]. intros c id H.
  destruct (Qh _ _ H) as [?|Hn]; [by left|by apply not_elem_of_nil in Hn].
Qed.

(** A method that fails cleanly and is quiet when it returns. *)
Lemma quiet_method {A B} new (m : TreeM A) (f : A → B) t t' r :
  moves_on_err swept (λ _, True) m →
  (∀ a, m t = (t', Ok a) → quiet new t t') →
  (a ← m; mret (f a)) t = (t', r) → quiet new t t'.
Proof.
  intros He Hok. unfold mbind, M_bind. destruct (m t) as [t1 [a|e]] eqn:E.
  - unfold mret, M_ret. intros [= <- <-]. eauto.
  - intros [= <- <-]. apply quiet_weaken, quiet_swept. by eapply He.
Qed.

Lemma then_ret_state {A B} (m : TreeM A) (f : A → B) t t' r :
  (a ← m; mret (f a)) t = (t', r) → ∃ r', m t = (t', r').
Proof.
  unfold mbind, M_bind. destruct (m t) as [t1 [a|e]]; unfold mret, M_ret; naive_solver.
Qed.

Definition new_locks (c : command) : list string := option_list (acquires c).

Lemma run_command_quiet used c t t' r :
  guarded used t → tree_wf t → run_command c t = (t', r) →
  quiet (new_locks c) t t' ∨ guarded used t'.
Proof.
  intros Hgd Hwf H. destruct c; simpl in H; unfold as_none, as_blocks in H;
    first
    [ left; unfold raise in H; simplify_eq; by apply quiet_weaken, quiet_swept
    | right; apply then_ret_state in H as [r' H]; by eapply begin_write_guarded
    | left; apply then_ret_state in H as [r' H]; by eapply commit_write_quiet
    | left; eapply quiet_method; [..|exact H]; [solve [auto with dfs]|intros a Ha] ].
  all: unfold new_locks; simpl.
  all: eauto using make_dir_quiet, remove_dir_quiet, remove_file_quiet, begin_upload_quiet,
    confirm_block_quiet, complete_upload_quiet, abort_upload_quiet, acquire_lock_quiet,
    renew_lock_quiet, release_lock_quiet, update_block_replicas_quiet, abort_write_quiet,
    chmod_quiet, chown_quiet.
  - apply create_user_inv in Ha as (_ & _ & _ & ->). apply quiet_users.
  - apply change_password_inv in Ha as (? & _ & ->). apply quiet_users.
Qed.

Lemma run_command_guarded used c t t' r :
  guarded used t → tree_wf t → run_command c t = (t', r) →
  (∀ id, id ∈ new_locks c → id ∉ used) → guarded (used ++ new_locks c) t'.
Proof.
  intros Hgd Hwf H Hnew. destruct (run_command_quiet _ _ _ _ _ Hgd Hwf H) as [Hq|Hg].
  - by eapply guarded_quiet.
  - by apply guarded_weaken.
Qed.

Lemma acquired_snoc l e : acquired (l ++ [e]) = acquired l ++ new_locks e.2.
Proof. unfold acquired. rewrite omap_app. simpl. unfold new_locks. by destruct (acquires e.2). Qed.

(** Every state a log without repeated lock ids reaches is guarded. *)
Lemma log_guarded l :
  fresh_locks l → guarded (acquired l) (tree (apply_log l replicated_init)).
Proof.
  unfold fresh_locks. induction l as [|[op c] l IH] using rev_ind; intros Hfresh.
  - split; [intros c id (st & Hst & _)|intros w r Hst|intros w r ps Hst];
      simpl in Hst; by rewrite lookup_empty in Hst.
  - rewrite acquired_snoc in Hfresh |- *. apply NoDup_app in Hfresh as (Hl & Hdisj & _).
    specialize (IH Hl). rewrite apply_log_snoc. unfold apply. simpl.
    destruct (dict_get op _); simpl; [by apply guarded_weaken|]. unfold dispatch.
    destruct (bool_decide _); simpl; [|by apply guarded_weaken].
    destruct (run_command c _) as [t' r] eqn:Hrun. simpl. eapply run_command_guarded;
      [exact IH|apply apply_log_keeps, tree_init_ok|exact Hrun|].
    intros id Hn Hin. by apply (Hdisj _ Hin).
Qed.

(** C4. As long as no lock id is used twice, a write that commits lands on the
    very blocks it was planned for, whatever happened to the file since the
    reservation (removals, new uploads, other writes): the reservation plans a
    write of [len] bytes at [off] of the file as it is now, the new size is
    [max size (off + len)], every block but the last is full again, the blocks
    of the plan and no others are replaced, the answer lists the replaced ones,
    and no other path changes. *)
Theorem committed_write_lands l vp wid id e cf now c t t' v replaced ps f :
  fresh_locks l → tree (apply_log l replicated_init) = t →
  commit_write vp wid id e cf now c t = (t', Ok (v, replaced)) →
  parts_of vp = Ok ps → view t ps = Some (EFile f) → well_laid f →
  ∃ res off len f', t_writes t !! wid = Some res ∧ plans res f off len ∧
    written f f' off len (new_block_id <$> slots res) replaced ∧ v = version f' ∧
    (∀ q, view t' q = vset ps (Some (EFile f')) (view t) q) ∧ t_writes t' !! wid = None.
Proof.
  intros Hl Ht Hcw Hp Hv Hlay. pose proof (log_guarded l Hl) as Hg. rewrite Ht in Hg.
  pose proof Hcw as (ps' & f0 & res & bs & rep & Hp' & Hf0 & _ & _ & Hw & Hwp & Hid & Hlk & _ & Hver & _ & _ & _ & _)%commit_write_inv.
  assert (ps' = ps) as -> by congruence. apply view_file in Hf0.
  assert (f0 = f) as -> by congruence.
  unfold live_writes in Hw. rewrite map_lookup_filter_Some in Hw. destruct Hw as [Hw _].
  apply holds_write_held in Hlk.
  destruct (g_plan _ _ Hg wid res ps Hw) as (f1 & Hv1 & _ & _ & Hplan);
    [by eapply parts_of_ok|done|by rewrite Hwp, Hid|].
  assert (f1 = f) as -> by congruence.
  destruct (Hplan Hver (proj1 Hlay)) as (off & len & Hpl).
  destruct (commit_write_lands _ _ _ _ _ _ _ _ _ _ _ _ _ _ _ _ Hcw Hp Hv Hw Hpl Hlay)
    as (f' & Hwr & Hv' & Hq & Hnone).
  exists res, off, len, f'. by split_and!.
Qed.

Lemma committed_write_lands_witness :
  ∃ res off len f',
    t_writes (demo 7) !! "W" = Some res ∧
    plans res (mkFile Committed
      [mkBlock "b0" ["d1"] "c0" 4 true; mkBlock "b1" ["d2"] "c1" 2 true] 102 0 4 "ana" "staff" 420)
      off len ∧
    written (mkFile Committed
      [mkBlock "b0" ["d1"] "c0" 4 true; mkBlock "b1" ["d2"] "c1" 2 true] 102 0 4 "ana" "staff" 420)
      f' off len (new_block_id <$> slots res)
      [mkBlock "b0" ["d1"] "c0" 4 true; mkBlock "b1" ["d2"] "c1" 2 true] ∧
    1 = version f' ∧
    (∀ q, view (commit_write "/home/doc" "W" "L" 0 [(0, "n0", "k0", 4); (1, "n1", "k1", 2)] 30 ana
                  (demo 7)).1 q = vset ["home"; "doc"] (Some (EFile f')) (view (demo 7)) q) ∧
    t_writes (commit_write "/home/doc" "W" "L" 0 [(0, "n0", "k0", 4); (1, "n1", "k1", 2)] 30 ana
                (demo 7)).1 !! "W" = None.
Proof.
  apply (committed_write_lands (take 7 demo_log) "/home/doc" "W" "L" 0
    [(0, "n0", "k0", 4); (1, "n1", "k1", 2)] 30 ana (demo 7)); try (vm_compute; reflexivity).
  - apply NoDup_singleton.
  - split; vm_compute; reflexivity.
Defined.
