(* ===== verification/TreeUpload.v ===== *)
(** The life of an upload: reserved, confirmed block by block in any order,
    published.  Also what a commit leaves for a rival write and for a late
    [abort_write]. *)

From S2P Require Import Prelude Exceptions Dict Paths TreeData Tree TreeFacts Replicated TreeErrors.
From S2P Require Import TreeOps TreeInv TreeView TreeLocks.

Open Scope Z_scope.

(** The confirmations a client sends, in the order it sends them. *)
Fixpoint confirm_all (vp : string) (cs : list (string * (string * Z))) (now lease : option Z)
    (c : option Caller) : TreeM unit :=
  match cs with
  | [] => mret tt
  | (b, (k, z)) :: cs' =>
      _ ← confirm_block vp b k z now lease c; confirm_all vp cs' now lease c
  end.

(** The block of a placement once the confirmations [cs] have arrived. *)
Definition placed (cs : list (string * (string * Z))) (p : string * list string) : BlockRecord :=
  match dict_get p.1 cs with
  | Some (k, z) => mkBlock p.1 p.2 k z true
  | None => new_block p.1 p.2
  end.

(** An upload in progress at [ps] that [c] may continue. *)
Definition uploading (t : TreeState) (ps : list string) (c : option Caller) (f : FileNode) : Prop :=
  _get_node ps t = Some (FileN f) ∧ f_state f = Pending ∧ _owner_or_admin (FileN f) c = true.

(** * One confirmation *)

Lemma placed_snoc cs b k z p :
  b ∉ cs.*1 → placed (cs ++ [(b, (k, z))]) p =
    if bool_decide (p.1 = b) then confirm_one k z (placed cs p) else placed cs p.
Proof.
  intros Hb. unfold placed. rewrite dict_get_app. simpl.
  destruct (bool_decide_reflect (p.1 = b)) as [->|Hne].
  - assert (dict_get b cs = None) as -> by by apply dict_get_None. by rewrite decide_True.
  - rewrite decide_False by done. by destruct (dict_get p.1 cs) as [[]|].
Qed.

Lemma block_id_placed cs p : block_id (placed cs p) = p.1.
Proof. unfold placed. by destruct (dict_get p.1 cs) as [[]|]. Qed.

Lemma update_first_placed cs b k z (pl : list (string * list string)) :
  NoDup pl.*1 → b ∈ pl.*1 → b ∉ cs.*1 →
  update_first (λ x, bool_decide (block_id x = b)) (confirm_one k z) (placed cs <$> pl) =
    Some (placed (cs ++ [(b, (k, z))]) <$> pl).
Proof.
  intros Hnd Hb Hcs. induction pl as [|p pl IH]; csimpl in *; [by apply not_elem_of_nil in Hb|].
  apply NoDup_cons in Hnd as [Hp Hnd]. rewrite block_id_placed, placed_snoc by done.
  destruct (bool_decide_reflect (p.1 = b)) as [<-|Hne].
  - f_equal. f_equal. apply list_fmap_ext. intros i q Hq. rewrite placed_snoc by done.
    rewrite bool_decide_false; [done|]. intros E. apply Hp. rewrite <-E.
    apply list_elem_of_fmap. exists q. split; [done|]. by eapply list_elem_of_lookup_2.
  - apply elem_of_cons in Hb as [->|Hb]; [done|]. by rewrite IH.
Qed.

Lemma get_pending_ok vp ps f t :
  parts_of vp = Ok ps → _get_node ps t = Some (FileN f) → f_state f = Pending →
  _get_pending_file vp t = (t, Ok f).
Proof.
  intros Hp Hg Hf. unfold _get_pending_file, mbind, M_bind, lift, gets. rewrite Hp. simpl.
  rewrite Hg. by rewrite decide_True.
Qed.

Lemma confirm_block_ok vp ps b k z now lease c t f bs :
  parts_of vp = Ok ps → uploading t ps c f →
  update_first (λ x, bool_decide (block_id x = b)) (confirm_one k z) (blocks f) = Some bs →
  ∃ l, confirm_block vp b k z now lease c t =
    (put_file ps (with_lease l (with_blocks bs f)) t, Ok tt).
Proof.
  intros Hp (Hg & Hf & Ho) Hbs. unfold confirm_block.
  erewrite bind_ok by by eapply get_pending_ok.
  erewrite bind_ok by (unfold _require_upload_owner; by rewrite Ho).
  erewrite bind_ok by (unfold lift; by rewrite Hp). rewrite Hbs.
  destruct now as [n|], lease as [l|]; try (by exists (f_lease_expires_at f); destruct f).
  destruct (Z.eqb_spec l 0) as [->|Hl]; simpl.
  - by exists (f_lease_expires_at f); destruct f.
  - eexists. done.
Qed.

(** * All of them *)

Lemma confirm_all_ok vp ps pl cs0 cs now lease c t f :
  parts_of vp = Ok ps → uploading t ps c f → blocks f = placed cs0 <$> pl →
  NoDup pl.*1 → NoDup (cs0 ++ cs).*1 → (cs0 ++ cs).*1 ⊆ pl.*1 →
  ∃ t' l, confirm_all vp cs now lease c t = (t', Ok tt) ∧
    uploading t' ps c (with_lease l (with_blocks (placed (cs0 ++ cs) <$> pl) f)) ∧
    (∀ q, view t' q =
       vset ps (Some (EFile (with_lease l (with_blocks (placed (cs0 ++ cs) <$> pl) f)))) (view t) q).
Proof.
  intros Hp. revert cs0 t f. induction cs as [|[b [k z]] cs IH]; intros cs0 t f Hup Hb Hnd Hcs Hsub.
  - simpl. rewrite app_nil_r. exists t, (f_lease_expires_at f).
    assert (with_lease (f_lease_expires_at f) (with_blocks (placed cs0 <$> pl) f) = f) as ->.
    { rewrite <-Hb. by destruct f. }
    split_and!; [done|done|]. intros q. unfold vset. case_decide; [subst|done].
    destruct Hup as (Hg & _). by apply view_file.
  - assert (b ∉ cs0.*1) as Hnb.
    { rewrite fmap_app in Hcs. apply NoDup_app in Hcs as (_ & Hdisj & _).
      intros Hin. apply (Hdisj b Hin). by left. }
    assert (b ∈ pl.*1) as Hbp.
    { apply Hsub. rewrite fmap_app. apply elem_of_app. right. by left. }
    assert (update_first (λ x, bool_decide (block_id x = b)) (confirm_one k z) (blocks f) =
      Some (placed (cs0 ++ [(b, (k, z))]) <$> pl)) as Hup1
      by by rewrite Hb; apply update_first_placed.
    destruct (confirm_block_ok vp ps b k z now lease c t f _ Hp Hup Hup1) as [l0 Hc].
    pose proof Hup as (Hg & Hf & Ho).
    set (f1 := with_lease l0 (with_blocks (placed (cs0 ++ [(b, (k, z))]) <$> pl) f)) in *.
    replace (cs0 ++ (b, (k, z)) :: cs) with ((cs0 ++ [(b, (k, z))]) ++ cs) in * by
      by rewrite <-app_assoc.
    destruct (IH (cs0 ++ [(b, (k, z))]) (put_file ps f1 t) f1) as (t' & l & Hall & Hup' & Hv); auto.
    { split_and!; [by eapply get_put_file|done|done]. }
    exists t', l. split_and!; [|exact Hup'|].
    + simpl. by erewrite bind_ok by exact Hc.
    + intros q. rewrite Hv. unfold vset. case_decide; [done|].
      rewrite (view_put_file _ f) by done. unfold vset. by rewrite decide_False.
Qed.

Lemma placed_all cs pl :
  pl.*1 ⊆ cs.*1 → forallb confirmed (placed cs <$> pl) = true.
Proof.
  induction pl as [|p pl IH]; intros Hsub; csimpl in *; [done|]. apply andb_true_iff. split.
  - unfold placed. destruct (dict_get p.1 cs) as [[]|] eqn:E; [done|].
    apply dict_get_None in E. destruct E. apply Hsub. by left.
  - apply IH. intros x Hx. apply Hsub. by right.
Qed.

Lemma complete_ok vp ps c t f :
  parts_of vp = Ok ps → uploading t ps c f → forallb confirmed (blocks f) = true →
  complete_upload vp c t = (put_file ps (with_state Committed f) t, Ok tt).
Proof.
  intros Hp (Hg & Hf & Ho) Hall. unfold complete_upload.
  erewrite bind_ok by by eapply get_pending_ok.
  erewrite bind_ok by (unfold _require_upload_owner; by rewrite Ho).
  rewrite Hall. erewrite bind_ok by done.
  erewrite bind_ok by (unfold lift; by rewrite Hp). done.
Qed.

Lemma ownership_owner bs l v z m c :
  _owner_or_admin (FileN (mkFile Pending bs l v z (_ownership c).1 (_ownership c).2 m)) c = true.
Proof.
  destruct c as [[[u gs] a]|]; [|done]. simpl. rewrite bool_decide_true by done.
  apply orb_true_r.
Qed.

(** An upload that began, whose blocks are then confirmed by its owner in
    any order and that is completed, publishes a file with exactly the blocks
    that were placed, in their order, each with the checksum and the size it
    was confirmed with; no other path changes on the way.  Before it began
    there was nothing at the path, or an abandoned upload. *)
Theorem upload_publishes vp ps pl cs now now' lease bs c t t1 r st :
  parts_of vp = Ok ps → NoDup pl.*1 → cs.*1 ≡ₚ pl.*1 →
  begin_upload vp pl now lease bs c t = (t1, Ok (r, st)) →
  ∃ t', (_ ← confirm_all vp cs now' lease c; complete_upload vp c) t1 = (t', Ok tt) ∧
    (∀ q, q ≠ ps → view t' q = view t1 q) ∧
    ∃ f, view t' ps = Some (EFile f) ∧ f_state f = Committed ∧ version f = 0 ∧
      blocks f = (λ p, match dict_get p.1 cs with
                       | Some (k, z) => mkBlock p.1 p.2 k z true
                       | None => new_block p.1 p.2
                       end) <$> pl ∧
      Forall (λ b, confirmed b = true) (blocks f) ∧
      (view t ps = None ∨ ∃ g, view t ps = Some (EFile g) ∧ f_state g = Pending).
Proof.
  intros Hp Hnd Hperm (ps' & Hp' & _ & _ & _ & Hold & _ & Hv)%begin_upload_view.
  assert (ps' = ps) as -> by congruence.
  set (f0 := mkFile _ _ _ _ _ _ _ _) in Hv.
  assert (uploading t1 ps c f0) as Hup.
  { split_and!; [by apply view_file|done|apply ownership_owner]. }
  destruct (confirm_all_ok vp ps pl [] cs now' lease c t1 f0) as (t2 & l & Hc & Hup2 & Hv2);
    [done|done|done|done|by simpl; rewrite Hperm|by simpl; rewrite Hperm|].
  simpl in Hup2, Hv2. set (f2 := with_lease l _) in *.
  assert (forallb confirmed (blocks f2) = true) as Hall.
  { simpl. apply placed_all. by rewrite Hperm. }
  exists (put_file ps (with_state Committed f2) t2). split_and!.
  - erewrite bind_ok by done. by apply complete_ok.
  - intros q Hq. destruct Hup2 as (Hg2 & _). rewrite (view_put_file _ f2) by done.
    unfold vset. rewrite decide_False by done. rewrite Hv2. unfold vset. by rewrite decide_False.
  - exists (with_state Committed f2). destruct Hup2 as (Hg2 & _).
    split_and!; [|done|done|done| |].
    + rewrite (view_put_file _ f2) by done. unfold vset. by rewrite decide_True.
    + simpl. rewrite Forall_forall. rewrite forallb_forall in Hall.
      intros b Hb. apply Hall. by apply list_elem_of_In.
    + destruct Hold as [[? _]|(g & ? & ? & _)]; eauto.
Qed.

Lemma upload_publishes_witness :
  ∃ t', (_ ← confirm_all "/home/doc" [("b1", ("c1", 2)); ("b0", ("c0", 4))] (Some 2) (Some 100) ana;
         complete_upload "/home/doc" ana) (demo 2) = (t', Ok tt) ∧
    (∀ q, q ≠ ["home"; "doc"] → view t' q = view (demo 2) q) ∧
    ∃ f, view t' ["home"; "doc"] = Some (EFile f) ∧ f_state f = Committed ∧ version f = 0 ∧
      blocks f = (λ p, match dict_get p.1 [("b1", ("c1", 2)); ("b0", ("c0", 4))] with
                       | Some (k, z) => mkBlock p.1 p.2 k z true
                       | None => new_block p.1 p.2
                       end) <$> [("b0", ["d1"]); ("b1", ["d2"])] ∧
      Forall (λ b, confirmed b = true) (blocks f) ∧
      (view (demo 1) ["home"; "doc"] = None ∨
       ∃ g, view (demo 1) ["home"; "doc"] = Some (EFile g) ∧ f_state g = Pending).
Proof.
  refine (upload_publishes "/home/doc" ["home"; "doc"] [("b0", ["d1"]); ("b1", ["d2"])]
    [("b1", ("c1", 2)); ("b0", ("c0", 4))] (Some 0) (Some 2) (Some 100) (Some 4) ana
    (demo 1) (demo 2) [("b0", ["d1"]); ("b1", ["d2"])] [] _ _ _ _).
  - vm_compute. reflexivity.
  - apply (bool_decide_unpack _). vm_compute. exact I.
  - apply Permutation_swap.
  - vm_compute. reflexivity.
Defined.

(** After a write is published, a rival write reserved on the same version
    of the file can no longer be published, and a late [abort_write] of the
    published one answers that there is nothing to delete and leaves the tree
    as it is (so the client does not delete blocks the file now uses). *)
Theorem commit_settles vp wid id e cf now c t t' r :
  commit_write vp wid id e cf now c t = (t', Ok r) →
  (∀ rival res res' vp2 id2 e2 cf2 now2 c2 t2 r2,
     t_writes t !! wid = Some res → t_writes t !! rival = Some res' →
     w_path res' = w_path res → base_version res' = base_version res →
     commit_write vp2 rival id2 e2 cf2 now2 c2 t' ≠ (t2, Ok r2)) ∧
  (∀ vp2 id2 now2 t2 r2,
     abort_write vp2 wid id2 now2 t' = (t2, Ok r2) → r2 = [] ∧ ∀ q, view t2 q = view t' q).
Proof.
  intros H. pose proof H as (ps & f & res0 & bs & rep & Hp & Hg & Hf & _ & Hw & Hpath & _ & _ & _ & Hver & _ & _ & _ & Ht')%commit_write_inv.
  unfold live_writes in Hw. rewrite map_lookup_filter_Some in Hw. destruct Hw as [Hw _].
  apply commit_write_view in H as (ps' & f' & ? & ? & ? & Hp' & Hg' & _ & _ & _ & Hv).
  assert (ps' = ps) as -> by congruence. assert (f' = f) as -> by congruence. clear Hg'.
  split.
  - intros rival res res' vp2 id2 e2 cf2 now2 c2 t2 r2 Hres Hres' Hpp Hbb Hc2.
    simplify_eq. apply commit_write_inv
      in Hc2 as (ps2 & f2 & res2 & _ & _ & Hp2 & Hg2 & _ & _ & Hw2 & Hpath2 & _ & _ & _ & Hver2 & _).
    unfold live_writes in Hw2. rewrite map_lookup_filter_Some in Hw2. destruct Hw2 as [Hw2 _].
    simpl in Hw2. apply lookup_delete_Some in Hw2 as [_ Hw2]. rewrite map_lookup_filter_Some in Hw2.
    destruct Hw2 as [Hw2 _]. simplify_eq.
    assert (path_of ps2 = path_of ps) as Hpeq by congruence.
    apply path_of_inj in Hpeq; [|by eapply parts_of_ok..]. subst ps2.
    apply view_file in Hg2. rewrite Hv in Hg2. unfold vset in Hg2. rewrite decide_True in Hg2 by done.
    simplify_eq/=. lia.
  - intros vp2 id2 now2 t2 r2 (ps2 & ws & _ & Hws & [(-> & -> & _)|(res & Hr & _)])%abort_write_inv;
      [done|].
    exfalso. subst t' ws. simpl in Hr. destruct now2.
    + unfold live_writes in Hr. rewrite map_lookup_filter_Some, lookup_delete_eq in Hr. naive_solver.
    + by rewrite lookup_delete_eq in Hr.
Qed.

Lemma commit_settles_witness :
  (abort_write "/home/doc" "W" "L" (Some 40) (demo 8)).2 = Ok [] ∧
  ∀ vp2 id2 now2 t2 r2,
    abort_write vp2 "W" id2 now2 (demo 8) = (t2, Ok r2) → r2 = [] ∧ ∀ q, view t2 q = view (demo 8) q.
Proof.
  split; [vm_compute; reflexivity|].
  refine (proj2 (commit_settles "/home/doc" "W" "L" 0 [(0, "n0", "k0", 4); (1, "n1", "k1", 2)] 30 ana
    (demo 7) (demo 8) (1, [mkBlock "b0" ["d1"] "c0" 4 true; mkBlock "b1" ["d2"] "c1" 2 true]) _)).
  vm_compute. reflexivity.
Defined.
