(* ===== verification/TreeRefs.v ===== *)
(** What the tree tells the background processes and the listings: the block
    references the garbage collector trusts, the published blocks the
    re-replicator walks, and the directory listing. *)

From S2P Require Import Prelude Exceptions Dict Paths TreeData Tree TreeFacts Replicated TreeErrors.
From S2P Require Import TreeOps TreeInv TreeView.

Open Scope Z_scope.

(** [m] says that the DataNode [a] may hold the block [bid]. *)
Definition ref_has (m : Refs) (bid a : string) : Prop := ∃ s, m !! bid = Some s ∧ a ∈ s.

(** Some file, published or not, has the block; or a live reservation proposes it. *)
Definition in_a_file (t : TreeState) (bid a : string) : Prop :=
  ∃ q f b, view t q = Some (EFile f) ∧ b ∈ blocks f ∧ block_id b = bid ∧ a ∈ datanode_addresses b.
Definition in_a_write (t : TreeState) (now : Z) (bid a : string) : Prop :=
  ∃ w r s, t_writes t !! w = Some r ∧ now < w_lease_expires_at r ∧ s ∈ slots r ∧
    new_block_id s = bid ∧ a ∈ new_addresses s.

(** * Folds that add references *)

Lemma add_ref_has b l m bid a :
  ref_has (add_ref b l m) bid a ↔ ref_has m bid a ∨ b = bid ∧ a ∈ l.
Proof.
  unfold ref_has, add_ref. destruct (decide (b = bid)) as [->|Hne].
  - rewrite lookup_insert_eq. split.
    + intros (s & [= <-] & Ha). apply elem_of_union in Ha as [Ha|Ha].
      * destruct (m !! bid) as [s|]; simpl in Ha; [eauto|set_solver].
      * right. split; [done|]. by apply elem_of_list_to_set in Ha.
    + intros H. eexists. split; [done|]. apply elem_of_union.
      destruct H as [(s & -> & Ha)|[_ Ha]]; [by left|right; by apply elem_of_list_to_set].
  - rewrite lookup_insert_ne by done. naive_solver.
Qed.

Lemma fold_has {X} (g : X → Refs → Refs) (P : X → Prop) bid a l m :
  (∀ x m, x ∈ l → ref_has (g x m) bid a ↔ ref_has m bid a ∨ P x) →
  ref_has (foldl (λ acc x, g x acc) m l) bid a ↔ ref_has m bid a ∨ ∃ x, x ∈ l ∧ P x.
Proof.
  revert m. induction l as [|x l IH]; intros m Hg; simpl.
  - split; [by left|]. intros [?|(x & Hx & _)]; [done|by apply not_elem_of_nil in Hx].
  - rewrite IH by (intros; apply Hg; by right). rewrite Hg by by left.
    setoid_rewrite elem_of_cons. naive_solver.
Qed.

Lemma add_block_refs_has bs m bid a :
  ref_has (add_block_refs bs m) bid a ↔
    ref_has m bid a ∨ ∃ b, b ∈ bs ∧ block_id b = bid ∧ a ∈ datanode_addresses b.
Proof.
  unfold add_block_refs.
  rewrite (fold_has (λ b acc, add_ref (block_id b) (datanode_addresses b) acc)
             (λ b, block_id b = bid ∧ a ∈ datanode_addresses b)); [done|].
  intros b acc _. apply add_ref_has.
Qed.

Definition node_refers (n : node) (bid a : string) : Prop :=
  ∃ q f b, node_get q n = Some (FileN f) ∧ b ∈ blocks f ∧ block_id b = bid ∧
    a ∈ datanode_addresses b.

Lemma node_get_dir q d f :
  node_get q (DirN d) = Some (FileN f) ↔
    ∃ x c q', q = x :: q' ∧ dict_get x (children d) = Some c ∧ node_get q' c = Some (FileN f).
Proof.
  split.
  - destruct q as [|x q]; simpl; [done|]. destruct (dict_get x _) as [c|] eqn:E; [|done].
    intros Hg. by exists x, c, q.
  - intros (x & c & q' & -> & E & Hg). simpl. by rewrite E.
Qed.

Lemma dict_get_iff {V} k (v : V) d : dict_ok d → dict_get k d = Some v ↔ (k, v) ∈ d.
Proof. split; [apply dict_get_elem|by apply dict_elem_get]. Qed.

Lemma visit_refs_has n m bid a :
  node_ok n → ref_has (visit_refs n m) bid a ↔ ref_has m bid a ∨ node_refers n bid a.
Proof.
  revert m. induction n as [f|d IH] using node_ind_children; intros m Hn.
  - simpl. rewrite add_block_refs_has. unfold node_refers. split.
    + intros [?|(b & ?)]; [by left|right]. exists [], f, b. done.
    + intros [?|([|x q] & g & b & Hg & ?)]; simplify_eq/=; eauto.
  - apply node_ok_dir_inv in Hn as (_ & Hd & _ & Hc). simpl.
    rewrite (fold_has (λ kv acc, visit_refs (snd kv) acc) (λ kv, node_refers kv.2 bid a)).
    2: { intros [k c] m' Hin. rewrite Forall_forall in IH, Hc. simpl.
         apply (IH (k, c) Hin). by apply (Hc (k, c) Hin). }
    f_equiv. unfold node_refers. setoid_rewrite node_get_dir. split.
    + intros ([k c] & Hin & q & f & b & Hg & ?). exists (k :: q), f, b. split; [|done].
      exists k, c, q. by rewrite dict_get_iff.
    + intros (q & f & b & (k & c & q' & -> & Hk & Hg) & ?). exists (k, c).
      rewrite <-dict_get_iff by done. split; [done|]. by exists q', f, b.
Qed.

Lemma referenced_blocks_spec now t bid a :
  tree_wf t →
  ref_has (referenced_blocks now t) bid a ↔ in_a_file t bid a ∨ in_a_write t now bid a.
Proof.
  intros Hwf. unfold referenced_blocks.
  rewrite (fold_has (λ kv acc, reservation_refs now (snd kv) acc)
    (λ kv, now < w_lease_expires_at kv.2 ∧
           ∃ s, s ∈ slots kv.2 ∧ new_block_id s = bid ∧ a ∈ new_addresses s)).
  - rewrite visit_refs_has by apply Hwf. f_equiv.
    + unfold in_a_file, node_refers. setoid_rewrite view_file.
      split; [intros [(s & Hs & _)|H]; [by rewrite lookup_empty in Hs|done]|by right].
    + unfold in_a_write. split.
      * intros ([w r] & Hin%elem_of_map_to_list & ? & s & ?). by exists w, r, s.
      * intros (w & r & s & Hin%elem_of_map_to_list & ? & ?). exists (w, r). eauto.
  - intros [w r] m _. simpl. unfold reservation_refs. destruct (Z.ltb_spec now (w_lease_expires_at r)).
    + rewrite (fold_has (λ s acc, add_ref (new_block_id s) (new_addresses s) acc)
        (λ s, new_block_id s = bid ∧ a ∈ new_addresses s)); [naive_solver|].
      intros; apply add_ref_has.
    + split; [by left|]. intros [?|[? _]]; [done|lia].
Qed.

(** [referenced_blocks] is exact: a block is referenced at a DataNode if and
    only if a file of the tree, published or being uploaded, has it there or a
    reservation whose lease still runs proposes it there.  The collector
    deletes what is not referenced, so a missing reference would lose data and
    a spurious one would leak it. *)
Theorem referenced_blocks_exact now t bid a :
  tree_wf t →
  ref_has (referenced_blocks now t) bid a ↔ in_a_file t bid a ∨ in_a_write t now bid a.
Proof. apply referenced_blocks_spec. Qed.

Lemma referenced_blocks_exact_witness :
  ref_has (referenced_blocks 25 (demo 7)) "n0" "d1" ↔
    in_a_file (demo 7) "n0" "d1" ∨ in_a_write (demo 7) 25 "n0" "d1".
Proof. apply (referenced_blocks_exact 25 (demo 7) "n0" "d1"), demo_ok. Defined.

(** * The published blocks *)

Definition slash_path (ps : list string) : string := foldr (λ x acc, "/" +:+ x +:+ acc) "" ps.

Lemma slash_path_cons prefix x q :
  (prefix +:+ "/" +:+ x) +:+ slash_path q = prefix +:+ slash_path (x :: q).
Proof. change (slash_path (x :: q)) with ("/" +:+ x +:+ slash_path q). by rewrite !append_assoc. Qed.

Lemma slash_path_of ps : ps ≠ [] → slash_path ps = path_of ps.
Proof.
  intros H. unfold path_of. induction ps as [|x ps IH]; [done|].
  destruct ps as [|y ps]; simpl in *; [by rewrite append_nil_r|]. by rewrite IH.
Qed.

Lemma elem_of_concat {A} (l : list (list A)) x : x ∈ concat l ↔ ∃ k, k ∈ l ∧ x ∈ k.
Proof.
  induction l as [|k l IH]; simpl; [split; [intros H|intros (? & H & _)]; by apply not_elem_of_nil in H|].
  rewrite elem_of_app, IH. setoid_rewrite elem_of_cons. naive_solver.
Qed.

Lemma visit_blocks_elem n prefix p b :
  node_ok n →
  (p, b) ∈ visit_blocks prefix n ↔
    ∃ q f, node_get q n = Some (FileN f) ∧ f_state f = Committed ∧ b ∈ blocks f ∧
      p = prefix +:+ slash_path q.
Proof.
  revert prefix. induction n as [f|d IH] using node_ind_children; intros prefix Hn.
  - simpl. case_decide as Hf.
    + rewrite list_elem_of_fmap. split.
      * intros (b' & [= -> <-] & Hb). exists [], f. simpl. by rewrite append_nil_r.
      * intros ([|x q] & g & Hg & _ & Hb & ->); simplify_eq/=. rewrite append_nil_r. eauto.
    + split; [intros H; by apply not_elem_of_nil in H|].
      intros ([|x q] & g & Hg & Hc & _); by simplify_eq/=.
  - apply node_ok_dir_inv in Hn as (_ & Hd & _ & Hc). simpl. rewrite elem_of_concat.
    setoid_rewrite node_get_dir. split.
    + intros (k & Hk & Hp). apply list_elem_of_In, in_map_iff in Hk as ([x c] & <- & Hx%list_elem_of_In).
      rewrite Forall_forall in IH, Hc. simpl in Hp.
      apply (IH (x, c) Hx) in Hp as (q & f & Hg & Hf & Hb & ->); [|by apply (Hc (x, c) Hx)].
      exists (x :: q), f. split_and!; [|done|done|apply slash_path_cons].
      exists x, c, q. by rewrite dict_get_iff.
    + intros (q & f & (x & c & q' & -> & Hx%dict_get_elem & Hg) & Hf & Hb & ->).
      rewrite Forall_forall in IH, Hc. exists (visit_blocks (prefix +:+ "/" +:+ x) c). split.
      * apply list_elem_of_In, in_map_iff. exists (x, c). split; [done|]. by apply list_elem_of_In.
      * apply (IH (x, c) Hx); [by apply (Hc (x, c) Hx)|]. exists q', f.
        by rewrite slash_path_cons.
Qed.

Lemma iter_blocks_spec t p b :
  tree_wf t →
  (p, b) ∈ iter_blocks t ↔
    ∃ ps f, view t ps = Some (EFile f) ∧ f_state f = Committed ∧ b ∈ blocks f ∧
      p = path_of ps ∧ parts_of p = Ok ps.
Proof.
  intros Hwf. unfold iter_blocks. rewrite visit_blocks_elem by apply Hwf.
  setoid_rewrite view_file. split; intros (ps & f & Hg & Hc & Hb & Hp); exists ps, f.
  - assert (ps ≠ []) as Hne by by intros ->. destruct (node_ok_get _ _ _ (wf_root _ Hwf) Hg) as [_ Hok].
    simpl in Hp. rewrite slash_path_of in Hp by done. subst p.
    split_and!; [done..|]. by apply parts_of_path_of.
  - assert (ps ≠ []) as Hne by by intros ->. destruct Hp as [-> _].
    split_and!; [done..|]. simpl. by rewrite slash_path_of.
Qed.

(** [iter_blocks] yields exactly the blocks of the published files, each
    under the canonical path of its file: the path leads back to that file, and
    no block of an upload in progress appears. *)
Theorem iter_blocks_exact t p b :
  tree_wf t →
  (p, b) ∈ iter_blocks t ↔
    ∃ ps f, view t ps = Some (EFile f) ∧ f_state f = Committed ∧ b ∈ blocks f ∧
      p = path_of ps ∧ parts_of p = Ok ps.
Proof. apply iter_blocks_spec. Qed.

Lemma iter_blocks_exact_witness :
  ("/home/doc", mkBlock "n1" ["d2"] "k1" 2 true) ∈ iter_blocks (demo 8) ↔
    ∃ ps f, view (demo 8) ps = Some (EFile f) ∧ f_state f = Committed ∧
      mkBlock "n1" ["d2"] "k1" 2 true ∈ blocks f ∧
      "/home/doc" = path_of ps ∧ parts_of "/home/doc" = Ok ps.
Proof. apply (iter_blocks_exact (demo 8)), demo_ok. Defined.

(** * Directory listings *)

(** How an entry shows in the listing of its directory; uploads do not show. *)
Definition listed (x : string) (e : entry) : option DirEntryData :=
  match e with
  | EDir o g m => Some (mkEntry x true 0 o g m)
  | EFile f =>
      match f_state f with
      | Committed => Some (mkEntry x false (file_size f) (f_owner f) (f_group f) (f_mode f))
      | Pending => None
      end
  end.

Lemma dir_entry_listed x n : dir_entry (x, n) = listed x (entry_of n).
Proof.
  destruct n as [f|d]; simpl; [|done]. unfold dir_entry. simpl.
  case_decide as H; [by rewrite H|by destruct (f_state f)].
Qed.

Lemma listed_name x e d : listed x e = Some d → e_name d = x.
Proof. destruct e as [f|o g m]; simpl; [destruct (f_state f)|]; intros; by simplify_eq/=. Qed.

Lemma dir_entry_name kv d : dir_entry kv = Some d → e_name d = kv.1.
Proof. destruct kv as [x n]. rewrite dir_entry_listed. apply listed_name. Qed.

Lemma dir_entry_names_sublist l : e_name <$> omap dir_entry l `sublist_of` l.*1.
Proof.
  induction l as [|kv l IH]; csimpl; [done|]. destruct (dir_entry kv) as [d|] eqn:E; csimpl.
  - rewrite (dir_entry_name _ _ E). by apply sublist_skip.
  - by apply sublist_cons.
Qed.

#[global] Instance name_le_total : Total name_le.
Proof. intros a b. exact (String.le_total a.1 b.1). Qed.
#[global] Instance name_le_trans : Transitive name_le.
Proof. intros a b c. unfold name_le. apply (transitivity (R:=String.le)). Qed.

Lemma StronglySorted_sublist {A} (Rel : relation A) l k :
  l `sublist_of` k → StronglySorted Rel k → StronglySorted Rel l.
Proof.
  induction 1 as [|x l k Hs IH|x l k Hs IH]; intros Hk; [done| |].
  - apply StronglySorted_inv in Hk as [Hk Hx]. constructor; [auto|].
    rewrite Forall_forall in Hx |- *. intros y Hy. apply Hx. by eapply elem_of_sublist.
  - apply StronglySorted_inv in Hk as [Hk _]. auto.
Qed.

Lemma list_dir_inv vp c t t' es :
  list_dir vp c t = (t', Ok es) →
  t' = t ∧ ∃ ps d, parts_of vp = Ok ps ∧ _get_node ps t = Some (DirN d) ∧
    _allows (DirN d) c R = true ∧ es = omap dir_entry (merge_sort name_le (children d)).
Proof.
  unfold list_dir. intros H. ok_inv H. split; [done|]. eexists _, _. split_and!; eauto.
Qed.

(** A listing shows, in the order of their names and each name once, the
    subdirectories and the published files of the directory with their
    metadata, and nothing else: an upload in progress is invisible. *)
Theorem list_dir_exact vp c t t' es :
  tree_wf t → list_dir vp c t = (t', Ok es) →
  t' = t ∧ ∃ ps, parts_of vp = Ok ps ∧
    (∀ e, e ∈ es ↔ ∃ x n, view t (ps ++ [x]) = Some n ∧ listed x n = Some e) ∧
    StronglySorted String.le (e_name <$> es) ∧ NoDup (e_name <$> es).
Proof.
  intros Hwf (-> & ps & d & Hp & Hg & _ & ->)%list_dir_inv. split; [done|]. exists ps.
  pose proof (wf_node _ _ _ Hwf Hg) as (_ & Hd & _ & _)%node_ok_dir_inv.
  set (sorted := merge_sort name_le (children d)).
  assert (sorted ≡ₚ children d) as Hperm by apply merge_sort_Permutation.
  split_and!; [done| | |].
  - intros e. rewrite list_elem_of_omap. split.
    + intros ([x n] & Hin & He). rewrite Hperm in Hin. rewrite dir_entry_listed in He.
      exists x, (entry_of n). split; [|done]. apply dict_get_iff in Hin; [|done].
      unfold view, view_from. unfold _get_node in Hg. by rewrite node_get_snoc, Hg, Hin.
    + intros (x & n & Hv & He). unfold view, view_from in Hv. unfold _get_node in Hg.
      rewrite node_get_snoc, Hg in Hv. destruct (dict_get x _) as [m|] eqn:E; [|done].
      exists (x, m). rewrite Hperm, <-dict_get_iff, dir_entry_listed by done. by simplify_eq/=.
  - eapply StronglySorted_sublist; [apply dir_entry_names_sublist|].
    eapply StronglySorted_fmap; [|apply StronglySorted_merge_sort; apply _]. done.
  - eapply sublist_NoDup; [|apply dir_entry_names_sublist]. by rewrite Hperm.
Qed.

Lemma list_dir_exact_witness :
  demo 4 = demo 4 ∧ ∃ ps, parts_of "/home/" = Ok ps ∧
    (∀ e, e ∈ [] ↔ ∃ x n, view (demo 4) (ps ++ [x]) = Some n ∧ listed x n = Some e) ∧
    StronglySorted String.le (e_name <$> []) ∧ NoDup (e_name <$> []).
Proof. apply (list_dir_exact "/home/" ana (demo 4) (demo 4) []); [apply demo_ok|vm_compute; reflexivity]. Defined.
