(* ===== verification/TreeGrowth.v ===== *)
(** Where references to blocks come from: a block is referenced at a DataNode
    after a command only if it was before, or the command names it there. *)

From S2P Require Import Prelude Exceptions Dict Paths TreeData Tree TreeFacts Replicated.
From S2P Require Import TreeErrors TreeOps TreeInv TreeView TreeAuth TreeLocks TreeWrite TreeFence TreeRefs.

Open Scope Z_scope.

(** The command brings the block [bid] at the DataNode [a]. *)
Definition brings (c : command) (bid a : string) : Prop :=
  match c with
  | CBeginUpload _ pl _ _ _ _ => ∃ l, (bid, l) ∈ pl ∧ a ∈ l
  | CBeginWrite _ _ _ _ _ _ pr _ _ _ _ => ∃ i l, (i, bid, l) ∈ pr ∧ a ∈ l
  | CUpdateBlockReplicas _ b _ new => b = bid ∧ a ∈ new
  | _ => False
  end.

(** The time a command runs at does not go back before [now]. *)
Definition not_before (now : Z) (c : command) : Prop :=
  match c with
  | CCommitWrite _ _ _ _ _ t _ => now ≤ t
  | _ => True
  end.

Definition referenced_at (t : TreeState) (now : Z) (bid a : string) : Prop :=
  in_a_file t bid a ∨ in_a_write t now bid a.

Definition block_at (bid a : string) (b : BlockRecord) : Prop :=
  block_id b = bid ∧ a ∈ datanode_addresses b.

(** * Files *)

Lemma file_refs_vset t t' p o bid a :
  (∀ q, view t' q = vset p o (view t) q) →
  in_a_file t' bid a →
  in_a_file t bid a ∨ ∃ f b, o = Some (EFile f) ∧ b ∈ blocks f ∧ block_at bid a b.
Proof.
  intros Hv (q & f & b & Hq & Hb & Hid & Ha). rewrite Hv in Hq. unfold vset in Hq.
  case_decide as E; [right; by exists f, b|left; by exists q, f, b].
Qed.

(** A file overwritten with blocks that refer to nothing new. *)
Lemma file_refs_put t t' p f f' bid a :
  _get_node p t = Some (FileN f) → (∀ q, view t' q = vset p (Some (EFile f')) (view t) q) →
  (∀ b, b ∈ blocks f' → block_at bid a b → ∃ b0, b0 ∈ blocks f ∧ block_at bid a b0) →
  in_a_file t' bid a → in_a_file t bid a.
Proof.
  intros Hg Hv Hb H. destruct (file_refs_vset _ _ _ _ _ _ Hv H) as [?|(g & b & [= <-] & Hin & Hat)];
    [done|]. destruct (Hb _ Hin Hat) as (b0 & Hin0 & Hid & Ha).
  apply view_file in Hg. by exists p, f, b0.
Qed.

Lemma file_refs_same t t' bid a :
  (∀ q, view t' q = view t q) → in_a_file t' bid a → in_a_file t bid a.
Proof. intros Hv (q & f & b & Hq & H). exists q, f, b. by rewrite <-Hv. Qed.

Lemma file_refs_drop t t' p bid a :
  (∀ q, view t' q = vset p None (view t) q) → in_a_file t' bid a → in_a_file t bid a.
Proof. intros Hv H. by destruct (file_refs_vset _ _ _ _ _ _ Hv H) as [?|(? & ? & ? & _)]. Qed.

Lemma file_refs_dir t t' p o g m bid a :
  (∀ q, view t' q = vset p (Some (EDir o g m)) (view t) q) → in_a_file t' bid a → in_a_file t bid a.
Proof. intros Hv H. by destruct (file_refs_vset _ _ _ _ _ _ Hv H) as [?|(? & ? & ? & _)]. Qed.

(** Only the identity and the addresses of a block count. *)
Lemma update_first_block_at bs bs' p k z bid a b :
  update_first p (confirm_one k z) bs = Some bs' → b ∈ bs' → block_at bid a b →
  ∃ b0, b0 ∈ bs ∧ block_at bid a b0.
Proof.
  revert bs'. induction bs as [|x bs IH]; intros bs'; simpl; [done|]. destruct (p x).
  - intros [= <-] Hb Hat. apply elem_of_cons in Hb as [->|Hb].
    + exists x. split; [by left|]. exact Hat.
    + exists b. split; [by right|done].
  - destruct (update_first _ _ _) as [l|]; [|done]. intros [= <-] Hb Hat.
    apply elem_of_cons in Hb as [->|Hb]; [exists x; split; [by left|done]|].
    destruct (IH l eq_refl Hb Hat) as (b0 & ? & ?). exists b0. split; [by right|done].
Qed.

Lemma publish_block_at bs l rep b bid a :
  b ∈ (publish bs l rep).1 → block_at bid a b →
  (∃ b0, b0 ∈ bs ∧ block_at bid a b0) ∨
  ∃ s c, (s, c) ∈ l ∧ new_block_id s = bid ∧ a ∈ new_addresses s.
Proof.
  revert bs rep. induction l as [|[s [[[i x] k] z]] l IH]; intros bs rep Hb Hat; simpl in Hb.
  { left. eauto. }
  set (nb := mkBlock (new_block_id s) (new_addresses s) k z true) in Hb.
  assert (∀ bs1 rep1, (∀ y, y ∈ bs1 → y = nb ∨ y ∈ bs) → b ∈ (publish bs1 l rep1).1 →
    (∃ b0, b0 ∈ bs ∧ block_at bid a b0) ∨
    ∃ s0 c, (s0, c) ∈ (s, (i, x, k, z)) :: l ∧ new_block_id s0 = bid ∧ a ∈ new_addresses s0) as Hstep.
  { intros bs1 rep1 Hsub Hin. destruct (IH _ _ Hin Hat) as [(b0 & H0 & Hat0)|(s0 & c & H0 & ?)].
    - destruct (Hsub _ H0) as [->|?]; [|eauto]. right. exists s, (i, x, k, z).
      split; [by left|exact Hat0].
    - right. exists s0, c. split; [by right|done]. }
  destruct (_ <? _).
  - unfold py_get, py_set in Hb. destruct (py_index bs (slot_index s)) as [n|]; [|left; eauto].
    destruct (bs !! n) as [old|]; [|left; eauto].
    apply (Hstep (<[n := nb]> bs) (rep ++ [old])); [|done]. intros y Hy.
    apply list_elem_of_lookup in Hy as [j Hj]. apply list_lookup_insert_Some in Hj as [(_ & <- & _)|[_ Hj]];
      [by left|right; by eapply list_elem_of_lookup_2].
  - apply (Hstep (bs ++ [nb]) rep); [|done]. intros y [?|Hy]%elem_of_app; [by right|].
    left. by apply list_elem_of_singleton in Hy.
Qed.

(** * Reservations *)

Lemma write_refs_sub t t' now bid a :
  t_writes t' ⊆ t_writes t → in_a_write t' now bid a → in_a_write t now bid a.
Proof. intros Hsub (w & r & s & Hr & H). exists w, r, s. split; [|done]. by eapply lookup_weaken. Qed.

Lemma referenced_swept t t' now bid a :
  swept t t' → referenced_at t' now bid a → referenced_at t now bid a.
Proof.
  intros Hs [H|H]; [left|right].
  - eapply file_refs_same; [|done]. intros q. by apply swept_view.
  - eapply write_refs_sub; [|done]. by destruct Hs.
Qed.

Lemma make_slots_from (plan : list (Z * Z)) (pr : list Proposal) s :
  s ∈ make_slot <$> zip plan pr → ∃ i, (i, new_block_id s, new_addresses s) ∈ pr.
Proof.
  intros ([[x y] [[i b] l]] & -> & Hin)%list_elem_of_fmap. exists i. simpl.
  by apply elem_of_zip_r in Hin.
Qed.

(** * Every command *)

(** The reference was there before, or the command brought it. *)
Lemma refs_split t t' now bid a (P : Prop) :
  (in_a_file t' bid a → in_a_file t bid a ∨ in_a_write t now bid a ∨ P) →
  (in_a_write t' now bid a → in_a_write t now bid a ∨ P) →
  referenced_at t' now bid a → referenced_at t now bid a ∨ P.
Proof. unfold referenced_at. naive_solver. Qed.

(** A method that only adds file references the command brings. *)
Lemma refs_files t t' now bid a (P : Prop) :
  t_writes t' ⊆ t_writes t → (in_a_file t' bid a → in_a_file t bid a ∨ P) →
  referenced_at t' now bid a → referenced_at t now bid a ∨ P.
Proof.
  intros Hw Hf. apply refs_split; [naive_solver|]. intros H. left. by eapply write_refs_sub.
Qed.

Lemma begin_write_refs vp w id e o l pr n ls d c t t' r now bid a :
  begin_write vp w id e o l pr n ls d c t = (t', r) → referenced_at t' now bid a →
  referenced_at t now bid a ∨ ∃ i l, (i, bid, l) ∈ pr ∧ a ∈ l.
Proof.
  intros [Hs|(ps & f & res & [_ _ _ _ _ (plan & _ & _ & ->)] & ->)]%begin_write_cases.
  { intros H. left. by eapply referenced_swept. }
  apply refs_split.
  - intros H. left. by eapply file_refs_same; [|exact H].
  - intros (w' & r' & s & Hr' & Hx & Hin & Hid & Ha). simpl in Hr'.
    apply lookup_insert_Some in Hr' as [[<- <-]|[_ [Hr' _]%live_writes_lookup]].
    + simpl in Hin. apply make_slots_from in Hin as [i Hi]. subst bid. right. eauto.
    + left. by exists w', r', s.
Qed.

Lemma commit_write_refs vp w id e cf n c t t' r now bid a :
  commit_write vp w id e cf n c t = (t', r) → now ≤ n → referenced_at t' now bid a →
  referenced_at t now bid a.
Proof.
  intros [Hs|(ps & f & res & bs & out & [_ Hg _ _ Hw Hx _ _ _ _] & Hpub & H)]%commit_write_cases Hn;
    [by apply referenced_swept|].
  assert (t_writes t' ⊆ t_writes t ∧ ∃ f', blocks f' = bs ∧
    ∀ q, view t' q = vset ps (Some (EFile f')) (view t) q) as (Hsub & f' & Hb & Hq).
  { destruct out as [rep|err]; destruct H as [_ ->]; split.
    - simpl. etrans; [apply delete_subseteq|apply map_filter_subseteq].
    - exists (with_version (version f + 1) (w_block_size res) (with_blocks bs f)).
      split; [done|]. intros q. rewrite view_with_writes. by apply publishing_view.
    - rewrite alter_tree_writes. apply map_filter_subseteq.
    - exists (with_blocks bs f). split; [done|]. intros q.
      etrans; [by apply (view_put_file _ f)|reflexivity]. }
  assert (referenced_at t' now bid a → referenced_at t now bid a ∨ False) as H'; [|naive_solver].
  apply refs_split; [|intros; left; by eapply write_refs_sub].
  intros Hf. destruct (file_refs_vset _ _ _ _ _ _ Hq Hf) as [?|(g & b & [= <-] & Hin & Hat)]; [by left|].
  rewrite Hb in Hin. assert (bs = (publish (blocks f) (zip (slots res) cf) []).1) as -> by by rewrite Hpub.
  destruct (publish_block_at _ _ _ _ _ _ Hin Hat) as [(b0 & H0 & Hid & Ha)|(s & k & Hs & Hid & Ha)].
  - left. apply view_file in Hg. by exists ps, f, b0.
  - right. left. exists w, res, s. split_and!; [done|lia|by apply elem_of_zip_l in Hs|done|done].
Qed.

(** Methods that leave the view and the reservations as they are. *)
Lemma refs_same t t' now bid a :
  t_writes t' ⊆ t_writes t → (∀ q, view t' q = view t q) →
  referenced_at t' now bid a → referenced_at t now bid a.
Proof.
  intros Hw Hv H. destruct (refs_files t t' now bid a False Hw) as [?|[]]; [|done|done].
  intros Hf. left. by eapply file_refs_same.
Qed.

Lemma begin_upload_refs vp pl now0 lease bs c t t' r now bid a :
  begin_upload vp pl now0 lease bs c t = (t', Ok r) → referenced_at t' now bid a →
  referenced_at t now bid a ∨ ∃ l, (bid, l) ∈ pl ∧ a ∈ l.
Proof.
  intros H. pose proof (begin_upload_tables _ _ _ _ _ _ _ _ _ H) as [= _ Hw]. destruct r as [r st].
  apply begin_upload_view in H as (ps & _ & _ & _ & _ & _ & Hother & Hps).
  apply refs_files; [by rewrite Hw|]. intros (q & f & b & Hq & Hb & Hid & Ha).
  destruct (decide (q = ps)) as [->|Hne].
  - rewrite Hps in Hq. injection Hq as <-. simpl in Hb.
    apply list_elem_of_fmap in Hb as ([x l] & -> & Hin). right. exists l. simpl in *. by subst x.
  - left. destruct (Hother q Hne) as [E|[_ E]]; rewrite E in Hq; [|done]. by exists q, f, b.
Qed.

Lemma update_block_replicas_refs vp b e n t t' u now bid a :
  update_block_replicas vp b e n t = (t', Ok u) → referenced_at t' now bid a →
  referenced_at t now bid a ∨ (b = bid ∧ a ∈ n).
Proof.
  intros H. pose proof H as (ps0 & f0 & i0 & x0 & _ & _ & _ & _ & _ & _ & Ht)%update_block_replicas_inv.
  apply update_block_replicas_view in H as (ps & f & i & x & _ & Hg & _ & Hi & Hx & _ & Hv).
  apply refs_files; [rewrite Ht, alter_tree_writes; done|]. intros Hf.
  destruct (file_refs_vset _ _ _ _ _ _ Hv Hf) as [?|(g & y & [= <-] & Hin & Hat)]; [by left|].
  simpl in Hin. apply list_elem_of_lookup in Hin as [j Hj].
  apply list_lookup_insert_Some in Hj as [(_ & <- & _)|[_ Hj]].
  - right. destruct Hat as [Hid Ha]. simpl in *. split; [congruence|done].
  - left. apply view_file in Hg. destruct Hat. exists ps, f, y.
    split_and!; [done|by eapply list_elem_of_lookup_2|done|done].
Qed.

Lemma confirm_block_refs vp b k z n lease c t t' u now bid a :
  confirm_block vp b k z n lease c t = (t', Ok u) → referenced_at t' now bid a →
  referenced_at t now bid a.
Proof.
  intros (ps & f & bs & f' & _ & Hg & _ & _ & Hbs & Hf' & ->)%confirm_block_inv H.
  destruct (refs_files t (put_file ps f' t) now bid a False) as [?|[]]; [| |done|done].
  - by rewrite alter_tree_writes.
  - intros Hf. left. eapply (file_refs_put _ _ ps f f'); [done|intros q; by apply (view_put_file _ f)| |done].
    intros y Hy Hat. assert (blocks f' = bs) as Hb by (by destruct Hf' as [->| ->]).
    rewrite Hb in Hy. by eapply update_first_block_at.
Qed.

(** A method that changes one path without new references. *)
Lemma refs_vset t t' p o now bid a :
  t_writes t' ⊆ t_writes t → (∀ q, view t' q = vset p o (view t) q) →
  (∀ f' b, o = Some (EFile f') → b ∈ blocks f' → ∃ f, view t p = Some (EFile f) ∧ b ∈ blocks f) →
  referenced_at t' now bid a → referenced_at t now bid a.
Proof.
  intros Hw Hv Ho H. destruct (refs_files t t' now bid a False Hw) as [?|[]]; [|done|done].
  intros Hf. left. destruct (file_refs_vset _ _ _ _ _ _ Hv Hf) as [?|(f' & b & -> & Hb & Hid & Ha)];
    [done|]. destruct (Ho f' b eq_refl Hb) as (f & Hp & Hin). by exists p, f, b.
Qed.

Lemma refs_then_ret {A B} (m : TreeM A) (f : A → B) t t' r now bid a (P : Prop) :
  moves_on_err swept (λ _, True) m → (a ← m; mret (f a)) t = (t', r) →
  (∀ x, m t = (t', Ok x) → referenced_at t' now bid a → referenced_at t now bid a ∨ P) →
  referenced_at t' now bid a → referenced_at t now bid a ∨ P.
Proof.
  intros He. unfold mbind, M_bind. destruct (m t) as [t1 [x|e]] eqn:E.
  - unfold mret, M_ret. intros [= <- <-]. eauto.
  - intros [= <- <-] _ H. left. eapply referenced_swept; [|exact H]. by eapply He.
Qed.

Lemma run_command_refs c t t' r now bid a :
  tree_wf t → not_before now c → run_command c t = (t', r) →
  referenced_at t' now bid a → referenced_at t now bid a ∨ brings c bid a.
Proof.
  intros Hwf Hn H. destruct c; simpl in H, Hn |- *; unfold as_none, as_blocks in H;
    first
    [ unfold raise in H; simplify_eq; by left
    | apply then_ret_state in H as [r' H]; intros Hr; by eapply begin_write_refs
    | apply then_ret_state in H as [r' H]; intros Hr; left; by eapply commit_write_refs
    | eapply refs_then_ret; [|exact H|]; [solve [auto with dfs]|intros x Hx; clear H] ].
  - pose proof Hx as (ps & d & _ & _ & _ & _ & ->)%make_dir_inv.
    apply make_dir_view in Hx as (? & ? & _ & _ & _ & _ & Hv). intros Hr. left.
    eapply refs_vset; [|exact Hv| |exact Hr]; [by rewrite alter_tree_writes|done].
  - pose proof Hx as (ps & d & e & _ & _ & _ & _ & _ & ->)%remove_dir_inv.
    apply remove_dir_view in Hx as (? & ? & ? & ? & ? & _ & _ & _ & _ & _ & Hv); [|done].
    intros Hr. left. eapply refs_vset; [|exact Hv| |exact Hr]; [by rewrite alter_tree_writes|done].
  - pose proof Hx as (ps & d & f & _ & _ & _ & _ & _ & _ & _ & ->)%remove_file_inv.
    apply remove_file_view in Hx as (? & ? & ? & _ & _ & _ & _ & _ & _ & Hv); [|done].
    intros Hr. left. eapply refs_vset; [|exact Hv| |exact Hr]; [by rewrite alter_tree_writes|done].
  - by eapply begin_upload_refs.
  - intros Hr. left. by eapply confirm_block_refs.
  - pose proof Hx as (ps & f & _ & Hg & _ & _ & _ & ->)%complete_upload_inv.
    intros Hr. left. eapply (refs_vset _ _ ps); [by rewrite alter_tree_writes
      |intros q; by apply (view_put_file _ f)| |exact Hr].
    intros f' b [= <-] Hb. exists f. split; [by apply view_file|done].
  - pose proof Hx as (ps & d & f & _ & _ & _ & _ & _ & ->)%abort_upload_inv.
    apply abort_upload_view in Hx as (? & ? & _ & _ & _ & _ & Hv); [|done].
    intros Hr. left. eapply refs_vset; [|exact Hv| |exact Hr]; [by rewrite alter_tree_writes|done].
  - apply acquire_lock_inv in Hx as (? & ? & ? & _ & _ & _ & _ & _ & _ & _ & _ & _ & ->).
    intros Hr. left. by eapply refs_same; [| |exact Hr].
  - apply renew_lock_inv in Hx as (? & ? & ? & ? & ? & _ & _ & _ & _ & _ & _ & ->).
    intros Hr. left. by eapply refs_same; [| |exact Hr].
  - apply release_lock_inv in Hx as (? & ? & _ & _ & _ & Hx).
    intros Hr. left. eapply refs_same; [| |exact Hr]; by destruct Hx as [(_ & _ & ->)|(? & _ & _ & ->)].
  - by eapply update_block_replicas_refs.
  - apply abort_write_inv in Hx as (ps & ws & _ & Hws & Hx).
    assert (ws ⊆ t_writes t) as Hsub by (subst; destruct now0; [apply map_filter_subseteq|done]).
    intros Hr. left. eapply refs_same; [| |exact Hr].
    + destruct Hx as [(_ & -> & _)|(res & _ & _ & _ & _ & ->)]; [done|].
      simpl. etrans; [apply delete_subseteq|done].
    + by destruct Hx as [(_ & -> & _)|(res & _ & _ & _ & _ & ->)].
  - apply create_user_inv in Hx as (_ & _ & _ & ->). intros Hr. left. by eapply refs_same; [| |exact Hr].
  - apply change_password_inv in Hx as (? & _ & ->). intros Hr. left. by eapply refs_same; [| |exact Hr].
  - pose proof Hx as (? & ? & _ & _ & _ & _ & _ & Ht)%chmod_inv.
    apply chmod_view in Hx as (ps & n & _ & Hg & _ & _ & _ & Hv). intros Hr. left.
    eapply refs_vset; [|exact Hv| |exact Hr]; [by rewrite Ht, alter_tree_writes|].
    intros f' b Ho Hb. destruct n as [f|d]; simplify_eq/=. exists f. split; [by apply view_file|done].
  - pose proof Hx as (? & ? & _ & _ & _ & _ & _ & _ & _ & Ht)%chown_inv.
    apply chown_view in Hx as (ps & n & _ & Hg & _ & _ & _ & Hv). intros Hr. left.
    eapply refs_vset; [|exact Hv| |exact Hr]; [by rewrite Ht, !alter_tree_writes|].
    intros f' b Ho Hb. unfold chown_node, id in Ho. destruct n as [f|d].
    + exists f. split; [by apply view_file|]. repeat case_decide; by simplify_eq/=.
    + repeat case_decide; by simplify_eq/=.
Qed.

(** A whole log: references appear only through the commands that bring them. *)
Lemma log_refs l s now bid a :
  tree_wf (tree s) → Forall (λ e, not_before now e.2) l →
  referenced_at (tree (apply_log l s)) now bid a →
  referenced_at (tree s) now bid a ∨ ∃ e, e ∈ l ∧ brings e.2 bid a.
Proof.
  intros Hwf Hl. revert s Hwf. induction Hl as [|[op c] l Hc Hl IH]; intros s Hwf; [by left|].
  change (apply_log ((op, c) :: l) s) with (apply_log l (apply op c s).1). intros Hr.
  destruct (IH _ (apply_keeps op c s Hwf) Hr) as [H|(e & He & Hb)];
    [|right; exists e; split; [by right|done]].
  revert H. unfold apply. destruct (dict_get op _); simpl; [by left|]. unfold dispatch.
  destruct (bool_decide _); simpl; [|by left].
  destruct (run_command c (tree s)) as [t' r] eqn:Hrun. simpl. intros H.
  destruct (run_command_refs c (tree s) t' r now bid a Hwf Hc Hrun H) as [?|Hb]; [by left|].
  right. exists (op, c). split; [by left|done].
Qed.
