(* ===== verification/TreeProps.v ===== *)
(** The properties of the replicated tree as a whole: the invariant over every
    log, what a failed command leaves, deduplication, the snapshots of now and of older
    versions, and the canonical form of a path. *)

From S2P Require Import Prelude Exceptions Dict Paths TreeData Tree TreeFacts Replicated TreeErrors.
From S2P Require Import TreeOps TreeInv.

Open Scope Z_scope.

(** C3. Every state the control node reaches, whatever log Raft commits, is well
    formed: names distinct and canonical, modes in range, versions counted up
    from 0, no unconfirmed block in a published file, every lock held, an
    exclusive lock held once, only published files locked, every reservation a
    plan on a canonical path, every user name and group valid. *)
Theorem log_keeps_invariant l : tree_wf (tree (apply_log l replicated_init)).
Proof. apply apply_log_keeps, tree_init_ok. Qed.

(** C11. A command refused with a domain error changes nothing a client can see:
    the tree and the users are what they were; at most expired lock holders and
    expired reservations have been swept (no lock or reservation appears, no
    lock changes mode or gains a holder). *)
Theorem refused_command_keeps_tree c t t' e :
  run_command c t = (t', Err e) → e ≠ PyError →
  t_root t' = t_root t ∧ t_users t' = t_users t ∧ t_writes t' ⊆ t_writes t ∧
  ∀ p st', t_locks t' !! p = Some st' →
    ∃ st, t_locks t !! p = Some st ∧ l_mode st' = l_mode st ∧ holders st' ⊆ holders st.
Proof.
  intros H He. destruct (run_command_clean c t t' e H He) as [Hr Hu Hw Hl].
  split_and!; [done..|]. intros p st' Hst. destruct (Hl _ _ Hst) as (st & ? & ? & ? & _). eauto.
Qed.

Lemma refused_command_keeps_tree_witness :
  t_root (demo 6) = t_root (demo 6) ∧ t_users (demo 6) = t_users (demo 6) ∧
  t_writes (demo 6) ⊆ t_writes (demo 6) ∧
  ∀ p st', t_locks (demo 6) !! p = Some st' →
    ∃ st, t_locks (demo 6) !! p = Some st ∧ l_mode st' = l_mode st ∧ holders st' ⊆ holders st.
Proof.
  apply (refused_command_keeps_tree (CRemoveFile "/home/doc" (Some 20) ana) (demo 6) (demo 6) ConflictError);
    [vm_compute; reflexivity|discriminate].
Defined.

(** C12. Deduplicating with a bounded memory is as good as remembering every
    operation: as long as no operation is retried more than [MAX_APPLIED_OPS]
    entries after it was first logged, the tree and the remembered outcomes are
    those of the machine that forgets nothing. *)
Theorem bounded_memory_refines_spec l :
  retries_in_window l →
  tree (apply_log l replicated_init) = tree (spec_log l replicated_init) ∧
  applied_ops (apply_log l replicated_init) = evict (applied_ops (spec_log l replicated_init)).
Proof. intros Hw. by rewrite (apply_log_spec l Hw). Qed.

Lemma bounded_memory_refines_spec_witness :
  tree (apply_log [("a", CMakeDir "/x" ana); ("a", CMakeDir "/x" ana)] replicated_init) =
    tree (spec_log [("a", CMakeDir "/x" ana); ("a", CMakeDir "/x" ana)] replicated_init) ∧
  applied_ops (apply_log [("a", CMakeDir "/x" ana); ("a", CMakeDir "/x" ana)] replicated_init) =
    evict (applied_ops (spec_log [("a", CMakeDir "/x" ana); ("a", CMakeDir "/x" ana)] replicated_init)).
Proof.
  apply bounded_memory_refines_spec. intros i j op c1 c2 Hi%lookup_lt_Some Hj%lookup_lt_Some _.
  unfold MAX_APPLIED_OPS. simpl in *. lia.
Defined.

Lemma apply_hit op c s o : dict_get op (applied_ops s) = Some o → apply op c s = (s, o).
Proof. unfold apply. by intros ->. Qed.

Lemma apply_fresh_remembered op c s :
  dict_get op (applied_ops s) = None →
  dict_get op (applied_ops (apply op c s).1) = Some (apply op c s).2.
Proof.
  intros H. unfold apply. rewrite H. simpl. rewrite dict_set_fresh by done.
  unfold evict, zlen. rewrite length_app. simpl.
  rewrite drop_app_le by (unfold MAX_APPLIED_OPS; lia). rewrite dict_get_app, dict_get_drop_None by done.
  simpl. by rewrite decide_True.
Qed.

(** A retry is answered from memory: sending an operation again, whatever
    command comes with its id, gives the first answer and changes nothing. *)
Theorem retry_is_idempotent op c c' s :
  apply op c' (apply op c s).1 = apply op c s.
Proof.
  destruct (dict_get op (applied_ops s)) as [o|] eqn:E.
  - rewrite (apply_hit op c s o E). simpl. by rewrite (apply_hit op c' s o E).
  - rewrite (apply_hit op c' _ _ (apply_fresh_remembered op c s E)). by destruct (apply op c s).
Qed.

(** An answer that carries an error names a class of the domain. *)
Definition answer_ok (o : outcome) : Prop :=
  match o with
  | OutOk _ => True
  | OutError k => k ∈ class_name <$> domain_errors
  end.

Lemma domain_class e : is_domain e = true → class_name e ∈ class_name <$> domain_errors.
Proof. intros H%bool_decide_eq_true. apply list_elem_of_fmap. eauto. Qed.

Lemma dispatch_answers c t : answer_ok (dispatch c t).2.
Proof.
  unfold dispatch. destruct (bool_decide _); simpl.
  - unfold outcome_of. destruct (run_command c t).2 as [v|e]; [done|].
    destruct (is_domain e) eqn:E; [by apply domain_class|]. by apply (domain_class DFShaError).
  - by apply (domain_class InvalidPathError).
Qed.

Definition memory_ok (ops : list (string * outcome)) : Prop :=
  zlen ops ≤ MAX_APPLIED_OPS ∧ dict_ok ops ∧ Forall (λ kv, answer_ok kv.2) ops.

Lemma memory_ok_evict ops :
  dict_ok ops → Forall (λ kv, answer_ok kv.2) ops → memory_ok (evict ops).
Proof.
  intros Hd Ha. split_and!; [apply evict_length| |by apply Forall_drop].
  unfold evict, dict_ok, dict_keys in *. rewrite fmap_drop.
  eapply sublist_NoDup; [exact Hd|apply sublist_drop].
Qed.

Lemma apply_memory op c s :
  memory_ok (applied_ops s) → memory_ok (applied_ops (apply op c s).1) ∧ answer_ok (apply op c s).2.
Proof.
  intros (Hl & Hd & Ha). unfold apply. destruct (dict_get op _) as [o|] eqn:E; simpl.
  - split; [done|]. rewrite Forall_forall in Ha. apply dict_get_elem in E. by apply (Ha _ E).
  - split; [|apply dispatch_answers]. apply memory_ok_evict; [by apply dict_ok_set|].
    apply dict_Forall_set; [done|apply dispatch_answers].
Qed.

Lemma log_memory l : memory_ok (applied_ops (apply_log l replicated_init)).
Proof.
  induction l as [|[op c] l IH] using rev_ind.
  - split_and!; [done|by constructor|by constructor].
  - rewrite apply_log_snoc. by apply apply_memory.
Qed.

(** The memory of a replica stays bounded and every answer it gives is a
    value or the name of a domain error: a Python runtime error inside a command
    reaches the client as [DFShaError], a method outside [MUTATIONS] as
    [InvalidPathError], and neither stops the log. *)
Theorem replica_answers l op c :
  let s := apply_log l replicated_init in
  zlen (applied_ops (apply op c s).1) ≤ MAX_APPLIED_OPS ∧
  NoDup (applied_ops (apply op c s).1).*1 ∧
  match (apply op c s).2 with
  | OutOk _ => True
  | OutError k => k ∈ class_name <$> domain_errors
  end.
Proof.
  simpl. destruct (apply_memory op c _ (log_memory l)) as [(Hl & Hd & _) Ha]. split_and!; done.
Qed.

(** * Snapshots *)

(** A snapshot of a version of the program that lacked some attributes: [lost p k],
    the node at [p] has no attribute [k]; [gone k], the tree has no attribute [k]. *)
Definition unless {V} (missing : bool) (v : option V) : option V := if missing then None else v.

Definition forget_file (lost : string → bool) (f : FileDict) : FileDict :=
  mkFileDict (fd_state f) (fd_blocks f) (unless (lost "lease_expires_at") (fd_lease_expires_at f))
    (unless (lost "version") (fd_version f)) (unless (lost "block_size") (fd_block_size f))
    (unless (lost "owner") (fd_owner f)) (unless (lost "group") (fd_group f)) (unless (lost "mode") (fd_mode f)).
Fixpoint forget_node (lost : list string → string → bool) (n : node_dict) : node_dict :=
  match n with
  | FileD f => FileD (forget_file (lost []) f)
  | DirD (mkDirDict ch o g m) =>
      DirD (mkDirDict ((λ kv, (kv.1, forget_node (λ p, lost (kv.1 :: p)) kv.2)) <$> ch)
              (unless (lost [] "owner") o) (unless (lost [] "group") g) (unless (lost [] "mode") m))
  end.
Definition older (lost : list string → string → bool) (gone : string → bool) (s : TreeDict) : TreeDict :=
  let r := a_root s in
  mkTreeDict
    (mkDirDict ((λ kv, (kv.1, forget_node (λ p, lost (kv.1 :: p)) kv.2)) <$> dd_children r)
       (unless (lost [] "owner") (dd_owner r)) (unless (lost [] "group") (dd_group r)) (unless (lost [] "mode") (dd_mode r)))
    (a_lock s) (unless (gone "_locks") (a_locks s)) (unless (gone "_writes") (a_writes s)) (unless (gone "_users") (a_users s)).

(** What such a node is taken for: what it has, and for the rest, a file with no
    lease, at version 0, of unknown block size, of admin, with mode 0o644; a directory
    of admin with mode 0o755, the root with 0o777. *)
Definition or_else {V} (missing : bool) (d v : V) : V := if missing then d else v.
Definition aged (lost : list string → string → bool) (q : list string) (e : entry) : entry :=
  match e with
  | EFile f =>
      EFile (mkFile (f_state f) (blocks f) (or_else (lost q "lease_expires_at") 0 (f_lease_expires_at f))
        (or_else (lost q "version") 0 (version f)) (or_else (lost q "block_size") 0 (f_block_size f))
        (or_else (lost q "owner") "admin" (f_owner f)) (or_else (lost q "group") "admin" (f_group f))
        (or_else (lost q "mode") 420 (f_mode f)))
  | EDir o g m =>
      EDir (or_else (lost q "owner") "admin" o) (or_else (lost q "group") "admin" g)
        (or_else (lost q "mode") (if decide (q = []) then 511 else 493) m)
  end.

(** A stored node read back, attributes lost. *)
Definition read_back (lost : list string → string → bool) (n : node) : node := node_of (forget_node lost (dict_of n)).

Lemma default_unless {V} (missing : bool) (d v : V) : default d (unless missing (Some v)) = or_else missing d v.
Proof. by destruct missing. Qed.

Lemma read_back_file lost f :
  EFile (file_of (forget_file (lost []) (file_dict f))) = aged lost [] (EFile f).
Proof. unfold file_of, forget_file. cbn. by rewrite !default_unless. Qed.
Lemma read_back_dir lost d :
  read_back lost (DirN d) =
  DirN (mkDir ((λ kv, (kv.1, read_back (λ p, lost (kv.1 :: p)) kv.2)) <$> children d)
    (or_else (lost [] "owner") "admin" (d_owner d)) (or_else (lost [] "group") "admin" (d_group d))
    (or_else (lost [] "mode") 493 (d_mode d))).
Proof.
  destruct d as [ch o g m]. unfold read_back. cbn [dict_of forget_node node_of children d_owner d_group d_mode].
  rewrite !default_unless. by rewrite <-!list_fmap_compose.
Qed.

Lemma dict_get_named {V V'} (h : string → V → V') x (d : list (string * V)) :
  dict_get x ((λ kv, (kv.1, h kv.1 kv.2)) <$> d) = h x <$> dict_get x d.
Proof. induction d as [|[k v] d IH]; [done|]. rewrite fmap_cons. cbn. destruct (decide (k = x)) as [->|]; [done|exact IH]. Qed.
Lemma keys_named {V V'} (h : string → V → V') (d : list (string * V)) :
  ((λ kv, (kv.1, h kv.1 kv.2)) <$> d).*1 = d.*1.
Proof. rewrite <-list_fmap_compose. by apply list_fmap_ext. Qed.

Lemma aged_below lost x q e : q ≠ [] ∨ (∀ o g m, e ≠ EDir o g m) → aged lost (x :: q) e = aged (λ p, lost (x :: p)) q e.
Proof. destruct e; [done|]. intros [Hq|He]; [|by destruct (He owner group mode)]. cbn. by rewrite !decide_False by done. Qed.

(** Below the root, [aged] at a path is what the node read back there shows. *)
Lemma read_back_view lost q n :
  view_from (read_back lost n) q =
  (λ e, match e with
        | EFile _ => aged lost q e
        | EDir o g m => EDir (or_else (lost q "owner") "admin" o) (or_else (lost q "group") "admin" g) (or_else (lost q "mode") 493 m)
        end) <$> view_from n q.
Proof.
  revert lost n. induction q as [|x q IH]; intros lost [f|d].
  - unfold view_from, read_back. cbn [dict_of forget_node node_of node_get fmap option_fmap option_map entry_of].
    by rewrite read_back_file.
  - rewrite read_back_dir. done.
  - done.
  - rewrite read_back_dir. unfold view_from. cbn [node_get children].
    rewrite (dict_get_named (λ k c, read_back (λ p, lost (k :: p)) c)). destruct (dict_get x (children d)) as [c|]; [|done].
    cbn [fmap option_fmap option_map]. etrans; [exact (IH (λ p, lost (x :: p)) c)|]. unfold view_from.
    destruct (node_get q c) as [[]|]; done.
Qed.

Lemma read_back_ok lost n : node_ok n → node_ok (read_back lost n).
Proof.
  revert lost. induction n as [f|d IH] using node_ind_children; intros lost Hn.
  - pose proof (node_ok_file_inv _ Hn) as (Hm & Hv & Hb). constructor. unfold read_back. cbn.
    unfold file_of, forget_file. cbn. rewrite !default_unless. split_and!; cbn.
    + by destruct (lost [] "mode").
    + by destruct (lost [] "version").
    + exact Hb.
  - apply node_ok_dir_inv in Hn as (Hm & Hd & Hk & Hc). rewrite read_back_dir. constructor; cbn [children d_mode].
    + by destruct (lost [] "mode").
    + unfold dict_ok, dict_keys in *. by rewrite (keys_named (λ k c, read_back (λ p, lost (k :: p)) c)).
    + rewrite Forall_fmap. exact Hk.
    + rewrite Forall_fmap. rewrite Forall_forall in IH, Hc. apply Forall_forall. intros kv Hkv. by apply IH, Hc.
Qed.

(** A live object stores its whole state. *)
Lemma loads_dumps t stored : dumps (instance_of t) = Ok stored → contents (loads stored) = Some t.
Proof. intros [= <-]. unfold contents, loads, __setstate__. cbn. rewrite dir_of_dict. by destruct t. Qed.

Definition old_root (lost : list string → string → bool) (d : DirNode) : DirNode :=
  mkDir ((λ kv, (kv.1, read_back (λ p, lost (kv.1 :: p)) kv.2)) <$> children d)
    (or_else (lost [] "owner") "admin" (d_owner d)) (or_else (lost [] "group") "admin" (d_group d))
    (or_else (lost [] "mode") 511 (d_mode d)).

Lemma older_contents lost gone t stored :
  dumps (instance_of t) = Ok stored →
  contents (loads (older lost gone stored)) =
  Some (mkTree (old_root lost (t_root t)) (or_else (gone "_locks") ∅ (t_locks t))
    (or_else (gone "_writes") ∅ (t_writes t)) (or_else (gone "_users") ∅ (t_users t))).
Proof.
  intros [= <-]. unfold contents, loads, __setstate__, older, old_root. cbn. rewrite !default_unless. do 2 f_equal.
  destruct (lost [] "mode") eqn:Hm; unfold dir_of; cbn; rewrite !default_unless, <-!list_fmap_compose; done.
Qed.

Lemma old_root_view lost d q : view_from (DirN (old_root lost d)) q = aged lost q <$> view_from (DirN d) q.
Proof.
  destruct q as [|x q]; [done|]. unfold view_from, old_root. cbn [node_get children].
  rewrite (dict_get_named (λ k c, read_back (λ p, lost (k :: p)) c)). destruct (dict_get x (children d)) as [c|]; [|done].
  cbn [fmap option_fmap option_map]. etrans; [exact (read_back_view (λ p, lost (x :: p)) q c)|]. unfold view_from.
  destruct (node_get q c) as [[]|]; done.
Qed.

Lemma old_root_ok lost d : node_ok (DirN d) → node_ok (DirN (old_root lost d)).
Proof.
  intros H%(read_back_ok lost). rewrite read_back_dir in H. apply node_ok_dir_inv in H as (Hm & Hd & Hk & Hc).
  constructor; [|done..]. cbn in *. by destruct (lost [] "mode").
Qed.

Lemma older_wf lost (t : TreeState) bl bw bu :
  tree_wf t →
  tree_wf (mkTree (old_root lost (t_root t)) (or_else bl ∅ (t_locks t)) (or_else bw ∅ (t_writes t)) (or_else bu ∅ (t_users t))).
Proof.
  intros [Hr Hl Ht Hw Hu]. split; cbn [t_root t_locks t_writes t_users]; [by apply old_root_ok|..].
  - destruct bl; [apply map_Forall_empty|done].
  - destruct bl; [apply map_Forall_empty|]. cbn. eapply map_Forall_impl; [exact Ht|]. intros c _ (ps & f & Hps & Hc & Hv & Hs).
    unfold lock_target, view. cbn [t_root]. setoid_rewrite old_root_view. exists ps. eexists.
    split_and!; [done|done| |]; [unfold view in Hv; by rewrite Hv|done].
  - destruct bw; [apply map_Forall_empty|done].
  - destruct bu; [apply map_Forall_empty|done].
Qed.

(** C13. A snapshot is complete: the tree a replica stores can be pickled, and the
    replica restored from it, fed the rest of the log, is the replica that applied
    the whole log.  And old snapshots are readable: one that lacks any of the
    attributes added since (the locks, the writes, the users of the tree; the lease,
    the version, the block size, the owner, the group, the mode of any of its nodes)
    restores to a well-formed tree with the same paths and blocks, in which each
    missing attribute has its default, and the root, when its mode is the one
    missing, is open to everyone. *)
Theorem snapshot_restores l1 l2 lost gone :
  let s1 := apply_log l1 replicated_init in
  ∃ stored, dumps (instance_of (tree s1)) = Ok stored ∧
    (∃ t, contents (loads stored) = Some t ∧
       apply_log l2 (mkReplicated t (applied_ops s1)) = apply_log (l1 ++ l2) replicated_init) ∧
    ∃ t, contents (loads (older lost gone stored)) = Some t ∧ tree_wf t ∧
       (∀ q, view t q = aged lost q <$> view (tree s1) q) ∧
       t_locks t = or_else (gone "_locks") ∅ (t_locks (tree s1)) ∧
       t_writes t = or_else (gone "_writes") ∅ (t_writes (tree s1)) ∧
       t_users t = or_else (gone "_users") ∅ (t_users (tree s1)).
Proof.
  cbv zeta. pose proof (apply_log_keeps l1 replicated_init tree_init_ok) as Hwf. set (s1 := apply_log l1 replicated_init) in *.
  destruct (dumps (instance_of (tree s1))) as [stored|e] eqn:Hs; [|discriminate]. exists stored. split; [done|]. split.
  - exists (tree s1). split; [by apply loads_dumps|]. unfold apply_log. rewrite foldl_app.
    change (foldl _ replicated_init l1) with s1. by destruct s1.
  - eexists. split; [by apply older_contents|]. split; [by apply older_wf|].
    split; [intros q; apply old_root_view|done].
Qed.

(** * Paths *)

(** A path has one canonical form: canonicalising twice changes nothing,
    and two spellings have the same form exactly when they name the same
    components (so locks, which are keyed by it, cannot be evaded by spelling
    the path differently). *)
Theorem canonical_path_identifies a b ca cb :
  canonical_path a = Ok ca → canonical_path b = Ok cb →
  canonical_path ca = Ok ca ∧ (ca = cb ↔ parts_of a = parts_of b).
Proof.
  intros (pa & Ha & Hoka & ->)%canonical_path_inv (pb & Hb & Hokb & ->)%canonical_path_inv.
  split.
  - unfold canonical_path. by rewrite parts_of_path_of.
  - rewrite Ha, Hb. split; [intros H; f_equal; by apply path_of_inj|congruence].
Qed.

Lemma canonical_path_identifies_witness :
  canonical_path "/home/doc" = Ok "/home/doc" ∧
  ("/home/doc" = "/home/doc" ↔ parts_of "//home/doc/" = parts_of "home//doc").
Proof. apply (canonical_path_identifies "//home/doc/" "home//doc"); reflexivity. Defined.
