(* ===== verification/Crypto.v ===== *)
(** The hash functions of Python's [hashlib] and [hmac] that the program uses,
    computed: SHA-256 (FIPS 180-4), HMAC-SHA256 (RFC 2104), PBKDF2-HMAC-SHA256
    and scrypt (RFC 7914).  A byte is an integer in [0, 256), a word an integer
    in [0, 2^32).  The examples are published test vectors. *)

From S2P Require Import Prelude.

Open Scope Z_scope.

Definition byte_list := list Z.

Definition bytes_of (s : string) : list Z :=
  (λ a, Z.of_N (N_of_ascii a)) <$> String.list_ascii_of_string s.
Definition string_of (l : list Z) : string :=
  String.string_of_list_ascii ((λ z, ascii_of_N (Z.to_N z)) <$> l).

(** * Words of 32 bits *)

Definition word (z : Z) : Z := Z.land z 4294967295.
Definition add32 (a b : Z) : Z := word (a + b).
Definition rotr (n x : Z) : Z := Z.lor (Z.shiftr x n) (word (Z.shiftl x (32 - n))).
Definition rotl (n x : Z) : Z := rotr (32 - n) x.

(** Big-endian and little-endian words. *)
Fixpoint be_value (l : list Z) (acc : Z) : Z :=
  match l with
  | [] => acc
  | b :: l' => be_value l' (256 * acc + b)
  end.
Definition be_bytes (n : nat) (z : Z) : list Z :=
  (λ i : nat, Z.land (Z.shiftr z (8 * Z.of_nat i)) 255) <$> rev (seq 0 n).
Definition le_bytes (n : nat) (z : Z) : list Z :=
  (λ i : nat, Z.land (Z.shiftr z (8 * Z.of_nat i)) 255) <$> seq 0 n.
Definition le_value (l : list Z) : Z := be_value (rev l) 0.

(** Splits a list in chunks of [n > 0] elements; the last may be shorter. *)
Fixpoint chunks_fuel {A} (fuel : nat) (n : nat) (l : list A) : list (list A) :=
  match fuel, l with
  | O, _ | _, [] => []
  | S fuel', _ => take n l :: chunks_fuel fuel' n (drop n l)
  end.
Definition chunks {A} (n : nat) (l : list A) : list (list A) := chunks_fuel (length l) n l.

(** * SHA-256 *)

(** The constants of SHA-256: the first 32 bits of the fractional parts of the
    cube roots of the first 64 primes, and of the square roots of the first 8. *)
Definition is_prime (n : Z) : bool := forallb (λ d, negb (n mod d =? 0)) (zrange 2 n).
Definition first_primes : list Z := List.filter is_prime (zrange 2 312).

(** The integer cube root below [2 ^ bits], one bit at a time. *)
Fixpoint cube_root (bits : nat) (n r : Z) : Z :=
  match bits with
  | O => r
  | S b =>
      let r' := r + 2 ^ Z.of_nat b in
      cube_root b n (if r' * r' * r' <=? n then r' else r)
  end.

Definition sha_k : list Z :=
  Eval vm_compute in (λ p, cube_root 36 (p * 2 ^ 96) 0 mod 2 ^ 32) <$> first_primes.
Definition sha_init : list Z :=
  Eval vm_compute in (λ p, Z.sqrt (p * 2 ^ 64) mod 2 ^ 32) <$> take 8 first_primes.

Definition small0 (x : Z) := Z.lxor (Z.lxor (rotr 7 x) (rotr 18 x)) (Z.shiftr x 3).
Definition small1 (x : Z) := Z.lxor (Z.lxor (rotr 17 x) (rotr 19 x)) (Z.shiftr x 10).
Definition big0 (x : Z) := Z.lxor (Z.lxor (rotr 2 x) (rotr 13 x)) (rotr 22 x).
Definition big1 (x : Z) := Z.lxor (Z.lxor (rotr 6 x) (rotr 11 x)) (rotr 25 x).
Definition choose (x y z : Z) := Z.lxor (Z.land x y) (Z.land (Z.lxor x 4294967295) z).
Definition majority (x y z : Z) := Z.lxor (Z.lxor (Z.land x y) (Z.land x z)) (Z.land y z).

(** The message schedule, kept as the last sixteen words, newest first. *)
Definition schedule_next (w : list Z) : Z :=
  let at_ (i : nat) := default 0 (w !! i) in
  add32 (add32 (small1 (at_ 1%nat)) (at_ 6%nat)) (add32 (small0 (at_ 14%nat)) (at_ 15%nat)).
Fixpoint schedule (n : nat) (w : list Z) : list Z :=
  match n with
  | O => w
  | S n' => schedule n' (schedule_next w :: w)
  end.

Definition sha_round (h : list Z) (kw : Z * Z) : list Z :=
  match h with
  | [a; b; c; d; e; f; g; hh] =>
      let t1 := add32 (add32 hh (big1 e)) (add32 (choose e f g) (add32 kw.1 kw.2)) in
      let t2 := add32 (big0 a) (majority a b c) in
      [add32 t1 t2; a; b; c; add32 d t1; e; f; g]
  | _ => h
  end.

Definition sha_block (h : list Z) (block : list Z) : list Z :=
  let w := rev (schedule 48 (rev ((λ l, be_value l 0) <$> chunks 4 block))) in
  zip_with add32 h (foldl sha_round h (zip sha_k w)).

Definition sha_pad (m : list Z) : list Z :=
  let n := Z.of_nat (length m) in
  m ++ [128] ++ replicate (Z.to_nat ((55 - n) mod 64)) 0 ++ be_bytes 8 (8 * n).

Definition sha256 (m : list Z) : list Z :=
  concat (be_bytes 4 <$> foldl sha_block sha_init (chunks 64 (sha_pad m))).

(** * HMAC, PBKDF2 *)

Definition hmac_key (key : list Z) : list Z :=
  let k := if (64 <? zlen key) then sha256 key else key in
  k ++ replicate (64 - length k) 0.

Definition hmac_sha256 (key msg : list Z) : list Z :=
  let k := hmac_key key in
  sha256 ((Z.lxor 0x5c <$> k) ++ sha256 ((Z.lxor 0x36 <$> k) ++ msg)).

(** One iteration, as scrypt uses it. *)
Definition pbkdf2_once (password salt : list Z) (dklen : nat) : list Z :=
  take dklen (concat ((λ i : nat, hmac_sha256 password (salt ++ be_bytes 4 (Z.of_nat i)))
                        <$> seq 1 ((dklen + 31) / 32))).

(** * scrypt *)

Definition quarter (x : list Z) (q : nat * nat * nat * nat) : list Z :=
  match q with
  | (a, b, c, d) =>
      let at_ (l : list Z) (i : nat) := default 0 (l !! i) in
      let x := <[b := Z.lxor (at_ x b) (rotl 7 (add32 (at_ x a) (at_ x d)))]> x in
      let x := <[c := Z.lxor (at_ x c) (rotl 9 (add32 (at_ x b) (at_ x a)))]> x in
      let x := <[d := Z.lxor (at_ x d) (rotl 13 (add32 (at_ x c) (at_ x b)))]> x in
      <[a := Z.lxor (at_ x a) (rotl 18 (add32 (at_ x d) (at_ x c)))]> x
  end.

Definition double_round (x : list Z) : list Z :=
  foldl quarter x
    [(0, 4, 8, 12); (5, 9, 13, 1); (10, 14, 2, 6); (15, 3, 7, 11);
     (0, 1, 2, 3); (5, 6, 7, 4); (10, 11, 8, 9); (15, 12, 13, 14)]%nat.

(** Salsa20/8 on sixteen words. *)
Definition salsa8 (x : list Z) : list Z :=
  zip_with add32 x (double_round (double_round (double_round (double_round x)))).

Definition block_mix (b : list (list Z)) : list (list Z) :=
  let last_block := default [] (last b) in
  let ys := (foldl (λ acc bi, let x := salsa8 (zip_with Z.lxor acc.1 bi) in (x, acc.2 ++ [x]))
               (last_block, []) b).2 in
  let pick (p : nat → bool) := omap (λ iy : nat * list Z, if p iy.1 then Some iy.2 else None)
                  (zip (seq 0 (length ys)) ys) in
  pick Nat.even ++ pick Nat.odd.

Fixpoint ro_fill (n : nat) (x : list (list Z)) (v : list (list (list Z)))
    : list (list Z) * list (list (list Z)) :=
  match n with
  | O => (x, rev v)
  | S n' => ro_fill n' (block_mix x) (x :: v)
  end.

Definition integerify (x : list (list Z)) : Z := default 0 (default [] (last x) !! 0%nat).

Fixpoint ro_mix (n : nat) (big_n : Z) (v : list (list (list Z))) (x : list (list Z)) : list (list Z) :=
  match n with
  | O => x
  | S n' =>
      let j := Z.to_nat (integerify x mod big_n) in
      ro_mix n' big_n v (block_mix (zip_with (zip_with Z.lxor) x (default [] (v !! j))))
  end.

Definition ro_block (big_n : Z) (b : list Z) : list Z :=
  let x := chunks 16 (le_value <$> chunks 4 b) in
  let filled := ro_fill (Z.to_nat big_n) x [] in
  concat (le_bytes 4 <$> concat (ro_mix (Z.to_nat big_n) big_n filled.2 filled.1)).

Definition scrypt (password salt : list Z) (big_n r p : Z) (dklen : nat) : list Z :=
  let b := pbkdf2_once password salt (Z.to_nat (p * 128 * r)) in
  pbkdf2_once password (concat (ro_block big_n <$> chunks (Z.to_nat (128 * r)) b)) dklen.

(** * Hexadecimal *)

Definition hex_digit (n : Z) : ascii :=
  ascii_of_N (Z.to_N (if n <? 10 then n + 48 else n + 87)).
Definition hex_byte (b : Z) : string :=
  String (hex_digit (b / 16)) (String (hex_digit (b mod 16)) EmptyString).
(** [.hexdigest()]. *)
Fixpoint hexdigest (l : list Z) : string :=
  match l with
  | [] => ""
  | b :: l' => hex_byte b +:+ hexdigest l'
  end.

(** * Test vectors *)

Example sha256_empty :
  hexdigest (sha256 []) = "e3b0c44298fc1c149afbf4c8996fb92427ae41e4649b934ca495991b7852b855".
Proof. vm_compute. reflexivity. Qed.

Example sha256_abc :
  hexdigest (sha256 (bytes_of "abc")) =
    "ba7816bf8f01cfea414140de5dae2223b00361a396177a9cb410ff61f20015ad".
Proof. vm_compute. reflexivity. Qed.

Example hmac_sha256_jefe :
  hexdigest (hmac_sha256 (bytes_of "Jefe") (bytes_of "what do ya want for nothing?")) =
    "5bdcc146bf60754e6a042426089575c75a003f089d2739839dec58b964ec3843".
Proof. vm_compute. reflexivity. Qed.

Example scrypt_empty :
  hexdigest (scrypt [] [] 16 1 1 64) =
    "77d6576238657b203b19ca42c18a0497f16b4844e3074ae8dfdffa3fede21442fcd0069ded0948f8326a753a0fc81f17e8d3e0fb2e0d3628cf35e20c38d18906".
Proof. vm_compute. reflexivity. Qed.
