(* ===== verification/Bytes.v ===== *)
(** Byte strings: Python slices, fixed-size chunks and [range] with a step, as
    the block store and the client use them. *)

From S2P Require Import Prelude Exceptions Crypto.

Open Scope Z_scope.

(** [l[a:b]] for [0 <= a <= b]. *)
Definition slice {A} (a b : Z) (l : list A) : list A :=
  take (Z.to_nat (b - a)) (drop (Z.to_nat a) l).

(** [range(a, b, step)] for a positive step. *)
Definition range_step (a b step : Z) : list Z :=
  (λ k, a + k * step) <$> zrange 0 ((b - a + step - 1) / step).

(** The pieces [l[s : min(s + step, b)]] for [s] in [range(a, b, step)]. *)
Definition pieces {A} (a b step : Z) (l : list A) : list (list A) :=
  (λ s, slice s (Z.min (s + step) b) l) <$> range_step a b step.

(** * Slices *)

Section slices.
Context {A : Type}.
Implicit Types l : list A.

Lemma zlen_app l1 l2 : zlen (l1 ++ l2) = zlen l1 + zlen l2.
Proof. unfold zlen. rewrite length_app. lia. Qed.
Lemma zlen_nonneg l : 0 ≤ zlen l.
Proof. unfold zlen. lia. Qed.

Lemma slice_length a b l : 0 ≤ a ≤ b → b ≤ zlen l → zlen (slice a b l) = b - a.
Proof. intros H1 H2. unfold slice, zlen in *. rewrite length_take, length_drop. lia. Qed.

Lemma slice_length_min a b l : 0 ≤ a ≤ b → a ≤ zlen l → zlen (slice a b l) = Z.min b (zlen l) - a.
Proof. intros H1 H2. unfold slice, zlen in *. rewrite length_take, length_drop. lia. Qed.

Lemma slice_all l : slice 0 (zlen l) l = l.
Proof. unfold slice, zlen. rewrite drop_0. apply take_ge. lia. Qed.

Lemma slice_nil a b l : b ≤ a → slice a b l = [].
Proof. intros H. unfold slice. by replace (Z.to_nat (b - a)) with 0%nat by lia. Qed.

Lemma slice_beyond a b l : 0 ≤ a → zlen l ≤ b → slice a b l = drop (Z.to_nat a) l.
Proof. intros Ha Hb. unfold slice. apply take_ge. rewrite length_drop. unfold zlen in *. lia. Qed.

Lemma slice_app a b c l : 0 ≤ a ≤ b → b ≤ c → slice a b l ++ slice b c l = slice a c l.
Proof.
  intros Hab Hbc. unfold slice.
  replace (Z.to_nat b) with (Z.to_nat a + Z.to_nat (b - a))%nat by lia.
  rewrite <-drop_drop. replace (Z.to_nat (c - a)) with (Z.to_nat (b - a) + Z.to_nat (c - b))%nat by lia.
  generalize (drop (Z.to_nat a) l) as k. intros k. by rewrite take_take_drop.
Qed.

Lemma slice_slice a b c d l :
  0 ≤ a → 0 ≤ c → b ≤ d - c → slice a b (slice c d l) = slice (c + a) (c + b) l.
Proof.
  intros Ha Hc Hb. unfold slice. rewrite skipn_firstn_comm, drop_drop, take_take.
  f_equal; [lia|]. f_equal. lia.
Qed.

(** The pieces of a range are the range. *)
Lemma pieces_concat a b step l : 0 ≤ a → 0 < step → concat (pieces a b step l) = slice a b l.
Proof.
  intros Ha Hs. destruct (Z.le_gt_cases b a) as [Hle|Hlt].
  { rewrite slice_nil by done. unfold pieces, range_step. rewrite zrange_nil; [done|].
    apply Z.lt_succ_r, Z.div_lt_upper_bound; lia. }
  unfold pieces, range_step. rewrite <-list_fmap_compose.
  set (n := (b - a + step - 1) / step).
  assert (∀ k, 0 ≤ k ≤ n → concat ((λ s, slice s (Z.min (s + step) b) l) ∘ (λ k, a + k * step) <$> zrange k n)
    = slice (a + k * step) b l) as Hk.
  { intros k. remember (Z.to_nat (n - k)) as m eqn:Hm. revert k Hm.
    pose proof (Z.div_mod (b - a + step - 1) step ltac:(lia)) as Hdm. fold n in Hdm.
    pose proof (Z.mod_pos_bound (b - a + step - 1) step Hs).
    induction m as [|m IH]; intros k Hm Hk.
    - rewrite zrange_nil by lia. symmetry. apply slice_nil. nia.
    - rewrite zrange_cons by lia. csimpl. rewrite IH by lia. unfold compose.
      replace (a + k * step + step) with (a + (k + 1) * step) by lia.
      destruct (Z.le_gt_cases (a + (k + 1) * step) b).
      + rewrite Z.min_l by lia. rewrite slice_app; [done|nia|nia].
      + rewrite Z.min_r by lia. rewrite (slice_nil (a + (k + 1) * step)) by lia. by rewrite app_nil_r. }
  rewrite Hk; [f_equal; lia|]. split; [done|]. unfold n. apply Z.div_pos; lia.
Qed.

(** Each piece holds between one and [step] bytes. *)
Lemma pieces_sizes a b step l :
  0 ≤ a → 0 < step → b ≤ zlen l → Forall (λ p, 0 < zlen p ≤ step) (pieces a b step l).
Proof.
  intros Ha Hs Hb. unfold pieces, range_step. rewrite !Forall_fmap. apply Forall_forall.
  intros k Hk%elem_of_zrange. unfold compose.
  pose proof (Z.div_mod (b - a + step - 1) step ltac:(lia)).
  pose proof (Z.mod_pos_bound (b - a + step - 1) step Hs).
  rewrite slice_length; [|nia|lia]. nia.
Qed.
End slices.

(** * Integers as bytes, digests *)

Lemma be_bytes_S n z : be_bytes (S n) z = Z.land (Z.shiftr z (8 * Z.of_nat n)) 255 :: be_bytes n z.
Proof. unfold be_bytes. rewrite seq_S, rev_app_distr. done. Qed.

Lemma be_bytes_zlen n z : zlen (be_bytes n z) = Z.of_nat n.
Proof. unfold zlen, be_bytes. by rewrite length_fmap, length_rev, length_seq. Qed.

Lemma be_value_bytes n z acc : be_value (be_bytes n z) acc = acc * 256 ^ Z.of_nat n + z mod 256 ^ Z.of_nat n.
Proof.
  revert acc. induction n as [|n IH]; intros acc.
  { simpl. rewrite Z.mod_1_r. lia. }
  rewrite be_bytes_S. cbn [be_value]. rewrite IH, Nat2Z.inj_succ, Z.pow_succ_r by lia.
  change 255 with (Z.ones 8). rewrite Z.land_ones, Z.shiftr_div_pow2 by lia.
  replace (2 ^ (8 * Z.of_nat n)) with (256 ^ Z.of_nat n) by (rewrite Z.pow_mul_r by lia; done).
  change (2 ^ 8) with 256. set (p := 256 ^ Z.of_nat n). assert (0 < p) by (unfold p; lia).
  rewrite (Z.mul_comm 256 p), Z.rem_mul_r by lia. lia.
Qed.

Lemma be_bytes_roundtrip n z : 0 ≤ z < 256 ^ Z.of_nat n → be_value (be_bytes n z) 0 = z.
Proof. intros Hz. rewrite be_value_bytes, Z.mod_small by done. lia. Qed.

Definition is_byte (b : Z) : Prop := 0 ≤ b < 256.

Lemma be_value_bound l acc :
  Forall is_byte l →
  acc * 256 ^ zlen l ≤ be_value l acc < (acc + 1) * 256 ^ zlen l.
Proof.
  unfold zlen. revert acc. induction l as [|b l IH]; intros acc Hl.
  - simpl. lia.
  - apply Forall_cons in Hl as [Hb Hl]. unfold is_byte in Hb. specialize (IH (256 * acc + b) Hl). cbn [be_value length].
    rewrite Nat2Z.inj_succ, Z.pow_succ_r by lia. assert (0 < 256 ^ Z.of_nat (length l)) by lia. nia.
Qed.

Lemma be_bytes_value l acc :
  Forall is_byte l → be_bytes (length l) (be_value l acc) = l.
Proof.
  revert acc. induction l as [|b l IH]; intros acc Hl; [done|].
  apply Forall_cons in Hl as [Hb Hl]. cbn [length be_value]. rewrite be_bytes_S, IH by done. f_equal.
  pose proof (be_value_bound l (256 * acc + b) Hl) as Hv. unfold zlen in Hv. unfold is_byte in Hb.
  rewrite Z.shiftr_div_pow2 by lia. change 255 with (Z.ones 8). rewrite Z.land_ones by lia.
  replace (2 ^ (8 * Z.of_nat (length l))) with (256 ^ Z.of_nat (length l)) by (rewrite Z.pow_mul_r by lia; done).
  set (p := 256 ^ Z.of_nat (length l)) in *. assert (0 < p) by (unfold p; lia).
  assert (be_value l (256 * acc + b) / p = 256 * acc + b) as ->.
  { symmetry. apply (Z.div_unique _ _ _ (be_value l (256 * acc + b) - p * (256 * acc + b))); nia. }
  change (2 ^ 8) with 256. rewrite Z.mul_comm, Z.add_comm, Z.mod_add by lia. apply Z.mod_small. lia.
Qed.

Lemma foldl_length {A B} (f : list A → B → list A) l n :
  (∀ a b, length a = n → length (f a b) = n) → ∀ a, length a = n → length (foldl f a l) = n.
Proof. intros Hf. induction l as [|b l IH]; simpl; auto. Qed.

Lemma sha_round_length h kw : length h = 8%nat → length (sha_round h kw) = 8%nat.
Proof. do 9 (destruct h; try done). Qed.

Lemma sha_block_length h b : length h = 8%nat → length (sha_block h b) = 8%nat.
Proof.
  intros Hh. unfold sha_block. rewrite length_zip_with, (foldl_length sha_round _ 8); [lia| |done].
  intros; by apply sha_round_length.
Qed.

Lemma sha256_zlen m : zlen (sha256 m) = 32.
Proof.
  unfold sha256. pose proof (foldl_length sha_block (chunks 64 (sha_pad m)) 8 sha_block_length sha_init eq_refl) as Hl.
  revert Hl. generalize (foldl sha_block sha_init (chunks 64 (sha_pad m))). intros l Hl.
  do 9 (destruct l as [|? l]; try discriminate Hl). reflexivity.
Qed.

(** * Ranges *)

Lemma zrange_join a b c : a ≤ b → b ≤ c → zrange a b ++ zrange b c = zrange a c.
Proof.
  intros Hab Hbc. remember (Z.to_nat (b - a)) as m eqn:Hm. revert a Hm Hab.
  induction m as [|m IH]; intros a Hm Hab.
  - assert (a = b) as -> by lia. by rewrite (zrange_nil b b) by lia.
  - rewrite (zrange_cons a b), (zrange_cons a c) by lia. simpl. f_equal. apply IH; lia.
Qed.
Lemma zrange_zlen a b : a ≤ b → zlen (zrange a b) = b - a.
Proof. intros H. unfold zlen. rewrite zrange_length. lia. Qed.
Lemma zrange_single a : zrange a (a + 1) = [a].
Proof. rewrite zrange_cons, zrange_nil by lia. done. Qed.
Lemma zrange_snoc a b : a ≤ b → zrange a (b + 1) = zrange a b ++ [b].
Proof. intros H. rewrite <-(zrange_join a b (b + 1)) by lia. by rewrite zrange_single. Qed.

(** A concatenation of parts of the same size [n]: where part [i] is. *)
Lemma concat_zlen {A B} (f : B → list A) (l : list B) n :
  (∀ x, x ∈ l → zlen (f x) = n) → zlen (concat (f <$> l)) = n * zlen l.
Proof.
  induction l as [|x l IH]; intros Hf; [unfold zlen; simpl; lia|].
  csimpl. rewrite zlen_app, Hf, IH by set_solver. unfold zlen. simpl. lia.
Qed.

Lemma slice_app_l {A} a b (l1 l2 : list A) : 0 ≤ a → b ≤ zlen l1 → slice a b (l1 ++ l2) = slice a b l1.
Proof.
  intros Ha Hb. unfold slice, zlen in *. destruct (Z.le_gt_cases b a).
  { by replace (Z.to_nat (b - a)) with 0%nat by lia. }
  rewrite drop_app_le by lia. rewrite take_app_le; [done|]. rewrite length_drop. lia.
Qed.
Lemma slice_app_r {A} a b (l1 l2 : list A) :
  zlen l1 ≤ a → slice a b (l1 ++ l2) = slice (a - zlen l1) (b - zlen l1) l2.
Proof.
  intros Ha. unfold slice, zlen in *. rewrite drop_app_ge by lia.
  f_equal; [lia|]. f_equal. lia.
Qed.
Lemma slice_prefix {A} n (l1 l2 : list A) : zlen l1 = n → slice 0 n (l1 ++ l2) = l1.
Proof. intros <-. rewrite slice_app_l by lia. apply slice_all. Qed.
