(* ===== verification/BlockToken.v ===== *)
(** Block capabilities (dfsha/common/block_token.py): signed permissions that
    the ControlNode issues and a DataNode verifies on its own.  The signature is
    computed ([Crypto]); a text is a string of bytes, and the times are
    rationals (the source's floats without their rounding). *)

From Stdlib Require Import QArith Qround DecimalString DecimalN.
From S2P Require Import Prelude Exceptions Paths Crypto.

Open Scope Z_scope.

Definition MIN_KEY_BYTES : Z := 32.
Definition DEFAULT_CAPABILITY_TTL_S : Q := 3600.
Definition INTERNAL_TTL_S : Q := 300.
Definition BLOCK_OPS : list string := ["read"; "write"; "delete"].
Definition INTERNAL_OPS : list string := ["list"; "replicate"].

(** [bytes.strip()]. *)
Definition is_space (a : ascii) : bool :=
  let n := N_of_ascii a in
  ((n =? 32) || ((9 <=? n) && (n <=? 13)))%N.
Fixpoint lstrip_by (p : ascii → bool) (s : string) : string :=
  match s with
  | EmptyString => EmptyString
  | String a s' => if p a then lstrip_by p s' else s
  end.
Fixpoint rstrip_by (p : ascii → bool) (s : string) : string :=
  match s with
  | EmptyString => EmptyString
  | String a s' =>
      match rstrip_by p s' with
      | EmptyString => if p a then EmptyString else String a EmptyString
      | t => String a t
      end
  end.
Definition strip_space (s : string) : string := rstrip_by is_space (lstrip_by is_space s).

(** [load_capability_key]; the argument is what the file holds. *)
Definition load_capability_key (content : string) : result exn string :=
  let key := strip_space content in
  if Z.of_nat (String.length key) <? MIN_KEY_BYTES then Err PyError else Ok key.

(** [str(n)] and [int(s)] of a natural number. *)
Definition str_of_N (n : N) : string := NilEmpty.string_of_uint (N.to_uint n).
Definition N_of_str (s : string) : option N :=
  match s with
  | EmptyString => None
  | _ => N.of_uint <$> NilEmpty.uint_of_string s
  end.
Definition str_of_Z (z : Z) : string :=
  if z <? 0 then "-" +:+ str_of_N (Z.to_N (- z)) else str_of_N (Z.to_N z).

Definition dot : ascii := "."%char.
Definition colon : ascii := ":"%char.

Definition is_ascii (s : string) : bool :=
  forallb (λ a, N.ltb (N_of_ascii a) 128) (String.list_ascii_of_string s).

Definition signature (key payload : string) : string :=
  hexdigest (hmac_sha256 (bytes_of key) (bytes_of payload)).

Definition _sign (key payload : string) : string := payload +:+ "." +:+ signature key payload.

Definition _expiry (now ttl_s : Q) : string := str_of_Z (Qceiling (now + ttl_s)).

(** [[0-9a-f]{32}], matched in full. *)
Definition is_hex (a : ascii) : bool :=
  let n := N_of_ascii a in
  (((48 <=? n) && (n <=? 57)) || ((97 <=? n) && (n <=? 102)))%N.
Definition is_block_id (s : string) : bool :=
  (String.length s =? 32)%nat && forallb is_hex (String.list_ascii_of_string s).

(** [ValueError] is [PyError]. *)
Definition issue_block (key block_id op : string) (ttl_s now : Q) : result exn string :=
  if negb (bool_decide (op ∈ BLOCK_OPS)) then Err PyError
  else if negb (is_block_id block_id) then Err PyError
  else Ok (_sign key ("b:" +:+ op +:+ ":" +:+ block_id +:+ ":" +:+ _expiry now ttl_s)).

Definition issue_internal (key op : string) (ttl_s now : Q) : result exn string :=
  if negb (bool_decide (op ∈ INTERNAL_OPS)) then Err PyError
  else Ok (_sign key ("i:" +:+ op +:+ ":" +:+ _expiry now ttl_s)).

(** [token.rpartition(".")]: the text before and after the last dot. *)
Fixpoint rpartition (c : ascii) (s : string) : option (string * string) :=
  match s with
  | EmptyString => None
  | String a s' =>
      match rpartition c s' with
      | Some (l, r) => Some (String a l, r)
      | None => if Ascii.eqb a c then Some (EmptyString, s') else None
      end
  end.

Definition _verified_fields (key token : string) : result exn (list string) :=
  match token with
  | EmptyString => Err AccessDeniedError
  | _ =>
      match rpartition dot token with
      | None => Err AccessDeniedError
      | Some (payload, sig) =>
          if is_ascii payload && is_ascii sig && bool_decide (sig = signature key payload)
          then Ok (split_on colon payload) else Err AccessDeniedError
      end
  end.

Definition _check_expiry (exp : string) (now : Q) : result exn unit :=
  match N_of_str exp with
  | None => Err AccessDeniedError
  | Some n => if Qle_bool (inject_Z (Z.of_N n)) now then Err AccessDeniedError else Ok tt
  end.

Definition verify_block (key token block_id op : string) (now : Q) : result exn unit :=
  fields ← _verified_fields key token;
  match fields with
  | [kind; op'; bid; exp] =>
      if bool_decide (kind = "b" ∧ op' = op ∧ bid = block_id)
      then _check_expiry exp now else Err AccessDeniedError
  | _ => Err AccessDeniedError
  end.

Definition verify_internal (key token op : string) (now : Q) : result exn unit :=
  fields ← _verified_fields key token;
  match fields with
  | [kind; op'; exp] =>
      if bool_decide (kind = "i" ∧ op' = op) then _check_expiry exp now else Err AccessDeniedError
  | _ => Err AccessDeniedError
  end.

(** The metadata of a call to a DataNode. *)
Definition METADATA_KEY : string := "dfsha-capability".
Definition TARGET_METADATA_KEY : string := "dfsha-target-capability".
Definition capability_kwargs (capability target : string) : list (string * string) :=
  if bool_decide (capability = "") then []
  else (METADATA_KEY, capability) ::
       (if bool_decide (target = "") then [] else [(TARGET_METADATA_KEY, target)]).

(** * Characters of the parts of a token *)

Lemma has_char_app c s1 s2 : has_char c (s1 +:+ s2) = has_char c s1 || has_char c s2.
Proof. induction s1 as [|a s1 IH]; [done|]. rewrite append_cons. cbn. by rewrite IH, orb_assoc. Qed.

Lemma rpartition_none c s : has_char c s = false → rpartition c s = None.
Proof.
  induction s as [|a s IH]; cbn; [done|]. intros [-> H]%orb_false_iff. by rewrite IH.
Qed.

Lemma rpartition_app c s1 s2 :
  has_char c s2 = false → rpartition c (s1 +:+ String c s2) = Some (s1, s2).
Proof.
  intros H. induction s1 as [|a s1 IH].
  - rewrite append_nil_l. cbn. by rewrite rpartition_none, Ascii.eqb_refl.
  - rewrite append_cons. cbn. by rewrite IH.
Qed.

Lemma rpartition_inv c s l r :
  rpartition c s = Some (l, r) → s = l +:+ String c r ∧ has_char c r = false.
Proof.
  assert (∀ s, rpartition c s = None → has_char c s = false) as Hnone.
  { induction s0 as [|a s0 IH]; cbn; [done|]. destruct (rpartition c s0) as [[? ?]|]; [done|].
    destruct (Ascii.eqb a c); [done|]. auto. }
  revert l. induction s as [|a s IH]; intros l; cbn; [done|].
  destruct (rpartition c s) as [[l' r']|] eqn:E.
  - intros [= <- ->]. destruct (IH l' eq_refl) as [-> Hr]. done.
  - destruct (Ascii.eqb_spec a c) as [->|]; [|done]. intros [= <- <-]. auto.
Qed.

(** A predicate on every character of a string. *)
Definition all_in (p : ascii → bool) (s : string) : bool :=
  forallb p (String.list_ascii_of_string s).

Lemma all_in_app p s1 s2 : all_in p (s1 +:+ s2) = all_in p s1 && all_in p s2.
Proof.
  unfold all_in. induction s1 as [|a s1 IH]; [done|]. rewrite append_cons. cbn.
  by rewrite IH, andb_assoc.
Qed.

Lemma all_in_mono (p q : ascii → bool) s :
  (∀ a, p a = true → q a = true) → all_in p s = true → all_in q s = true.
Proof.
  intros H. unfold all_in. induction s as [|a s IH]; cbn; [done|].
  intros [Ha Hs]%andb_true_iff. by rewrite (H a Ha), IH.
Qed.

Lemma all_in_no_char p c s : p c = false → all_in p s = true → has_char c s = false.
Proof.
  intros Hc. unfold all_in. induction s as [|a s IH]; cbn; [done|].
  intros [Ha Hs]%andb_true_iff. rewrite IH by done. rewrite orb_false_r.
  destruct (Ascii.eqb_spec a c); [congruence|done].
Qed.

(** Everything a capability is made of. *)
Definition token_char (a : ascii) : bool :=
  let n := N_of_ascii a in
  (((48 <=? n) && (n <=? 57)) || ((97 <=? n) && (n <=? 122)))%N.

Lemma token_char_no_sep s : all_in token_char s = true → has_char colon s = false ∧ has_char dot s = false.
Proof. intros H. split; (eapply all_in_no_char; [|exact H]; reflexivity). Qed.

Lemma token_char_ascii s : all_in token_char s = true → is_ascii s = true.
Proof.
  apply all_in_mono. unfold token_char. intros a H. apply N.ltb_lt.
  apply orb_true_iff in H as [[_ H]%andb_true_iff|[_ H]%andb_true_iff]; apply N.leb_le in H; lia.
Qed.

Lemma hex_token_char a : is_hex a = true → token_char a = true.
Proof.
  unfold is_hex, token_char. rewrite !orb_true_iff, !andb_true_iff, !N.leb_le. lia.
Qed.

(** ** The signature *)

Lemma hex_digit_char n : 0 ≤ n < 16 → token_char (hex_digit n) = true.
Proof.
  intros H. assert (forallb (λ n, token_char (hex_digit n)) (zrange 0 16) = true) as Hall by done.
  rewrite forallb_forall in Hall. apply Hall. apply list_elem_of_In. by apply elem_of_zrange.
Qed.

Lemma hexdigest_char l : Forall (λ b, 0 ≤ b < 256) l → all_in token_char (hexdigest l) = true.
Proof.
  induction 1 as [|b l Hb Hl IH]; [done|].
  change (hexdigest (b :: l)) with (hex_byte b +:+ hexdigest l).
  rewrite all_in_app, IH, andb_true_r. unfold all_in, hex_byte.
  cbn [String.list_ascii_of_string forallb]. rewrite !hex_digit_char; [done| |].
  - apply Z.mod_pos_bound. lia.
  - split; [apply Z.div_pos; lia|apply Z.div_lt_upper_bound; lia].
Qed.

Lemma be_bytes_range n z : Forall (λ b, 0 ≤ b < 256) (be_bytes n z).
Proof.
  unfold be_bytes. apply Forall_fmap, Forall_forall. intros i _. simpl.
  change 255 with (Z.ones 8). rewrite Z.land_ones by lia. apply Z.mod_pos_bound. lia.
Qed.

Lemma sha256_range m : Forall (λ b, 0 ≤ b < 256) (sha256 m).
Proof.
  unfold sha256. apply Forall_concat, Forall_fmap, Forall_forall.
  intros z _. apply be_bytes_range.
Qed.

Lemma signature_char key payload : all_in token_char (signature key payload) = true.
Proof. apply hexdigest_char, sha256_range. Qed.

(** ** The expiry *)

Lemma to_uint_nonnil n : N.to_uint n ≠ Decimal.Nil.
Proof. destruct n as [|p]; [done|]. apply DecimalPos.Unsigned.to_uint_nonnil. Qed.

Lemma string_of_uint_char d : all_in token_char (NilEmpty.string_of_uint d) = true.
Proof. unfold all_in. induction d; cbn; auto. Qed.

Lemma N_of_str_of_N n : N_of_str (str_of_N n) = Some n.
Proof.
  unfold N_of_str, str_of_N. destruct (NilEmpty.string_of_uint (N.to_uint n)) eqn:E.
  - destruct (to_uint_nonnil n). by destruct (N.to_uint n).
  - rewrite <-E, NilEmpty.usu. simpl. by rewrite DecimalN.Unsigned.of_to.
Qed.

Lemma uint_of_string_char s d : NilEmpty.uint_of_string s = Some d → all_in token_char s = true.
Proof. intros H. apply NilEmpty.sus in H as <-. apply string_of_uint_char. Qed.

Lemma N_of_str_char s n : N_of_str s = Some n → all_in token_char s = true.
Proof.
  unfold N_of_str. destruct s as [|a s]; [done|].
  destruct (NilEmpty.uint_of_string _) eqn:E; [|done]. intros _. by eapply uint_of_string_char.
Qed.

(** ** Fields *)

Lemma join_cons2 sep x y l : join sep (x :: y :: l) = x +:+ sep +:+ join sep (y :: l).
Proof. done. Qed.

Lemma split_on_join c s : join (String c "") (split_on c s) = s.
Proof.
  induction s as [|a s IH]; [done|]. cbn [split_on]. pose proof (split_on_nonnil c s) as Hne.
  destruct (split_on c s) as [|w ws]; [done|]. destruct (Ascii.eqb_spec a c) as [->|Hac].
  - by rewrite join_cons2, IH.
  - destruct ws as [|v ws]; [cbn in *; by rewrite IH|].
    rewrite join_cons2 in *. by rewrite append_cons, IH.
Qed.

(** Splitting what was joined from parts without the separator. *)
Lemma split_on_parts c ps :
  ps ≠ [] → Forall (λ p, has_char c p = false) ps → split_on c (join (String c "") ps) = ps.
Proof.
  intros Hne Hps. induction Hps as [|p ps Hp Hps IH]; [done|].
  destruct ps as [|q ps]; [by apply split_on_nochar|].
  change (join (String c "") (p :: q :: ps)) with (p +:+ String c (join (String c "") (q :: ps))).
  rewrite split_on_app, split_on_nochar by done. by rewrite IH.
Qed.

Definition fields_payload (fs : list string) : string := join ":" fs.

(** A signed payload verifies to its fields. *)
Lemma verified_sign key fs :
  fs ≠ [] → Forall (λ f, all_in token_char f = true) fs →
  _verified_fields key (_sign key (fields_payload fs)) = Ok fs.
Proof.
  intros Hne Hfs. unfold _verified_fields, _sign.
  change ("." +:+ ?s) with (String dot s). set (payload := fields_payload fs).
  assert (rpartition dot (payload +:+ String dot (signature key payload)) =
    Some (payload, signature key payload)) as Hr.
  { apply rpartition_app. by apply token_char_no_sep, signature_char. }
  destruct (payload +:+ String dot _) as [|a s] eqn:E; [by destruct payload|]. rewrite Hr.
  rewrite (token_char_ascii (signature key payload)) by apply signature_char.
  rewrite bool_decide_true, !andb_true_r by done.
  assert (is_ascii payload = true) as ->.
  { unfold payload, fields_payload. clear -Hfs.
    change (all_in (λ a, N.ltb (N_of_ascii a) 128) (join ":" fs) = true).
    induction Hfs as [|f fs Hf Hfs IH]; [done|]. apply token_char_ascii in Hf.
    change (all_in (λ a, N.ltb (N_of_ascii a) 128) f = true) in Hf.
    destruct fs as [|g fs]; [done|]. by rewrite join_cons2, !all_in_app, Hf, IH. }
  f_equal. apply split_on_parts; [done|]. eapply Forall_impl; [exact Hfs|].
  intros f Hf. by apply token_char_no_sep.
Qed.

(** Whatever verifies was signed with the key. *)
Lemma verified_fields_inv key token fs :
  _verified_fields key token = Ok fs → token = _sign key (fields_payload fs).
Proof.
  unfold _verified_fields. destruct token as [|a s] eqn:E; [done|]. rewrite <-E.
  destruct (rpartition dot token) as [[payload sig]|] eqn:Hr; [|done].
  clear E. case_match eqn:Hc; [|done]. intros [= <-].
  apply rpartition_inv in Hr as [-> _].
  apply andb_true_iff in Hc as [_ ->%bool_decide_eq_true].
  unfold fields_payload. change ":" with (String colon ""). by rewrite split_on_join.
Qed.

(** * What a capability authorises *)

Lemma block_id_char bid : is_block_id bid = true → all_in token_char bid = true.
Proof.
  unfold is_block_id. intros [_ H]%andb_true_iff. revert H. apply all_in_mono, hex_token_char.
Qed.

Lemma op_char op : op ∈ BLOCK_OPS ∨ op ∈ INTERNAL_OPS → all_in token_char op = true.
Proof.
  unfold BLOCK_OPS, INTERNAL_OPS. rewrite !elem_of_cons, elem_of_nil. naive_solver.
Qed.

Lemma str_of_Z_char z : 0 ≤ z → all_in token_char (str_of_Z z) = true ∧ N_of_str (str_of_Z z) = Some (Z.to_N z).
Proof.
  intros Hz. unfold str_of_Z. destruct (Z.ltb_spec z 0); [lia|].
  split; [apply string_of_uint_char|apply N_of_str_of_N].
Qed.

Lemma check_expiry_spec z now :
  0 ≤ z → _check_expiry (str_of_Z z) now =
    if Qle_bool (inject_Z z) now then Err AccessDeniedError else Ok tt.
Proof.
  intros Hz. unfold _check_expiry. destruct (str_of_Z_char z Hz) as [_ ->]. by rewrite Z2N.id.
Qed.

Lemma Qle_bool_false a b : Qle_bool a b = false ↔ (b < a)%Q.
Proof.
  rewrite <-not_true_iff_false, Qle_bool_iff. split; [apply Qnot_le_lt|apply Qlt_not_le].
Qed.

Lemma ceiling_nonneg q : (0 <= q)%Q → 0 ≤ Qceiling q.
Proof. intros H. apply Qceiling_resp_le in H. exact H. Qed.

Lemma issue_block_fields key bid op ttl now tok :
  issue_block key bid op ttl now = Ok tok → (0 <= now + ttl)%Q →
  op ∈ BLOCK_OPS ∧ is_block_id bid = true ∧
  _verified_fields key tok = Ok ["b"; op; bid; _expiry now ttl].
Proof.
  unfold issue_block. intros H Hq.
  destruct (bool_decide_reflect (op ∈ BLOCK_OPS)) as [Hop|]; [|done].
  destruct (is_block_id bid) eqn:Hbid; [|done]. injection H as <-. split_and!; [done|done|].
  apply (verified_sign key ["b"; op; bid; _expiry now ttl]); [done|].
  repeat constructor; [apply op_char; auto|by apply block_id_char|].
  by apply str_of_Z_char, ceiling_nonneg.
Qed.

Lemma issue_internal_fields key op ttl now tok :
  issue_internal key op ttl now = Ok tok → (0 <= now + ttl)%Q →
  op ∈ INTERNAL_OPS ∧ _verified_fields key tok = Ok ["i"; op; _expiry now ttl].
Proof.
  unfold issue_internal. intros H Hq.
  destruct (bool_decide_reflect (op ∈ INTERNAL_OPS)) as [Hop|]; [|done].
  injection H as <-. split; [done|].
  apply (verified_sign key ["i"; op; _expiry now ttl]); [done|].
  repeat constructor; [apply op_char; auto|by apply str_of_Z_char, ceiling_nonneg].
Qed.

Lemma expiry_verdict (b : Prop) `{!Decision b} z now :
  0 ≤ z →
  (if bool_decide b then _check_expiry (str_of_Z z) now else Err AccessDeniedError) = Ok tt ↔
    b ∧ (now < inject_Z z)%Q.
Proof.
  intros Hz. destruct (bool_decide_reflect b); [|naive_solver].
  rewrite check_expiry_spec by done. rewrite <-Qle_bool_false.
  destruct (Qle_bool (inject_Z z) now); naive_solver.
Qed.

Definition demo_key : string := "0123456789abcdef0123456789abcdef".
Definition demo_bid : string := "00112233445566778899aabbccddeeff".
Definition demo_token : string := default "" (match issue_block demo_key demo_bid "read" 60 100 with
                                              | Ok t => Some t
                                              | Err _ => None
                                              end).

(** C20. Whoever presents a capability a DataNode accepts holds a text signed
    with the key for that very operation on that very block (or for that
    internal operation), whose expiry is still ahead. *)
Theorem capability_sound key token bid op now :
  (verify_block key token bid op now = Ok tt →
     ∃ exp n, token = _sign key ("b:" +:+ op +:+ ":" +:+ bid +:+ ":" +:+ exp) ∧
       N_of_str exp = Some n ∧ (now < inject_Z (Z.of_N n))%Q) ∧
  (verify_internal key token op now = Ok tt →
     ∃ exp n, token = _sign key ("i:" +:+ op +:+ ":" +:+ exp) ∧
       N_of_str exp = Some n ∧ (now < inject_Z (Z.of_N n))%Q).
Proof.
  assert (∀ exp, _check_expiry exp now = Ok tt →
    ∃ n, N_of_str exp = Some n ∧ (now < inject_Z (Z.of_N n))%Q) as Hexp.
  { intros exp. unfold _check_expiry. destruct (N_of_str exp) as [n|]; [|done].
    destruct (Qle_bool _ now) eqn:E; [done|]. apply Qle_bool_false in E. eauto. }
  split.
  - unfold verify_block, mbind, result_bind.
    destruct (_verified_fields key token) as [fs|] eqn:Hv; [|done].
    destruct fs as [|k [|o [|b [|exp [|? ?]]]]]; try done. case_bool_decide as Hd; [|done].
    destruct Hd as (-> & -> & ->). intros [n Hn]%Hexp. exists exp, n. split; [|done].
    by apply verified_fields_inv in Hv.
  - unfold verify_internal, mbind, result_bind.
    destruct (_verified_fields key token) as [fs|] eqn:Hv; [|done].
    destruct fs as [|k [|o [|exp [|? ?]]]]; try done. case_bool_decide as Hd; [|done].
    destruct Hd as (-> & ->). intros [n Hn]%Hexp. exists exp, n. split; [|done].
    by apply verified_fields_inv in Hv.
Qed.

Lemma capability_sound_witness :
  ∃ exp n, demo_token = _sign demo_key ("b:" +:+ "read" +:+ ":" +:+ demo_bid +:+ ":" +:+ exp) ∧
    N_of_str exp = Some n ∧ (150 < inject_Z (Z.of_N n))%Q.
Proof.
  apply (proj1 (capability_sound demo_key demo_token demo_bid "read" 150)).
  vm_compute. reflexivity.
Defined.

(** A block capability opens the operation and the block it was issued for
    until its expiry, the first whole second from [now + ttl] on, and nothing
    else: no other block, no other operation, no internal operation. *)
Theorem block_capability_scope key bid op ttl now tok :
  issue_block key bid op ttl now = Ok tok → (0 <= now + ttl)%Q →
  ∀ bid' op' now',
    (verify_block key tok bid' op' now' = Ok tt ↔
       op' = op ∧ bid' = bid ∧ (now' < inject_Z (Qceiling (now + ttl)))%Q) ∧
    verify_internal key tok op' now' = Err AccessDeniedError.
Proof.
  intros Hi Hq bid' op' now'. destruct (issue_block_fields _ _ _ _ _ _ Hi Hq) as (_ & _ & Hf).
  unfold verify_block, verify_internal. rewrite Hf. simpl. split; [|done].
  unfold mbind, result_bind, _expiry. rewrite expiry_verdict by by apply ceiling_nonneg.
  naive_solver.
Qed.

Lemma block_capability_scope_witness :
  (verify_block demo_key demo_token demo_bid "write" 150 = Ok tt ↔
     "write" = "read" ∧ demo_bid = demo_bid ∧ (150 < inject_Z (Qceiling (100 + 60)))%Q) ∧
  verify_internal demo_key demo_token "write" 150 = Err AccessDeniedError.
Proof.
  apply (block_capability_scope demo_key demo_bid "read" 60 100);
    [vm_compute; reflexivity|vm_compute; discriminate].
Defined.

(** The same for the internal capabilities, which never open a block. *)
Theorem internal_capability_scope key op ttl now tok :
  issue_internal key op ttl now = Ok tok → (0 <= now + ttl)%Q →
  ∀ bid' op' now',
    (verify_internal key tok op' now' = Ok tt ↔
       op' = op ∧ (now' < inject_Z (Qceiling (now + ttl)))%Q) ∧
    verify_block key tok bid' op' now' = Err AccessDeniedError.
Proof.
  intros Hi Hq bid' op' now'. destruct (issue_internal_fields _ _ _ _ _ Hi Hq) as (_ & Hf).
  unfold verify_block, verify_internal. rewrite Hf. simpl. split; [|done].
  unfold mbind, result_bind, _expiry. rewrite expiry_verdict by by apply ceiling_nonneg.
  naive_solver.
Qed.

Lemma internal_capability_scope_witness :
  (verify_internal demo_key (_sign demo_key "i:list:160") "list" 150 = Ok tt ↔
     "list" = "list" ∧ (150 < inject_Z (Qceiling (100 + 60)))%Q) ∧
  verify_block demo_key (_sign demo_key "i:list:160") demo_bid "list" 150 = Err AccessDeniedError.
Proof.
  apply (internal_capability_scope demo_key "list" 60 100);
    [vm_compute; reflexivity|vm_compute; discriminate].
Defined.
