(* ===== verification/BlockStore.v ===== *)
(** The encrypted block store of a DataNode (dfsha/data_node/block_store.py):
    the DFSE1 container, its writer and its reader, and the directory of blocks.

    AES-256-GCM (the [cryptography] package) is a parameter, [Aead], with what it
    guarantees as the class [AeadLaws].  SHA-256 is computed.  The chunk size is
    a parameter of the definitions, [csize]; the program's is
    [_CHUNK_SIZE_BYTES].  The directory is a map from names to content and
    modification time; a temporary file lives only inside [write_block], which
    publishes it with [os.replace] or removes it. *)

From S2P Require Import Prelude Exceptions Crypto Bytes BlockToken.

Open Scope Z_scope.

Definition _MAGIC : list Z := bytes_of "DFSE1".
Definition _FORMAT_VERSION : Z := 1.
Definition _CHUNK_SIZE_BYTES : Z := 1048576.
Definition _TAG_SIZE_BYTES : Z := 16.
Definition _HEADER_size : Z := 14.
Definition _METADATA_size : Z := 48.
Definition _METADATA_RECORD_SIZE : Z := _METADATA_size + _TAG_SIZE_BYTES.
Definition _MAX_CHUNKS : Z := 4294967295.

(** [AESGCM(key).encrypt(nonce, data, aad)] and [.decrypt]; [None] is [InvalidTag]. *)
Class Aead := {
  aes_encrypt : list Z → list Z → list Z → list Z → list Z;
  aes_decrypt : list Z → list Z → list Z → list Z → option (list Z)
}.

(** Authenticated encryption: what was encrypted decrypts, with a tag of sixteen
    bytes more, and whatever decrypts is the encryption of what it gives, which
    is bytes. *)
Class AeadLaws `{!Aead} : Prop := {
  aes_roundtrip : ∀ k n p a, aes_decrypt k n (aes_encrypt k n p a) a = Some p;
  aes_length : ∀ k n p a, zlen (aes_encrypt k n p a) = zlen p + _TAG_SIZE_BYTES;
  aes_authentic : ∀ k n c a p, aes_decrypt k n c a = Some p → c = aes_encrypt k n p a;
  aes_bytes : ∀ k n c a p, aes_decrypt k n c a = Some p → Forall is_byte c → Forall is_byte p
}.

(** What a caller iterates: the chunks, and then the end or an exception. *)
Record Stream := mkStream {
  st_chunks : list (list Z);
  st_error : option exn
}.

(** Name, content and modification time of the files. *)
Notation Files := (gmap string (list Z * Z)).

Definition validate_block_id (bid : string) : result exn unit :=
  if is_block_id bid then Ok tt else Err BlockNotFoundError.

Definition _validate_key (key : list Z) : result exn unit :=
  if zlen key =? 32 then Ok tt else Err PyError.

Definition load_encryption_key (content : option (list Z)) : result exn (list Z) :=
  match content with
  | None => Err PyError
  | Some key => if zlen key =? 32 then Ok key else Err PyError
  end.

Definition _nonce (prefix : list Z) (counter : Z) : result exn (list Z) :=
  if (0 <=? counter) && (counter <=? _MAX_CHUNKS) then Ok (prefix ++ be_bytes 4 counter) else Err PyError.

Definition _chunk_aad (bid : string) (index : Z) (is_last : bool) : list Z :=
  bytes_of bid ++ be_bytes 4 index ++ [if is_last then 1 else 0].

Definition _metadata_aad (bid : string) (header : list Z) : list Z :=
  bytes_of bid ++ bytes_of "metadata" ++ header.

(** [_HEADER.pack] and [_METADATA.pack]. *)
Definition pack_header (prefix : list Z) : list Z := _MAGIC ++ [_FORMAT_VERSION] ++ prefix.
Definition pack_metadata (size count : Z) (digest : list Z) : list Z :=
  be_bytes 8 size ++ be_bytes 8 count ++ digest.

Section container.
Context `{!Aead} (csize : Z) (key : list Z).

Definition _encrypt_chunk (prefix : list Z) (bid : string) (index : Z) (is_last : bool) (plain : list Z)
    : result exn (list Z) :=
  n ← _nonce prefix index;
  mret (aes_encrypt key n plain (_chunk_aad bid index is_last)).

(** * Writing *)

Record Writer := mkWriter {
  wr_count : Z;
  wr_pending : list Z;
  wr_out : list Z
}.

Definition flush (prefix : list Z) (bid : string) (is_last : bool) (plain rest : list Z) (w : Writer)
    : result exn Writer :=
  if _MAX_CHUNKS <=? wr_count w then Err PyError
  else
    c ← _encrypt_chunk prefix bid (wr_count w) is_last plain;
    mret (mkWriter (wr_count w + 1) rest (wr_out w ++ c)).

(** [while len(pending) > _CHUNK_SIZE_BYTES]: at most one turn per pending byte. *)
Fixpoint drain (fuel : nat) (prefix : list Z) (bid : string) (w : Writer) : result exn Writer :=
  match fuel with
  | O => Ok w
  | S fuel' =>
      if csize <? zlen (wr_pending w) then
        w' ← flush prefix bid false (slice 0 csize (wr_pending w)) (drop (Z.to_nat csize) (wr_pending w)) w;
        drain fuel' prefix bid w'
      else Ok w
  end.

Fixpoint feed (prefix : list Z) (bid : string) (incoming : list (list Z)) (w : Writer) : result exn Writer :=
  match incoming with
  | [] => Ok w
  | c :: rest =>
      let p := wr_pending w ++ c in
      w' ← drain (length p) prefix bid (mkWriter (wr_count w) p (wr_out w));
      feed prefix bid rest w'
  end.

(** The content of the file [write_block] publishes, its checksum and its size. *)
Definition write_container (bid : string) (prefix : list Z) (s : Stream)
    : result exn (list Z * (string * Z)) :=
  let header := pack_header prefix in
  w ← feed prefix bid (st_chunks s) (mkWriter 0 [] []);
  _ ← (match st_error s with Some e => Err e | None => Ok tt end);
  w' ← (if bool_decide (wr_pending w = []) then Ok w else flush prefix bid true (wr_pending w) [] w);
  let data := concat (st_chunks s) in
  n ← _nonce prefix _MAX_CHUNKS;
  let record := aes_encrypt key n (pack_metadata (zlen data) (wr_count w') (sha256 data))
                  (_metadata_aad bid header) in
  mret (header ++ wr_out w' ++ record, (hexdigest (sha256 data), zlen data)).

(** [write_block]: [prefix] is [os.urandom(8)], [now] the clock of the disk. *)
Definition write_block (files : Files) (bid : string) (s : Stream) (prefix : list Z) (now : Z)
    : Files * result exn (string * Z) :=
  match
    _ ← _validate_key key;
    _ ← validate_block_id bid;
    write_container bid prefix s
  with
  | Ok (content, out) => (<[bid := (content, now)]> files, Ok out)
  | Err e => (files, Err e)
  end.

(** * Reading *)

(** [_read_metadata] of a file that exists: prefix, logical size, number of
    chunks and checksum. *)
Definition _read_metadata (bid : string) (content : list Z) : result exn (list Z * Z * Z * list Z) :=
  if zlen content <? _HEADER_size + _METADATA_RECORD_SIZE then Err BlockCorruptedError
  else
    let header := take 14 content in
    let prefix := drop 6 header in
    if negb (bool_decide (take 5 header = _MAGIC)) then Err BlockCorruptedError
    else if negb (bool_decide (header !! 5%nat = Some _FORMAT_VERSION)) then Err BlockCorruptedError
    else
      let record := drop (Z.to_nat (zlen content - _METADATA_RECORD_SIZE)) content in
      _ ← _validate_key key;
      n ← _nonce prefix _MAX_CHUNKS;
      match aes_decrypt key n record (_metadata_aad bid header) with
      | None => Err BlockCorruptedError
      | Some metadata =>
          if negb (zlen metadata =? _METADATA_size) then Err BlockCorruptedError
          else
            let size := be_value (take 8 metadata) 0 in
            let count := be_value (take 8 (drop 8 metadata)) 0 in
            let expected_chunks := if size =? 0 then 0 else (size - 1) / csize + 1 in
            if negb (count =? expected_chunks) then Err BlockCorruptedError
            else if _MAX_CHUNKS <? count then Err BlockCorruptedError
            else
              let last_size := if count =? 0 then 0 else size - csize * (count - 1) in
              let expected_size :=
                _HEADER_size + Z.max 0 (count - 1) * (csize + _TAG_SIZE_BYTES)
                + (if count =? 0 then 0 else last_size + _TAG_SIZE_BYTES) + _METADATA_RECORD_SIZE in
              if negb (zlen content =? expected_size) then Err BlockCorruptedError
              else Ok (prefix, size, count, drop 16 metadata)
      end.

(** The plaintext of the chunk at [index]. *)
Definition read_chunk (bid : string) (content prefix : list Z) (size count index : Z) : result exn (list Z) :=
  let plain_size := if index <? count - 1 then csize else size - csize * (count - 1) in
  let start := _HEADER_size + index * (csize + _TAG_SIZE_BYTES) in
  let encrypted := slice start (start + (plain_size + _TAG_SIZE_BYTES)) content in
  if negb (zlen encrypted =? plain_size + _TAG_SIZE_BYTES) then Err BlockCorruptedError
  else
    n ← _nonce prefix index;
    match aes_decrypt key n encrypted (_chunk_aad bid index (index =? count - 1)) with
    | None => Err BlockCorruptedError
    | Some plain => if negb (zlen plain =? plain_size) then Err BlockCorruptedError else Ok plain
    end.

(** The generator: what it yields and how it ends. *)
Fixpoint read_chunks (bid : string) (content prefix : list Z) (size count : Z) (step offset end_ : Z)
    (first last : Z) (indexes : list Z) : list (list Z) * result exn unit :=
  match indexes with
  | [] => ([], Ok tt)
  | index :: rest =>
      match read_chunk bid content prefix size count index with
      | Err e => ([], Err e)
      | Ok plain =>
          let start_in := if index =? first then offset - index * csize else 0 in
          let end_in := if index =? last then end_ - index * csize else zlen plain in
          let out := read_chunks bid content prefix size count step offset end_ first last rest in
          (pieces start_in end_in step plain ++ out.1, out.2)
      end
  end.

Definition read_block (files : Files) (bid : string) (chunk_size offset : Z) (length : option Z)
    : list (list Z) * result exn unit :=
  if (offset <? 0) || (match length with Some n => n <? 0 | None => false end) then ([], Err PyError)
  else
    match
      _ ← validate_block_id bid;
      of_option BlockNotFoundError (files !! bid)
    with
    | Err e => ([], Err e)
    | Ok (content, _) =>
        match _read_metadata bid content with
        | Err e => ([], Err e)
        | Ok (prefix, size, count, _) =>
            if (size <=? offset) || bool_decide (length = Some 0) then ([], Ok tt)
            else
              let end_ := match length with Some n => Z.min size (offset + n) | None => size end in
              let first := offset / csize in
              let last := (end_ - 1) / csize in
              read_chunks bid content prefix size count chunk_size offset end_ first last
                (zrange first (last + 1))
        end
    end.

(** * The directory *)

Definition delete_block (files : Files) (bid : string) : Files * result exn unit :=
  match validate_block_id bid with
  | Err e => (files, Err e)
  | Ok _ =>
      match files !! bid with
      | None => (files, Err BlockNotFoundError)
      | Some _ => (delete bid files, Ok tt)
      end
  end.

(** One entry of [list_blocks]: logical size, or physical when it is damaged. *)
Definition list_entry (now : Z) (entry : string * (list Z * Z)) : option (result exn (string * Z * Z)) :=
  let '(name, (content, mtime)) := entry in
  if negb (is_block_id name) then None
  else
    Some (match _read_metadata name content with
          | Ok (_, size, _, _) => Ok (name, size, Z.max 0 (now - mtime))
          | Err BlockCorruptedError => Ok (name, zlen content, Z.max 0 (now - mtime))
          | Err e => Err e
          end).

(** The entries until the first exception (an invalid key). *)
Definition list_blocks (files : Files) (now : Z) : result exn (list (string * Z * Z)) :=
  mapM id (omap (list_entry now) (map_to_list files)).
End container.
