(* ===== verification/Container.v ===== *)
(** What a DFSE1 container is, as a function of the plaintext, and that
    [write_container] produces it whatever the chunks it receives.  The second part reads it
    back, and the third shows that what the reader accepts was sealed. *)

From S2P Require Import Prelude Exceptions Crypto Bytes BlockToken BlockStore.

Open Scope Z_scope.

Section container.
Context `{!Aead} (csize : Z) (key : list Z).
Hypothesis csize_pos : 0 < csize.

(** How many chunks a plaintext of [size] bytes has. *)
Definition chunk_total (size : Z) : Z := if size =? 0 then 0 else (size - 1) / csize + 1.

Definition plain_chunk (data : list Z) (i : Z) : list Z := slice (i * csize) ((i + 1) * csize) data.

Definition seal (prefix : list Z) (bid : string) (i : Z) (is_last : bool) (plain : list Z) : list Z :=
  aes_encrypt key (prefix ++ be_bytes 4 i) plain (_chunk_aad bid i is_last).

Definition sealed_chunk (prefix : list Z) (bid : string) (data : list Z) (i : Z) : list Z :=
  seal prefix bid i (i =? chunk_total (zlen data) - 1) (plain_chunk data i).

Definition seal_metadata (prefix : list Z) (bid : string) (size count : Z) (digest : list Z) : list Z :=
  aes_encrypt key (prefix ++ be_bytes 4 _MAX_CHUNKS) (pack_metadata size count digest)
    (_metadata_aad bid (pack_header prefix)).

Definition container_of (prefix : list Z) (bid : string) (data digest : list Z) : list Z :=
  pack_header prefix
  ++ concat (sealed_chunk prefix bid data <$> zrange 0 (chunk_total (zlen data)))
  ++ seal_metadata prefix bid (zlen data) (chunk_total (zlen data)) digest.

Lemma chunk_total_spec size :
  0 < size → (chunk_total size - 1) * csize < size ≤ chunk_total size * csize ∧ 1 ≤ chunk_total size.
Proof using csize_pos.
  intros Hs. unfold chunk_total. rewrite (proj2 (Z.eqb_neq size 0)) by lia.
  pose proof (Z.div_mod (size - 1) csize ltac:(lia)). pose proof (Z.mod_pos_bound (size - 1) csize csize_pos).
  pose proof (Z.div_pos (size - 1) csize ltac:(lia) csize_pos). nia.
Qed.

Lemma chunk_total_unique size k :
  0 < size → (k - 1) * csize < size ≤ k * csize → chunk_total size = k.
Proof using csize_pos. intros Hs Hk. pose proof (chunk_total_spec size Hs). nia. Qed.

Lemma chunk_total_nonneg size : 0 ≤ size → 0 ≤ chunk_total size.
Proof using csize_pos.
  intros Hs. destruct (decide (size = 0)) as [->|]; [done|]. pose proof (chunk_total_spec size). lia.
Qed.

Lemma chunk_total_mono a b : 0 ≤ a ≤ b → chunk_total a ≤ chunk_total b.
Proof using csize_pos.
  intros Hab. destruct (decide (a = 0)) as [->|]; [change (chunk_total 0) with 0; apply chunk_total_nonneg; lia|].
  pose proof (chunk_total_spec a). pose proof (chunk_total_spec b). nia.
Qed.

(** * The writer *)

(** The writer after it consumed [data]: [k] full chunks are out and the rest pends. *)
Definition wrote (prefix : list Z) (bid : string) (data : list Z) (w : Writer) : Prop :=
  0 ≤ wr_count w ∧ wr_count w * csize + zlen (wr_pending w) = zlen data ∧
  wr_pending w = slice (wr_count w * csize) (zlen data) data ∧
  (0 < wr_count w → 0 < zlen (wr_pending w)) ∧
  wr_out w = concat ((λ i, seal prefix bid i false (plain_chunk data i)) <$> zrange 0 (wr_count w)).

Lemma flush_ok prefix bid b plain rest w :
  0 ≤ wr_count w < _MAX_CHUNKS →
  flush key prefix bid b plain rest w =
    Ok (mkWriter (wr_count w + 1) rest (wr_out w ++ seal prefix bid (wr_count w) b plain)).
Proof.
  intros Hc. unfold flush, _encrypt_chunk, _nonce, seal.
  rewrite (proj2 (Z.leb_gt _MAX_CHUNKS (wr_count w))) by lia.
  rewrite (proj2 (Z.leb_le 0 (wr_count w))), (proj2 (Z.leb_le (wr_count w) _MAX_CHUNKS)) by lia. done.
Qed.

Lemma wrote_flush prefix bid data w :
  wrote prefix bid data w → csize < zlen (wr_pending w) →
  wrote prefix bid data
    (mkWriter (wr_count w + 1) (drop (Z.to_nat csize) (wr_pending w))
       (wr_out w ++ seal prefix bid (wr_count w) false (slice 0 csize (wr_pending w)))).
Proof using csize_pos.
  intros (Hc & Hl & Hp & Hn & Ho) Hlt. unfold wrote. simpl. split_and!; [lia| | | |].
  - unfold zlen in *. rewrite length_drop. lia.
  - rewrite Hp at 1. unfold slice. rewrite skipn_firstn_comm, drop_drop. f_equal; [lia|]. f_equal. lia.
  - intros _. unfold zlen in *. rewrite length_drop. lia.
  - rewrite zrange_snoc, fmap_app, concat_app by lia. rewrite Ho. f_equal. csimpl. rewrite app_nil_r.
    unfold plain_chunk. rewrite Hp, slice_slice by lia.
    by rewrite Z.add_0_r, Z.mul_add_distr_r, Z.mul_1_l.
Qed.

(** The loop ends within its fuel, with at most one chunk pending. *)
Lemma drain_spec prefix bid data fuel w :
  wrote prefix bid data w → zlen (wr_pending w) ≤ Z.of_nat fuel * csize →
  chunk_total (zlen data) ≤ _MAX_CHUNKS →
  ∃ w', drain csize key fuel prefix bid w = Ok w' ∧ wrote prefix bid data w' ∧ zlen (wr_pending w') ≤ csize.
Proof using csize_pos.
  revert w. induction fuel as [|fuel IH]; intros w Hw Hf Hmax; cbn [drain].
  { exists w. split; [done|]. split; [done|]. lia. }
  destruct (Z.ltb_spec csize (zlen (wr_pending w))) as [Hlt|Hle].
  - pose proof Hw as (Hc & Hl & _). destruct (chunk_total_spec (zlen data)) as [Hct _]; [nia|].
    rewrite flush_ok by nia. cbn [mbind result_bind]. apply IH; [by apply wrote_flush| |done].
    simpl. unfold zlen in *. rewrite length_drop. lia.
  - exists w. done.
Qed.

Lemma wrote_more prefix bid data w c :
  wrote prefix bid data w →
  wrote prefix bid (data ++ c) (mkWriter (wr_count w) (wr_pending w ++ c) (wr_out w)).
Proof using csize_pos.
  intros (Hc & Hl & Hp & Hn & Ho). unfold wrote. simpl. rewrite !zlen_app.
  pose proof (zlen_nonneg c). pose proof (zlen_nonneg (wr_pending w)). split_and!; [lia|lia| |lia|].
  - rewrite <-(slice_app _ (zlen data)) by nia. rewrite slice_app_l by nia. rewrite <-Hp. f_equal.
    rewrite slice_app_r by lia. rewrite Z.sub_diag, Z.add_simpl_l. by rewrite slice_all.
  - rewrite Ho. f_equal. apply list_fmap_ext. intros k i Hi.
    apply list_elem_of_lookup_2, elem_of_zrange in Hi.
    unfold plain_chunk. rewrite slice_app_l by nia. done.
Qed.

Lemma feed_spec prefix bid chs data w :
  wrote prefix bid data w → zlen (wr_pending w) ≤ csize →
  chunk_total (zlen (data ++ concat chs)) ≤ _MAX_CHUNKS →
  ∃ w', feed csize key prefix bid chs w = Ok w' ∧ wrote prefix bid (data ++ concat chs) w' ∧
        zlen (wr_pending w') ≤ csize.
Proof using csize_pos.
  revert data w. induction chs as [|c chs IH]; intros data w Hw Hp Hmax; simpl.
  { exists w. by rewrite app_nil_r. }
  simpl in Hmax. rewrite app_assoc in Hmax.
  assert (chunk_total (zlen (data ++ c)) ≤ _MAX_CHUNKS) as Hmax'.
  { etransitivity; [|exact Hmax]. rewrite !zlen_app. unfold chunk_total.
    pose proof (zlen_nonneg data). pose proof (zlen_nonneg c). pose proof (zlen_nonneg (concat chs)).
    destruct (Z.eqb_spec (zlen data + zlen c) 0), (Z.eqb_spec (zlen data + zlen c + zlen (concat chs)) 0); try lia.
    - pose proof (Z.div_pos (zlen data + zlen c + zlen (concat chs) - 1) csize). lia.
    - apply Z.add_le_mono_r, Z.div_le_mono; lia. }
  destruct (drain_spec prefix bid (data ++ c) (length (wr_pending w ++ c)) (mkWriter (wr_count w) (wr_pending w ++ c) (wr_out w)))
    as (w1 & -> & Hw1 & Hp1); [by apply wrote_more|simpl; unfold zlen; nia|done|].
  cbn [mbind result_bind]. destruct (IH (data ++ c) w1) as (w' & -> & Hw' & Hp'); [done..|].
  rewrite <-app_assoc in Hw'. eauto.
Qed.

Lemma wrote_init prefix bid : wrote prefix bid [] (mkWriter 0 [] []).
Proof. unfold wrote. simpl. done. Qed.

(** What the last [flush] leaves out is the sealed chunks. *)
Lemma wrote_sealed prefix bid data w :
  wrote prefix bid data w → chunk_total (zlen data) = wr_count w + 1 → zlen (wr_pending w) ≤ csize →
  wr_out w ++ seal prefix bid (wr_count w) true (wr_pending w)
  = concat (sealed_chunk prefix bid data <$> zrange 0 (chunk_total (zlen data))).
Proof using csize_pos.
  intros (Hc & Hl & Hp & _ & Ho) Ht Hle.
  rewrite Ht, zrange_snoc, fmap_app, concat_app, Ho by lia. csimpl. rewrite app_nil_r. f_equal.
  - f_equal. apply list_fmap_ext. intros k i Hi%list_elem_of_lookup_2%elem_of_zrange.
    unfold sealed_chunk. rewrite Ht, (proj2 (Z.eqb_neq _ _)) by lia. done.
  - unfold sealed_chunk. rewrite Ht, (proj2 (Z.eqb_eq _ _)) by lia. f_equal.
    rewrite Hp at 1. unfold plain_chunk. rewrite !slice_beyond by nia. done.
Qed.

(** What is written depends on the concatenation of the chunks alone. *)
Lemma write_container_spec bid prefix s :
  let data := concat (st_chunks s) in
  chunk_total (zlen data) ≤ _MAX_CHUNKS →
  write_container csize key bid prefix s =
    match st_error s with
    | Some e => Err e
    | None => Ok (container_of prefix bid data (sha256 data), (hexdigest (sha256 data), zlen data))
    end.
Proof using csize_pos.
  intros data Hmax. unfold write_container.
  destruct (feed_spec prefix bid (st_chunks s) [] (mkWriter 0 [] []) (wrote_init _ _)) as (w & -> & Hw & Hp);
    [simpl; unfold zlen; simpl; lia|done|].
  rewrite app_nil_l in Hw. fold data in Hw. cbn [mbind result_bind].
  destruct (st_error s) as [e|]; [done|]. cbn [mbind result_bind]. fold data.
  destruct Hw as (Hc & Hl & Hpend & Hn & Ho). pose proof (zlen_nonneg data).
  unfold _nonce.
  case_bool_decide as Hempty.
  - rewrite Hempty in Hl, Hn. assert (wr_count w = 0) as Hz by (destruct (Z.le_gt_cases (wr_count w) 0); [lia|]; specialize (Hn ltac:(lia)); unfold zlen in Hn; simpl in Hn; lia).
    rewrite Hz in Hl. change (zlen []) with 0 in Hl. assert (zlen data = 0) as Hd by lia.
    cbn [mbind result_bind]. rewrite Ho, Hz. unfold container_of, seal_metadata. rewrite Hd. done.
  - assert (0 < zlen (wr_pending w)) by (destruct (wr_pending w); [done|unfold zlen; simpl; lia]).
    assert (chunk_total (zlen data) = wr_count w + 1) as Ht by (apply chunk_total_unique; nia).
    rewrite flush_ok by lia. cbn [mbind result_bind wr_count wr_out]. unfold container_of, seal_metadata.
    rewrite (wrote_sealed prefix bid data w) by (done || split_and!; done). by rewrite Ht.
Qed.
End container.

(** Reading a DFSE1 container: what the reader gives for a container that was
    written, and that whatever it accepts was written under the key. *)

Section reader.
Context `{!Aead, !AeadLaws} (csize : Z) (key : list Z).
Hypothesis csize_pos : 0 < csize.

Local Notation chunk_total := (chunk_total csize).
Local Notation plain_chunk := (plain_chunk csize).
Local Notation sealed_chunk := (sealed_chunk csize key).
Local Notation container_of := (container_of csize key).

(** The plaintext size of the chunk at [i], as the reader computes it. *)
Definition chunk_size_at (size i : Z) : Z :=
  if i <? chunk_total size - 1 then csize else size - csize * (chunk_total size - 1).

Lemma plain_chunk_zlen data i :
  0 ≤ i < chunk_total (zlen data) → zlen (plain_chunk data i) = chunk_size_at (zlen data) i.
Proof.
  intros Hi. assert (0 < zlen data) as Hd.
  { pose proof (zlen_nonneg data). destruct (decide (zlen data = 0)) as [E|]; [|lia].
    rewrite E in Hi. change (chunk_total 0) with 0 in Hi. lia. }
  destruct (chunk_total_spec csize csize_pos _ Hd) as [Ht _].
  unfold chunk_size_at, Container.plain_chunk. destruct (Z.ltb_spec i (chunk_total (zlen data) - 1)).
  - rewrite slice_length; nia.
  - assert (i = chunk_total (zlen data) - 1) as -> by lia.
    rewrite slice_beyond by nia. unfold zlen in *. rewrite length_drop. nia.
Qed.

Lemma sealed_chunk_zlen prefix bid data i :
  0 ≤ i < chunk_total (zlen data) →
  zlen (sealed_chunk prefix bid data i) = chunk_size_at (zlen data) i + _TAG_SIZE_BYTES.
Proof.
  intros Hi. unfold Container.sealed_chunk, seal. by rewrite aes_length, plain_chunk_zlen.
Qed.

Definition body_of prefix bid data : list Z :=
  concat (sealed_chunk prefix bid data <$> zrange 0 (chunk_total (zlen data))).

(** The full chunks before the one at [n]. *)
Lemma body_prefix_zlen prefix bid data n :
  0 ≤ n ≤ chunk_total (zlen data) - 1 →
  zlen (concat (sealed_chunk prefix bid data <$> zrange 0 n)) = n * (csize + _TAG_SIZE_BYTES).
Proof.
  intros Hn. rewrite (concat_zlen _ _ (csize + _TAG_SIZE_BYTES)).
  - rewrite zrange_zlen by lia. lia.
  - intros i Hi%elem_of_zrange. rewrite sealed_chunk_zlen by lia. unfold chunk_size_at.
    rewrite (proj2 (Z.ltb_lt _ _)) by lia. done.
Qed.

Lemma body_zlen prefix bid data :
  let t := chunk_total (zlen data) in
  zlen (body_of prefix bid data) =
    Z.max 0 (t - 1) * (csize + _TAG_SIZE_BYTES)
    + (if t =? 0 then 0 else zlen data - csize * (t - 1) + _TAG_SIZE_BYTES).
Proof.
  intros t. pose proof (chunk_total_nonneg csize csize_pos _ (zlen_nonneg data)) as Ht. fold t in Ht.
  unfold body_of. fold t. destruct (Z.eqb_spec t 0) as [E|Hne].
  { rewrite E. done. }
  replace t with (t - 1 + 1) at 1 by lia. rewrite zrange_snoc, fmap_app, concat_app, zlen_app by lia.
  rewrite body_prefix_zlen by (fold t; lia). csimpl. rewrite app_nil_r, sealed_chunk_zlen by (fold t; lia).
  unfold chunk_size_at. fold t. rewrite (proj2 (Z.ltb_ge (t - 1) (t - 1))) by lia. rewrite Z.max_r by lia. lia.
Qed.

Lemma body_slice prefix bid data i :
  0 ≤ i < chunk_total (zlen data) →
  let a := i * (csize + _TAG_SIZE_BYTES) in
  slice a (a + (chunk_size_at (zlen data) i + _TAG_SIZE_BYTES)) (body_of prefix bid data)
  = sealed_chunk prefix bid data i.
Proof.
  intros Hi a. unfold body_of. rewrite <-(zrange_join 0 i) by lia.
  rewrite (zrange_cons i) by lia. rewrite fmap_app, concat_app.
  assert (zlen (concat (sealed_chunk prefix bid data <$> zrange 0 i)) = a) as Ha by (apply body_prefix_zlen; lia).
  rewrite slice_app_r, Ha by lia. rewrite Z.sub_diag, Z.add_simpl_l. csimpl.
  apply slice_prefix. by apply sealed_chunk_zlen.
Qed.

Lemma body_chunk_ends prefix bid data i :
  0 ≤ i < chunk_total (zlen data) →
  i * (csize + _TAG_SIZE_BYTES) + (chunk_size_at (zlen data) i + _TAG_SIZE_BYTES) ≤ zlen (body_of prefix bid data).
Proof.
  intros Hi. rewrite body_zlen. rewrite (proj2 (Z.eqb_neq _ 0)) by lia. rewrite Z.max_r by lia.
  unfold chunk_size_at, _TAG_SIZE_BYTES. destruct (Z.ltb_spec i (chunk_total (zlen data) - 1)); [|nia].
  destruct (chunk_total_spec csize csize_pos (zlen data)); [|nia].
  pose proof (zlen_nonneg data). destruct (decide (zlen data = 0)) as [E|]; [|lia].
  rewrite E in Hi. change (chunk_total 0) with 0 in Hi. lia.
Qed.

Lemma pack_header_zlen prefix : zlen prefix = 8 → zlen (pack_header prefix) = _HEADER_size.
Proof. intros Hp. unfold pack_header. rewrite !zlen_app, Hp. done. Qed.

Lemma pack_metadata_zlen size count digest :
  zlen digest = 32 → zlen (pack_metadata size count digest) = _METADATA_size.
Proof. intros Hd. unfold pack_metadata. rewrite !zlen_app, !be_bytes_zlen, Hd. done. Qed.

Lemma seal_metadata_zlen prefix bid size count digest :
  zlen digest = 32 → zlen (seal_metadata key prefix bid size count digest) = _METADATA_RECORD_SIZE.
Proof. intros Hd. unfold seal_metadata. rewrite aes_length, pack_metadata_zlen; done. Qed.

Lemma container_split prefix bid data digest :
  container_of prefix bid data digest =
  pack_header prefix ++ body_of prefix bid data
  ++ seal_metadata key prefix bid (zlen data) (chunk_total (zlen data)) digest.
Proof. done. Qed.

Lemma container_zlen prefix bid data digest :
  zlen prefix = 8 → zlen digest = 32 →
  zlen (container_of prefix bid data digest) =
    _HEADER_size + zlen (body_of prefix bid data) + _METADATA_RECORD_SIZE.
Proof.
  intros Hp Hd. rewrite container_split, !zlen_app, pack_header_zlen, seal_metadata_zlen by done. lia.
Qed.

Lemma read_chunk_container prefix bid data digest i :
  zlen prefix = 8 → 0 ≤ i < chunk_total (zlen data) → chunk_total (zlen data) ≤ _MAX_CHUNKS →
  read_chunk csize key bid (container_of prefix bid data digest) prefix (zlen data) (chunk_total (zlen data)) i
  = Ok (plain_chunk data i).
Proof.
  intros Hp Hi Hmax. unfold read_chunk. cbv zeta. fold (chunk_size_at (zlen data) i).
  assert (slice (_HEADER_size + i * (csize + _TAG_SIZE_BYTES))
     (_HEADER_size + i * (csize + _TAG_SIZE_BYTES) + (chunk_size_at (zlen data) i + _TAG_SIZE_BYTES))
     (container_of prefix bid data digest) = sealed_chunk prefix bid data i) as ->.
  { rewrite container_split, slice_app_r by (rewrite pack_header_zlen by done; unfold _TAG_SIZE_BYTES; nia).
    rewrite pack_header_zlen by done. rewrite slice_app_l; [|unfold _TAG_SIZE_BYTES; nia|].
    - rewrite <-body_slice by done. f_equal; lia.
    - pose proof (body_chunk_ends prefix bid data i Hi). lia. }
  rewrite sealed_chunk_zlen, Z.eqb_refl by done. cbn [negb]. unfold _nonce.
  rewrite (proj2 (Z.leb_le 0 i)), (proj2 (Z.leb_le i _MAX_CHUNKS)) by lia. cbn [andb mbind result_bind].
  unfold Container.sealed_chunk, seal. rewrite aes_roundtrip, plain_chunk_zlen, Z.eqb_refl by done. done.
Qed.

(** The generator yields the bytes of the range, in pieces of at most [step]. *)
Lemma read_chunks_container prefix bid data digest step offset end_ k :
  zlen prefix = 8 → chunk_total (zlen data) ≤ _MAX_CHUNKS → 0 < step →
  0 ≤ offset < end_ → end_ ≤ zlen data → offset / csize ≤ k ≤ (end_ - 1) / csize + 1 →
  let out := read_chunks csize key bid (container_of prefix bid data digest) prefix (zlen data)
               (chunk_total (zlen data)) step offset end_ (offset / csize) ((end_ - 1) / csize)
               (zrange k ((end_ - 1) / csize + 1)) in
  out.2 = Ok tt ∧ concat out.1 = slice (if k =? offset / csize then offset else k * csize) end_ data
  ∧ Forall (λ p, 0 < zlen p ≤ step) out.1.
Proof.
  intros Hp Hmax Hstep Ho He.
  pose proof (Z.div_mod offset csize ltac:(lia)) as D1. pose proof (Z.mod_pos_bound offset csize csize_pos) as M1.
  pose proof (Z.div_mod (end_ - 1) csize ltac:(lia)) as D2. pose proof (Z.mod_pos_bound (end_ - 1) csize csize_pos) as M2.
  pose proof (Z.div_pos offset csize ltac:(lia) csize_pos) as P1.
  pose proof (Z.div_le_mono offset (end_ - 1) csize csize_pos ltac:(lia)) as Hfl.
  set (f := offset / csize) in *. set (l := (end_ - 1) / csize) in *.
  destruct (chunk_total_spec csize csize_pos (zlen data) ltac:(lia)) as [Ht _].
  assert (l < chunk_total (zlen data)) as Hlt by nia.
  remember (Z.to_nat (l + 1 - k)) as m eqn:Hm. revert k Hm.
  induction m as [|m IH]; intros k Hm Hk.
  { rewrite zrange_nil by lia. cbn. rewrite (proj2 (Z.eqb_neq _ _)) by lia.
    rewrite slice_nil by nia. done. }
  rewrite zrange_cons by lia. cbn [read_chunks]. rewrite read_chunk_container by (done || lia).
  destruct (IH (k + 1)) as (E2 & E1 & EF); [lia..|]. clear IH. cbn [fst snd]. rewrite concat_app, E1, E2.
  split; [done|]. rewrite (proj2 (Z.eqb_neq (k + 1) f)) by lia.
  assert (zlen (plain_chunk data k) = chunk_size_at (zlen data) k) as Hz by (apply plain_chunk_zlen; lia).
  set (s := if k =? f then offset - k * csize else 0). set (e := if k =? l then end_ - k * csize else zlen (plain_chunk data k)).
  assert (0 ≤ s) as Hs by (unfold s; destruct (Z.eqb_spec k f); nia).
  assert (e ≤ zlen (plain_chunk data k) ∧ e ≤ csize ∧ k * csize + e = Z.min end_ ((k + 1) * csize)) as (Hez & Hec & Hee).
  { unfold e. rewrite Hz. unfold chunk_size_at. destruct (Z.eqb_spec k l) as [->|Hkl].
    - destruct (Z.ltb_spec l (chunk_total (zlen data) - 1)); [nia|].
      assert (l = chunk_total (zlen data) - 1) as -> by lia. nia.
    - rewrite (proj2 (Z.ltb_lt _ _)) by lia. assert ((k + 1) * csize ≤ l * csize) by nia. lia. }
  split; [|by apply Forall_app; split; [apply pieces_sizes|]].
  rewrite pieces_concat by lia. unfold Container.plain_chunk. rewrite slice_slice by nia. rewrite Hee.
  assert (k * csize + s = if k =? f then offset else k * csize) as -> by (unfold s; destruct (Z.eqb_spec k f); lia).
  destruct (Z.le_gt_cases end_ ((k + 1) * csize)).
  - rewrite Z.min_l by lia. rewrite (slice_nil ((k + 1) * csize)) by lia. by rewrite app_nil_r.
  - rewrite Z.min_r by lia. apply slice_app; [|lia]. destruct (Z.eqb_spec k f); nia.
Qed.

Hypothesis csize_fits : csize ≤ 2 ^ 32.
Hypothesis key_size : zlen key = 32.

Lemma read_metadata_container prefix bid data digest :
  zlen prefix = 8 → zlen digest = 32 → chunk_total (zlen data) ≤ _MAX_CHUNKS →
  _read_metadata csize key bid (container_of prefix bid data digest) =
    Ok (prefix, zlen data, chunk_total (zlen data), digest).
Proof.
  intros Hp Hd Hmax. set (t := chunk_total (zlen data)).
  pose proof (zlen_nonneg (body_of prefix bid data)) as Hb. pose proof (zlen_nonneg data) as Hn.
  assert (0 ≤ t ≤ _MAX_CHUNKS) as Ht by (split; [by apply chunk_total_nonneg|done]).
  assert (zlen data < 2 ^ 64) as H64.
  { destruct (decide (zlen data = 0)) as [->|]; [done|].
    pose proof (chunk_total_spec csize csize_pos (zlen data) ltac:(lia)) as Hs. fold t in Hs. unfold _MAX_CHUNKS in *. nia. }
  unfold _read_metadata. rewrite container_zlen by done. rewrite (proj2 (Z.ltb_ge _ _)) by lia.
  assert (take 14 (container_of prefix bid data digest) = pack_header prefix) as Hh.
  { rewrite container_split. apply (slice_prefix _HEADER_size). by apply pack_header_zlen. }
  assert (drop 6 (pack_header prefix) = prefix) as Hpre by done.
  assert (drop (Z.to_nat (_HEADER_size + zlen (body_of prefix bid data) + _METADATA_RECORD_SIZE - _METADATA_RECORD_SIZE))
            (container_of prefix bid data digest) = seal_metadata key prefix bid (zlen data) t digest) as Hr.
  { rewrite container_split, app_assoc. apply drop_app_length'. rewrite length_app.
    pose proof (pack_header_zlen prefix Hp). unfold zlen in *. lia. }
  cbv zeta. rewrite Hh, Hr, Hpre. do 2 (rewrite bool_decide_true by done; cbn [negb]).
  assert (_validate_key key = Ok tt) as -> by (unfold _validate_key; by rewrite key_size).
  assert (_nonce prefix _MAX_CHUNKS = Ok (prefix ++ be_bytes 4 _MAX_CHUNKS)) as -> by done.
  cbn [mbind result_bind]. unfold seal_metadata.
  rewrite aes_roundtrip, pack_metadata_zlen, Z.eqb_refl by done. cbn [negb].
  assert (take 8 (pack_metadata (zlen data) t digest) = be_bytes 8 (zlen data)) as -> by done.
  assert (take 8 (drop 8 (pack_metadata (zlen data) t digest)) = be_bytes 8 t) as -> by done.
  assert (drop 16 (pack_metadata (zlen data) t digest) = digest) as -> by done.
  unfold _MAX_CHUNKS in *. rewrite !be_bytes_roundtrip by (simpl; lia).
  fold (chunk_total (zlen data)). fold t. rewrite Z.eqb_refl. cbn [negb].
  rewrite (proj2 (Z.ltb_ge _ _)) by lia. rewrite body_zlen. fold t.
  destruct (Z.eqb_spec t 0); rewrite (proj2 (Z.eqb_eq _ _)) by lia; done.
Qed.
(** Where a read ends: the end of the block when it has no length. *)
Definition range_end (size offset : Z) (len : option Z) : Z :=
  match len with Some n => Z.min size (offset + n) | None => size end.

Lemma read_block_container files bid prefix data digest m step offset len :
  zlen prefix = 8 → zlen digest = 32 → chunk_total (zlen data) ≤ _MAX_CHUNKS → 0 < step → 0 ≤ offset →
  from_option (λ n, 0 ≤ n) True len → is_block_id bid = true →
  files !! bid = Some (container_of prefix bid data digest, m) →
  let out := read_block csize key files bid step offset len in
  out.2 = Ok tt ∧ concat out.1 = slice offset (range_end (zlen data) offset len) data
  ∧ Forall (λ p, 0 < zlen p ≤ step) out.1.
Proof.
  intros Hp Hd Hmax Hstep Ho Hl Hb Hf. unfold read_block.
  rewrite (proj2 (Z.ltb_ge offset 0)) by lia.
  assert (match len with Some n => n <? 0 | None => false end = false) as ->
    by (destruct len; simpl in *; [apply Z.ltb_ge; lia|done]).
  cbn [orb]. unfold validate_block_id. rewrite Hb, Hf. cbn [mbind result_bind of_option].
  rewrite read_metadata_container by done. fold (range_end (zlen data) offset len).
  destruct (Z.leb_spec (zlen data) offset) as [Hle|Hgt]; cbn [orb].
  { split_and!; [done| |done]. cbn. symmetry. apply slice_nil. unfold range_end. destruct len; lia. }
  case_bool_decide as Hlen0.
  { subst len. split_and!; [done| |done]. cbn. symmetry. apply slice_nil. unfold range_end. lia. }
  assert (offset < range_end (zlen data) offset len ≤ zlen data) as He.
  { unfold range_end. destruct len as [n|]; simpl in *; [|lia]. assert (n ≠ 0) by congruence. lia. }
  pose proof (read_chunks_container prefix bid data digest step offset (range_end (zlen data) offset len) (offset / csize)) as Hr.
  rewrite Z.eqb_refl in Hr. apply Hr; [done..|lia|lia|]. split; [lia|].
  pose proof (Z.div_le_mono offset (range_end (zlen data) offset len - 1) csize csize_pos ltac:(lia)). lia.
Qed.
End reader.

(** Whatever the reader accepts was sealed: a file that reads whole is the
    container of what was read, for this block and under this key. *)

Section auth.
Context `{!Aead, !AeadLaws} (csize : Z) (key : list Z).
Hypothesis csize_pos : 0 < csize.

Local Notation chunk_total := (chunk_total csize).

Lemma nonce_inv prefix i n : _nonce prefix i = Ok n → n = prefix ++ be_bytes 4 i.
Proof. unfold _nonce. destruct (_ && _); congruence. Qed.

Lemma Forall_take_byte n l : Forall is_byte l → Forall is_byte (take n l).
Proof. apply Forall_take. Qed.

(** A metadata record of bytes is the packing of its fields. *)
Lemma unpack_metadata l :
  zlen l = _METADATA_size → Forall is_byte l →
  l = pack_metadata (be_value (take 8 l) 0) (be_value (take 8 (drop 8 l)) 0) (drop 16 l).
Proof.
  intros Hl Hb. assert (length l = 48%nat) as Hl' by (unfold zlen, _METADATA_size in Hl; lia).
  pose proof (be_bytes_value (take 8 l) 0 (Forall_take _ _ _ Hb)) as E1.
  pose proof (be_bytes_value (take 8 (drop 8 l)) 0 (Forall_take _ _ _ (Forall_drop _ _ _ Hb))) as E2.
  rewrite length_take, Nat.min_l in E1 by lia. rewrite length_take, length_drop, Nat.min_l in E2 by lia.
  unfold pack_metadata. rewrite E1, E2. rewrite <-(take_drop 8 l) at 1. f_equal.
  rewrite <-(take_drop 8 (drop 8 l)) at 1. by rewrite drop_drop.
Qed.

Lemma header_inv content :
  14 ≤ zlen content → take 5 (take 14 content) = _MAGIC → take 14 content !! 5%nat = Some _FORMAT_VERSION →
  take 14 content = pack_header (drop 6 (take 14 content)) ∧ zlen (drop 6 (take 14 content)) = 8.
Proof.
  unfold zlen. intros Hl Hm Hv. split; [|rewrite length_drop, length_take; lia].
  unfold pack_header. rewrite <-Hm. rewrite <-(take_drop 5 (take 14 content)) at 1. f_equal.
  by apply drop_S.
Qed.

Lemma read_metadata_inv bid content prefix size count digest :
  _read_metadata csize key bid content = Ok (prefix, size, count, digest) → Forall is_byte content →
  count = chunk_total size ∧ 0 ≤ size ∧ zlen prefix = 8 ∧ zlen digest = 32 ∧ zlen key = 32 ∧ count ≤ _MAX_CHUNKS ∧
  let body := Z.max 0 (count - 1) * (csize + _TAG_SIZE_BYTES)
              + (if count =? 0 then 0 else size - csize * (count - 1) + _TAG_SIZE_BYTES) in
  zlen content = _HEADER_size + body + _METADATA_RECORD_SIZE ∧
  content = pack_header prefix ++ slice _HEADER_size (_HEADER_size + body) content
            ++ seal_metadata key prefix bid size count digest.
Proof.
  unfold _read_metadata. cbv zeta. intros Hok Hb.
  destruct (Z.ltb_spec (zlen content) (_HEADER_size + _METADATA_RECORD_SIZE)) as [|Hlen]; [discriminate|].
  case_bool_decide as Hm; cbn [negb] in Hok; [|discriminate].
  case_bool_decide as Hv; cbn [negb] in Hok; [|discriminate].
  destruct (header_inv content) as [Hh Hp]; [unfold _HEADER_size, _METADATA_RECORD_SIZE, _METADATA_size, _TAG_SIZE_BYTES in *; lia|done..|].
  set (pre := drop 6 (take 14 content)) in *.
  unfold _validate_key in Hok. destruct (Z.eqb_spec (zlen key) 32) as [Hk|]; [|discriminate]. cbn [mbind result_bind] in Hok.
  destruct (_nonce pre _MAX_CHUNKS) as [n|] eqn:Hn; [|discriminate]. apply nonce_inv in Hn. cbn [mbind result_bind] in Hok.
  destruct (aes_decrypt _ _ _ _) as [md|] eqn:Hdec; [|discriminate].
  destruct (Z.eqb_spec (zlen md) _METADATA_size) as [Hml|]; cbn [negb] in Hok; [|discriminate].
  pose proof (aes_bytes _ _ _ _ _ Hdec (Forall_drop _ _ _ Hb)) as Hmb.
  apply aes_authentic in Hdec. rewrite Hn in Hdec. rewrite (unpack_metadata md Hml Hmb) in Hdec.
  set (sz := be_value (take 8 md) 0) in *. set (ct := be_value (take 8 (drop 8 md)) 0) in *.
  fold (chunk_total sz) in Hok.
  destruct (Z.eqb_spec ct (chunk_total sz)) as [Hct|]; cbn [negb] in Hok; [|discriminate].
  destruct (Z.ltb_spec _MAX_CHUNKS ct) as [|Hmax]; [discriminate|].
  match type of Hok with context[zlen content =? ?e] => destruct (Z.eqb_spec (zlen content) e) as [Hsz|] end;
    cbn [negb] in Hok; [|discriminate].
  assert (prefix = pre ∧ size = sz ∧ count = ct ∧ digest = drop 16 md) as (-> & -> & -> & ->) by (split_and!; congruence).
  clear Hok. split; [done|]. split.
  { pose proof (be_value_bound (take 8 md) 0 (Forall_take _ _ _ Hmb)) as Hsb. fold sz in Hsb. lia. }
  split; [done|]. split; [unfold zlen, _METADATA_size in *; rewrite length_drop; lia|]. do 2 (split; [done|]).
  assert ((if ct =? 0 then 0 else (if ct =? 0 then 0 else sz - csize * (ct - 1)) + _TAG_SIZE_BYTES)
    = if ct =? 0 then 0 else sz - csize * (ct - 1) + _TAG_SIZE_BYTES) as Eif by (destruct (ct =? 0); done).
  rewrite Eif in Hsz. cbv zeta. set (body := _ + (if ct =? 0 then 0 else sz - csize * (ct - 1) + _TAG_SIZE_BYTES)).
  assert (zlen content = _HEADER_size + body + _METADATA_RECORD_SIZE) as Hsz' by (unfold body; lia).
  split; [done|]. unfold seal_metadata. rewrite <-Hh, <-Hdec, Hsz'.
  replace (_HEADER_size + body + _METADATA_RECORD_SIZE - _METADATA_RECORD_SIZE) with (_HEADER_size + body) by lia.
  assert (0 ≤ body) by lia.
  change (take 14 content) with (slice 0 _HEADER_size content).
  rewrite <-(slice_beyond (_HEADER_size + body) (zlen content) content) by (unfold _HEADER_size; lia).
  rewrite app_assoc, !slice_app by (unfold _HEADER_size, _METADATA_RECORD_SIZE, _METADATA_size, _TAG_SIZE_BYTES in *; lia).
  by rewrite slice_all.
Qed.
Lemma read_chunk_inv bid content prefix size i plain :
  read_chunk csize key bid content prefix size (chunk_total size) i = Ok plain →
  let a := _HEADER_size + i * (csize + _TAG_SIZE_BYTES) in
  zlen plain = chunk_size_at csize size i ∧
  slice a (a + (zlen plain + _TAG_SIZE_BYTES)) content = seal key prefix bid i (i =? chunk_total size - 1) plain.
Proof.
  unfold read_chunk. cbv zeta. fold (chunk_size_at csize size i). intros Hok.
  destruct (Z.eqb_spec (zlen (slice (_HEADER_size + i * (csize + _TAG_SIZE_BYTES))
    (_HEADER_size + i * (csize + _TAG_SIZE_BYTES) + (chunk_size_at csize size i + _TAG_SIZE_BYTES)) content))
    (chunk_size_at csize size i + _TAG_SIZE_BYTES)) as [Hz|]; cbn [negb] in Hok; [|discriminate].
  destruct (_nonce prefix i) as [n|] eqn:Hn; [|discriminate]. apply nonce_inv in Hn. cbn [mbind result_bind] in Hok.
  destruct (aes_decrypt _ _ _ _) as [p|] eqn:Hdec; [|discriminate].
  destruct (Z.eqb_spec (zlen p) (chunk_size_at csize size i)) as [Hp|]; cbn [negb] in Hok; [|discriminate].
  injection Hok as <-. split; [done|]. rewrite Hp. apply aes_authentic in Hdec. by rewrite Hdec, Hn.
Qed.

(** What a whole read yields of one chunk is the chunk. *)
Lemma whole_piece size step k (plain : list Z) :
  0 < size → 0 < step → 0 ≤ k < chunk_total size → zlen plain = chunk_size_at csize size k →
  concat (pieces (if k =? 0 then 0 - k * csize else 0)
            (if k =? chunk_total size - 1 then size - k * csize else zlen plain) step plain) = plain.
Proof.
  intros Hsz Hstep Hk Hz. set (t := chunk_total size) in *.
  assert ((if k =? 0 then 0 - k * csize else 0) = 0) as -> by (destruct (Z.eqb_spec k 0); lia).
  assert ((if k =? t - 1 then size - k * csize else zlen plain) = zlen plain) as ->.
  { destruct (Z.eqb_spec k (t - 1)) as [->|]; [|done]. rewrite Hz. unfold chunk_size_at. fold t.
    rewrite (proj2 (Z.ltb_ge (t - 1) (t - 1))) by lia. lia. }
  rewrite pieces_concat by lia. apply slice_all.
Qed.

(** The file from the chunk at [k] to its last one, and the bytes read of it. *)
Lemma read_chunks_inv bid content prefix size step k ps :
  0 < size → 0 < step → 0 ≤ k ≤ chunk_total size →
  let t := chunk_total size in
  let a := _HEADER_size + k * (csize + _TAG_SIZE_BYTES) in
  let rest := Z.max 0 (t - 1 - k) * (csize + _TAG_SIZE_BYTES)
              + (if k =? t then 0 else chunk_size_at csize size (t - 1) + _TAG_SIZE_BYTES) in
  read_chunks csize key bid content prefix size t step 0 size 0 (t - 1) (zrange k t) = (ps, Ok tt) →
  zlen (concat ps) = Z.max 0 (size - k * csize) ∧
  slice a (a + rest) content =
    concat ((λ i, seal key prefix bid i (i =? t - 1) (slice ((i - k) * csize) ((i - k + 1) * csize) (concat ps)))
              <$> zrange k t).
Proof.
  intros Hsz Hstep Hk t. destruct (chunk_total_spec csize csize_pos size Hsz) as [Ht Ht1]. fold t in Ht, Ht1.
  remember (Z.to_nat (t - k)) as m eqn:Hm. revert k ps Hm Hk.
  induction m as [|m IH]; intros k ps Hm Hk; cbv zeta.
  { assert (k = t) as -> by lia. rewrite zrange_nil by lia. cbn. intros [= <-]. split; [unfold zlen; cbn; lia|].
    rewrite Z.eqb_refl. apply slice_nil. lia. }
  rewrite (zrange_cons k t) by lia. cbn [read_chunks].
  destruct (read_chunk _ _ _ _ _ _ _ _) as [plain|] eqn:Hc; [|discriminate].
  apply read_chunk_inv in Hc as [Hz Hseal].
  destruct (read_chunks csize key bid content prefix size t step 0 size 0 (t - 1) (zrange (k + 1) t)) as [qs r] eqn:Hr.
  cbn [fst snd]. intros [= <- ->].
  destruct (IH (k + 1) qs) as [Hq Hs]; [lia..|done|]. clear IH Hr. cbv zeta in Hs.
  pose proof (whole_piece size step k plain Hsz Hstep ltac:(lia) Hz) as Hplain. fold t in Hplain.
  rewrite concat_app, Hplain, zlen_app, Hq.
  assert (zlen plain = if k =? t - 1 then size - csize * (t - 1) else csize) as Hzp.
  { rewrite Hz. unfold chunk_size_at. fold t. destruct (Z.eqb_spec k (t - 1)), (Z.ltb_spec k (t - 1)); lia. }
  assert (k < t - 1 → (k + 1) * csize ≤ (t - 1) * csize) as Hmono by nia.
  split.
  { rewrite Hzp. destruct (Z.eqb_spec k (t - 1)) as [->|]; [nia|]. specialize (Hmono ltac:(lia)). lia. }
  rewrite (proj2 (Z.eqb_neq k t)) by lia. csimpl.
  replace ((k - k) * csize) with 0 by lia. replace ((k - k + 1) * csize) with csize by lia.
  set (a := _HEADER_size + k * (csize + _TAG_SIZE_BYTES)) in *.
  assert (0 ≤ a) by (unfold a, _HEADER_size, _TAG_SIZE_BYTES; nia). pose proof (zlen_nonneg plain).
  rewrite <-(slice_app a (a + (zlen plain + _TAG_SIZE_BYTES))); cycle 1.
  { unfold _TAG_SIZE_BYTES. lia. }
  { rewrite Hz. unfold chunk_size_at, _TAG_SIZE_BYTES. fold t. rewrite (proj2 (Z.ltb_ge (t - 1) (t - 1))) by lia.
    destruct (Z.ltb_spec k (t - 1)); [nia|]. assert (k = t - 1) as -> by lia. nia. }
  rewrite Hseal. fold t. f_equal.
  - f_equal. destruct (Z.eqb_spec k (t - 1)) as [->|].
    + assert (concat qs = []) as -> by (apply length_zero_iff_nil; unfold zlen in Hq; nia).
      rewrite app_nil_r. rewrite slice_beyond by nia. done.
    + rewrite slice_prefix; [done|]. done.
  - destruct (Z.eqb_spec k (t - 1)) as [Hkt|Hkt].
    + rewrite zrange_nil by lia. apply slice_nil. rewrite Z.max_l by lia. unfold chunk_size_at. fold t.
      rewrite (proj2 (Z.ltb_ge (t - 1) (t - 1))) by lia. unfold a. lia.
    + rewrite (proj2 (Z.eqb_neq (k + 1) t)) in Hs by lia. etransitivity; [etransitivity; [|exact Hs]|].
      * rewrite Hzp, !Z.max_r by lia. f_equal; unfold a; lia.
      * f_equal. apply list_fmap_ext. intros j i Hi%list_elem_of_lookup_2%elem_of_zrange. f_equal.
        rewrite slice_app_r by nia. rewrite Hzp. f_equal; lia.
Qed.
Lemma read_whole_inv files bid step content m ps :
  0 < step → files !! bid = Some (content, m) → Forall is_byte content →
  read_block csize key files bid step 0 None = (ps, Ok tt) →
  ∃ prefix digest, zlen prefix = 8 ∧ zlen digest = 32 ∧ zlen key = 32 ∧
    chunk_total (zlen (concat ps)) ≤ _MAX_CHUNKS ∧ content = container_of csize key prefix bid (concat ps) digest.
Proof.
  intros Hstep Hf Hb. unfold read_block. cbn [Z.ltb Z.compare orb].
  destruct (validate_block_id bid) as [u|] eqn:Hv; cbn [mbind result_bind]; [|discriminate].
  rewrite Hf. cbn [of_option].
  destruct (_read_metadata csize key bid content) as [[[[prefix size] count] digest]|] eqn:Hm; [|discriminate].
  apply read_metadata_inv in Hm as (-> & Hs & Hp & Hd & Hk & Hmax & Hlen & Hc); [|done].
  destruct (Z.leb_spec size 0) as [Hle|Hgt]; cbn [orb].
  - assert (size = 0) as -> by lia. intros [= <-]. exists prefix, digest. split_and!; [done..|].
    rewrite Hc at 1. unfold container_of. change (chunk_total (zlen (concat []))) with 0.
    change (chunk_total 0) with 0. cbn [Z.eqb Z.max]. rewrite slice_nil by lia. done.
  - rewrite bool_decide_false by done. rewrite Z.div_0_l by lia. intros Hr.
    destruct (chunk_total_spec csize csize_pos size Hgt) as [Ht1 Ht2]. set (t := chunk_total size) in *.
    replace ((size - 1) / csize) with (t - 1) in Hr by (unfold t, Container.chunk_total; rewrite (proj2 (Z.eqb_neq size 0)) by lia; lia).
    replace (t - 1 + 1) with t in Hr by lia.
    apply read_chunks_inv in Hr as [Hz Hbody]; [|done..|lia]. fold t in Hbody. cbv zeta in Hbody.
    rewrite Z.mul_0_l, Z.sub_0_r, Z.max_r in Hz by lia. exists prefix, digest. rewrite Hz. split_and!; [done..|].
    rewrite Hc. unfold container_of. rewrite Hz. fold t. do 2 f_equal.
    rewrite (proj2 (Z.eqb_neq 0 t)) in Hbody by lia. rewrite Z.mul_0_l, Z.add_0_r, Z.sub_0_r in Hbody.
    unfold chunk_size_at in Hbody. fold t in Hbody. rewrite (proj2 (Z.ltb_ge (t - 1) (t - 1))) in Hbody by lia.
    rewrite (proj2 (Z.eqb_neq t 0)) by lia. cbv zeta. rewrite Hbody. f_equal. apply list_fmap_ext. intros j i _.
    unfold sealed_chunk, plain_chunk. rewrite Hz. by rewrite Z.sub_0_r.
Qed.
End auth.
