(* ===== verification/BlockStoreProps.v ===== *)
(** The block store as its callers see it: the specification, a map from block ids to
    plaintexts, and then the theorems. *)

From S2P Require Import Prelude Exceptions Crypto Bytes BlockToken BlockStore Container.

(** The block store refines a map from block ids to plaintexts, and the theorems
    about it: round trip of a write and a range read, listings, tampering. *)
Open Scope Z_scope.

(** An authenticated cipher for the witnesses: the plaintext and a digest of
    everything as its tag. *)
Definition toy_tag (k n p a : list Z) : list Z := take 16 (sha256 (k ++ n ++ a ++ p)).
Definition toy_decrypt (k n c a : list Z) : option (list Z) :=
  let p := take (length c - 16) c in
  if bool_decide (c = p ++ toy_tag k n p a) then Some p else None.
Definition toy_aead : Aead := {|
  aes_encrypt k n p a := p ++ toy_tag k n p a;
  aes_decrypt := toy_decrypt
|}.

Lemma toy_tag_length k n p a : length (toy_tag k n p a) = 16%nat.
Proof.
  unfold toy_tag. rewrite length_take. pose proof (sha256_zlen (k ++ n ++ a ++ p)) as Hl. unfold zlen in Hl. lia.
Qed.

Lemma toy_aead_laws : @AeadLaws toy_aead.
Proof.
  constructor.
  - intros k n p a. unfold aes_decrypt, aes_encrypt, toy_aead, toy_decrypt. cbv zeta.
    assert (take (length (p ++ toy_tag k n p a) - 16) (p ++ toy_tag k n p a) = p) as ->
      by (apply take_app_length'; rewrite length_app, toy_tag_length; lia).
    by rewrite bool_decide_true.
  - intros k n p a. unfold aes_encrypt, toy_aead. rewrite zlen_app. unfold zlen. by rewrite toy_tag_length.
  - intros k n c a p. unfold aes_decrypt, aes_encrypt, toy_aead, toy_decrypt. cbv zeta.
    case_bool_decide as Hc; [|discriminate]. by intros [= <-].
  - intros k n c a p. unfold aes_decrypt, toy_aead, toy_decrypt. cbv zeta.
    case_bool_decide as Hc; [|discriminate]. intros [= <-]. apply Forall_take.
Qed.

(** * The abstract store *)

(** What is stored under each id, and since when. *)
Notation Blocks := (gmap string (list Z * Z)).

Inductive store_op : Type :=
| OpWrite (bid : string) (s : Stream) (prefix : list Z) (now : Z)
| OpRead (bid : string) (chunk_size offset : Z) (len : option Z)
| OpDelete (bid : string)
| OpList (now : Z).

(** The bytes a read yields are compared, not how they are cut. *)
Inductive store_answer : Type :=
| AWrite (r : result exn (string * Z))
| ARead (data : list Z) (r : result exn unit)
| ADelete (r : result exn unit)
| AList (r : result exn (gset (string * Z * Z))).

Definition store_step `{!Aead} (csize : Z) (key : list Z) (files : Files) (op : store_op) : Files * store_answer :=
  match op with
  | OpWrite bid s prefix now => let out := write_block csize key files bid s prefix now in (out.1, AWrite out.2)
  | OpRead bid step offset len =>
      let out := read_block csize key files bid step offset len in (files, ARead (concat out.1) out.2)
  | OpDelete bid => let out := delete_block files bid in (out.1, ADelete out.2)
  | OpList now => (files, AList (list_to_set <$> list_blocks csize key files now))
  end.

Definition spec_step (blocks : Blocks) (op : store_op) : Blocks * store_answer :=
  match op with
  | OpWrite bid s _ now =>
      if negb (is_block_id bid) then (blocks, AWrite (Err BlockNotFoundError))
      else match st_error s with
           | Some e => (blocks, AWrite (Err e))
           | None =>
               let data := concat (st_chunks s) in
               (<[bid := (data, now)]> blocks, AWrite (Ok (hexdigest (sha256 data), zlen data)))
           end
  | OpRead bid _ offset len =>
      if (offset <? 0) || (match len with Some n => n <? 0 | None => false end)
      then (blocks, ARead [] (Err PyError))
      else match blocks !! bid with
           | Some (data, _) => (blocks, ARead (slice offset (range_end (zlen data) offset len) data) (Ok tt))
           | None => (blocks, ARead [] (Err BlockNotFoundError))
           end
  | OpDelete bid =>
      match blocks !! bid with
      | Some _ => (delete bid blocks, ADelete (Ok tt))
      | None => (blocks, ADelete (Err BlockNotFoundError))
      end
  | OpList now =>
      (blocks, AList (Ok (map_to_set (λ bid b, (bid, zlen b.1, Z.max 0 (now - b.2))) blocks)))
  end.

(** Run of a list of operations, answers in order. *)
Fixpoint run_ops {S} (step : S → store_op → S * store_answer) (s : S) (ops : list store_op)
    : S * list store_answer :=
  match ops with
  | [] => (s, [])
  | op :: rest =>
      let out := step s op in
      let more := run_ops step out.1 rest in (more.1, out.2 :: more.2)
  end.

(** What [os.urandom(8)] and the format bound: a random prefix of eight bytes,
    a plaintext within the chunks of the format, a positive piece size. *)
Definition op_wf (csize : Z) (op : store_op) : Prop :=
  match op with
  | OpWrite _ s prefix _ => zlen prefix = 8 ∧ chunk_total csize (zlen (concat (st_chunks s))) ≤ _MAX_CHUNKS
  | OpRead _ step _ _ => 0 < step
  | _ => True
  end.

(** * The refinement *)

Section store.
Context `{!Aead, !AeadLaws} (csize : Z) (key : list Z).
Hypothesis csize_pos : 0 < csize.
Hypothesis csize_fits : csize ≤ 2 ^ 32.
Hypothesis key_size : zlen key = 32.

(** A file that holds [data] under the name [bid]. *)
Definition holds_block (bid : string) (file block : list Z * Z) : Prop :=
  file.2 = block.2 ∧ is_block_id bid = true ∧ chunk_total csize (zlen block.1) ≤ _MAX_CHUNKS ∧
  ∃ prefix, zlen prefix = 8 ∧ file.1 = container_of csize key prefix bid block.1 (sha256 block.1).

Definition holds (files : Files) (blocks : Blocks) : Prop :=
  ∀ bid, option_Forall2 (holds_block bid) (files !! bid) (blocks !! bid).

Lemma holds_empty : holds ∅ ∅.
Proof. intros bid. rewrite !lookup_empty. constructor. Qed.

Lemma holds_insert files blocks bid f b : holds files blocks → holds_block bid f b → holds (<[bid := f]> files) (<[bid := b]> blocks).
Proof.
  intros Hh Hb i. destruct (decide (i = bid)) as [->|].
  - rewrite !lookup_insert_eq. by constructor.
  - rewrite !lookup_insert_ne by done. apply Hh.
Qed.

Lemma holds_delete files blocks bid : holds files blocks → holds (delete bid files) (delete bid blocks).
Proof.
  intros Hh i. destruct (decide (i = bid)) as [->|].
  - rewrite !lookup_delete_eq. constructor.
  - rewrite !lookup_delete_ne by done. apply Hh.
Qed.

Lemma holds_some files blocks bid c m :
  holds files blocks → files !! bid = Some (c, m) → ∃ data, blocks !! bid = Some (data, m) ∧ holds_block bid (c, m) (data, m).
Proof.
  intros Hh Hf. specialize (Hh bid). rewrite Hf in Hh. inversion Hh as [x [data m'] Hb Hx Hy|].
  pose proof Hb as [Hm _]. simpl in Hm. subst. eauto.
Qed.

Lemma holds_none files blocks bid : holds files blocks → files !! bid = None → blocks !! bid = None.
Proof. intros Hh Hf. specialize (Hh bid). rewrite Hf in Hh. by inversion Hh. Qed.

Lemma write_refines files blocks bid s prefix now :
  holds files blocks → op_wf csize (OpWrite bid s prefix now) →
  holds (store_step csize key files (OpWrite bid s prefix now)).1 (spec_step blocks (OpWrite bid s prefix now)).1
  ∧ (store_step csize key files (OpWrite bid s prefix now)).2 = (spec_step blocks (OpWrite bid s prefix now)).2.
Proof.
  intros Hh [Hp Hmax]. cbn [store_step spec_step]. unfold write_block, validate_block_id, _validate_key.
  rewrite key_size. cbn [Z.eqb Pos.eqb mbind result_bind]. destruct (is_block_id bid) eqn:Hb; cbn [negb mbind result_bind]; [|done].
  rewrite write_container_spec by done. destruct (st_error s) as [e|]; [done|]. cbn. split; [|done].
  apply holds_insert; [done|]. unfold holds_block. eauto 6.
Qed.

Lemma read_refines files blocks bid step offset len :
  holds files blocks → 0 < step →
  (store_step csize key files (OpRead bid step offset len)).2 = (spec_step blocks (OpRead bid step offset len)).2.
Proof.
  intros Hh Hstep. cbn [store_step spec_step snd].
  destruct ((offset <? 0) || match len with Some n => n <? 0 | None => false end) eqn:Hr.
  { unfold read_block. by rewrite Hr. }
  assert (0 ≤ offset ∧ from_option (λ n, 0 ≤ n) True len) as [Ho Hl].
  { apply orb_false_iff in Hr as [?%Z.ltb_ge Hl]. split; [done|]. destruct len; [apply Z.ltb_ge in Hl; simpl; lia|done]. }
  destruct (files !! bid) as [[c m]|] eqn:Hf.
  - destruct (holds_some _ _ _ _ _ Hh Hf) as (data & -> & _ & Hb & Hmax & prefix & Hp & Hc). simpl in Hmax, Hc. subst c.
    destruct (read_block_container csize key csize_pos csize_fits key_size files bid prefix data (sha256 data) m step offset len)
      as (-> & -> & _); [done|apply sha256_zlen|done..].
  - rewrite (holds_none _ _ _ Hh Hf). unfold read_block, validate_block_id. rewrite Hr, Hf. by destruct (is_block_id bid).
Qed.

Lemma delete_refines files blocks bid :
  holds files blocks →
  holds (store_step csize key files (OpDelete bid)).1 (spec_step blocks (OpDelete bid)).1
  ∧ (store_step csize key files (OpDelete bid)).2 = (spec_step blocks (OpDelete bid)).2.
Proof.
  intros Hh. cbn [store_step spec_step]. unfold delete_block, validate_block_id.
  destruct (files !! bid) as [[c m]|] eqn:Hf.
  - destruct (holds_some _ _ _ _ _ Hh Hf) as (data & -> & _ & -> & _). split; [|done]. by apply holds_delete.
  - rewrite (holds_none _ _ _ Hh Hf). by destruct (is_block_id bid).
Qed.

Lemma mapM_Ok {E A B} (f : A → B) (g : A → result E B) l : (∀ x, x ∈ l → g x = Ok (f x)) → mapM g l = Ok (f <$> l).
Proof.
  induction l as [|x l IH]; intros Hg; [done|]. simpl. rewrite Hg by set_solver. cbn [mbind result_bind].
  rewrite IH by set_solver. done.
Qed.

(** The entry of every file of the store. *)
Definition entry_of (now : Z) (blocks : Blocks) (f : string * (list Z * Z)) : string * Z * Z :=
  (f.1, zlen (default ([], 0) (blocks !! f.1)).1, Z.max 0 (now - f.2.2)).

Lemma list_entry_holds files blocks now f :
  holds files blocks → files !! f.1 = Some f.2 → list_entry csize key now f = Some (Ok (entry_of now blocks f)).
Proof.
  destruct f as [bid [c m]]. simpl. intros Hh Hf. unfold entry_of. simpl.
  destruct (holds_some _ _ _ _ _ Hh Hf) as (data & -> & _ & Hb & Hmax & prefix & Hp & Hc). simpl in Hmax, Hc. subst c.
  rewrite Hb. cbn [negb]. rewrite read_metadata_container by (done || apply sha256_zlen). done.
Qed.

Lemma omap_list_entry files blocks now (l : list (string * (list Z * Z))) :
  holds files blocks → (∀ f, f ∈ l → files !! f.1 = Some f.2) →
  omap (list_entry csize key now) l = Ok <$> (entry_of now blocks <$> l).
Proof.
  intros Hh. induction l as [|f l IH]; intros Hl; [done|]. csimpl.
  rewrite (list_entry_holds files blocks) by (done || apply Hl; set_solver). f_equal. apply IH. set_solver.
Qed.

Lemma list_refines files blocks now :
  holds files blocks →
  (store_step csize key files (OpList now)).2 = (spec_step blocks (OpList now)).2.
Proof.
  intros Hh. cbn [store_step spec_step snd]. do 2 f_equal. unfold list_blocks.
  rewrite (omap_list_entry files blocks) by (done || (intros [i x] Hx; by apply elem_of_map_to_list in Hx)).
  rewrite (mapM_Ok (λ r, match r with Ok a => a | Err _ => ("", 0, 0) end)) by
    (intros x (y & -> & _)%list_elem_of_fmap; done).
  cbn. do 2 f_equal. apply set_eq. intros [[i sz] age]. rewrite elem_of_list_to_set, elem_of_map_to_set.
  rewrite !list_elem_of_fmap. split.
  - intros (r & -> & (e & -> & ([j [c m]] & -> & Hj%elem_of_map_to_list)%list_elem_of_fmap)%list_elem_of_fmap).
    destruct (holds_some _ _ _ _ _ Hh Hj) as (data & Hb & _). exists j, (data, m). split; [done|].
    unfold entry_of. simpl. by rewrite Hb.
  - intros (j & [data m] & Hb & [= <- <- <-]). destruct (files !! j) as [[c m']|] eqn:Hf.
    + destruct (holds_some _ _ _ _ _ Hh Hf) as (data' & Hb' & _). simplify_eq.
      eexists; split; [|apply list_elem_of_fmap_2, list_elem_of_fmap_2, elem_of_map_to_list, Hf].
      unfold entry_of. simpl. by rewrite Hb.
    + rewrite (holds_none _ _ _ Hh Hf) in Hb. discriminate.
Qed.

Lemma step_refines files blocks op :
  holds files blocks → op_wf csize op →
  holds (store_step csize key files op).1 (spec_step blocks op).1
  ∧ (store_step csize key files op).2 = (spec_step blocks op).2.
Proof.
  intros Hh Hw. destruct op as [bid s prefix now|bid step offset len|bid|now].
  - by apply write_refines.
  - split; [|by apply read_refines]. cbn [spec_step]. destruct (_ || _); [done|]. by destruct (blocks !! bid) as [[]|].
  - by apply delete_refines.
  - split; [done|by apply list_refines].
Qed.

Lemma run_refines files blocks ops :
  holds files blocks → Forall (op_wf csize) ops →
  holds (run_ops (store_step csize key) files ops).1 (run_ops spec_step blocks ops).1
  ∧ (run_ops (store_step csize key) files ops).2 = (run_ops spec_step blocks ops).2.
Proof.
  intros Hh Hw. revert files blocks Hh. induction Hw as [|op ops Hop _ IH]; intros files blocks Hh; [done|].
  simpl. destruct (step_refines files blocks op Hh Hop) as [Hh' ->]. destruct (IH _ _ Hh') as [? ->]. done.
Qed.
End store.

(** The properties of the block store. *)

(** * The write loop *)

Section loop.
Context `{!Aead} (csize : Z) (key : list Z).
Hypothesis csize_pos : 0 < csize.

Lemma flush_pending prefix bid b plain rest w w' : flush key prefix bid b plain rest w = Ok w' → wr_pending w' = rest.
Proof.
  unfold flush. destruct (_ <=? _); [discriminate|]. destruct (_encrypt_chunk _ _ _ _ _ _); [|discriminate].
  by intros [= <-].
Qed.

Lemma drain_fuel prefix bid fuel fuel' w :
  (length (wr_pending w) ≤ fuel)%nat → (length (wr_pending w) ≤ fuel')%nat →
  drain csize key fuel prefix bid w = drain csize key fuel' prefix bid w
  ∧ ∀ w', drain csize key fuel prefix bid w = Ok w' → zlen (wr_pending w') ≤ csize.
Proof.
  revert fuel' w. induction fuel as [|fuel IH]; intros fuel' w Hf Hf'.
  - assert (zlen (wr_pending w) ≤ csize) as Hle by (unfold zlen; lia).
    split; [|by intros w' [= <-]]. destruct fuel'; [done|]. simpl. by rewrite (proj2 (Z.ltb_ge _ _)) by done.
  - cbn [drain]. destruct (Z.ltb_spec csize (zlen (wr_pending w))) as [Hlt|Hle].
    2: { split; [|by intros w' [= <-]]. destruct fuel'; [done|]. cbn [drain]. by rewrite (proj2 (Z.ltb_ge _ _)). }
    destruct fuel' as [|fuel']; [unfold zlen in Hlt; lia|]. cbn [drain]. rewrite (proj2 (Z.ltb_lt _ _)) by done.
    destruct (flush _ _ _ _ _ _ _) as [w1|] eqn:Hw1; cbn [mbind result_bind]; [|done].
    apply flush_pending in Hw1. apply IH; rewrite Hw1, length_drop; unfold zlen in Hlt; lia.
Qed.
End loop.

(** The loop of [write_block] that cuts full chunks off the pending bytes
    terminates: it makes at most one turn per pending byte, so any larger bound
    gives the same outcome, errors included, and when it ends at most one chunk
    is pending. *)
Theorem write_loop_terminates `{!Aead} (csize : Z) (key : list Z) prefix bid w fuel :
  0 < csize → (length (wr_pending w) ≤ fuel)%nat →
  drain csize key fuel prefix bid w = drain csize key (length (wr_pending w)) prefix bid w
  ∧ ∀ w', drain csize key (length (wr_pending w)) prefix bid w = Ok w' → zlen (wr_pending w') ≤ csize.
Proof.
  intros Hc Hf. destruct (drain_fuel csize key Hc prefix bid fuel (length (wr_pending w)) w) as [E He]; [done..|].
  split; [done|]. intros w' Hw'. apply He. by rewrite E.
Qed.
Lemma write_loop_terminates_witness :
  drain (H:=toy_aead) 2 [] 9 [1] "b" (mkWriter 0 [1; 2; 3; 4; 5] []) =
    drain (H:=toy_aead) 2 [] 5 [1] "b" (mkWriter 0 [1; 2; 3; 4; 5] [])
  ∧ ∀ w', drain (H:=toy_aead) 2 [] 5 [1] "b" (mkWriter 0 [1; 2; 3; 4; 5] []) = Ok w' → zlen (wr_pending w') ≤ 2.
Proof. apply (@write_loop_terminates toy_aead 2 [] [1] "b" (mkWriter 0 [1; 2; 3; 4; 5] []) 9); simpl; lia. Defined.

(** * Theorems of the store *)

Definition store_key : list Z := replicate 32 7.
Definition store_block : string := "0123456789abcdef0123456789abcdef".
Definition store_prefix : list Z := [1; 2; 3; 4; 5; 6; 7; 8].
Definition store_ops : list store_op :=
  [OpWrite store_block (mkStream [[1; 2; 3]; []; [4; 5; 6; 7; 8; 9]] None) store_prefix 100;
   OpRead store_block 3 2 (Some 5);
   OpWrite store_block (mkStream [[0]] (Some PyError)) store_prefix 110;
   OpList 130; OpDelete store_block; OpRead store_block 3 0 None].

(** C14. The block store refines a map from ids to plaintexts: any sequence of
    writes, range reads, deletes and listings over the encrypted files gives the
    answers the same sequence gives over the map, errors included.  A write whose
    stream fails changes nothing. *)
Theorem block_store_refines `{!Aead, !AeadLaws} (csize : Z) (key : list Z) ops :
  0 < csize → csize ≤ 2 ^ 32 → zlen key = 32 → Forall (op_wf csize) ops →
  (run_ops (store_step csize key) ∅ ops).2 = (run_ops spec_step ∅ ops).2.
Proof. intros Hc Hf Hk Hw. by apply run_refines; [..|apply holds_empty|]. Qed.
Lemma block_store_refines_witness :
  (run_ops (@store_step toy_aead 4 store_key) ∅ store_ops).2 = (run_ops spec_step ∅ store_ops).2.
Proof.
  apply (@block_store_refines toy_aead toy_aead_laws 4 store_key store_ops); [lia|lia|reflexivity|].
  repeat (constructor; [vm_compute; repeat split; congruence|]). constructor.
Defined.

(** A block reads back: with the program's chunk of 1 MiB, what a stream of
    chunks wrote is what any range read gives, in pieces of at most the size
    asked for; the answer carries its SHA-256 and size, and the file depends only
    on the bytes, not on how the stream cut them. *)
Theorem written_block_reads_back `{!Aead, !AeadLaws} (key : list Z) files bid chs prefix now step offset len :
  let data := concat chs in
  let out := write_block _CHUNK_SIZE_BYTES key files bid (mkStream chs None) prefix now in
  let got := read_block _CHUNK_SIZE_BYTES key out.1 bid step offset len in
  zlen key = 32 → zlen prefix = 8 → is_block_id bid = true →
  zlen data ≤ _MAX_CHUNKS * _CHUNK_SIZE_BYTES →
  0 < step → 0 ≤ offset → from_option (λ n, 0 ≤ n) True len →
  out.2 = Ok (hexdigest (sha256 data), zlen data)
  ∧ out = write_block _CHUNK_SIZE_BYTES key files bid (mkStream [data] None) prefix now
  ∧ got.2 = Ok tt ∧ concat got.1 = slice offset (range_end (zlen data) offset len) data
  ∧ Forall (λ p, 0 < zlen p ≤ step) got.1.
Proof.
  intros data out got Hk Hp Hb Hd Hs Ho Hl.
  assert (chunk_total _CHUNK_SIZE_BYTES (zlen data) ≤ _MAX_CHUNKS) as Hmax.
  { unfold chunk_total, _MAX_CHUNKS, _CHUNK_SIZE_BYTES in *. destruct (Z.eqb_spec (zlen data) 0); [lia|].
    pose proof (Z.div_lt_upper_bound (zlen data - 1) 1048576 4294967295). pose proof (zlen_nonneg data). lia. }
  assert (∀ cs, concat cs = data → write_block _CHUNK_SIZE_BYTES key files bid (mkStream cs None) prefix now =
    (<[bid := (container_of _CHUNK_SIZE_BYTES key prefix bid data (sha256 data), now)]> files,
     Ok (hexdigest (sha256 data), zlen data))) as Hw.
  { intros cs Hcs. unfold write_block, _validate_key, validate_block_id. rewrite Hk, Hb.
    cbn [Z.eqb Pos.eqb mbind result_bind]. rewrite write_container_spec by (done || simpl; by rewrite Hcs). simpl. by rewrite Hcs. }
  unfold got, out. rewrite (Hw chs), (Hw [data]) by (done || simpl; apply app_nil_r). split; [done|]. split; [done|].
  apply (read_block_container _CHUNK_SIZE_BYTES key) with (prefix := prefix) (digest := sha256 data) (m := now);
    try done; [apply sha256_zlen|]. apply lookup_insert_eq.
Qed.
Lemma written_block_reads_back_witness :
  let out := @write_block toy_aead _CHUNK_SIZE_BYTES store_key ∅ store_block (mkStream [[1; 2]; [3]] None) store_prefix 5 in
  out.2 = Ok (hexdigest (sha256 [1; 2; 3]), 3).
Proof.
  exact (proj1 (@written_block_reads_back toy_aead toy_aead_laws store_key ∅ store_block [[1; 2]; [3]] store_prefix 5 1 0 None
    eq_refl eq_refl eq_refl ltac:(vm_compute; discriminate) ltac:(reflexivity) ltac:(discriminate) I)).
Defined.

(** Tampering is detected: a file that reads whole without an error is the
    container of exactly the bytes that were read, sealed for this block id under
    this key. *)
Theorem accepted_is_sealed `{!Aead, !AeadLaws} (csize : Z) (key : list Z) files bid step content m ps :
  0 < csize → 0 < step → files !! bid = Some (content, m) → Forall is_byte content →
  read_block csize key files bid step 0 None = (ps, Ok tt) →
  ∃ prefix digest, zlen prefix = 8 ∧ content = container_of csize key prefix bid (concat ps) digest.
Proof.
  intros Hc Hs Hf Hb Hr. destruct (read_whole_inv csize key Hc files bid step content m ps) as (prefix & digest & ? & _ & _ & _ & ?); eauto.
Qed.
Definition store_content : list Z :=
  Eval vm_compute in @container_of toy_aead 4 store_key store_prefix store_block [1; 2; 3; 4; 5] (sha256 [1; 2; 3; 4; 5]).
Lemma accepted_is_sealed_witness :
  ∃ prefix digest, zlen prefix = 8 ∧ store_content = @container_of toy_aead 4 store_key prefix store_block [1; 2; 3; 4; 5] digest.
Proof.
  apply (@accepted_is_sealed toy_aead toy_aead_laws 4 store_key {[store_block := (store_content, 0)]} store_block 2 store_content 0
    [[1; 2]; [3; 4]; [5]]); [lia|lia|reflexivity| |vm_compute; reflexivity].
  apply (bool_decide_unpack _). vm_compute. exact I.
Defined.
