(* ===== verification/DataNode.v ===== *)
(** [DataNodeServicer] (dfsha/data_node/servicer.py): every RPC of a DataNode,
    and the write pipeline over a network of them.

    A node is its directory, its encryption key and its capability key.  A handler
    is a function of the node (or of the network, when it calls another node) and
    gives the new state and the answer, or the status a caller sees.  The tee of
    [_write_and_forward] and its bounded queue are the subject of Pipeline.v; here
    the forwarded stream is what that shows it to be: the chunks that arrived, ended
    normally.  The channels a node caches are transparent and have no state here. *)

From Stdlib Require Import QArith.
From S2P Require Import Prelude Exceptions Dict Crypto Bytes BlockToken BlockStore.

Open Scope Z_scope.

(** [grpc.RpcError]: its code and trailing metadata.  An exception that no handler
    catches reaches the caller as [UNKNOWN] without metadata. *)
Record RpcError := mkRpcError {
  rpc_code : StatusCode;
  rpc_trailing : list (string * string)
}.
Definition aborted (code : StatusCode) : RpcError := mkRpcError code [].
Definition raised : RpcError := mkRpcError UNKNOWN [].

Definition CHUNK_SIZE_BYTES : Z := 1048576.
Definition QUEUE_DEPTH_CHUNKS : Z := 4.

Definition _ERROR_STATUS_MAP : list (exn * StatusCode) :=
  [(BlockNotFoundError, NOT_FOUND); (BlockCorruptedError, DATA_LOSS); (ConflictError, ABORTED);
   (AccessDeniedError, PERMISSION_DENIED); (AuthError, UNAUTHENTICATED)].

(** [_ERROR_STATUS_MAP.get(type(exc), UNKNOWN)]. *)
Definition block_status (e : exn) : StatusCode :=
  default UNKNOWN (list_find (λ p, p.1 = e) _ERROR_STATUS_MAP ≫= λ p, Some p.2.2).

Definition _abort_on_domain_error (e : exn) : RpcError :=
  mkRpcError (block_status e) [("dfsha-error", class_name e)].

Record DNode := mkDNode {
  dn_files : Files;
  dn_key : list Z;
  dn_cap : option string
}.
Definition with_files (f : Files) (n : DNode) : DNode := mkDNode f (dn_key n) (dn_cap n).

(** The nodes by address. *)
Notation Net := (gmap string DNode).

(** The fate of a call to another node: it arrives and is answered, it never
    arrives, or it is done and its answer lost. *)
Inductive hop := Delivered | Refused (code : StatusCode) | Lost (code : StatusCode).

Record DEnv := mkDEnv {
  wall : Q;
  disk_now : Z;
  urandom_at : nat → list Z;
  hop_at : nat → hop
}.

Notation Metadata := (list (string * string)).

(** The messages of a [WriteBlock] stream; [data] of a header is empty. *)
Inductive Msg :=
| MHeader (bid : string) (downstream : list string)
| MData (data : list Z).
Definition msg_data (m : Msg) : list Z := match m with MHeader _ _ => [] | MData d => d end.

Definition _metadata_value (md : Metadata) (key : string) : string :=
  default "" (dict_get key (foldl (λ d p, dict_set p.1 p.2 d) [] md)).

Section servicer.
Context `{!Aead} (csize : Z) (env : DEnv).

Definition _require_block (node : DNode) (md : Metadata) (bid op metadata_key : string) : result RpcError string :=
  match dn_cap node with
  | None => Ok ""
  | Some key =>
      let capability := _metadata_value md metadata_key in
      match verify_block key capability bid op (wall env) with
      | Ok _ => Ok capability
      | Err e => Err (_abort_on_domain_error e)
      end
  end.

Definition _require_internal (node : DNode) (md : Metadata) (op : string) : result RpcError unit :=
  match dn_cap node with
  | None => Ok tt
  | Some key =>
      match verify_internal key (_metadata_value md METADATA_KEY) op (wall env) with
      | Ok _ => Ok tt
      | Err e => Err (_abort_on_domain_error e)
      end
  end.

Definition _discard_local (addr bid : string) (net : Net) : Net :=
  alter (λ n, with_files (delete_block (dn_files n) bid).1 n) addr net.

(** The local copy, at hop [d] of a pipeline. *)
Definition local_write (d : nat) (node : DNode) (bid : string) (s : Stream) : DNode * result exn (string * Z) :=
  let out := write_block csize (dn_key node) (dn_files node) bid s (urandom_at env d) (disk_now env) in
  (with_files out.1 node, out.2).

(** A write call at [addr], hop [d], after its header was read.  When the local
    write fails the forwarded stream still ends normally; only a wrong key fails
    before the tee starts. *)
Fixpoint write_at (d : nat) (net : Net) (addr : string) (md : Metadata) (bid : string)
    (downstream : list string) (s : Stream) : Net * result RpcError (string * Z) :=
  match net !! addr with
  | None => (net, Err (aborted UNAVAILABLE))
  | Some node =>
      match _require_block node md bid "write" METADATA_KEY with
      | Err e => (net, Err e)
      | Ok capability =>
          match validate_block_id bid with
          | Err e => (net, Err (_abort_on_domain_error e))
          | Ok _ =>
              let local := local_write d node bid s in
              let net1 := <[addr := local.1]> net in
              match downstream with
              | [] =>
                  (net1, match local.2 with Ok r => Ok r | Err _ => Err raised end)
              | next :: rest =>
                  match _validate_key (dn_key node) with
                  | Err _ => (net, Err raised)
                  | Ok _ =>
                      let call := write_at (S d) net1 next (capability_kwargs capability "") bid rest
                                    (mkStream (st_chunks s) None) in
                      let forwarding :=
                        match hop_at env d with
                        | Delivered => call
                        | Refused code => (net1, Err (aborted code))
                        | Lost code => (call.1, Err (aborted code))
                        end in
                      match local.2, forwarding.2 with
                      | Err _, _ => (forwarding.1, Err raised)
                      | Ok _, Err _ => (_discard_local addr bid forwarding.1, Err (aborted UNAVAILABLE))
                      | Ok (checksum, n), Ok (checksum', _) =>
                          if bool_decide (checksum' = checksum) then (forwarding.1, Ok (checksum, n))
                          else (_discard_local addr bid forwarding.1, Err (aborted DATA_LOSS))
                      end
                  end
              end
          end
      end
  end.

(** [err] is how the request stream ends. *)
Definition WriteBlock (net : Net) (addr : string) (md : Metadata) (msgs : list Msg) (err : option exn)
    : Net * result RpcError (string * Z) :=
  match net !! addr with
  | None => (net, Err (aborted UNAVAILABLE))
  | Some _ =>
      match msgs with
      | [] => (net, Err (match err with None => aborted INVALID_ARGUMENT | Some _ => raised end))
      | MData _ :: _ => (net, Err (aborted INVALID_ARGUMENT))
      | MHeader bid downstream :: rest =>
          write_at 0 net addr md bid downstream (mkStream (msg_data <$> rest) err)
      end
  end.

(** The chunks of the answer and how it ends. *)
Definition ReadBlock (node : DNode) (md : Metadata) (bid : string) (offset length : Z)
    : list (list Z) * result RpcError unit :=
  match _require_block node md bid "read" METADATA_KEY with
  | Err e => ([], Err e)
  | Ok _ =>
      if (offset <? 0) || (length <? 0) then ([], Err (aborted INVALID_ARGUMENT))
      else
        let len := if length =? 0 then None else Some length in
        let out := read_block csize (dn_key node) (dn_files node) bid CHUNK_SIZE_BYTES offset len in
        (out.1, match out.2 with
                | Ok _ => Ok tt
                | Err e => Err (if bool_decide (e = BlockNotFoundError ∨ e = BlockCorruptedError)
                                then _abort_on_domain_error e else raised)
                end)
  end.

Definition DeleteBlock (node : DNode) (md : Metadata) (bid : string) : DNode * result RpcError unit :=
  match _require_block node md bid "delete" METADATA_KEY with
  | Err e => (node, Err e)
  | Ok _ =>
      let out := delete_block (dn_files node) bid in
      (with_files out.1 node,
       match out.2 with
       | Ok _ => Ok tt
       | Err e => Err (if bool_decide (e = BlockNotFoundError) then _abort_on_domain_error e else raised)
       end)
  end.

(** The write call of [ReplicateBlock] to its target.  A source that fails midway
    breaks the stream: the target's iterator raises, and [UNKNOWN] is what the
    caller gets unless the target refused the call before. *)
Definition send_copy (net : Net) (target : string) (md : Metadata) (bid : string) (s : Stream)
    : Net * result RpcError (string * Z) :=
  let call := WriteBlock net target md (MHeader bid [] :: (MData <$> st_chunks s)) (st_error s) in
  match hop_at env 0 with
  | Refused code => (net, Err (aborted code))
  | Lost code => (call.1, Err (aborted code))
  | Delivered => call
  end.

Definition ReplicateBlock (net : Net) (addr : string) (md : Metadata) (bid target : string)
    : Net * result RpcError (string * Z) :=
  match net !! addr with
  | None => (net, Err (aborted UNAVAILABLE))
  | Some node =>
      match
        _ ← _require_internal node md "replicate";
        _require_block node md bid "write" TARGET_METADATA_KEY
      with
      | Err e => (net, Err e)
      | Ok target_capability =>
          let local := read_block csize (dn_key node) (dn_files node) bid CHUNK_SIZE_BYTES 0 None in
          match local.1, local.2 with
          | [], Err e =>
              (net, Err (if bool_decide (e = BlockNotFoundError ∨ e = BlockCorruptedError)
                         then _abort_on_domain_error e else raised))
          | chunks, end_ =>
              let out := send_copy net target (capability_kwargs target_capability "") bid
                           (mkStream chunks (match end_ with Ok _ => None | Err e => Some e end)) in
              (out.1,
               match out.2 with
               | Ok r => Ok r
               | Err e =>
                   Err (match rpc_code e with
                        | PERMISSION_DENIED => _abort_on_domain_error AccessDeniedError
                        | UNAVAILABLE => aborted UNAVAILABLE
                        | DEADLINE_EXCEEDED => aborted DEADLINE_EXCEEDED
                        | _ => aborted UNAVAILABLE
                        end)
               end)
          end
      end
  end.

(** The listing until its first exception. *)
Definition ListStoredBlocks (node : DNode) (md : Metadata) : result RpcError (list (string * Z * Z)) :=
  _ ← _require_internal node md "list";
  match list_blocks csize (dn_key node) (dn_files node) (disk_now env) with
  | Ok l => Ok l
  | Err _ => Err raised
  end.
End servicer.
