(* ===== verification/DataNodeFacts.v ===== *)
(** Facts about the handlers of a DataNode: what a verified capability is, what a
    local write does, and which nodes a pipeline touches.  The second part follows the pipeline. *)

From Stdlib Require Import QArith.
From S2P Require Import Prelude Exceptions Dict Crypto Bytes BlockToken BlockStore Container BlockStoreProps DataNode.

Open Scope Z_scope.

(** * Capabilities *)

Lemma check_expiry_err exp now e : _check_expiry exp now = Err e → e = AccessDeniedError.
Proof. unfold _check_expiry. repeat case_match; congruence. Qed.

Lemma verified_fields_err key token e : _verified_fields key token = Err e → e = AccessDeniedError.
Proof. unfold _verified_fields. repeat case_match; congruence. Qed.

Lemma verify_block_err key token bid op now e : verify_block key token bid op now = Err e → e = AccessDeniedError.
Proof.
  unfold verify_block. destruct (_verified_fields key token) as [fs|] eqn:Hv; cbn [mbind result_bind].
  - destruct fs as [|? [|? [|? [|? [|? ?]]]]]; try congruence. case_bool_decide; [apply check_expiry_err|congruence].
  - intros [= <-]. by apply verified_fields_err in Hv.
Qed.

Lemma verify_internal_err key token op now e : verify_internal key token op now = Err e → e = AccessDeniedError.
Proof.
  unfold verify_internal. destruct (_verified_fields key token) as [fs|] eqn:Hv; cbn [mbind result_bind].
  - destruct fs as [|? [|? [|? [|? ?]]]]; try congruence. case_bool_decide; [apply check_expiry_err|congruence].
  - intros [= <-]. by apply verified_fields_err in Hv.
Qed.

Lemma verify_block_nonempty key token bid op now u : verify_block key token bid op now = Ok u → token ≠ "".
Proof. by intros H ->. Qed.

(** The capability a node forwards is the one the next one reads. *)
Lemma forwarded_capability cap : _metadata_value (capability_kwargs cap "") METADATA_KEY = cap.
Proof.
  unfold capability_kwargs, _metadata_value. case_bool_decide as Hc; [by subst|]. rewrite bool_decide_true by done. done.
Qed.

(** The data of a stream of chunks. *)
Lemma msg_data_chunks (chs : list (list Z)) : msg_data <$> (MData <$> chs) = chs.
Proof. induction chs; csimpl; [done|by f_equal]. Qed.

Definition denied : RpcError := mkRpcError PERMISSION_DENIED [("dfsha-error", "AccessDeniedError")].

Section facts.
Context `{!Aead} (csize : Z) (env : DEnv).

Lemma require_block_denied node md bid op mkey key :
  dn_cap node = Some key → verify_block key (_metadata_value md mkey) bid op (wall env) ≠ Ok tt →
  _require_block env node md bid op mkey = Err denied.
Proof.
  intros Hk Hv. unfold _require_block. rewrite Hk. cbv zeta.
  destruct (verify_block _ _ _ _ _) as [[]|e] eqn:He; [done|]. apply verify_block_err in He as ->. done.
Qed.

Lemma require_internal_denied node md op key :
  dn_cap node = Some key → verify_internal key (_metadata_value md METADATA_KEY) op (wall env) ≠ Ok tt →
  _require_internal env node md op = Err denied.
Proof.
  intros Hk Hv. unfold _require_internal. rewrite Hk.
  destruct (verify_internal _ _ _ _) as [[]|e] eqn:He; [done|]. apply verify_internal_err in He as ->. done.
Qed.

(** A node with the capability key [ck] accepts the metadata for the block. *)
Definition admits (ck : option string) (md : Metadata) (bid op : string) : Prop :=
  match ck with
  | None => True
  | Some key => verify_block key (_metadata_value md METADATA_KEY) bid op (wall env) = Ok tt
  end.

Lemma require_block_admits node md bid op ck :
  dn_cap node = ck → admits ck md bid op →
  ∃ cap, _require_block env node md bid op METADATA_KEY = Ok cap ∧ admits ck (capability_kwargs cap "") bid op.
Proof.
  intros Hk Ha. unfold _require_block. rewrite Hk. destruct ck as [key|]; [|by exists ""].
  cbv zeta. simpl in Ha. rewrite Ha. eexists. split; [done|]. simpl. by rewrite forwarded_capability.
Qed.

(** * The local copy *)

Lemma local_write_inv d node bid s node' r :
  local_write csize env d node bid s = (node', Ok r) →
  zlen (dn_key node) = 32 ∧ is_block_id bid = true.
Proof.
  unfold local_write, write_block, _validate_key, validate_block_id.
  destruct (Z.eqb_spec (zlen (dn_key node)) 32); cbn [mbind result_bind]; [|discriminate].
  destruct (is_block_id bid); cbn [mbind result_bind]; [done|discriminate].
Qed.

Lemma local_write_node d node bid s :
  (local_write csize env d node bid s).1 = node ∨ ∃ f, (local_write csize env d node bid s).1 = with_files (<[bid := f]> (dn_files node)) node.
Proof.
  unfold local_write, write_block. destruct (_ ← _validate_key _; _) as [[c o]|e]; cbn; [eauto|left; by destruct node].
Qed.

Lemma local_write_failed d node bid s e :
  (local_write csize env d node bid s).2 = Err e → (local_write csize env d node bid s).1 = node.
Proof.
  unfold local_write, write_block. destruct (_ ← _validate_key _; _) as [[c o]|e']; cbn; [done|by destruct node].
Qed.

(** Discarding a new copy leaves the node without the block. *)
Lemma discarded_copy node node1 bid :
  (node1 = node ∨ ∃ f, node1 = with_files (<[bid := f]> (dn_files node)) node) →
  with_files match dn_files node1 !! bid with
             | Some _ => (delete bid (dn_files node1), Ok tt)
             | None => (dn_files node1, Err BlockNotFoundError)
             end.1 node1
  = with_files (delete bid (dn_files node)) node.
Proof.
  intros [->|[f ->]].
  - destruct (dn_files node !! bid) eqn:Hf; cbn; [done|]. by rewrite delete_id.
  - cbn. rewrite lookup_insert_eq. cbn. by rewrite delete_insert_eq.
Qed.

(** * What a pipeline touches *)

Lemma discard_local_other addr bid net a : a ≠ addr → _discard_local addr bid net !! a = net !! a.
Proof. intros. apply lookup_alter_ne. done. Qed.

Lemma write_at_other d net addr md bid downstream s a :
  a ∉ addr :: downstream → (write_at csize env d net addr md bid downstream s).1 !! a = net !! a.
Proof.
  revert d net addr md s. induction downstream as [|next rest IH]; intros d net addr md s Ha; cbn [write_at].
  all: destruct (net !! addr) as [node|] eqn:Hn; [|done].
  all: destruct (_require_block _ _ _ _ _ _) as [cap|]; [|done].
  all: destruct (validate_block_id bid); [|done]; cbv zeta.
  { apply lookup_insert_ne. set_solver. }
  destruct (_validate_key _); [|done].
  set (net1 := <[addr := _]> net). assert (net1 !! a = net !! a) as H1 by (apply lookup_insert_ne; set_solver).
  set (call := write_at _ _ _ net1 _ _ _ _ _). assert (call.1 !! a = net !! a) as Hc by (unfold call; rewrite IH; set_solver).
  set (fwd := match hop_at env d with Delivered => call | _ => _ end).
  assert (fwd.1 !! a = net !! a) as Hf by (unfold fwd; destruct (hop_at env d); done).
  destruct (local_write csize env d node bid s).2 as [[? ?]|], fwd.2 as [[? ?]|]; try case_bool_decide; cbn [fst];
    rewrite ?discard_local_other by set_solver; done.
Qed.
Hypothesis csize_pos : 0 < csize.

Definition copy_at (d : nat) (node : DNode) (bid : string) (data : list Z) : DNode :=
  with_files (<[bid := (container_of csize (dn_key node) (urandom_at env d) bid data (sha256 data), disk_now env)]>
                (dn_files node)) node.

Lemma local_write_spec d node bid s :
  chunk_total csize (zlen (concat (st_chunks s))) ≤ _MAX_CHUNKS →
  zlen (dn_key node) = 32 → is_block_id bid = true →
  let data := concat (st_chunks s) in
  local_write csize env d node bid s =
    match st_error s with
    | None => (copy_at d node bid data, Ok (hexdigest (sha256 data), zlen data))
    | Some e => (node, Err e)
    end.
Proof.
  intros Hmax Hk Hb data. unfold local_write, write_block, _validate_key, validate_block_id. rewrite Hk, Hb.
  cbn [Z.eqb Pos.eqb mbind result_bind]. rewrite write_container_spec by done.
  destruct (st_error s); cbn; [by destruct node|done].
Qed.
End facts.

(** The write pipeline: a write that is answered has replicated the block on every
    node of the pipeline, and a write that is not leaves no copy at its head. *)

Section pipeline.
Context `{!Aead, !AeadLaws} (csize : Z) (env : DEnv).
Hypothesis csize_pos : 0 < csize.

Lemma local_write_ok d node bid s node' r :
  chunk_total csize (zlen (concat (st_chunks s))) ≤ _MAX_CHUNKS →
  local_write csize env d node bid s = (node', Ok r) →
  let data := concat (st_chunks s) in
  node' = copy_at csize env d node bid data ∧ r = (hexdigest (sha256 data), zlen data)
  ∧ zlen (dn_key node) = 32 ∧ is_block_id bid = true.
Proof.
  intros Hmax Hw. destruct (local_write_inv _ _ _ _ _ _ _ _ Hw) as [Hk Hb].
  rewrite local_write_spec in Hw by done. destruct (st_error s); [discriminate|].
  injection Hw as <- <-. done.
Qed.

Lemma write_at_ok d net addr md bid downstream s net' r :
  chunk_total csize (zlen (concat (st_chunks s))) ≤ _MAX_CHUNKS → NoDup (addr :: downstream) →
  write_at csize env d net addr md bid downstream s = (net', Ok r) →
  let data := concat (st_chunks s) in
  r = (hexdigest (sha256 data), zlen data)
  ∧ ∀ i a, (addr :: downstream) !! i = Some a →
      ∃ node, net !! a = Some node ∧ net' !! a = Some (copy_at csize env (d + i)%nat node bid data)
              ∧ zlen (dn_key node) = 32 ∧ is_block_id bid = true.
Proof.
  intros Hmax. revert d net addr md s Hmax net' r.
  induction downstream as [|next rest IH]; intros d net addr md s Hmax net' r Hnd; cbn [write_at].
  all: destruct (net !! addr) as [node|] eqn:Hn; [|discriminate].
  all: destruct (_require_block _ _ _ _ _ _) as [cap|]; [|discriminate].
  all: destruct (validate_block_id bid); [|discriminate]; cbv zeta.
  all: destruct (local_write csize env d node bid s) as [node1 [r1|e1]] eqn:Hl; cbn [fst snd].
  - intros [= <- <-]. apply local_write_ok in Hl as (-> & -> & Hk & Hb); [|done]. split; [done|].
    intros [|i] b Ha; simpl in Ha; [|done]. injection Ha as <-. exists node.
    by rewrite lookup_insert_eq, Nat.add_0_r.
  - discriminate.
  - apply local_write_ok in Hl as (-> & -> & Hk & Hb); [|done].
    destruct (_validate_key _); [|discriminate]. apply NoDup_cons in Hnd as [Hnin Hnd].
    set (net1 := <[addr := _]> net).
    destruct (write_at csize env (S d) net1 next _ bid rest _) as [net2 [r2|e2]] eqn:Hc; destruct (hop_at env d); cbn [fst snd];
      try discriminate.
    destruct r2 as [chk2 n2]. case_bool_decide as Heq; [|discriminate]. intros [= <- <-].
    pose proof (write_at_other csize env (S d) net1 next (capability_kwargs cap "") bid rest (mkStream (st_chunks s) None) addr Hnin) as Ho.
    rewrite Hc in Ho. apply IH in Hc as [_ Hc]; [|done..]. split; [done|].
    intros [|i] b Ha; simpl in Ha.
    + injection Ha as <-. exists node. cbn [fst] in Ho. rewrite Ho. unfold net1. by rewrite lookup_insert_eq, Nat.add_0_r.
    + destruct (Hc i b Ha) as (node' & Hn' & Hc' & ?). exists node'. rewrite Nat.add_succ_r. split; [|done].
      rewrite <-Hn'. symmetry. apply lookup_insert_ne. intros ->. by apply Hnin, list_elem_of_lookup_2 with i.
  - destruct (_validate_key _); [|discriminate].
    destruct (hop_at env d); discriminate.
Qed.

(** * What a write that is not answered leaves at its head *)

Lemma write_at_err d net addr md bid downstream s net' e node :
  addr ∉ downstream → net !! addr = Some node →
  write_at csize env d net addr md bid downstream s = (net', Err e) →
  net' !! addr = Some node ∨ net' !! addr = Some (with_files (delete bid (dn_files node)) node).
Proof.
  intros Hnin Hn. destruct downstream as [|next rest]; cbn [write_at]; rewrite Hn.
  all: destruct (_require_block _ _ _ _ _ _) as [cap|]; [|intros [= <- _]; by left].
  all: destruct (validate_block_id bid) eqn:Hv; [|intros [= <- _]; by left]; cbv zeta.
  all: pose proof (local_write_failed csize env d node bid s) as Hlf.
  all: destruct (local_write csize env d node bid s) as [node1 [r1|e1]] eqn:Hl; cbn [fst snd] in *.
  - discriminate.
  - intros [= <- _]. left. rewrite lookup_insert_eq. f_equal. by apply (Hlf e1).
  - destruct (_validate_key _); [|intros [= <- _]; by left].
    set (net1 := <[addr := _]> net). set (call := write_at _ _ _ net1 _ _ _ _ _).
    assert (call.1 !! addr = Some node1) as Hc by (unfold call; rewrite write_at_other by done; apply lookup_insert_eq).
    set (fwd := match hop_at env d with Delivered => call | _ => _ end).
    assert (fwd.1 !! addr = Some node1) as Hf by (unfold fwd; destruct (hop_at env d); [done|apply lookup_insert_eq|done]).
    assert (_discard_local addr bid fwd.1 !! addr = Some (with_files (delete bid (dn_files node)) node)) as Hd.
    { unfold _discard_local. rewrite lookup_alter_eq, Hf. cbn. f_equal. unfold delete_block. rewrite Hv.
      pose proof (local_write_node csize env d node bid s) as Hw. rewrite Hl in Hw. cbn [fst] in Hw.
      by apply discarded_copy. }
    destruct r1 as [chk n], fwd.2 as [[chk' n']|]; try case_bool_decide; try discriminate; intros [= <- _]; by right.
  - destruct (_validate_key _); [|intros [= <- _]; by left].
    rewrite (Hlf e1 eq_refl). rewrite insert_id by done.
    pose proof (write_at_other csize env (S d) net next (capability_kwargs cap "") bid rest (mkStream (st_chunks s) None) addr Hnin) as Ho.
    destruct (hop_at env d); cbn [fst snd]; intros [= <- _]; left; rewrite ?Ho; done.
Qed.
(** * A pipeline whose nodes are all up *)

Definition nodes_ready (ck : option string) (net : Net) (addrs : list string) : Prop :=
  ∀ a, a ∈ addrs → ∃ node, net !! a = Some node ∧ zlen (dn_key node) = 32 ∧ dn_cap node = ck.

Lemma nodes_ready_copy ck net addr addrs d node bid data :
  net !! addr = Some node → nodes_ready ck net addrs →
  nodes_ready ck (<[addr := copy_at csize env d node bid data]> net) addrs.
Proof.
  intros Hn Hr a Ha. destruct (Hr a Ha) as (n & Hna & Hk & Hc). destruct (decide (a = addr)) as [->|].
  - rewrite lookup_insert_eq. simplify_eq. eauto.
  - rewrite lookup_insert_ne by done. eauto.
Qed.

Lemma write_at_completes ck d net addr md bid downstream s :
  chunk_total csize (zlen (concat (st_chunks s))) ≤ _MAX_CHUNKS → is_block_id bid = true →
  st_error s = None → (∀ i, hop_at env i = Delivered) →
  nodes_ready ck net (addr :: downstream) → admits env ck md bid "write" →
  ∃ net', write_at csize env d net addr md bid downstream s =
    (net', Ok (hexdigest (sha256 (concat (st_chunks s))), zlen (concat (st_chunks s)))).
Proof.
  intros Hmax Hb He Hhop. revert d net addr md s Hmax He.
  induction downstream as [|next rest IH]; intros d net addr md s Hmax He Hr Ha; cbn [write_at].
  all: destruct (Hr addr) as (node & Hn & Hk & Hc); [set_solver|]; rewrite Hn.
  all: destruct (require_block_admits env node md bid "write" ck Hc Ha) as (cap & -> & Hcap).
  all: unfold validate_block_id at 1; rewrite Hb; cbv zeta.
  all: rewrite local_write_spec by done; rewrite He; cbn [fst snd].
  { eauto. }
  unfold _validate_key. rewrite Hk. cbn [Z.eqb Pos.eqb]. rewrite Hhop.
  destruct (IH (S d) (<[addr := copy_at csize env d node bid (concat (st_chunks s))]> net) next
    (capability_kwargs cap "") (mkStream (st_chunks s) None)) as [net' ->]; [done..| |done|].
  - apply nodes_ready_copy; [done|]. intros b Hin. apply Hr. set_solver.
  - cbn. rewrite bool_decide_true by done. eauto.
Qed.
End pipeline.
