(* ===== verification/DataNodeProps.v ===== *)
(** The properties of the DataNode: capabilities, the replication a pipeline
    promises, what it leaves when it fails, and the copy of [ReplicateBlock]. *)

From Stdlib Require Import QArith.
From S2P Require Import Prelude Exceptions Dict Crypto Bytes BlockToken BlockStore.
From S2P Require Import Container BlockStoreProps.
From S2P Require Import DataNode DataNodeFacts.

Open Scope Z_scope.

(** * Reading a copy *)

Section serve.
Context `{!Aead, !AeadLaws} (csize : Z) (env : DEnv).
Hypothesis csize_pos : 0 < csize.
Hypothesis csize_fits : csize ≤ 2 ^ 32.

(** [node] answers every authorized range read of the block with [data]. *)
Definition serves (node : DNode) (bid : string) (data : list Z) : Prop :=
  ∀ env' md offset length,
    admits env' (dn_cap node) md bid "read" → 0 ≤ offset → 0 ≤ length →
    let out := ReadBlock csize env' node md bid offset length in
    out.2 = Ok tt ∧
    concat out.1 = slice offset (range_end (zlen data) offset (if length =? 0 then None else Some length)) data ∧
    Forall (λ p, 0 < zlen p ≤ CHUNK_SIZE_BYTES) out.1.

Lemma container_serves node bid data prefix digest m :
  zlen prefix = 8 → zlen digest = 32 → chunk_total csize (zlen data) ≤ _MAX_CHUNKS → zlen (dn_key node) = 32 →
  is_block_id bid = true →
  dn_files node !! bid = Some (container_of csize (dn_key node) prefix bid data digest, m) →
  serves node bid data.
Proof.
  intros Hp Hd Hmax Hk Hb Hf env' md offset length Ha Ho Hl out. unfold out, ReadBlock.
  destruct (require_block_admits env' node md bid "read" _ eq_refl Ha) as (cap & -> & _).
  rewrite (proj2 (Z.ltb_ge offset 0)), (proj2 (Z.ltb_ge length 0)) by lia. cbn [orb].
  destruct (read_block_container csize (dn_key node) csize_pos csize_fits Hk (dn_files node) bid prefix data digest m
    CHUNK_SIZE_BYTES offset (if length =? 0 then None else Some length)) as (-> & ? & ?); try done.
  by destruct (length =? 0).
Qed.

Lemma copy_serves d node bid data :
  zlen (urandom_at env d) = 8 → chunk_total csize (zlen data) ≤ _MAX_CHUNKS → zlen (dn_key node) = 32 →
  is_block_id bid = true → serves (copy_at csize env d node bid data) bid data.
Proof.
  intros Hu Hmax Hk Hb. apply container_serves with (prefix := urandom_at env d) (digest := sha256 data) (m := disk_now env);
    try done; [apply sha256_zlen|]. apply lookup_insert_eq.
Qed.

(** What an answered write has done. *)
Lemma write_replicates net addr md bid downstream chs err net' r :
  (∀ d, zlen (urandom_at env d) = 8) → chunk_total csize (zlen (concat chs)) ≤ _MAX_CHUNKS → NoDup (addr :: downstream) →
  WriteBlock csize env net addr md (MHeader bid downstream :: (MData <$> chs)) err = (net', Ok r) →
  r = (hexdigest (sha256 (concat chs)), zlen (concat chs))
  ∧ (∀ a, a ∈ addr :: downstream → ∃ node, net' !! a = Some node ∧ serves node bid (concat chs))
  ∧ (∀ a, a ∉ addr :: downstream → net' !! a = net !! a).
Proof.
  intros Hu Hmax Hnd. unfold WriteBlock. destruct (net !! addr); [|discriminate].
  rewrite msg_data_chunks. intros Hw. split_and!.
  - by apply write_at_ok in Hw as [-> _].
  - apply write_at_ok in Hw as [_ Hw]; [|done..]. intros a [i Hi]%list_elem_of_lookup_1.
    destruct (Hw i a Hi) as (node & _ & Hn & Hk & Hb). eexists. split; [exact Hn|]. by apply copy_serves.
  - intros a Ha. pose proof (write_at_other csize env 0 net addr md bid downstream (mkStream chs err) a Ha) as Ho.
    by rewrite Hw in Ho.
Qed.

(** The copy [ReplicateBlock] sends. *)
Lemma copy_replicates net target md bid chs err net' r :
  (∀ d, zlen (urandom_at env d) = 8) → chunk_total csize (zlen (concat chs)) ≤ _MAX_CHUNKS →
  send_copy csize env net target md bid (mkStream chs err) = (net', Ok r) →
  r = (hexdigest (sha256 (concat chs)), zlen (concat chs))
  ∧ (∃ node, net' !! target = Some node ∧ serves node bid (concat chs))
  ∧ ∀ a, a ≠ target → net' !! a = net !! a.
Proof.
  intros Hu Hmax. unfold send_copy. cbn [st_chunks st_error]. destruct (hop_at env 0); try discriminate.
  intros Hw. apply write_replicates in Hw as (-> & Hin & Hout); [|done..|apply NoDup_singleton].
  split_and!; [done|apply Hin; set_solver|]. intros a Ha. apply Hout. set_solver.
Qed.
End serve.

(** * A demonstration network of three nodes *)

Definition demo_env (hops : nat → hop) : DEnv := mkDEnv 150 5 (λ _, store_prefix) hops.
Definition bare_node (cap : option string) : DNode := mkDNode ∅ store_key cap.
Definition demo_net (cap : option string) : Net :=
  {["a:1" := bare_node cap; "b:1" := bare_node cap; "c:1" := bare_node cap]}.
Definition demo_msgs : list Msg := MHeader store_block ["b:1"; "c:1"] :: (MData <$> [[1; 2]; [3]]).
Definition demo_write : Net * result RpcError (string * Z) :=
  @WriteBlock toy_aead 4 (demo_env (λ _, Delivered)) (demo_net None) "a:1" [] demo_msgs None.

(** C15. A write that is answered is replicated: every node of the pipeline then
    answers any authorized range read of the block with the bytes that were
    streamed, the checksum answered is the SHA-256 of those bytes, and no other
    node changes. *)
Theorem pipeline_replicates `{!Aead, !AeadLaws} (csize : Z) (env : DEnv) net addr md bid downstream chs err net' r :
  let data := concat chs in
  0 < csize → csize ≤ 2 ^ 32 → (∀ d, zlen (urandom_at env d) = 8) →
  chunk_total csize (zlen data) ≤ _MAX_CHUNKS → NoDup (addr :: downstream) →
  WriteBlock csize env net addr md (MHeader bid downstream :: (MData <$> chs)) err = (net', Ok r) →
  r = (hexdigest (sha256 data), zlen data)
  ∧ (∀ a, a ∈ addr :: downstream → ∃ node, net' !! a = Some node ∧ serves csize node bid data)
  ∧ (∀ a, a ∉ addr :: downstream → net' !! a = net !! a).
Proof.
  intros data Hc Hf Hu Hmax Hnd. by apply write_replicates.
Qed.
Lemma pipeline_replicates_witness :
  demo_write.2 = Ok (hexdigest (sha256 [1; 2; 3]), 3)
  ∧ (∀ a, a ∈ ["a:1"; "b:1"; "c:1"] → ∃ node, demo_write.1 !! a = Some node ∧ @serves toy_aead 4 node store_block [1; 2; 3]).
Proof.
  destruct (@pipeline_replicates toy_aead toy_aead_laws 4 (demo_env (λ _, Delivered)) (demo_net None) "a:1" [] store_block
    ["b:1"; "c:1"] [[1; 2]; [3]] None demo_write.1 (hexdigest (sha256 [1; 2; 3]), 3)) as (_ & Hs & _);
    [lia|lia|reflexivity|vm_compute; discriminate|apply (bool_decide_unpack _); vm_compute; exact I|vm_compute; reflexivity|].
  split; [vm_compute; reflexivity|exact Hs].
Defined.

(** A pipeline completes: when its nodes are up with keys of 32 bytes and one
    capability key, the calls between them arrive, and the capability of the call
    is a write capability of the block, the write is answered with the SHA-256
    and the size of the block. *)
Theorem pipeline_completes `{!Aead, !AeadLaws} (csize : Z) (env : DEnv) ck net addr md bid downstream chs :
  let data := concat chs in
  0 < csize → chunk_total csize (zlen data) ≤ _MAX_CHUNKS → is_block_id bid = true →
  (∀ i, hop_at env i = Delivered) → nodes_ready ck net (addr :: downstream) → admits env ck md bid "write" →
  (WriteBlock csize env net addr md (MHeader bid downstream :: (MData <$> chs)) None).2
    = Ok (hexdigest (sha256 data), zlen data).
Proof.
  intros data Hc Hmax Hb Hh Hr Ha. unfold WriteBlock. destruct (Hr addr) as (node & Hn & _); [set_solver|]. rewrite Hn.
  rewrite msg_data_chunks.
  by destruct (write_at_completes csize env Hc ck 0 net addr md bid downstream (mkStream chs None)) as [net' ->].
Qed.
Definition write_token : string :=
  default "" (match issue_block BlockToken.demo_key store_block "write" 60 100 with Ok t => Some t | Err _ => None end).
Lemma pipeline_completes_witness :
  (@WriteBlock toy_aead 4 (demo_env (λ _, Delivered)) (demo_net (Some BlockToken.demo_key)) "a:1"
     [(METADATA_KEY, write_token)] demo_msgs None).2 = Ok (hexdigest (sha256 [1; 2; 3]), 3).
Proof.
  apply (@pipeline_completes toy_aead toy_aead_laws 4 (demo_env (λ _, Delivered)) (Some BlockToken.demo_key)
    (demo_net (Some BlockToken.demo_key)) "a:1" [(METADATA_KEY, write_token)] store_block ["b:1"; "c:1"] [[1; 2]; [3]]);
    [lia|vm_compute; discriminate|reflexivity|reflexivity| |vm_compute; reflexivity].
  intros a Ha. exists (bare_node (Some BlockToken.demo_key)). rewrite !elem_of_cons, elem_of_nil in Ha.
  repeat destruct Ha as [->|Ha]; try done; split_and!; reflexivity.
Defined.

(** A write that fails leaves nothing new at its head: its directory is as it
    was, or without the block. *)
Theorem failed_write_is_discarded `{!Aead} (csize : Z) (env : DEnv) net addr md msgs err net' e node :
  (∀ bid downstream, head msgs = Some (MHeader bid downstream) → addr ∉ downstream) →
  net !! addr = Some node → WriteBlock csize env net addr md msgs err = (net', Err e) →
  ∃ node', net' !! addr = Some node' ∧
    (dn_files node' = dn_files node ∨
     ∃ bid downstream, head msgs = Some (MHeader bid downstream) ∧ dn_files node' = delete bid (dn_files node)).
Proof.
  intros Hd Hn. unfold WriteBlock. rewrite Hn. destruct msgs as [|[bid downstream|d] rest].
  - intros [= <- _]. eauto.
  - intros Hw. apply write_at_err with (node := node) in Hw as [->| ->]; [by eauto| |by apply (Hd bid)|done].
    eexists. split; [done|]. right. eauto.
  - intros [= <- _]. eauto.
Qed.
Definition broken_write (hops : nat → hop) (err : option exn) : Net * result RpcError (string * Z) :=
  @WriteBlock toy_aead 4 (demo_env hops) (demo_net None) "a:1" [] demo_msgs err.
Lemma failed_write_is_discarded_witness :
  ∃ node', (broken_write (λ i, if Nat.eqb i 1 then Refused UNAVAILABLE else Delivered) None).1 !! "a:1" = Some node' ∧
    (dn_files node' = dn_files (bare_node None) ∨
     ∃ bid downstream, head demo_msgs = Some (MHeader bid downstream) ∧ dn_files node' = delete bid (dn_files (bare_node None))).
Proof.
  apply (@failed_write_is_discarded toy_aead 4 (demo_env (λ i, if Nat.eqb i 1 then Refused UNAVAILABLE else Delivered))
    (demo_net None) "a:1" [] demo_msgs None _ (aborted UNAVAILABLE) (bare_node None)); [|reflexivity|vm_compute; reflexivity].
  intros bid downstream [= <- <-]. apply (bool_decide_unpack _). vm_compute. exact I.
Defined.

(** But not downstream: when the request stream breaks midway, the head
    answers an error and keeps its directory, while the forwarded stream ends
    normally and the next node publishes, and serves, the truncated block. *)
Theorem broken_stream_publishes_truncated `{!Aead, !AeadLaws} (csize : Z) (env : DEnv) net addr md bid next chs e ck :
  let data := concat chs in
  let out := WriteBlock csize env net addr md (MHeader bid [next] :: (MData <$> chs)) (Some e) in
  0 < csize → csize ≤ 2 ^ 32 → (∀ d, zlen (urandom_at env d) = 8) →
  chunk_total csize (zlen data) ≤ _MAX_CHUNKS → is_block_id bid = true → addr ≠ next →
  (∀ i, hop_at env i = Delivered) → nodes_ready ck net [addr; next] → admits env ck md bid "write" →
  out.2 = Err raised ∧ out.1 !! addr = net !! addr
  ∧ ∃ node, out.1 !! next = Some node ∧ serves csize node bid data.
Proof.
  intros data out Hc Hf Hu Hmax Hb Hne Hh Hr Ha. unfold out, WriteBlock.
  destruct (Hr addr) as (node & Hn & Hk & Hck); [set_solver|]. rewrite Hn, msg_data_chunks. cbn [write_at].
  rewrite Hn. destruct (require_block_admits env node md bid "write" ck Hck Ha) as (cap & -> & Hcap).
  unfold validate_block_id. rewrite Hb. rewrite local_write_spec by done. cbn [st_error fst snd st_chunks].
  unfold _validate_key. rewrite Hk. cbn [Z.eqb Pos.eqb]. rewrite Hh, insert_id by done.
  destruct (Hr next) as (node2 & Hn2 & Hk2 & Hck2); [set_solver|]. rewrite Hn2.
  destruct (require_block_admits env node2 (capability_kwargs cap "") bid "write" ck Hck2 Hcap) as (cap2 & -> & _).
  rewrite local_write_spec by done. cbn [st_error fst snd st_chunks]. split; [done|].
  rewrite lookup_insert_ne, lookup_insert_eq by done. split; [done|]. eexists. split; [done|]. by apply copy_serves.
Qed.
Lemma broken_stream_publishes_truncated_witness :
  let out := @WriteBlock toy_aead 4 (demo_env (λ _, Delivered)) (demo_net None) "a:1" []
               (MHeader store_block ["b:1"] :: (MData <$> [[1; 2]])) (Some PyError) in
  out.2 = Err raised ∧ out.1 !! "a:1" = demo_net None !! "a:1"
  ∧ ∃ node, out.1 !! "b:1" = Some node ∧ @serves toy_aead 4 node store_block [1; 2].
Proof.
  apply (@broken_stream_publishes_truncated toy_aead toy_aead_laws 4 (demo_env (λ _, Delivered)) (demo_net None) "a:1" []
    store_block "b:1" [[1; 2]] PyError None);
    [lia|lia|reflexivity|vm_compute; discriminate|reflexivity|discriminate|reflexivity| |exact I].
  intros a Ha. exists (bare_node None). rewrite !elem_of_cons, elem_of_nil in Ha.
  repeat destruct Ha as [->|Ha]; try done; split_and!; reflexivity.
Defined.

(** * Capabilities *)

(** C16. A node with a capability key does nothing without the capability of the
    very operation and block: each RPC answers [PERMISSION_DENIED] as an
    [AccessDeniedError], sends no byte and changes no directory of the network. *)
Theorem datanode_requires_capability `{!Aead} (csize : Z) (env : DEnv) net addr node md key bid :
  net !! addr = Some node → dn_cap node = Some key →
  let refuses op mkey := verify_block key (_metadata_value md mkey) bid op (wall env) ≠ Ok tt in
  let refuses_internal op := verify_internal key (_metadata_value md METADATA_KEY) op (wall env) ≠ Ok tt in
  (refuses "write" METADATA_KEY → ∀ downstream rest err,
     WriteBlock csize env net addr md (MHeader bid downstream :: rest) err = (net, Err denied))
  ∧ (refuses "read" METADATA_KEY → ∀ offset length, ReadBlock csize env node md bid offset length = ([], Err denied))
  ∧ (refuses "delete" METADATA_KEY → DeleteBlock env node md bid = (node, Err denied))
  ∧ (refuses_internal "replicate" ∨ refuses "write" TARGET_METADATA_KEY → ∀ target,
       ReplicateBlock csize env net addr md bid target = (net, Err denied))
  ∧ (refuses_internal "list" → ListStoredBlocks csize env node md = Err denied).
Proof.
  intros Hn Hk refuses refuses_internal. split_and!.
  - intros Hr downstream rest err. unfold WriteBlock. rewrite Hn.
    destruct downstream; cbn [write_at]; rewrite Hn; by erewrite require_block_denied.
  - intros Hr offset length. unfold ReadBlock. by erewrite require_block_denied.
  - intros Hr. unfold DeleteBlock. by erewrite require_block_denied.
  - intros Hr target. unfold ReplicateBlock. rewrite Hn.
    destruct (_require_internal env node md "replicate") as [[]|e] eqn:Hi; cbn [mbind result_bind].
    + destruct Hr as [Hr|Hr]; [|by erewrite require_block_denied].
      by erewrite require_internal_denied in Hi.
    + unfold _require_internal in Hi. rewrite Hk in Hi.
      destruct (verify_internal _ _ _ _) as [?|e'] eqn:Hv; [done|]. apply verify_internal_err in Hv as ->. by injection Hi as <-.
  - intros Hr. unfold ListStoredBlocks. by erewrite require_internal_denied.
Qed.
Lemma datanode_requires_capability_witness :
  @ReadBlock toy_aead 4 (demo_env (λ _, Delivered)) (bare_node (Some BlockToken.demo_key)) [(METADATA_KEY, write_token)] store_block 0 0
  = ([], Err denied).
Proof.
  refine (proj1 (proj2 (@datanode_requires_capability toy_aead 4 (demo_env (λ _, Delivered)) (demo_net (Some BlockToken.demo_key)) "a:1"
    (bare_node (Some BlockToken.demo_key)) [(METADATA_KEY, write_token)] BlockToken.demo_key store_block eq_refl eq_refl)) _ 0 0).
  vm_compute. discriminate.
Defined.

(** * Copies ordered by the ControlNode *)

Definition sealed_node (cap : option string) : DNode := mkDNode {[store_block := (store_content, 0)]} store_key cap.

(** [ReplicateBlock] copies: when it answers, the target serves exactly the
    bytes of the source's block, the answer is their SHA-256 and size, and no other
    node changed; and a source without the block, or with a container whose
    metadata is damaged, says so before anything is sent. *)
Theorem replicate_copies `{!Aead, !AeadLaws} (csize : Z) (env : DEnv) net addr src md bid target :
  0 < csize → csize ≤ 2 ^ 32 → (∀ d, zlen (urandom_at env d) = 8) → net !! addr = Some src →
  let out := ReplicateBlock csize env net addr md bid target in
  (∀ prefix data digest m r, zlen prefix = 8 → zlen digest = 32 → chunk_total csize (zlen data) ≤ _MAX_CHUNKS →
     zlen (dn_key src) = 32 → is_block_id bid = true →
     dn_files src !! bid = Some (container_of csize (dn_key src) prefix bid data digest, m) → out.2 = Ok r →
     r = (hexdigest (sha256 data), zlen data)
     ∧ (∃ node, out.1 !! target = Some node ∧ serves csize node bid data)
     ∧ ∀ a, a ≠ target → out.1 !! a = net !! a)
  ∧ (∀ e, (read_block csize (dn_key src) (dn_files src) bid CHUNK_SIZE_BYTES 0 None) = ([], Err e) →
       e = BlockNotFoundError ∨ e = BlockCorruptedError →
       _require_internal env src md "replicate" = Ok tt →
       (∃ cap, _require_block env src md bid "write" TARGET_METADATA_KEY = Ok cap) →
       out = (net, Err (_abort_on_domain_error e))).
Proof.
  intros Hc Hf Hu Hn out. unfold out, ReplicateBlock. rewrite Hn. split.
  - intros prefix data digest m r Hp Hd Hmax Hk Hb Hfile.
    destruct (_require_internal _ _ _ _); cbn [mbind result_bind]; [|discriminate].
    destruct (_require_block _ _ _ _ _ _) as [cap|]; [|discriminate].
    destruct (read_block_container csize (dn_key src) Hc Hf Hk (dn_files src) bid prefix data digest m CHUNK_SIZE_BYTES 0 None)
      as (Hend & Hdata & _); [done..|].
    destruct (read_block csize (dn_key src) (dn_files src) bid CHUNK_SIZE_BYTES 0 None) as [ps end_]. cbn [fst snd] in *. subst end_.
    assert (concat ps = data) as <- by (rewrite Hdata; apply slice_all).
    destruct (send_copy csize env net target (capability_kwargs cap "") bid (mkStream ps None)) as [net' r'] eqn:Hcall.
    assert (r' = Ok r → r = (hexdigest (sha256 (concat ps)), zlen (concat ps)) ∧
      (∃ node, net' !! target = Some node ∧ serves csize node bid (concat ps)) ∧ ∀ a, a ≠ target → net' !! a = net !! a) as Hgoal
      by (intros ->; by apply copy_replicates in Hcall).
    destruct ps; rewrite Hcall; cbn [fst snd]; (destruct r' as [r'|e]; [|discriminate]); intros [= ->]; by apply Hgoal.
  - intros e Hr He Hi [cap Hcap]. rewrite Hi, Hcap. cbn [mbind result_bind]. rewrite Hr. cbn [fst snd].
    by rewrite bool_decide_true.
Qed.
Definition replicate_demo : Net * result RpcError (string * Z) :=
  @ReplicateBlock toy_aead 4 (demo_env (λ _, Delivered)) (<["a:1" := sealed_node None]> (demo_net None)) "a:1" [] store_block "b:1".
Lemma replicate_copies_witness :
  ∃ node, replicate_demo.1 !! "b:1" = Some node ∧ @serves toy_aead 4 node store_block [1; 2; 3; 4; 5].
Proof.
  refine (proj1 (proj2 (proj1 (@replicate_copies toy_aead toy_aead_laws 4 (demo_env (λ _, Delivered))
    (<["a:1" := sealed_node None]> (demo_net None)) "a:1" (sealed_node None) [] store_block "b:1" ltac:(lia) ltac:(lia) (λ _, eq_refl) eq_refl)
    store_prefix [1; 2; 3; 4; 5] (sha256 [1; 2; 3; 4; 5]) 0 (hexdigest (sha256 [1; 2; 3; 4; 5]), 5) eq_refl _ _ eq_refl eq_refl _ _)));
    vm_compute; (reflexivity || discriminate).
Defined.

(** Damage past the first piece is reported as a node that is down: a source
    whose container is damaged after bytes were already read answers [UNAVAILABLE]
    without naming the damage, where damage in the first piece answers
    [DATA_LOSS]. *)
Theorem late_damage_looks_unavailable `{!Aead} (csize : Z) (env : DEnv) net addr src dst md bid target cap p ps :
  0 < csize → net !! addr = Some src → net !! target = Some dst → hop_at env 0 = Delivered →
  _require_internal env src md "replicate" = Ok tt → _require_block env src md bid "write" TARGET_METADATA_KEY = Ok cap →
  admits env (dn_cap dst) (capability_kwargs cap "") bid "write" → zlen (dn_key dst) = 32 →
  chunk_total csize (zlen (concat (p :: ps))) ≤ _MAX_CHUNKS →
  read_block csize (dn_key src) (dn_files src) bid CHUNK_SIZE_BYTES 0 None = (p :: ps, Err BlockCorruptedError) →
  ReplicateBlock csize env net addr md bid target = (net, Err (aborted UNAVAILABLE))
  ∧ _abort_on_domain_error BlockCorruptedError = mkRpcError DATA_LOSS [("dfsha-error", "BlockCorruptedError")].
Proof.
  intros Hc Hn Hd Hh Hi Hb Ha Hk Hmax Hr. split; [|done].
  assert (is_block_id bid = true) as Hid.
  { unfold read_block, validate_block_id in Hr. by destruct (is_block_id bid). }
  unfold ReplicateBlock. rewrite Hn, Hi. cbn [mbind result_bind]. rewrite Hb, Hr. cbn [fst snd].
  unfold send_copy. rewrite Hh. unfold WriteBlock. rewrite Hd. cbn [st_chunks st_error write_at]. rewrite Hd.
  destruct (require_block_admits env dst (capability_kwargs cap "") bid "write" _ eq_refl Ha) as (cap' & -> & _).
  unfold validate_block_id. rewrite Hid, msg_data_chunks. rewrite local_write_spec by done. cbn [st_error fst snd].
  by rewrite insert_id.
Qed.
(** The block of [sealed_node] with a byte of its second chunk changed. *)
Definition damaged_node : DNode := mkDNode {[store_block := (<[34%nat := 99]> store_content, 0)]} store_key None.
Lemma late_damage_looks_unavailable_witness :
  @ReplicateBlock toy_aead 4 (demo_env (λ _, Delivered)) (<["a:1" := damaged_node]> (demo_net None)) "a:1" [] store_block "b:1"
  = (<["a:1" := damaged_node]> (demo_net None), Err (aborted UNAVAILABLE)).
Proof.
  refine (proj1 (@late_damage_looks_unavailable toy_aead 4 (demo_env (λ _, Delivered)) (<["a:1" := damaged_node]> (demo_net None)) "a:1"
    damaged_node (bare_node None) [] store_block "b:1" "" [1; 2; 3; 4] [] eq_refl eq_refl eq_refl eq_refl eq_refl eq_refl I eq_refl _ _));
    vm_compute; (reflexivity || discriminate).
Defined.
