(* ===== verification/Pipeline.v ===== *)
(** The tee of [DataNodeServicer._write_and_forward]
    (dfsha/data_node/servicer.py): the thread that writes the local copy puts each
    chunk in a bounded queue, the forwarding thread takes them to the next node.

    A step relation over the state of both.  [tee] is a generator that
    [write_block] iterates: it is suspended before its first [next] ([Unstarted])
    and at each [yield] ([Yielded]), and its [finally] puts the sentinel, unless it
    never started.  The forwarding call may end early ([dies]): nobody takes from
    the queue then. *)

From S2P Require Import Prelude Crypto Bytes DataNode.
From stdpp Require Import relations well_founded.

Open Scope Z_scope.

Inductive producer : Type :=
| Unstarted
| Fetching
| Putting (c : list Z)
| Yielded
| Closing
| Finished
| NeverStarted.

Inductive consumer : Type := Consuming | Ended | Dead.

Record Tee := mkTee {
  t_input : list (list Z);
  t_queue : list (option (list Z));
  t_local : list (list Z);
  t_sent : list (list Z);
  t_prod : producer;
  t_cons : consumer
}.

Definition tee_init (input : list (list Z)) : Tee := mkTee input [] [] [] Unstarted Consuming.

(** [pending.put] waits while the queue is full. *)
Definition has_room (q : list (option (list Z))) : Prop := zlen q < QUEUE_DEPTH_CHUNKS.

Inductive tee_step (dies : bool) : relation Tee :=
| TStart i q l s k : tee_step dies (mkTee i q l s Unstarted k) (mkTee i q l s Fetching k)
| TFailEarly i q l s k : tee_step dies (mkTee i q l s Unstarted k) (mkTee i q l s NeverStarted k)
| TFetch c i q l s k : tee_step dies (mkTee (c :: i) q l s Fetching k) (mkTee i q l s (Putting c) k)
| TEnd q l s k : tee_step dies (mkTee [] q l s Fetching k) (mkTee [] q l s Closing k)
| TPut i q l s c k : has_room q →
    tee_step dies (mkTee i q l s (Putting c) k) (mkTee i (q ++ [Some c]) (l ++ [c]) s Yielded k)
| TNext i q l s k : tee_step dies (mkTee i q l s Yielded k) (mkTee i q l s Fetching k)
| TLeave i q l s k : tee_step dies (mkTee i q l s Yielded k) (mkTee i q l s Closing k)
| TClose i q l s k : has_room q →
    tee_step dies (mkTee i q l s Closing k) (mkTee i (q ++ [None]) l s Finished k)
| TGet i c q l s p :
    tee_step dies (mkTee i (Some c :: q) l s p Consuming) (mkTee i q l (s ++ [c]) p Consuming)
| TStop i q l s p : tee_step dies (mkTee i (None :: q) l s p Consuming) (mkTee i q l s p Ended)
| TDie i q l s p : dies = true → tee_step dies (mkTee i q l s p Consuming) (mkTee i q l s p Dead).

Definition reachable (dies : bool) (input : list (list Z)) : Tee → Prop := rtc (tee_step dies) (tee_init input).
Definition stuck (dies : bool) (t : Tee) : Prop := ∀ t', ¬ tee_step dies t t'.

(** * The invariant *)

(** The chunk the producer holds, and whether it has put the sentinel. *)
Definition held_chunk (p : producer) : list (list Z) := match p with Putting c => [c] | _ => [] end.
Definition chunks_in (q : list (option (list Z))) : list (list Z) := omap id q.
Arguments chunks_in : simpl never.

Definition sentinel_at (p : producer) (k : consumer) (q : list (option (list Z))) : Prop :=
  match p with
  | Finished => (k = Ended ∧ q = []) ∨ (k ≠ Ended ∧ ∃ cs, q = (Some <$> cs) ++ [None])
  | _ => k ≠ Ended ∧ ∃ cs, q = Some <$> cs
  end.

(** Nothing is lost, duplicated or reordered between the stream, the local write,
    the queue and the forwarded stream, and the queue keeps its bound. *)
Record tee_inv (input : list (list Z)) (t : Tee) : Prop := {
  inv_forward : t_sent t ++ chunks_in (t_queue t) = t_local t;
  inv_input : t_local t ++ held_chunk (t_prod t) ++ t_input t = input;
  inv_bound : zlen (t_queue t) ≤ QUEUE_DEPTH_CHUNKS;
  inv_sentinel : sentinel_at (t_prod t) (t_cons t) (t_queue t);
  inv_early : t_prod t = Unstarted ∨ t_prod t = NeverStarted → t_local t = [] ∧ t_queue t = []
}.

Lemma chunks_in_app q1 q2 : chunks_in (q1 ++ q2) = chunks_in q1 ++ chunks_in q2.
Proof. unfold chunks_in. apply omap_app. Qed.

Lemma some_cons_inv (o : option (list Z)) q (cs : list (list Z)) :
  o :: q = Some <$> cs → ∃ c cs', o = Some c ∧ q = Some <$> cs'.
Proof. destruct cs as [|c cs']; [done|]. intros [= -> ->]. eauto. Qed.

Lemma sentinel_get p q c : sentinel_at p Consuming (Some c :: q) → sentinel_at p Consuming q.
Proof.
  unfold sentinel_at. destruct p; try (intros [_ [cs (d & cs' & _ & ->)%some_cons_inv]]; split; [done|by eexists]).
  intros [[? _]|[_ [cs Hq]]]; [done|]. right. split; [done|].
  destruct cs as [|d cs]; [done|]. injection Hq as _ ->. by exists cs.
Qed.

Lemma sentinel_stop p q : sentinel_at p Consuming (None :: q) → p = Finished ∧ q = [].
Proof.
  unfold sentinel_at. destruct p; try (intros [_ [cs (d & cs' & ? & ?)%some_cons_inv]]; done).
  intros [[? _]|[_ [cs Hq]]]; [done|]. destruct cs as [|d cs]; [|done]. by injection Hq.
Qed.

Lemma sentinel_die p q : sentinel_at p Consuming q → sentinel_at p Dead q.
Proof. unfold sentinel_at. destruct p; naive_solver. Qed.

Lemma tee_step_inv dies input t t' : tee_step dies t t' → tee_inv input t → tee_inv input t'.
Proof.
  intros Hs [Hf Hi Hb Hk He]. destruct Hs; cbn in *; (constructor; cbn in *; [..|naive_solver]); try done.
  - by rewrite chunks_in_app, app_assoc, Hf.
  - rewrite <-app_assoc. done.
  - rewrite zlen_app. unfold has_room in *. change (zlen [Some c]) with 1. lia.
  - destruct Hk as [? [cs ->]]. split; [done|]. exists (cs ++ [c]). by rewrite fmap_app.
  - rewrite chunks_in_app. change (chunks_in [None]) with (@nil (list Z)). by rewrite app_nil_r.
  - rewrite zlen_app. unfold has_room in *. change (zlen [None]) with 1. lia.
  - destruct Hk as [? [cs ->]]. right. eauto.
  - rewrite <-app_assoc. done.
  - unfold zlen in *. simpl in *. lia.
  - by apply sentinel_get in Hk.
  - unfold zlen in *. simpl in *. lia.
  - apply sentinel_stop in Hk as [-> ->]. by left.
  - by apply sentinel_die.
Qed.

Lemma tee_reachable_inv dies input t : reachable dies input t → tee_inv input t.
Proof.
  unfold reachable. intros Hr. remember (tee_init input) as t0 eqn:E0. assert (tee_inv input t0) as H0.
  { subst t0. constructor; cbn; try done. by split; [|exists []]. }
  clear E0. induction Hr as [|x y z Hxy _ IH]; [done|]. apply IH. by eapply tee_step_inv.
Qed.

(** * Termination *)

Definition producer_weight (p : producer) : nat :=
  match p with
  | Unstarted => 4 | Fetching => 3 | Putting _ => 6 | Yielded => 4 | Closing => 2 | Finished | NeverStarted => 0
  end.
Definition consumer_weight (k : consumer) : nat := match k with Consuming => 1 | _ => 0 end.
Definition tee_measure (t : Tee) : nat :=
  4 * length (t_input t) + producer_weight (t_prod t) + length (t_queue t) + consumer_weight (t_cons t).

Lemma tee_step_measure dies t t' : tee_step dies t t' → (tee_measure t' < tee_measure t)%nat.
Proof. intros Hs. destruct Hs; unfold tee_measure; cbn; rewrite ?length_app; cbn; lia. Qed.

Lemma tee_terminates dies : well_founded (flip (tee_step dies)).
Proof.
  apply (wf_projected lt tee_measure); [|apply lt_wf]. intros t' t Hs. by apply (tee_step_measure dies).
Qed.

(** * Where a run can stop *)

Lemma queue_dec q : has_room q ∨ QUEUE_DEPTH_CHUNKS ≤ zlen q.
Proof. unfold has_room. lia. Qed.

(** What the producer waits for when nothing can move. *)
Lemma stuck_producer dies t :
  stuck dies t →
  match t_prod t with
  | Putting _ | Closing => QUEUE_DEPTH_CHUNKS ≤ zlen (t_queue t)
  | Finished | NeverStarted => True
  | _ => False
  end.
Proof.
  intros Hs. destruct t as [i q l s p k]. cbn.
  destruct p; try done; try (destruct (queue_dec q) as [Hr|Hr]; [exfalso|done]).
  all: try (destruct i as [|c' i]); eapply Hs; econstructor; done.
Qed.

Lemma stuck_consumer dies t : stuck dies t → t_cons t = Consuming → dies = false ∧ t_queue t = [].
Proof.
  intros Hs Hk. destruct t as [i q l s p k]. cbn in *. subst k. split.
  - destruct dies; [|done]. exfalso. eapply Hs. by apply TDie.
  - destruct q as [|[c|] q]; [done|exfalso; eapply Hs; apply TGet|exfalso; eapply Hs; apply TStop].
Qed.

Lemma tee_reachable_no_death input t : reachable false input t → t_cons t ≠ Dead.
Proof.
  unfold reachable. intros Hr. assert (t_cons (tee_init input) ≠ Dead) as H0 by done. revert H0.
  induction Hr as [|x y z Hxy _ IH]; [done|]. intros Hx. apply IH. destruct Hxy; cbn in *; congruence.
Qed.

(** Four chunks go in the queue, the forwarding call ends, and the producer waits. *)
Definition hung (c1 c2 c3 c4 : list Z) (rest : list (list Z)) : Tee :=
  mkTee (tail rest) (Some <$> [c1; c2; c3; c4]) [c1; c2; c3; c4] []
    (match rest with [] => Closing | c :: _ => Putting c end) Dead.

Lemma put_chunk i q l s c k :
  has_room q → rtc (tee_step true) (mkTee (c :: i) q l s Fetching k) (mkTee i (q ++ [Some c]) (l ++ [c]) s Fetching k).
Proof.
  intros Hq. eapply rtc_l; [apply TFetch|]. eapply rtc_l; [by apply TPut|]. apply rtc_once, TNext.
Qed.

Lemma hung_run c1 c2 c3 c4 rest :
  ∃ t, reachable true (c1 :: c2 :: c3 :: c4 :: rest) t ∧ stuck true t ∧ t_prod t ≠ Finished ∧ t_prod t ≠ NeverStarted.
Proof.
  exists (hung c1 c2 c3 c4 rest). split; [|split; [|by destruct rest]].
  - unfold reachable, tee_init. eapply rtc_l; [apply TStart|].
    do 4 (etrans; [by apply put_chunk|]). cbn. eapply rtc_l; [by apply TDie|].
    destruct rest as [|c rest]; apply rtc_once; [apply TEnd|apply TFetch].
  - intros t' Hs. unfold hung in Hs. destruct rest; inversion Hs; subst; unfold has_room in *; done.
Qed.

(** The tee delivers: at every moment what was forwarded is a prefix of what
    the local write got, in order, and the queue holds at most its four chunks;
    every run ends; and unless the forwarding call ends early, it ends only with
    the sentinel taken and everything the local write got forwarded (all of the
    stream when it read all of it), or with a local write that failed before it
    asked for the first chunk, whose forwarding call waits for its deadline. *)
Theorem tee_delivers dies input t :
  well_founded (flip (tee_step dies))
  ∧ (reachable dies input t →
       t_sent t `prefix_of` t_local t ∧ t_local t `prefix_of` input ∧ zlen (t_queue t) ≤ QUEUE_DEPTH_CHUNKS)
  ∧ (reachable false input t → stuck false t →
       (t_prod t = Finished ∧ t_cons t = Ended ∧ t_sent t = t_local t ∧ t_local t ++ t_input t = input)
       ∨ (t_prod t = NeverStarted ∧ t_cons t = Consuming ∧ t_sent t = [])).
Proof.
  split; [apply tee_terminates|]. split.
  - intros [Hf Hi Hb _ _]%tee_reachable_inv. rewrite <-Hf at 1. rewrite <-Hi. split_and!; [by apply prefix_app_r|by apply prefix_app_r|done].
  - intros Hr Hs. pose proof (tee_reachable_no_death input t Hr) as Hd. apply tee_reachable_inv in Hr as [Hf Hi _ Hk He].
    pose proof (stuck_producer _ _ Hs) as Hp. pose proof (stuck_consumer _ _ Hs) as Hc.
    destruct t as [i q l s p k]. cbn in *. destruct k; [| |done].
    + destruct Hc as [_ ->]; [done|]. destruct p; try done; cbn in *.
      * destruct Hk as [[? _]|[_ [cs Hq]]]; [done|]. by destruct cs.
      * right. split_and!; [done..|]. destruct He as [-> _]; [by right|]. by apply app_nil in Hf as [-> _].
    + destruct p; cbn in Hk; try (by destruct Hk). left. destruct Hk as [[_ ->]|[? _]]; [|done].
      change (chunks_in []) with (@nil (list Z)) in Hf. rewrite app_nil_r in Hf. done.
Qed.
Lemma tee_delivers_witness : reachable false [[1]; [2]] (tee_init [[1]; [2]]) ∧
  (t_sent (tee_init [[1]; [2]]) `prefix_of` t_local (tee_init [[1]; [2]]) ∧ t_local (tee_init [[1]; [2]]) `prefix_of` [[1]; [2]] ∧
   zlen (t_queue (tee_init [[1]; [2]])) ≤ QUEUE_DEPTH_CHUNKS).
Proof.
  split; [apply rtc_refl|]. apply (proj1 (proj2 (tee_delivers false [[1]; [2]] (tee_init [[1]; [2]])))). apply rtc_refl.
Defined.

(** C17. The tee can hang: when the forwarding call ends early, the thread that
    writes the local copy can block forever on the full queue, exactly when the
    stream has at least as many chunks as the queue holds. *)
Theorem tee_hangs_iff input :
  (∃ t, reachable true input t ∧ stuck true t ∧ t_prod t ≠ Finished ∧ t_prod t ≠ NeverStarted)
  ↔ QUEUE_DEPTH_CHUNKS ≤ zlen input.
Proof.
  split.
  - intros (t & [Hf Hi _ Hk _]%tee_reachable_inv & Hs & Hnf & Hns).
    pose proof (stuck_producer _ _ Hs) as Hp. destruct t as [i q l s p k]. cbn in *.
    assert (∃ cs, q = Some <$> cs) as [cs ->] by (destruct p; cbn in Hk; try done; by destruct Hk).
    assert (QUEUE_DEPTH_CHUNKS ≤ zlen (Some <$> cs)) as Hq by (destruct p; done).
    assert (chunks_in (Some <$> cs) = cs) as Hc by (clear; induction cs; [done|]; unfold chunks_in in *; csimpl; congruence).
    rewrite <-Hi, <-Hf, Hc, !zlen_app. unfold zlen in *. rewrite length_fmap in Hq. lia.
  - intros Hl. destruct input as [|c1 [|c2 [|c3 [|c4 rest]]]]; try (unfold zlen in Hl; cbn in Hl; done).
    apply (hung_run c1 c2 c3 c4 rest).
Qed.
Lemma tee_hangs_iff_witness :
  ∃ t, reachable true [[1]; [2]; [3]; [4]] t ∧ stuck true t ∧ t_prod t ≠ Finished ∧ t_prod t ≠ NeverStarted.
Proof. apply (proj2 (tee_hangs_iff [[1]; [2]; [3]; [4]])). vm_compute. discriminate. Defined.
