(* ===== verification/Addresses.v ===== *)
(** Internal and public addresses of the DataNodes (dfsha/common/addresses.py).
    Texts are ASCII: the whitespace of the other planes of Unicode, which
    [str.strip] also removes, is not modelled. *)

From S2P Require Import Prelude Exceptions Dict Paths BlockToken.

Open Scope Z_scope.

(** [str.isspace] of an ASCII character, [str.strip()]. *)
Definition str_space (a : ascii) : bool :=
  let n := N_of_ascii a in
  ((n =? 32) || ((9 <=? n) && (n <=? 13)) || ((28 <=? n) && (n <=? 31)))%N.
Definition str_strip (s : string) : string := rstrip_by str_space (lstrip_by str_space s).

(** [s.partition(c)]: the text before and after the first [c]. *)
Fixpoint partition (c : ascii) (s : string) : option (string * string) :=
  match s with
  | EmptyString => None
  | String a s' =>
      if Ascii.eqb a c then Some (EmptyString, s')
      else match partition c s' with
           | Some (l, r) => Some (String a l, r)
           | None => None
           end
  end.

Definition ADDRESS_VIEW_METADATA_KEY : string := "dfsha-address-view".
Definition INTERNAL_VIEW : string := "internal".

Definition comma : ascii := ","%char.
Definition equals : ascii := "="%char.
Definition addr_char (a : ascii) : bool :=
  negb (str_space a || Ascii.eqb a equals || Ascii.eqb a comma).

Definition _is_host_port (address : string) : bool :=
  match rpartition colon address with
  | Some (host, port) =>
      negb (bool_decide (host = "")) && all_in addr_char address &&
      match N_of_str port with
      | Some n => (1 <=? Z.of_N n) && (Z.of_N n <=? 65535)
      | None => false
      end
  | None => false
  end.

Definition parse_pair (m : list (string * string)) (pair : string)
    : result exn (list (string * string)) :=
  match partition equals pair with
  | None => Err PyError
  | Some (l, r) =>
      let internal := str_strip l in
      let public := str_strip r in
      if bool_decide (internal = "" ∨ public = "") then Err PyError
      else if dict_has internal m then Err PyError
      else Ok (dict_set internal public m)
  end.

Fixpoint parse_pairs (m : list (string * string)) (items : list string)
    : result exn (list (string * string)) :=
  match items with
  | [] => Ok m
  | item :: items' =>
      let pair := str_strip item in
      if bool_decide (pair = "") then parse_pairs m items'
      else m' ← parse_pair m pair; parse_pairs m' items'
  end.

Definition parse_public_addresses (value : string) : result exn (list (string * string)) :=
  parse_pairs [] (split_on comma value).

(** The loop over [owner]: every public address once. *)
Fixpoint check_owners (owner : list (string * string)) (m : list (string * string)) : result exn unit :=
  match m with
  | [] => Ok tt
  | (internal, public) :: m' =>
      if dict_has public owner then Err PyError
      else check_owners (dict_set public internal owner) m'
  end.

Definition validate_public_addresses (m : list (string * string)) (internal_addresses : list string)
    : result exn unit :=
  match m with
  | [] => Ok tt
  | _ =>
      _ ← require_r (forallb _is_host_port (m.*1 ++ m.*2)) PyError;
      _ ← require_r (forallb (λ a, bool_decide (a ∈ internal_addresses)) m.*1) PyError;
      _ ← require_r (forallb (λ a, bool_decide (a ∈ m.*1)) internal_addresses) PyError;
      check_owners [] m
  end.

(** The text of a mapping, as the deployment scripts write it. *)
Definition render_pair (p : string * string) : string := p.1 +:+ "=" +:+ p.2.
Definition render (m : list (string * string)) : string := join "," (render_pair <$> m).

(** * Lemmas *)

Lemma lstrip_by_id p s : all_in (λ a, negb (p a)) s = true → lstrip_by p s = s.
Proof.
  destruct s as [|a s]; [done|]. cbn. intros [Ha _]%andb_true_iff. by destruct (p a).
Qed.

Lemma rstrip_by_id p s : all_in (λ a, negb (p a)) s = true → rstrip_by p s = s.
Proof.
  unfold all_in. induction s as [|a s IH]; cbn; [done|]. intros [Ha Hs]%andb_true_iff.
  rewrite IH by done. destruct s; [by destruct (p a)|done].
Qed.

Lemma str_strip_id s : all_in (λ a, negb (str_space a)) s = true → str_strip s = s.
Proof. intros H. unfold str_strip. rewrite lstrip_by_id by done. by apply rstrip_by_id. Qed.

Lemma addr_char_no_space s : all_in addr_char s = true → all_in (λ a, negb (str_space a)) s = true.
Proof. apply all_in_mono. intros a. unfold addr_char. by destruct (str_space a). Qed.

Lemma host_port_inv s : _is_host_port s = true → s ≠ "" ∧ all_in addr_char s = true.
Proof.
  unfold _is_host_port. destruct (rpartition colon s) as [[h p]|] eqn:E; [|done].
  intros [[_ Hc]%andb_true_iff _]%andb_true_iff. split; [|done]. by intros ->.
Qed.

Lemma partition_app c s1 s2 :
  has_char c s1 = false → partition c (s1 +:+ String c s2) = Some (s1, s2).
Proof.
  induction s1 as [|a s1 IH].
  - intros _. rewrite append_nil_l. cbn. by rewrite Ascii.eqb_refl.
  - rewrite append_cons. cbn. intros [-> H]%orb_false_iff. by rewrite IH.
Qed.

Lemma addr_no_sep s : all_in addr_char s = true → has_char comma s = false ∧ has_char equals s = false.
Proof. intros H. split; (eapply all_in_no_char; [|exact H]; reflexivity). Qed.

Lemma parse_pair_render m i p :
  i ≠ "" → p ≠ "" → all_in addr_char i = true → all_in addr_char p = true → dict_get i m = None →
  parse_pair m (render_pair (i, p)) = Ok (dict_set i p m).
Proof.
  intros Hi Hp Hic Hpc Hm. unfold parse_pair, render_pair. cbn [fst snd].
  change ("=" +:+ p) with (String equals p). rewrite partition_app by by apply addr_no_sep.
  rewrite !str_strip_id by by apply addr_char_no_space.
  rewrite bool_decide_false by naive_solver. unfold dict_has. by rewrite Hm.
Qed.

Lemma render_pair_chars p :
  all_in addr_char p.1 = true → all_in addr_char p.2 = true →
  all_in (λ a, negb (str_space a)) (render_pair p) = true ∧ has_char comma (render_pair p) = false.
Proof.
  intros H1 H2. unfold render_pair. split.
  - rewrite !all_in_app. by rewrite (addr_char_no_space _ H1), (addr_char_no_space _ H2).
  - rewrite !has_char_app. destruct (addr_no_sep _ H1) as [-> _], (addr_no_sep _ H2) as [-> _]. done.
Qed.

Definition address_pair (p : string * string) : Prop :=
  p.1 ≠ "" ∧ p.2 ≠ "" ∧ all_in addr_char p.1 = true ∧ all_in addr_char p.2 = true.

Lemma parse_pairs_render m0 m :
  Forall address_pair m → NoDup (m0 ++ m).*1 →
  parse_pairs m0 (render_pair <$> m) = Ok (m0 ++ m).
Proof.
  intros Hm. revert m0. induction Hm as [|[i p] m (Hi & Hp & Hic & Hpc) Hm IH]; intros m0 Hnd.
  - by rewrite app_nil_r.
  - cbn [fmap list_fmap parse_pairs]. simpl in *.
    destruct (render_pair_chars (i, p) Hic Hpc) as [Hsp _].
    rewrite str_strip_id by done. rewrite bool_decide_false by by destruct i.
    assert (dict_get i m0 = None) as Hg.
    { apply dict_get_None. intros Hin. rewrite fmap_app in Hnd.
      apply NoDup_app in Hnd as (_ & Hd & _). apply (Hd i Hin). by left. }
    unfold mbind, result_bind. rewrite parse_pair_render by done.
    assert (dict_set i p m0 = m0 ++ [(i, p)]) as ->.
    { clear -Hg. induction m0 as [|[k v] m0 IH]; simpl in *; [done|].
      case_decide; [done|]. by rewrite IH. }
    replace (m0 ++ (i, p) :: m) with ((m0 ++ [(i, p)]) ++ m) in * by by rewrite <-app_assoc.
    by apply IH.
Qed.

Lemma check_owners_ok owner m :
  check_owners owner m = Ok tt ↔ NoDup m.*2 ∧ ∀ p, p ∈ m.*2 → dict_get p owner = None.
Proof.
  revert owner. induction m as [|[i p] m IH]; intros owner; csimpl.
  - split; [|done]. intros _. split; [constructor|]. intros p Hp. by apply not_elem_of_nil in Hp.
  - unfold dict_has. destruct (dict_get p owner) as [o|] eqn:E.
    + split; [done|]. intros [_ H]. rewrite (H p) in E by by left. done.
    + rewrite IH, NoDup_cons. setoid_rewrite elem_of_cons. setoid_rewrite dict_get_set. split.
      * intros [Hnd H]. split_and!; [|done|].
        -- intros Hin. specialize (H p Hin). by rewrite decide_True in H.
        -- intros q [->|Hq]; [done|]. specialize (H q Hq). by case_decide.
      * intros [[Hp Hnd] H]. split; [done|]. intros q Hq. rewrite decide_False; [auto|by intros ->].
Qed.

Lemma require_r_ok b (e : exn) (k : result exn unit) :
  (_ ← require_r b e; k) = Ok tt ↔ b = true ∧ k = Ok tt.
Proof. unfold require_r. destruct b; simpl; naive_solver. Qed.

(** * Theorems *)

(** A mapping passes the check exactly when there is none, or it gives each
    configured DataNode one public address and no two of them the same, all of
    the form host:port: it is a bijection, so a public address can be
    translated back. *)
Theorem valid_mapping_bijective m internal :
  validate_public_addresses m internal = Ok tt ↔
    m = [] ∨ (Forall (λ p, _is_host_port p.1 = true ∧ _is_host_port p.2 = true) m ∧
              (∀ a, a ∈ m.*1 ↔ a ∈ internal) ∧ NoDup m.*2).
Proof.
  unfold validate_public_addresses. destruct m as [|p m]; [naive_solver|].
  set (mm := p :: m). rewrite !require_r_ok, check_owners_ok, !forallb_forall.
  split.
  - intros (Hh & Hin & Hcov & Hnd & _). right. split_and!; [|split|done].
    + apply Forall_forall. intros q Hq. split; apply Hh, in_or_app.
      * left. apply list_elem_of_In, list_elem_of_fmap. eauto.
      * right. apply list_elem_of_In, list_elem_of_fmap. eauto.
    + intros Ha%list_elem_of_In. by apply Hin, bool_decide_eq_true in Ha.
    + intros Ha%list_elem_of_In. by apply Hcov, bool_decide_eq_true in Ha.
  - intros [?|(Hh & Hin & Hnd)]; [done|]. rewrite Forall_forall in Hh. split_and!; try done.
    + intros a Ha. apply in_app_or in Ha as [Ha|Ha];
        apply list_elem_of_In, list_elem_of_fmap in Ha as (q & -> & Hq); by apply Hh.
    + intros a Ha%list_elem_of_In. by apply bool_decide_eq_true, Hin.
    + intros a Ha%list_elem_of_In. by apply bool_decide_eq_true, Hin.
Qed.

(** A mapping written as text is read back as it is, entry by entry and in
    order, whatever addresses it has, as long as they are of the form host:port
    and no internal address is given twice. *)
Theorem parse_addresses_roundtrip m :
  m ≠ [] → Forall (λ p, _is_host_port p.1 = true ∧ _is_host_port p.2 = true) m → NoDup m.*1 →
  parse_public_addresses (render m) = Ok m.
Proof.
  intros Hne Hm Hnd. unfold parse_public_addresses, render.
  assert (Forall address_pair m) as Hp.
  { eapply Forall_impl; [exact Hm|]. intros p [H1%host_port_inv H2%host_port_inv].
    destruct H1, H2. by split_and!. }
  change "," with (String comma ""). rewrite split_on_parts.
  - rewrite (parse_pairs_render [] m) by done. done.
  - by destruct m.
  - apply Forall_fmap. eapply Forall_impl; [exact Hp|]. intros p (_ & _ & H1 & H2).
    by apply render_pair_chars.
Qed.

Definition demo_mapping : list (string * string) :=
  [("dn1:50061", "1.2.3.4:50061"); ("dn2:50061", "1.2.3.4:50062")].

Lemma parse_addresses_roundtrip_witness :
  parse_public_addresses "dn1:50061=1.2.3.4:50061,dn2:50061=1.2.3.4:50062" = Ok demo_mapping.
Proof.
  apply (parse_addresses_roundtrip demo_mapping); [done| |].
  - repeat constructor; vm_compute; reflexivity.
  - apply (bool_decide_unpack _). vm_compute. exact I.
Defined.
