(* ===== verification/Auth.v ===== *)
(** Users and sessions (dfsha/common/auth.py): password hashes and session
    tokens.  scrypt is computed ([Crypto]); the salt, which the source draws at
    random, is an argument.  PyJWT is a parameter of the model: [jwt_encode] and
    [jwt_decode], with what its documentation says of them as the hypotheses of
    the class [JwtLaws]. *)

From Stdlib Require Import QArith Qround.
From S2P Require Import Prelude Exceptions Dict Crypto BlockToken.

Open Scope Z_scope.

Definition SCRYPT_N : Z := 16384.
Definition SCRYPT_R : Z := 8.
Definition SCRYPT_P : Z := 1.
Definition SCRYPT_DKLEN : nat := 32.
Definition SALT_BYTES : Z := 16.
Definition MIN_JWT_SECRET_BYTES : Z := 32.

Record Principal := mkPrincipal {
  username : string;
  groups : list string;
  is_admin : bool
}.

(** [password.encode("utf-8")] is the identity on byte strings. *)
Definition _scrypt (password salt : string) : string :=
  string_of (scrypt (bytes_of password) (bytes_of salt) SCRYPT_N SCRYPT_R SCRYPT_P SCRYPT_DKLEN).

Definition hash_password (password salt : string) : string * string := (_scrypt password salt, salt).

Definition verify_password (password password_hash salt : string) : bool :=
  bool_decide (_scrypt password salt = password_hash).

(** JSON claims. *)
Inductive json :=
| JNull
| JBool (b : bool)
| JInt (z : Z)
| JStr (s : string)
| JList (l : list json)
| JObject (fields : list (string * json)).

Notation claims := (list (string * json)).

(** What [jwt.decode] does: claims, [ExpiredSignatureError], or another
    [InvalidTokenError]. *)
Inductive jwt_answer := JwtClaims (c : claims) | JwtExpired | JwtInvalid.

(** The two functions of PyJWT the program calls, with HS256 and the required
    claims [exp] and [sub] fixed; [jwt_decode]'s last argument is the clock. *)
Class Jwt := {
  jwt_encode : string → claims → string;
  jwt_decode : string → string → Q → jwt_answer
}.

(** Documented behaviour: a token is never empty; decoding what was encoded with
    the same secret gives the claims back until [exp], then raises
    [ExpiredSignatureError]; the claims decoding gives have a text [sub], and the
    clock decides whether a token is accepted, never which claims it carries. *)
Class JwtLaws `{!Jwt} : Prop := {
  jwt_nonempty : ∀ secret c, jwt_encode secret c ≠ "";
  jwt_roundtrip : ∀ secret c exp s now,
    dict_get "exp" c = Some (JInt exp) → dict_get "sub" c = Some (JStr s) →
    jwt_decode secret (jwt_encode secret c) now =
      if Qle_bool (inject_Z exp) now then JwtExpired else JwtClaims c;
  jwt_sub : ∀ secret token now c,
    jwt_decode secret token now = JwtClaims c → ∃ s, dict_get "sub" c = Some (JStr s);
  jwt_fixed : ∀ secret token now now' c c',
    jwt_decode secret token now = JwtClaims c → jwt_decode secret token now' = JwtClaims c' → c = c'
}.

Definition as_strings (l : list json) : option (list string) :=
  mapM (λ j, match j with JStr s => Some s | _ => None end) l.

Section auth.
Context `{!Jwt}.

Definition issue_claims (p : Principal) (ttl_s now : Q) : claims :=
  [("sub", JStr (username p)); ("groups", JList (JStr <$> groups p));
   ("admin", JBool (is_admin p)); ("exp", JInt (Qceiling (now + ttl_s)))].

Definition issue_token (secret : string) (p : Principal) (ttl_s now : Q) : string :=
  jwt_encode secret (issue_claims p ttl_s now).

(** The checks of [verify_token] on the decoded claims. *)
Definition principal_of (c : claims) : result exn Principal :=
  match default (JList []) (dict_get "groups" c), default (JBool false) (dict_get "admin" c) with
  | JList l, JBool a =>
      match as_strings l with
      | Some gs =>
          match dict_get "sub" c with
          | Some (JStr s) => Ok (mkPrincipal s gs a)
          | _ => Err PyError
          end
      | None => Err AuthError
      end
  | _, _ => Err AuthError
  end.

Definition verify_token (secret token : string) (now : Q) : result exn Principal :=
  if bool_decide (token = "") then Err AuthError
  else
    match jwt_decode secret token now with
    | JwtExpired | JwtInvalid => Err AuthError
    | JwtClaims c => principal_of c
    end.

Lemma as_strings_fmap l : as_strings (JStr <$> l) = Some l.
Proof. by apply mapM_fmap_Some. Qed.

Lemma principal_of_issue p ttl now : principal_of (issue_claims p ttl now) = Ok p.
Proof. unfold principal_of. simpl. rewrite as_strings_fmap. by destruct p. Qed.

Lemma principal_of_err c e s : dict_get "sub" c = Some (JStr s) → principal_of c = Err e → e = AuthError.
Proof. unfold principal_of. intros ->. repeat case_match; congruence. Qed.

Lemma verify_token_err `{!JwtLaws} secret token t e : verify_token secret token t = Err e → e = AuthError.
Proof.
  unfold verify_token. case_bool_decide; [congruence|].
  destruct (jwt_decode secret token t) as [c| |] eqn:E; [|congruence|congruence].
  apply jwt_sub in E as [s Hs]. by eapply principal_of_err.
Qed.

Lemma verify_token_fixed `{!JwtLaws} secret token t t' p p' :
  verify_token secret token t = Ok p → verify_token secret token t' = Ok p' → p = p'.
Proof.
  unfold verify_token. case_bool_decide; [done|].
  destruct (jwt_decode secret token t) as [c| |] eqn:E; [|done|done].
  destruct (jwt_decode secret token t') as [c'| |] eqn:E'; [|done|done].
  rewrite (jwt_fixed _ _ _ _ _ _ E E'). congruence.
Qed.
End auth.

(** ** An instance: claims numbered by [Countable], in decimal *)

Notation json_tree := (gen_tree (bool + (Z + string))).

Fixpoint json_to_tree (j : json) : json_tree :=
  match j with
  | JNull => GenNode 0 []
  | JBool b => GenLeaf (inl b)
  | JInt z => GenLeaf (inr (inl z))
  | JStr s => GenLeaf (inr (inr s))
  | JList l => GenNode 1 (map json_to_tree l)
  | JObject fs =>
      GenNode 2 (map (λ kv, GenNode 3 [GenLeaf (inr (inr kv.1)); json_to_tree kv.2]) fs)
  end.

Fixpoint tree_to_json (t : json_tree) : json :=
  match t with
  | GenLeaf (inl b) => JBool b
  | GenLeaf (inr (inl z)) => JInt z
  | GenLeaf (inr (inr s)) => JStr s
  | GenNode 1 l => JList (map tree_to_json l)
  | GenNode 2 l =>
      JObject (map (λ t, match t with
                         | GenNode 3 [GenLeaf (inr (inr k)); v] => (k, tree_to_json v)
                         | _ => ("", JNull)
                         end) l)
  | GenNode _ _ => JNull
  end.

Lemma json_tree_inv : ∀ j, tree_to_json (json_to_tree j) = j.
Proof.
  fix IH 1. intros [|b|z|s|l|fs]; simpl; try done.
  - f_equal. induction l as [|j l IHl]; simpl; [done|]. by rewrite IH, IHl.
  - f_equal. induction fs as [|[k j] fs IHl]; simpl; [done|]. by rewrite IH, IHl.
Qed.

Definition toy_encode (secret : string) (c : claims) : string :=
  str_of_N (Npos (encode (json_to_tree (JObject c)))).

Definition toy_decode (secret token : string) (now : Q) : jwt_answer :=
  match N_of_str token with
  | Some (Npos n) =>
      match tree_to_json <$> decode n with
      | Some (JObject c) =>
          match dict_get "exp" c, dict_get "sub" c with
          | Some (JInt exp), Some (JStr _) =>
              if Qle_bool (inject_Z exp) now then JwtExpired else JwtClaims c
          | _, _ => JwtInvalid
          end
      | _ => JwtInvalid
      end
  | _ => JwtInvalid
  end.

#[local] Instance toy_jwt : Jwt := {| jwt_encode := toy_encode; jwt_decode := toy_decode |}.

Lemma toy_laws : JwtLaws.
Proof.
  split; simpl.
  - intros secret c H. unfold toy_encode in H.
    pose proof (N_of_str_of_N (Npos (encode (json_to_tree (JObject c))))) as E.
    rewrite H in E. discriminate E.
  - intros secret c exp s now He Hs. unfold toy_decode, toy_encode.
    rewrite N_of_str_of_N, decode_encode. cbn [fmap option_fmap option_map].
    rewrite json_tree_inv, He, Hs. done.
  - intros secret token now c. unfold toy_decode.
    destruct (N_of_str token) as [[|n]|]; [done| |done].
    destruct (tree_to_json <$> decode n) as [[| | | | |c']|]; try done.
    destruct (dict_get "exp" c') as [[| |z| | |]|]; try done.
    destruct (dict_get "sub" c') as [[| | |s| |]|] eqn:E; try done.
    destruct (Qle_bool _ _); [done|]. intros [= <-]. eauto.
  - intros secret token now now' c c'. unfold toy_decode. repeat case_match; congruence.
Qed.

(** A session token gives back the principal it was issued for, groups and
    role included, for at least the time to live that was asked and at most a
    second more; after that, and for any other text, the only answer is
    [AuthError] or a principal whose claims PyJWT accepted. *)
Theorem session_roundtrip `{!Jwt, !JwtLaws} secret p ttl now :
  (∀ now', verify_token secret (issue_token secret p ttl now) now' =
     if Qle_bool (inject_Z (Qceiling (now + ttl))) now' then Err AuthError else Ok p) ∧
  (∀ token now' e, verify_token secret token now' = Err e → e = AuthError).
Proof.
  split.
  - intros now'. unfold verify_token, issue_token.
    rewrite bool_decide_false by apply jwt_nonempty.
    erewrite jwt_roundtrip by done. destruct (Qle_bool _ _); [done|]. apply principal_of_issue.
  - intros token now' e. apply verify_token_err.
Qed.

Lemma session_roundtrip_witness :
  (∀ now', verify_token "s" (issue_token "s" (mkPrincipal "ana" ["staff"] false) 60 100) now' =
     if Qle_bool (inject_Z (Qceiling (100 + 60))) now' then Err AuthError
     else Ok (mkPrincipal "ana" ["staff"] false)) ∧
  (∀ token now' e, verify_token "s" token now' = Err e → e = AuthError).
Proof. apply (@session_roundtrip toy_jwt toy_laws "s" (mkPrincipal "ana" ["staff"] false) 60 100). Defined.
