(* ===== verification/Monitor.v ===== *)
(** [DataNodeMonitor] (dfsha/control_node/datanode_monitor.py): which DataNodes
    are eligible, from the outcomes of the pings.  Threads, channels and waits
    are not modelled; a ping is its outcome and the reading of the clock after
    a failure. *)

From S2P Require Import Prelude Exceptions.

Open Scope Z_scope.

Record MonitorState := mkMonitor {
  addresses : list string;
  dead_after_s : Z;
  alive_map : gmap string bool;
  dead_since : gmap string (option Z)
}.

(** [__init__]: everybody starts alive. *)
Definition monitor_init (addrs : list string) (interval dead_after timeout : Z) : result exn MonitorState :=
  if (interval <=? 0) || (dead_after <=? 0) || (timeout <=? 0) then Err PyError
  else Ok (mkMonitor addrs dead_after (list_to_map ((λ a, (a, true)) <$> addrs))
             (list_to_map ((λ a, (a, None)) <$> addrs))).

Definition is_alive (a : string) (m : MonitorState) : bool := default false (alive_map m !! a).

Definition alive_addresses (m : MonitorState) : list string :=
  filter (λ a, is_alive a m = true) (addresses m).

Definition dead_for (a : string) (now : Z) (m : MonitorState) : option Z :=
  match dead_since m !! a with
  | Some (Some t) => Some (Z.max 0 (now - t))
  | _ => None
  end.

(** One ping of [_probe_once]: [ok] when it answered, [now] the clock. *)
Definition probe (a : string) (ok : bool) (now : Z) (m : MonitorState) : MonitorState :=
  if ok then
    mkMonitor (addresses m) (dead_after_s m) (<[a := true]> (alive_map m)) (<[a := None]> (dead_since m))
  else
    let since := match dead_since m !! a with Some (Some t) => t | _ => now end in
    mkMonitor (addresses m) (dead_after_s m)
      (if dead_after_s m <=? now - since then <[a := false]> (alive_map m) else alive_map m)
      (<[a := Some since]> (dead_since m)).

Notation ping := (string * bool * Z)%type.

Definition probe_all (pings : list ping) (m : MonitorState) : MonitorState :=
  foldl (λ m p, probe p.1.1 p.1.2 p.2 m) m pings.

(** [_probe_once]: every address once, in order; the outcomes are given. *)
Definition _probe_once (outcomes : string → bool * Z) (m : MonitorState) : MonitorState :=
  probe_all ((λ a, (a, (outcomes a).1, (outcomes a).2)) <$> addresses m) m.

(** * The specification: the run of failures an address ends with *)

(** The times of the failed pings of [a] since its last answer, newest first. *)
Fixpoint failing (a : string) (pings : list ping) : list Z :=
  match pings with
  | [] => []
  | (b, ok, t) :: older =>
      if decide (b = a) then (if ok : bool then [] else t :: failing a older) else failing a older
  end.

(** The time of the first failure of the run. *)
Definition first_failure (a : string) (pings : list ping) : option Z := last (failing a pings).

(** Declared dead: some failure of the run came [dead_after] or more after the first. *)
Definition declared_dead (a : string) (dead_after : Z) (pings : list ping) : Prop :=
  ∃ t0 t, first_failure a pings = Some t0 ∧ t ∈ failing a pings ∧ dead_after ≤ t - t0.

(** * Lemmas *)

Lemma probe_all_snoc l p m : probe_all (l ++ [p]) m = probe p.1.1 p.1.2 p.2 (probe_all l m).
Proof. unfold probe_all. by rewrite foldl_app. Qed.

Lemma probe_all_const l m :
  addresses (probe_all l m) = addresses m ∧ dead_after_s (probe_all l m) = dead_after_s m.
Proof.
  induction l as [|p l IH] using rev_ind; [done|]. rewrite probe_all_snoc. destruct IH as [H1 H2].
  unfold probe. destruct p as [[a [|]] t]; simpl; auto.
Qed.

Lemma init_lookup {V} (v : V) addrs a :
  a ∈ addrs → (list_to_map ((λ x, (x, v)) <$> addrs) : gmap string V) !! a = Some v.
Proof.
  intros Ha. induction addrs as [|b addrs IH]; csimpl; [by apply not_elem_of_nil in Ha|].
  destruct (decide (b = a)) as [->|Hne]; [by rewrite lookup_insert_eq|].
  rewrite lookup_insert_ne by done. apply IH. apply elem_of_cons in Ha as [->|]; done.
Qed.

Lemma last_cons_default {A} (x : A) l : last (x :: l) = Some (default x (last l)).
Proof. rewrite last_cons. by destruct (last l). Qed.

(** The two dictionaries hold the run of each address. *)
Lemma probe_all_spec addrs interval d timeout m0 l a :
  monitor_init addrs interval d timeout = Ok m0 → a ∈ addrs →
  dead_since (probe_all (rev l) m0) !! a = Some (first_failure a l) ∧
  ∃ b, alive_map (probe_all (rev l) m0) !! a = Some b ∧ (b = false ↔ declared_dead a d l).
Proof.
  unfold monitor_init. case_match; [done|]. intros [= <-] Ha.
  set (m0 := mkMonitor _ _ _ _).
  induction l as [|[[x ok] t] l IH]; simpl.
  - split; [by apply init_lookup|]. exists true. split; [by apply init_lookup|].
    split; [done|]. intros (? & ? & _ & Hn & _); by apply not_elem_of_nil in Hn.
  - rewrite probe_all_snoc. simpl. destruct IH as [Hd (b & Hb & Hdead)].
    destruct (probe_all_const (rev l) m0) as [_ Hda]. simpl in Hda.
    unfold declared_dead, first_failure, probe in *. simpl. destruct ok; simpl.
    + destruct (decide (x = a)) as [->|Hne].
      * rewrite !lookup_insert_eq. split; [done|]. exists true. split; [done|].
        split; [done|]. intros (? & ? & _ & Hn & _); by apply not_elem_of_nil in Hn.
      * rewrite !lookup_insert_ne by done. eauto.
    + rewrite Hda. destruct (decide (x = a)) as [->|Hne].
      * rewrite lookup_insert_eq, Hd, last_cons_default. split.
        { by destruct (last (failing a l)). }
        set (t0 := default t (last (failing a l))).
        replace (match last (failing a l) with Some t1 => t1 | None => t end) with t0
          by by destruct (last (failing a l)).
        destruct (Z.leb_spec d (t - t0)).
        -- exists false. rewrite lookup_insert_eq. split; [done|]. split; [|done]. intros _.
           exists t0, t. split_and!; [done|by left|done].
        -- exists b. split; [done|]. rewrite Hdead. split.
           ++ intros (t1 & t' & E & Hin & Hle). exists t1, t'. subst t0. rewrite E.
              split_and!; [done|by right|done].
           ++ intros (t1 & t' & [= <-] & Hin & Hle).
              apply elem_of_cons in Hin as [->|Hin]; [lia|].
              destruct (last (failing a l)) as [t2|] eqn:E.
              ** exists t2, t'. by subst t0.
              ** apply last_None in E. rewrite E in Hin. by apply not_elem_of_nil in Hin.
      * rewrite lookup_insert_ne by done. split; [done|]. exists b. split; [|done].
        case_match; [by rewrite lookup_insert_ne|done].
Qed.

(** A DataNode is eligible until it has failed every ping for
    [dead_after_s]: it is taken out exactly when, since its last answer, some
    failed ping came at least [dead_after_s] after the first failed one, one
    answer puts it back, and the time it has been dead counts from that first
    failure.  The pings to the other nodes make no difference. *)
Theorem monitor_tracks_failures addrs interval d timeout m0 history a :
  monitor_init addrs interval d timeout = Ok m0 → a ∈ addrs →
  let m := probe_all history m0 in
  (is_alive a m = false ↔ declared_dead a d (rev history)) ∧
  (a ∈ alive_addresses m ↔ ¬ declared_dead a d (rev history)) ∧
  ∀ now, dead_for a now m = (λ t, Z.max 0 (now - t)) <$> first_failure a (rev history).
Proof.
  intros Hinit Ha m. pose proof (probe_all_spec _ _ _ _ _ (rev history) a Hinit Ha) as [Hd (b & Hb & Hdead)].
  rewrite rev_involutive in Hd, Hb. fold m in Hd, Hb.
  assert (addresses m = addrs) as Haddr.
  { unfold m. rewrite (proj1 (probe_all_const history m0)). unfold monitor_init in Hinit.
    case_match; [done|]. by injection Hinit as <-. }
  unfold is_alive, alive_addresses, dead_for. rewrite Hd. split_and!.
  - by rewrite Hb.
  - rewrite list_elem_of_filter, Haddr. unfold is_alive. rewrite Hb, <-Hdead. simpl.
    destruct b; naive_solver.
  - intros now. by destruct (first_failure a (rev history)).
Qed.

Lemma monitor_tracks_failures_witness :
  is_alive "dn1" (probe_all [("dn1", false, 10); ("dn2", true, 11); ("dn1", false, 16)]
    (mkMonitor ["dn1"; "dn2"] 6 (list_to_map [("dn1", true); ("dn2", true)])
       (list_to_map [("dn1", None); ("dn2", None)]))) = false.
Proof.
  apply (monitor_tracks_failures ["dn1"; "dn2"] 2 6 1 _
    [("dn1", false, 10); ("dn2", true, 11); ("dn1", false, 16)] "dn1" eq_refl ltac:(by left)).
  exists 10, 16. split_and!; [reflexivity|by left|lia].
Defined.
