(* ===== verification/Collector.v ===== *)
(** [GarbageCollector] (dfsha/control_node/garbage_collector.py): one cycle over
    the answers of the DataNodes and the metadata read after them.  What the
    cycle observes of the rest of the system (leadership, monitor, RPC answers,
    copies in flight, clocks) is the record [GcWorld]; the tree is the
    replicated tree at the moment it is read. *)

From Stdlib Require Import QArith Qround.
From S2P Require Import Prelude Exceptions Dict Paths TreeData Tree TreeFacts Replicated.
From S2P Require Import TreeErrors TreeInv TreeRefs TreeGrowth Crypto BlockToken.

Open Scope Z_scope.

Record GcConfig := mkGc {
  gc_interval_s : Z;
  gc_grace_s : Z;
  gc_rpc_timeout_s : Z;
  gc_key : option string
}.

(** [__init__]. *)
Definition gc_init (interval grace timeout : Z) (key : option string) : result exn GcConfig :=
  if (interval <=? 0) || (grace <? 0) || (timeout <=? 0) then Err PyError
  else Ok (mkGc interval grace timeout key).

(** Everything a cycle reads of the outside, and when: [w_list] is the answer
    of ListStoredBlocks to the given metadata ([None] an [RpcError], also in the
    middle of the stream), [w_delete] the answer of DeleteBlock ([None] success),
    [w_list_time] and [w_time_at] the readings of [time.time()], [w_leader_at n]
    the answer of the n-th leadership check of the deletion loop. *)
Record GcWorld := mkGcWorld {
  w_leader : bool;
  w_alive : list string;
  w_list : string → list (string * string) → option (list (string * Z));
  w_list_time : string → Q;
  w_barrier : bool;
  w_in_flight : gset (string * string);
  w_clock : Z;
  w_leader_at : nat → bool;
  w_time_at : nat → Q;
  w_delete : string → string → list (string * string) → option StatusCode
}.

(** [_capability_kwargs]: the metadata of a call, or the exception of the
    issuing function. *)
Definition gc_kwargs (cfg : GcConfig) (issue : string → result exn string)
    : result exn (list (string * string)) :=
  match gc_key cfg with
  | None => Ok []
  | Some key => c ← issue key; mret (capability_kwargs c "")
  end.

Definition list_kwargs (cfg : GcConfig) (now : Q) : result exn (list (string * string)) :=
  gc_kwargs cfg (λ key, issue_internal key "list" INTERNAL_TTL_S now).

Definition delete_kwargs (cfg : GcConfig) (bid : string) (now : Q) : result exn (list (string * string)) :=
  gc_kwargs cfg (λ key, issue_block key bid "delete" INTERNAL_TTL_S now).

(** The inventory: [stored[address] = ...] for the nodes that answered. *)
Fixpoint inventory (cfg : GcConfig) (w : GcWorld) (addrs : list string)
    (stored : list (string * list (string * Z))) : result exn (list (string * list (string * Z))) :=
  match addrs with
  | [] => Ok stored
  | a :: addrs' =>
      md ← list_kwargs cfg (w_list_time w a);
      match w_list w a md with
      | Some bl => inventory cfg w addrs' (dict_set a bl stored)
      | None => inventory cfg w addrs' stored
      end
  end.

(** A DeleteBlock call: address, block, metadata. *)
Notation call := (string * string * list (string * string))%type.

(** The calls made, the list [self.deleted] and how the cycle ended. *)
Record GcOut := mkGcOut {
  calls : list call;
  deleted : list (string * string);
  gc_result : result exn unit
}.

Definition is_referenced (refs : Refs) (a bid : string) : bool :=
  bool_decide (a ∈ default ∅ (refs !! bid)).

(** The double loop over [stored.items()]; [n] counts the leadership checks. *)
Fixpoint sweep (cfg : GcConfig) (w : GcWorld) (refs : Refs)
    (items : list (string * (string * Z))) (n : nat) : GcOut :=
  match items with
  | [] => mkGcOut [] [] (Ok tt)
  | (a, (bid, age)) :: items' =>
      if is_referenced refs a bid || bool_decide ((bid, a) ∈ w_in_flight w) then sweep cfg w refs items' n
      else if age <? gc_grace_s cfg then sweep cfg w refs items' n
      else if negb (w_leader_at w n) then mkGcOut [] [] (Ok tt)
      else
        match delete_kwargs cfg bid (w_time_at w n) with
        | Err e => mkGcOut [] [] (Err e)
        | Ok md =>
            let out := sweep cfg w refs items' (S n) in
            mkGcOut ((a, bid, md) :: calls out)
              (match w_delete w a bid md with
               | None => (a, bid) :: deleted out
               | Some _ => deleted out
               end) (gc_result out)
        end
  end.

Definition flatten (stored : list (string * list (string * Z))) : list (string * (string * Z)) :=
  concat ((λ p : string * list (string * Z), (λ b : string * Z, (p.1, b)) <$> p.2) <$> stored).

Definition run_cycle (cfg : GcConfig) (w : GcWorld) (t : TreeState) : GcOut :=
  if negb (w_leader w) then mkGcOut [] [] (Ok tt)
  else
    match inventory cfg w (w_alive w) [] with
    | Err e => mkGcOut [] [] (Err e)
    | Ok stored =>
        if negb (w_barrier w) then mkGcOut [] [] (Ok tt)
        else sweep cfg w (referenced_blocks (w_clock w) t) (flatten stored) 0
    end.

(** * Lemmas *)

Lemma is_referenced_spec refs a bid : is_referenced refs a bid = true ↔ ref_has refs bid a.
Proof.
  unfold is_referenced, ref_has. rewrite bool_decide_eq_true.
  destruct (refs !! bid) as [s|]; simpl; [|set_solver]. naive_solver.
Qed.

Lemma flatten_elem stored a bid age :
  (a, (bid, age)) ∈ flatten stored ↔ ∃ bl, (a, bl) ∈ stored ∧ (bid, age) ∈ bl.
Proof.
  unfold flatten. rewrite elem_of_concat. split.
  - intros (l & ([x bl] & -> & Hin)%list_elem_of_fmap & ([b g] & [= -> -> ->] & Hb)%list_elem_of_fmap).
    by exists bl.
  - intros (bl & Hin & Hb). exists ((λ b, (a, b)) <$> bl). split.
    + apply list_elem_of_fmap. by exists (a, bl).
    + apply list_elem_of_fmap. by exists (bid, age).
Qed.

(** What a node answered to the collector. *)
Definition listing (cfg : GcConfig) (w : GcWorld) (a : string) : option (list (string * Z)) :=
  match list_kwargs cfg (w_list_time w a) with
  | Ok md => w_list w a md
  | Err _ => None
  end.

Lemma list_kwargs_ok cfg now : ∃ md, list_kwargs cfg now = Ok md.
Proof. unfold list_kwargs, gc_kwargs. destruct (gc_key cfg); [|by eexists]. by eexists. Qed.

(** The inventory never fails and holds the answers of the alive nodes. *)
Lemma inventory_spec cfg w addrs stored :
  NoDup (stored.*1 ++ addrs) →
  ∃ inv, inventory cfg w addrs stored = Ok inv ∧
    ∀ a bl, (a, bl) ∈ inv ↔ (a, bl) ∈ stored ∨ a ∈ addrs ∧ listing cfg w a = Some bl.
Proof.
  revert stored. induction addrs as [|x addrs IH]; intros stored Hnd; simpl.
  - exists stored. split; [done|]. intros a bl. set_solver.
  - destruct (list_kwargs_ok cfg (w_list_time w x)) as [md Hmd]. rewrite Hmd. simpl.
    apply NoDup_app in Hnd as (Hs & Hdis & [Hx Hnd]%NoDup_cons).
    assert (x ∉ stored.*1) as Hxs by (intros Hin; apply (Hdis x Hin); by left).
    assert (listing cfg w x = w_list w x md) as Hlx by (unfold listing; by rewrite Hmd).
    destruct (w_list w x md) as [bx|] eqn:E; simpl.
    + destruct (IH (dict_set x bx stored)) as (inv & -> & Hinv).
      { rewrite dict_set_fresh by by apply dict_get_None. rewrite fmap_app. simpl. rewrite <-app_assoc.
        apply NoDup_app. split_and!; [done| |by constructor].
        intros y Hy [->|Hy']%elem_of_cons; [done|]. apply (Hdis y Hy). by right. }
      exists inv. split; [done|]. intros a bl. rewrite Hinv, dict_set_fresh by by apply dict_get_None.
      rewrite elem_of_app, list_elem_of_singleton, elem_of_cons. split.
      * intros [[?|[= -> ->]]|[? ?]]; [by left|right; split; [by left|by rewrite Hlx]|right; auto].
      * intros [?|[[->|?] Hl]]; [by left; left| |by right]. left. right. congruence.
    + destruct (IH stored) as (inv & -> & Hinv).
      { apply NoDup_app. split_and!; [done| |done]. intros y Hy Hy'. apply (Hdis y Hy). by right. }
      exists inv. split; [done|]. intros a bl. rewrite Hinv, elem_of_cons. split.
      * intros [?|[? ?]]; [by left|right; auto].
      * intros [?|[[->|?] Hl]]; [by left|congruence|by right].
Qed.

(** What the code checked before each call. *)
Lemma sweep_calls cfg w refs items n a bid md :
  (a, bid, md) ∈ calls (sweep cfg w refs items n) →
  ¬ ref_has refs bid a ∧ (bid, a) ∉ w_in_flight w ∧ (∃ k, delete_kwargs cfg bid (w_time_at w k) = Ok md) ∧
  ∃ age, (a, (bid, age)) ∈ items ∧ gc_grace_s cfg ≤ age.
Proof.
  revert n. induction items as [|[x [b age]] items IH]; intros n; simpl;
    [intros H; by apply not_elem_of_nil in H|].
  assert (∀ m, (a, bid, md) ∈ calls (sweep cfg w refs items m) →
    ¬ ref_has refs bid a ∧ (bid, a) ∉ w_in_flight w ∧ (∃ k, delete_kwargs cfg bid (w_time_at w k) = Ok md) ∧
    ∃ g, (a, (bid, g)) ∈ (x, (b, age)) :: items ∧ gc_grace_s cfg ≤ g) as Hrec.
  { intros m H. destruct (IH m H) as (? & ? & ? & g & Hin & ?). split_and!; [done..|].
    exists g. split; [by right|done]. }
  destruct (_ || _) eqn:Href; [apply Hrec|].
  destruct (Z.ltb_spec age (gc_grace_s cfg)); [apply Hrec|].
  destruct (w_leader_at w n); simpl; [|intros Hn; by apply not_elem_of_nil in Hn].
  destruct (delete_kwargs cfg b (w_time_at w n)) as [m|e] eqn:Hk; simpl; [|intros Hn; by apply not_elem_of_nil in Hn].
  intros [[= -> -> ->]|Hc]%elem_of_cons; [|by eapply Hrec].
  apply orb_false_iff in Href as [Hr Hf]. apply bool_decide_eq_false in Hf. split_and!.
  - intros Hh%is_referenced_spec. congruence.
  - done.
  - by exists n.
  - exists age. split; [by left|done].
Qed.

(** The capability of every listed copy can be signed. *)
Definition signable (cfg : GcConfig) (w : GcWorld) (items : list (string * (string * Z))) : Prop :=
  ∀ x b g, (x, (b, g)) ∈ items → ∀ k, ∃ md, delete_kwargs cfg b (w_time_at w k) = Ok md.
Lemma signable_tail cfg w i items : signable cfg w (i :: items) → signable cfg w items.
Proof. intros H x b g Hin. apply (H x b g). by right. Qed.

(** While it leads, every candidate gets its call. *)
Lemma sweep_sends cfg w refs items n a bid age :
  (∀ k, w_leader_at w k = true) → signable cfg w items →
  (a, (bid, age)) ∈ items → ¬ ref_has refs bid a → (bid, a) ∉ w_in_flight w →
  gc_grace_s cfg ≤ age → ∃ md, (a, bid, md) ∈ calls (sweep cfg w refs items n).
Proof.
  intros Hl Hk Hin Hr Hf Hg. revert n Hk Hin.
  induction items as [|[x [b g]] items IH]; intros n Hk Hin; simpl; [by apply not_elem_of_nil in Hin|].
  pose proof (λ m Hi, IH m (signable_tail _ _ _ _ Hk) Hi) as Hrec.
  apply elem_of_cons in Hin as [[= <- <- <-]|Hin].
  - assert (is_referenced refs a bid = false) as ->.
    { apply not_true_iff_false. by rewrite is_referenced_spec. }
    rewrite bool_decide_false by done. simpl.
    destruct (Z.ltb_spec age (gc_grace_s cfg)); [lia|]. rewrite Hl. simpl.
    destruct (Hk a bid age ltac:(by left) n) as [md ->]. exists md. by left.
  - destruct (_ || _); [by apply Hrec|]. destruct (_ <? _); [by apply Hrec|]. rewrite Hl. simpl.
    destruct (Hk x b g ltac:(by left) n) as [md ->]. simpl. destruct (Hrec (S n) Hin) as [md' H]. exists md'. by right.
Qed.

(** What it records as deleted, and how it ends. *)
Lemma sweep_deleted cfg w refs items n a bid :
  (a, bid) ∈ deleted (sweep cfg w refs items n) ↔
  ∃ md, (a, bid, md) ∈ calls (sweep cfg w refs items n) ∧ w_delete w a bid md = None.
Proof.
  assert (∀ c : list call, c = [] → (a, bid) ∈ @nil (string * string) ↔ ∃ md, (a, bid, md) ∈ c ∧ w_delete w a bid md = None) as Hnil.
  { intros c ->. split; [by intros ?%not_elem_of_nil|by intros (md & ?%not_elem_of_nil & _)]. }
  revert n. induction items as [|[x [b g]] items IH]; intros n; simpl; [by apply Hnil|].
  destruct (_ || _); [apply IH|]. destruct (_ <? _); [apply IH|]. destruct (w_leader_at w n); simpl; [|by apply Hnil].
  destruct (delete_kwargs cfg b (w_time_at w n)) as [md|e]; simpl; [|by apply Hnil].
  destruct (w_delete w x b md) eqn:Hd; setoid_rewrite elem_of_cons; rewrite IH; naive_solver.
Qed.
Lemma sweep_ends cfg w refs items n : signable cfg w items → gc_result (sweep cfg w refs items n) = Ok tt.
Proof.
  revert n. induction items as [|[x [b g]] items IH]; intros n Hk; simpl; [done|].
  pose proof (λ m, IH m (signable_tail _ _ _ _ Hk)) as Hrec.
  destruct (_ || _); [done|]. destruct (_ <? _); [done|]. destruct (w_leader_at w n); [|done]. simpl.
  destruct (Hk x b g ltac:(by left) n) as [md ->]. apply Hrec.
Qed.

(** The same cycle, with the lead lost at the [m]-th check. *)
Definition led_until (m : nat) (w : GcWorld) : GcWorld :=
  mkGcWorld (w_leader w) (w_alive w) (w_list w) (w_list_time w) (w_barrier w) (w_in_flight w) (w_clock w)
    (λ k, bool_decide (k < m)%nat) (w_time_at w) (w_delete w).
Lemma sweep_led_until cfg w refs items n m :
  (∀ k, w_leader_at w k = true) → signable cfg w items →
  calls (sweep cfg (led_until m w) refs items n) = take (m - n) (calls (sweep cfg w refs items n)).
Proof.
  intros Hl. revert n. induction items as [|[x [b g]] items IH]; intros n Hk; simpl; [by rewrite take_nil|].
  pose proof (λ m, IH m (signable_tail _ _ _ _ Hk)) as Hrec.
  destruct (_ || _); [done|]. destruct (_ <? _); [done|]. rewrite Hl. simpl.
  destruct (Hk x b g ltac:(by left) n) as [md ->]. simpl. case_bool_decide; simpl.
  - rewrite Hrec. by replace (m - n)%nat with (S (m - S n)) by lia.
  - by replace (m - n)%nat with 0%nat by lia.
Qed.

Lemma issue_block_nonempty key bid op ttl now tok : issue_block key bid op ttl now = Ok tok → tok ≠ "".
Proof. unfold issue_block. repeat (case_match; [done|]). by intros [= <-]. Qed.

(** The metadata of a DeleteBlock opens that deletion and nothing else. *)
Lemma delete_kwargs_capability cfg key bid now md :
  gc_key cfg = Some key → (0 <= now)%Q → delete_kwargs cfg bid now = Ok md →
  ∃ tok, md = [(METADATA_KEY, tok)] ∧ ∀ bid' op now',
    verify_block key tok bid' op now' = Ok tt ↔
      op = "delete" ∧ bid' = bid ∧ (now' < inject_Z (Qceiling (now + INTERNAL_TTL_S)))%Q.
Proof.
  intros Hkey Hnow. unfold delete_kwargs, gc_kwargs. rewrite Hkey. unfold mbind, result_bind.
  destruct (issue_block _ _ _ _ _) as [tok|] eqn:Hi; [|done]. intros [= <-].
  exists tok. split.
  - unfold capability_kwargs. rewrite bool_decide_false by by eapply issue_block_nonempty. done.
  - intros bid' op now'.
    assert (0 <= now + INTERNAL_TTL_S)%Q as Hq.
    { apply Qle_trans with (now + 0)%Q; [by rewrite Qplus_0_r|]. apply Qplus_le_r. by vm_compute. }
    destruct (issue_block_fields _ _ _ _ _ _ Hi Hq) as (_ & _ & Hf).
    unfold verify_block. rewrite Hf. simpl. unfold mbind, result_bind, _expiry.
    rewrite expiry_verdict by by apply ceiling_nonneg. naive_solver.
Qed.

Lemma run_cycle_calls cfg w t a bid md :
  NoDup (w_alive w) → (a, bid, md) ∈ calls (run_cycle cfg w t) →
  w_leader w = true ∧ w_barrier w = true ∧ ¬ ref_has (referenced_blocks (w_clock w) t) bid a ∧
  (bid, a) ∉ w_in_flight w ∧ (∃ k, delete_kwargs cfg bid (w_time_at w k) = Ok md) ∧
  a ∈ w_alive w ∧ ∃ bl age, listing cfg w a = Some bl ∧ (bid, age) ∈ bl ∧ gc_grace_s cfg ≤ age.
Proof.
  intros Hnd. unfold run_cycle. destruct (w_leader w); simpl; [|intros H; by apply not_elem_of_nil in H].
  destruct (inventory_spec cfg w (w_alive w) [] Hnd) as (inv & -> & Hinv).
  destruct (w_barrier w); simpl; [|intros H; by apply not_elem_of_nil in H].
  intros (Hr & Hf & Hk & age & (bl & Hin & Hb)%flatten_elem & Hg)%sweep_calls.
  apply Hinv in Hin as [Hin|[Ha Hl]]; [by apply not_elem_of_nil in Hin|].
  split_and!; [done..|]. by exists bl, age.
Qed.

(** C18. The collector deletes no block in use.  Every DeleteBlock it sends is
    sent by a leader whose barrier passed, to an alive node that listed the
    block with at least the grace period of age; the block is not being copied
    to that node, and neither the tree it read nor any later tree references
    it there, as long as no later command brings that very block to that very
    node.  With a key, the call carries a capability for this deletion only. *)
Theorem gc_safe cfg w s a bid md :
  tree_wf (tree s) → NoDup (w_alive w) → (a, bid, md) ∈ calls (run_cycle cfg w (tree s)) →
  (w_leader w = true ∧ w_barrier w = true ∧ a ∈ w_alive w ∧ (bid, a) ∉ w_in_flight w) ∧
  (∃ bl age, listing cfg w a = Some bl ∧ (bid, age) ∈ bl ∧ gc_grace_s cfg ≤ age) ∧
  (∀ later, Forall (λ e, not_before (w_clock w) e.2) later → (∀ e, e ∈ later → ¬ brings e.2 bid a) →
     ¬ referenced_at (tree (apply_log later s)) (w_clock w) bid a) ∧
  (∀ key, gc_key cfg = Some key → (∀ k, (0 <= w_time_at w k)%Q) →
     ∃ tok now, md = [(METADATA_KEY, tok)] ∧ ∀ bid' op now',
       verify_block key tok bid' op now' = Ok tt ↔
         op = "delete" ∧ bid' = bid ∧ (now' < inject_Z (Qceiling (now + INTERNAL_TTL_S)))%Q).
Proof.
  intros Hwf Hnd (Hl & Hb & Hr & Hf & [k Hk] & Ha & Hage)%run_cycle_calls; [|done].
  split_and!; [done..| |].
  - intros later Htime Hno Hin. apply Hr, (referenced_blocks_spec _ _ _ _ Hwf).
    apply (log_refs _ _ _ _ _ Hwf Htime) in Hin as [Hin|(e & He & Hbr)]; [exact Hin|].
    by destruct (Hno e He).
  - intros key Hkey Hq. destruct (delete_kwargs_capability _ _ _ _ _ Hkey (Hq k) Hk) as (tok & -> & Hv).
    by exists tok, (w_time_at w k).
Qed.

(** A cycle of a leader after the demo history, [d2] listing a block that the
    metadata has at [d1] only. *)
Definition demo_gc : GcConfig := mkGc 60 1200 30 None.
Definition demo_gc_world : GcWorld :=
  mkGcWorld true ["d1"; "d2"]
    (λ a _, Some (if decide (a = "d1") then [("b0", 5000)] else [("b0", 5000); ("b1", 5000)]))
    (λ _, 0%Q) true ∅ 60 (λ _, true) (λ _, 0%Q) (λ _ _ _, None).

Lemma demo_nodes_distinct : NoDup (w_alive demo_gc_world).
Proof. apply (bool_decide_unpack _). vm_compute. exact I. Qed.

Lemma gc_safe_witness :
  calls (run_cycle demo_gc demo_gc_world (demo 5)) = [("d2", "b0", [])] ∧
  ¬ referenced_at (tree (apply_log [("next", CMakeDir "/x" ana)]
      (apply_log (take 5 demo_log) replicated_init))) 60 "b0" "d2".
Proof.
  assert (calls (run_cycle demo_gc demo_gc_world (demo 5)) = [("d2", "b0", [])]) as H
    by (vm_compute; reflexivity).
  split; [exact H|].
  apply (proj1 (proj2 (proj2 (gc_safe demo_gc demo_gc_world
    (apply_log (take 5 demo_log) replicated_init) "d2" "b0" [] (demo_ok 5)
    demo_nodes_distinct ltac:(fold (demo 5); rewrite H; by left))))).
  - by repeat constructor.
  - intros e ->%list_elem_of_singleton. simpl. tauto.
Defined.

Lemma inventory_led m cfg w addrs stored : inventory cfg (led_until m w) addrs stored = inventory cfg w addrs stored.
Proof. revert stored. induction addrs as [|a addrs IH]; intros stored; [done|]. simpl. destruct (list_kwargs _ _); [|done]. simpl. by case_match. Qed.

(** C25. The collector collects all the garbage, and only it.  In a cycle of a leader
    whose barrier passed and that keeps the lead, the copies that get a DeleteBlock
    are exactly those an alive node listed with the grace period of age, that are not
    being copied there and that the tree it read does not reference there, whatever
    each call answers; the cycle ends without an exception and records as deleted the
    copies whose call succeeded.  If the lead is lost at the [m]-th check, it has made
    the first [m] of those calls and makes no other. *)
Theorem gc_collects cfg w t :
  tree_wf t → NoDup (w_alive w) → w_leader w = true → w_barrier w = true → (∀ k, w_leader_at w k = true) →
  (∀ x l b g, listing cfg w x = Some l → (b, g) ∈ l → gc_key cfg = None ∨ is_block_id b = true) →
  gc_result (run_cycle cfg w t) = Ok tt ∧
  (∀ a bid, (∃ md, (a, bid, md) ∈ calls (run_cycle cfg w t)) ↔
     a ∈ w_alive w ∧ (bid, a) ∉ w_in_flight w ∧ ¬ referenced_at t (w_clock w) bid a ∧
     ∃ bl age, listing cfg w a = Some bl ∧ (bid, age) ∈ bl ∧ gc_grace_s cfg ≤ age) ∧
  (∀ a bid, (a, bid) ∈ deleted (run_cycle cfg w t) ↔
     ∃ md, (a, bid, md) ∈ calls (run_cycle cfg w t) ∧ w_delete w a bid md = None) ∧
  ∀ m, calls (run_cycle cfg (led_until m w) t) = take m (calls (run_cycle cfg w t)).
Proof.
  intros Hwf Hnd Hlead Hbar Hl Hid.
  pose proof (inventory_spec cfg w (w_alive w) [] Hnd) as (inv & Hi & Hinv).
  assert (signable cfg w (flatten inv)) as Hk.
  { intros x b g (l & Hx & Hb)%flatten_elem k.
    apply Hinv in Hx as [Hx|[_ Hx]]; [by apply not_elem_of_nil in Hx|].
    unfold delete_kwargs, gc_kwargs. destruct (Hid x l b g Hx Hb) as [->|Hbid]; [by eexists|].
    destruct (gc_key cfg); [|by eexists]. unfold issue_block. rewrite Hbid. by eexists. }
  assert (run_cycle cfg w t = sweep cfg w (referenced_blocks (w_clock w) t) (flatten inv) 0) as Hrun
    by (unfold run_cycle; by rewrite Hlead, Hi, Hbar).
  split_and!; [rewrite Hrun; by apply sweep_ends| |intros; rewrite Hrun; apply sweep_deleted|].
  - intros a bid. split.
    + intros [md (_ & _ & Hr & Hf & _ & Ha & Hage)%run_cycle_calls]; [|done].
      split_and!; [done..| |done]. intros Hx. by apply Hr, (referenced_blocks_spec _ _ _ _ Hwf).
    + intros (Ha & Hf & Hr & bl & age & Hlist & Hin & Hage). rewrite Hrun. eapply sweep_sends; [done|done| | |done|done].
      * apply flatten_elem. exists bl. split; [|done]. apply Hinv. by right.
      * by rewrite (referenced_blocks_spec _ _ _ _ Hwf).
  - intros m. rewrite Hrun. unfold run_cycle. cbn [led_until w_leader w_alive w_barrier w_clock].
    rewrite inventory_led, Hlead, Hi, Hbar. simpl. by rewrite sweep_led_until, Nat.sub_0_r.
Qed.

Lemma gc_collects_witness :
  (∃ md, ("d2", "b0", md) ∈ calls (run_cycle demo_gc demo_gc_world (demo 5))) ∧
  calls (run_cycle demo_gc (led_until 0 demo_gc_world) (demo 5)) = [].
Proof.
  destruct (gc_collects demo_gc demo_gc_world (demo 5)
    (demo_ok 5) demo_nodes_distinct eq_refl eq_refl (λ _, eq_refl) (λ _ _ _ _ _ _, or_introl eq_refl)) as (_ & Hc & _ & Hm).
  split; [|exact (Hm 0%nat)]. apply Hc. split_and!.
  - vm_compute. by right; left.
  - by apply not_elem_of_empty.
  - assert (¬ ref_has (referenced_blocks 60 (demo 5)) "b0" "d2") as H.
    { rewrite <-is_referenced_spec. vm_compute. discriminate. }
    intros Hr. apply H. apply (referenced_blocks_spec 60 (demo 5)); [apply demo_ok|exact Hr].
  - exists [("b0", 5000); ("b1", 5000)], 5000. split_and!; [reflexivity|by left|vm_compute; discriminate].
Defined.

(** What the grace period and the order of the readings do not cover: the
    collector decides on the copies in flight and the tree it read once, at the
    start of its loop.  [d2] holds an old copy of [b0]; after the reading the
    re-replicator picks [d2] and commits [b0] there; the DeleteBlock of the
    collector that follows removes a copy the tree now counts on. *)
Definition late_copy : list (string * command) := [("copy", CUpdateBlockReplicas "/home/doc" "b0" ["d1"] ["d1"; "d2"])].
Example gc_race :
  ("d2", "b0", []) ∈ calls (run_cycle demo_gc demo_gc_world (demo 5)) ∧
  referenced_at (tree (apply_log late_copy (apply_log (take 5 demo_log) replicated_init))) 60 "b0" "d2".
Proof.
  set (s := apply_log (take 5 demo_log) replicated_init).
  assert (tree_wf (tree (apply_log late_copy s))) as Hwf by (apply apply_log_keeps, (demo_ok 5)).
  split.
  - vm_compute. by left.
  - apply (referenced_blocks_spec 60 _ "b0" "d2" Hwf), is_referenced_spec. vm_compute. reflexivity.
Qed.
