(* ===== verification/Replicator.v ===== *)
(** [ReReplicator] (dfsha/control_node/rereplicator.py): one cycle over the
    blocks of the replicated tree.  The cycle is a program that writes a trace:
    the calls to the DataNodes, the commands sent to the log, the marks of the
    copies in flight and what it records as lost or ignored.  What it observes
    of the outside is the record [RepWorld]. *)

From Stdlib Require Import QArith Qround.
From S2P Require Import Prelude Exceptions Dict Paths TreeData Tree TreeFacts Replicated.
From S2P Require Import TreeErrors TreeOps TreeInv TreeView TreeRefs Crypto BlockToken.

Open Scope Z_scope.

Record RepConfig := mkRep {
  replication_factor : Z;
  delay_s : Z;
  max_per_cycle : Z;
  max_attempts : nat;
  rep_key : option string
}.

(** [__init__]. *)
Definition rep_init (factor interval delay per_cycle base throughput : Z) (attempts : nat)
    (key : option string) : result exn RepConfig :=
  if (factor <? 1) || (interval <=? 0) || (delay <? 0) || (per_cycle <? 1) || (base <=? 0) ||
     (throughput <=? 0) || (Z.of_nat attempts <? 1)
  then Err PyError else Ok (mkRep factor delay per_cycle attempts key).

(** The [n] of [p_stop n], [p_leader_at n], ... is the position of the block in
    the snapshot of the tree; [p_copy] answers the checksum of the copy or the
    code of the [RpcError]. *)
Record RepWorld := mkRepWorld {
  p_leader : bool;
  p_barrier : bool;
  p_alive : list string;
  p_dead_for : string → option Z;
  p_stop : nat → bool;
  p_leader_at : nat → bool;
  p_time : nat → string → nat → Q;
  p_copy : nat → string → nat → list (string * string) → result StatusCode string;
  p_uuid : nat → string;
  p_commit : nat → nat → raw_outcome
}.

Inductive event :=
| EvMark (bid target : string)
| EvUnmark (bid target : string)
| EvCopy (source bid target : string) (metadata : list (string * string))
| EvCommit (op_id : string) (c : command)
| EvLost (path bid : string)
| EvIgnored (path : string).

(** The set [_in_flight] after the events of a trace. *)
Definition in_flight_step (s : gset (string * string)) (e : event) : gset (string * string) :=
  match e with
  | EvMark b t => {[(b, t)]} ∪ s
  | EvUnmark b t => s ∖ {[(b, t)]}
  | _ => s
  end.
Definition in_flight_copies (tr : list event) : gset (string * string) := foldl in_flight_step ∅ tr.

Definition is_mark (e : event) : bool :=
  match e with
  | EvMark _ _ => true
  | _ => false
  end.

(** Every copy and every commit of a copy happens while its pair is in flight. *)
Fixpoint guarded (s : gset (string * string)) (tr : list event) : Prop :=
  match tr with
  | [] => True
  | e :: tr' =>
      match e with
      | EvCopy _ b t _ => (b, t) ∈ s
      | EvCommit _ (CUpdateBlockReplicas _ b _ new) => ∃ t, last new = Some t ∧ (b, t) ∈ s
      | _ => True
      end ∧ guarded (in_flight_step s e) tr'
  end.

(** The lists the cycle leaves. *)
Definition lost_blocks (tr : list event) : list (string * string) :=
  omap (λ e, match e with EvLost p b => Some (p, b) | _ => None end) tr.
Definition ignored_deleted_paths (tr : list event) : list string :=
  omap (λ e, match e with EvIgnored p => Some p | _ => None end) tr.

(** Programs that write a trace and may raise. *)
Definition Out (A : Type) : Type := list event * result exn A.
#[global] Instance Out_ret : MRet Out := λ A a, ([], Ok a).
#[global] Instance Out_bind : MBind Out := λ A B f m,
  match m with
  | (tr, Ok a) => let out := f a in (tr ++ out.1, out.2)
  | (tr, Err e) => (tr, Err e)
  end.
Definition emit (e : event) : Out unit := ([e], Ok tt).
Definition of_result {A} (r : result exn A) : Out A := ([], r).
(** [try: m finally: emit e]. *)
Definition finally {A} (m : Out A) (e : event) : Out A := (m.1 ++ [e], m.2).

Section replicator.
Context (cfg : RepConfig) (w : RepWorld).

Definition _replicate_capabilities (bid : string) (now : Q) : result exn (list (string * string)) :=
  match rep_key cfg with
  | None => Ok []
  | Some key =>
      internal ← issue_internal key "replicate" INTERNAL_TTL_S now;
      block ← issue_block key bid "write" INTERNAL_TTL_S now;
      mret (capability_kwargs internal block)
  end.

(** [_replicate]: the attempts [attempt], [attempt + 1], ... *)
Fixpoint replicate_from (n : nat) (bid source target checksum : string) (fuel attempt : nat) : Out bool :=
  match fuel with
  | O => mret false
  | S fuel' =>
      md ← of_result (_replicate_capabilities bid (p_time w n source attempt));
      _ ← emit (EvCopy source bid target md);
      match p_copy w n source attempt md with
      | Ok chk => mret (bool_decide (chk = checksum))
      | Err code =>
          if negb (bool_decide (code ∈ [UNAVAILABLE; DEADLINE_EXCEEDED])) then mret false
          else if (S attempt =? max_attempts cfg)%nat then mret false
          else replicate_from n bid source target checksum fuel' (S attempt)
      end
  end.

Definition _replicate (n : nat) (bid source target checksum : string) : Out bool :=
  replicate_from n bid source target checksum (max_attempts cfg) 0.

(** [_commit_replicas]: the same [op_id] at every attempt. *)
Fixpoint commit_from (n : nat) (path bid : string) (expected new : list string) (fuel attempt : nat) : Out unit :=
  match fuel with
  | O => mret tt
  | S fuel' =>
      _ ← emit (EvCommit (p_uuid w n) (CUpdateBlockReplicas path bid expected new));
      match p_commit w n attempt with
      | Known (OutOk _) => mret tt
      | Unknown =>
          if (S attempt <? max_attempts cfg)%nat then commit_from n path bid expected new fuel' (S attempt)
          else mret tt
      | Known (OutError class) =>
          if bool_decide (class = "PathNotFoundError") then emit (EvIgnored path) else mret tt
      | Unavailable => mret tt
      end
  end.

Definition _commit_replicas (n : nat) (path bid : string) (expected new : list string) : Out unit :=
  commit_from n path bid expected new (max_attempts cfg) 0.

(** The loop over the live sources: the first copy that succeeds is committed. *)
Fixpoint copy_from (n : nat) (path : string) (b : BlockRecord) (target : string) (new sources : list string)
    : Out unit :=
  match sources with
  | [] => mret tt
  | source :: rest =>
      copied ← _replicate n (block_id b) source target (checksum b);
      if copied : bool then _commit_replicas n path (block_id b) (datanode_addresses b) new
      else copy_from n path b target new rest
  end.

Definition _dead_for_less (a : string) (d : Z) : bool :=
  match p_dead_for w a with
  | None => false
  | Some x => x <? d
  end.

Definition live_of (expected : list string) : list string := filter (λ a, a ∈ p_alive w) expected.
Definition recently_dead (expected : list string) : bool :=
  existsb (λ a, _dead_for_less a (delay_s cfg)) (filter (λ a, a ∉ p_alive w) expected).
Definition target_of (expected : list string) : option string :=
  head (filter (λ a, a ∉ expected) (p_alive w)).

(** One repair, from the mark to its removal. *)
Definition repair (n : nat) (path : string) (b : BlockRecord) (live : list string) (target : string) : Out unit :=
  _ ← emit (EvMark (block_id b) target);
  finally (copy_from n path b target (live ++ [target]) live) (EvUnmark (block_id b) target).

Fixpoint repair_loop (items : list (string * BlockRecord)) (n : nat) (completed : Z) : Out unit :=
  match items with
  | [] => mret tt
  | (path, b) :: items' =>
      if (max_per_cycle cfg <=? completed) || p_stop w n then mret tt
      else
        let expected := datanode_addresses b in
        let live := live_of expected in
        if replication_factor cfg <=? zlen live then repair_loop items' (S n) completed
        else if bool_decide (live = []) then
          _ ← emit (EvLost path (block_id b)); repair_loop items' (S n) completed
        else if recently_dead expected then repair_loop items' (S n) completed
        else
          match target_of expected with
          | None => repair_loop items' (S n) completed
          | Some target =>
              if negb (p_leader_at w n) then mret tt
              else
                _ ← repair n path b live target;
                repair_loop items' (S n) (completed + 1)
          end
  end.

Definition run_cycle (t : TreeState) : Out unit :=
  if negb (p_leader w) || negb (p_barrier w) then mret tt
  else repair_loop (iter_blocks t) 0 0.
End replicator.

(** * Lemmas *)

Lemma out_bind_ok {A B} (m : Out A) (f : A → Out B) tr a :
  m = (tr, Ok a) → mbind f m = (tr ++ (f a).1, (f a).2).
Proof. by intros ->. Qed.

(** The trace of a sequence: the first part, and the second when it is reached. *)
Lemma out_bind_trace {A B} (m : Out A) (f : A → Out B) :
  (∃ e, m.2 = Err e ∧ (mbind f m).1 = m.1) ∨ (∃ a, m.2 = Ok a ∧ (mbind f m).1 = m.1 ++ (f a).1).
Proof. destruct m as [tr [a|e]]; simpl; eauto. Qed.

Section replicator_lemmas.
Context (cfg : RepConfig) (w : RepWorld).

(** A copy of [bid] from [source] to [target] with the expected checksum. *)
Definition copied (n : nat) (bid source target chk : string) : Prop :=
  ∃ attempt md, _replicate_capabilities cfg bid (p_time w n source attempt) = Ok md ∧
    p_copy w n source attempt md = Ok chk.

Lemma replicate_spec n bid source target chk fuel attempt :
  let out := replicate_from cfg w n bid source target chk fuel attempt in
  Forall (λ e, ∃ md, e = EvCopy source bid target md) out.1 ∧
  (out.2 = Ok true → copied n bid source target chk).
Proof.
  revert attempt. induction fuel as [|fuel IH]; intros attempt; simpl; [done|].
  destruct (_replicate_capabilities cfg bid (p_time w n source attempt)) as [md|e] eqn:Hmd; simpl; [|done].
  destruct (p_copy w n source attempt md) as [k|code] eqn:Hcopy; simpl.
  - split; [repeat constructor; eauto|]. intros [= Hk%bool_decide_eq_true]. exists attempt, md. by subst.
  - destruct (IH (S attempt)) as [H1 H2].
    repeat case_match; simpl; (split; [repeat constructor; eauto|done]).
Qed.

Lemma commit_spec n path bid expected new fuel attempt :
  let out := commit_from cfg w n path bid expected new fuel attempt in
  Forall (λ e, e = EvCommit (p_uuid w n) (CUpdateBlockReplicas path bid expected new) ∨ e = EvIgnored path)
    out.1 ∧ out.2 = Ok tt.
Proof.
  revert attempt. induction fuel as [|fuel IH]; intros attempt; simpl; [done|].
  destruct (IH (S attempt)) as [H1 H2].
  repeat case_match; simpl; (split; [rewrite ?Forall_cons, ?Forall_nil; auto|done]).
Qed.

(** What the events of one repair may be, and when the commit may be among them. *)
Definition repair_event (n : nat) (path : string) (b : BlockRecord) (target : string)
    (new sources : list string) (e : event) : Prop :=
  (∃ source md, source ∈ sources ∧ e = EvCopy source (block_id b) target md) ∨
  (e = EvIgnored path ∨
   e = EvCommit (p_uuid w n) (CUpdateBlockReplicas path (block_id b) (datanode_addresses b) new)) ∧
  ∃ source, source ∈ sources ∧ copied n (block_id b) source target (checksum b).

Lemma copy_spec n path b target new sources :
  Forall (repair_event n path b target new sources) (copy_from cfg w n path b target new sources).1.
Proof.
  induction sources as [|source rest IH]; simpl; [done|].
  destruct (replicate_spec n (block_id b) source target (checksum b) (max_attempts cfg) 0) as [Hc Hok].
  fold (_replicate cfg w n (block_id b) source target (checksum b)) in Hc, Hok.
  assert (Forall (repair_event n path b target new (source :: rest))
    (_replicate cfg w n (block_id b) source target (checksum b)).1) as Hfst.
  { eapply Forall_impl; [exact Hc|]. intros e (md & ->). left. exists source, md. split; [by left|done]. }
  match goal with |- Forall _ (mbind ?f ?m).1 => destruct (out_bind_trace m f) as [(e & He & ->)|(c & Hc2 & ->)] end; [done|].
  apply Forall_app. split; [done|]. destruct c.
  - destruct (commit_spec n path (block_id b) (datanode_addresses b) new (max_attempts cfg) 0) as [H _].
    eapply Forall_impl; [exact H|]. intros e He. right. split; [naive_solver|].
    exists source. split; [by left|by apply Hok].
  - eapply Forall_impl; [exact IH|]. intros e [(s & md & Hs & ->)|(He & s & Hs & Hk)].
    + left. exists s, md. split; [by right|done].
    + right. split; [done|]. exists s. split; [by right|done].
Qed.

(** What the loop checked before it repairs the block at position [n]. *)
Record chosen (n : nat) (b : BlockRecord) (target : string) : Prop := mkChosen {
  ch_live : live_of w (datanode_addresses b) ≠ [];
  ch_short : zlen (live_of w (datanode_addresses b)) < replication_factor cfg;
  ch_dead : recently_dead cfg w (datanode_addresses b) = false;
  ch_target : target_of w (datanode_addresses b) = Some target;
  ch_leader : p_leader_at w n = true;
  ch_running : p_stop w n = false
}.

(** A part of the trace: a lost block, or a whole repair. *)
Definition repaired (items : list (string * BlockRecord)) (n0 : nat) (seg : list event) : Prop :=
  ∃ i path b target, items !! i = Some (path, b) ∧ chosen (n0 + i) b target ∧
    seg = (repair cfg w (n0 + i) path b (live_of w (datanode_addresses b)) target).1.
Definition lost (items : list (string * BlockRecord)) (seg : list event) : Prop :=
  ∃ path b, (path, b) ∈ items ∧ live_of w (datanode_addresses b) = [] ∧ seg = [EvLost path (block_id b)].

Lemma repaired_cons x items n seg : repaired items (S n) seg → repaired (x :: items) n seg.
Proof.
  intros (i & path & b & target & Hi & Hc & ->). exists (S i), path, b, target.
  rewrite Nat.add_succ_r. done.
Qed.

Definition marks (tr : list event) : Z := zlen (filter (λ e, is_mark e = true) tr).

Lemma marks_app tr1 tr2 : marks (tr1 ++ tr2) = marks tr1 + marks tr2.
Proof. unfold marks, zlen. rewrite filter_app, length_app. lia. Qed.

Lemma no_marks (P : event → Prop) tr : (∀ e, P e → is_mark e = false) → Forall P tr → marks tr = 0.
Proof.
  intros HP H. induction H as [|e tr He H IH]; [done|].
  change (e :: tr) with ([e] ++ tr). rewrite marks_app, IH.
  unfold marks. rewrite filter_cons_False by by rewrite HP. done.
Qed.

Lemma repair_event_no_mark n path b target new sources e :
  repair_event n path b target new sources e → is_mark e = false.
Proof. intros [(? & ? & _ & ->)|[[->| ->] _]]; done. Qed.

Lemma repair_trace n path b live target :
  (repair cfg w n path b live target).1 =
    EvMark (block_id b) target :: (copy_from cfg w n path b target (live ++ [target]) live).1 ++
      [EvUnmark (block_id b) target].
Proof. done. Qed.

Lemma repair_marks n path b live target : marks (repair cfg w n path b live target).1 = 1.
Proof.
  rewrite repair_trace. change (?e :: ?l) with ([e] ++ l). rewrite !marks_app.
  rewrite (no_marks _ (copy_from _ _ _ _ _ _ _ _).1 (repair_event_no_mark _ _ _ _ _ _) (copy_spec _ _ _ _ _ _)).
  done.
Qed.

Lemma loop_segments items n completed :
  completed ≤ max_per_cycle cfg →
  ∃ segs, (repair_loop cfg w items n completed).1 = concat segs ∧
    Forall (λ seg, repaired items n seg ∨ lost items seg) segs ∧
    marks (concat segs) ≤ max_per_cycle cfg - completed.
Proof.
  revert n completed. induction items as [|[path b] items IH]; intros n completed Hc; cbn [repair_loop].
  { exists []. split_and!; [done..|]. vm_compute marks. simpl. unfold marks, zlen. simpl. lia. }
  assert (∀ comp, comp ≤ max_per_cycle cfg → ∃ segs, (repair_loop cfg w items (S n) comp).1 = concat segs ∧
    Forall (λ seg, repaired ((path, b) :: items) n seg ∨ lost ((path, b) :: items) seg) segs ∧
    marks (concat segs) ≤ max_per_cycle cfg - comp) as Hrest.
  { intros comp Hle. destruct (IH (S n) comp Hle) as (segs & E & Hs & Hm). exists segs. split_and!; [done| |done].
    eapply Forall_impl; [exact Hs|]. intros seg [H|(p & b' & Hin & H)].
    - left. by apply repaired_cons.
    - right. exists p, b'. split; [by right|done]. }
  assert (∃ segs : list (list event), [] = concat segs ∧
    Forall (λ seg, repaired ((path, b) :: items) n seg ∨ lost ((path, b) :: items) seg) segs ∧
    marks (concat segs) ≤ max_per_cycle cfg - completed) as Hnil.
  { exists []. split_and!; [done..|]. unfold marks, zlen. simpl. lia. }
  destruct (Z.leb_spec (max_per_cycle cfg) completed); cbn [orb]; [done|].
  destruct (p_stop w n) eqn:Hstop; [done|].
  destruct (Z.leb_spec (replication_factor cfg) (zlen (live_of w (datanode_addresses b)))); [by apply Hrest|].
  case_bool_decide as Hlive.
  { destruct (Hrest completed ltac:(lia)) as (segs & E & Hs & Hm).
    exists ([EvLost path (block_id b)] :: segs). simpl. rewrite E. split_and!; [done| |done].
    constructor; [|done]. right. exists path, b. split; [by left|done]. }
  destruct (recently_dead cfg w (datanode_addresses b)) eqn:Hdead; [by apply Hrest|].
  destruct (target_of w (datanode_addresses b)) as [target|] eqn:Ht; [|by apply Hrest].
  destruct (p_leader_at w n) eqn:Hl; cbn [negb]; [|done].
  assert (repaired ((path, b) :: items) n
    (repair cfg w n path b (live_of w (datanode_addresses b)) target).1) as Hrep.
  { exists 0%nat, path, b, target. rewrite Nat.add_0_r. done. }
  pose proof (repair_marks n path b (live_of w (datanode_addresses b)) target) as Hone.
  match goal with |- context [mbind ?f ?m] => destruct (out_bind_trace m f) as [(e & He & ->)|([] & Hc2 & ->)] end.
  - exists [(repair cfg w n path b (live_of w (datanode_addresses b)) target).1].
    cbn [concat]. rewrite app_nil_r. split_and!; [done|constructor; [by left|done]|]. rewrite Hone. lia.
  - destruct (Hrest (completed + 1) ltac:(lia)) as (segs & -> & Hs & Hm).
    exists ((repair cfg w n path b (live_of w (datanode_addresses b)) target).1 :: segs).
    cbn [concat]. split_and!; [done|constructor; [by left|done]|]. rewrite marks_app, Hone. lia.
Qed.

Lemma guarded_app s tr1 tr2 : guarded s (tr1 ++ tr2) ↔ guarded s tr1 ∧ guarded (foldl in_flight_step s tr1) tr2.
Proof. revert s. induction tr1 as [|e tr1 IH]; intros s; simpl; [tauto|]. rewrite IH. tauto. Qed.

Lemma repair_events_guarded n path b target sources s tr :
  (block_id b, target) ∈ s →
  Forall (repair_event n path b target (sources ++ [target]) sources) tr →
  guarded s tr ∧ foldl in_flight_step s tr = s.
Proof.
  intros Hin H. induction H as [|e tr He H IH]; simpl; [done|].
  destruct He as [(src & md & _ & ->)|[[->| ->] _]]; simpl; [tauto..|].
  split; [|tauto]. split; [|tauto]. exists target. by rewrite last_snoc.
Qed.

Lemma segment_guarded items n seg :
  repaired items n seg ∨ lost items seg → guarded ∅ seg ∧ in_flight_copies seg = ∅.
Proof.
  intros [(i & path & b & target & _ & _ & ->)|(path & b & _ & _ & ->)]; [|done].
  rewrite repair_trace. unfold in_flight_copies. simpl. rewrite guarded_app, foldl_app. simpl.
  destruct (repair_events_guarded (n + i) path b target (live_of w (datanode_addresses b))
    ({[(block_id b, target)]} ∪ ∅) _ ltac:(set_solver) (copy_spec _ _ _ _ _ _)) as [Hg ->].
  split; [tauto|]. set_solver.
Qed.

Lemma segments_guarded items n segs :
  Forall (λ seg, repaired items n seg ∨ lost items seg) segs →
  guarded ∅ (concat segs) ∧ in_flight_copies (concat segs) = ∅.
Proof.
  intros H. induction H as [|seg segs Hseg H [IH1 IH2]]; simpl; [done|].
  destruct (segment_guarded _ _ _ Hseg) as [Hg He]. unfold in_flight_copies in *.
  by rewrite guarded_app, foldl_app, He.
Qed.

Lemma run_cycle_segments t :
  0 ≤ max_per_cycle cfg →
  (run_cycle cfg w t).1 = [] ∨
  p_leader w = true ∧ p_barrier w = true ∧
  ∃ segs, (run_cycle cfg w t).1 = concat segs ∧
    Forall (λ seg, repaired (iter_blocks t) 0 seg ∨ lost (iter_blocks t) seg) segs ∧
    marks (concat segs) ≤ max_per_cycle cfg.
Proof.
  intros Hmax. unfold run_cycle. destruct (p_leader w), (p_barrier w); simpl; try (by left).
  right. split_and!; [done..|].
  destruct (loop_segments (iter_blocks t) 0 0 Hmax) as (segs & E & Hs & Hm).
  exists segs. split_and!; [done..|]. lia.
Qed.

Lemma commit_in_segments items segs op c :
  Forall (λ seg, repaired items 0 seg ∨ lost items seg) segs → EvCommit op c ∈ concat segs →
  ∃ n path b target source, items !! n = Some (path, b) ∧ chosen n b target ∧
    op = p_uuid w n ∧
    c = CUpdateBlockReplicas path (block_id b) (datanode_addresses b)
          (live_of w (datanode_addresses b) ++ [target]) ∧
    source ∈ live_of w (datanode_addresses b) ∧ copied n (block_id b) source target (checksum b).
Proof.
  intros Hs (seg & Hseg & Hin)%elem_of_concat. rewrite Forall_forall in Hs.
  destruct (Hs seg Hseg) as [(i & path & b & target & Hi & Hc & ->)|(path & b & _ & _ & ->)];
    [|by apply list_elem_of_singleton in Hin].
  rewrite repair_trace in Hin. apply elem_of_cons in Hin as [?|Hin]; [done|].
  apply elem_of_app in Hin as [Hin|Hin]; [|by apply list_elem_of_singleton in Hin].
  pose proof (copy_spec (0 + i) path b target (live_of w (datanode_addresses b) ++ [target])
    (live_of w (datanode_addresses b))) as Hcopy. rewrite Forall_forall in Hcopy.
  destruct (Hcopy _ Hin) as [(? & ? & _ & ?)|[[?|[= -> ->]] (source & Hsrc & Hcp)]]; [done..|].
  exists i, path, b, target, source. done.
Qed.

(** ** Progress *)

Definition key_ok (bid : string) : Prop := rep_key cfg = None ∨ is_block_id bid = true.

Lemma capabilities_ok bid now : key_ok bid → ∃ md, _replicate_capabilities cfg bid now = Ok md.
Proof.
  unfold _replicate_capabilities. intros [->|Hb]; [by eexists|]. destruct (rep_key cfg); [|by eexists].
  unfold issue_internal, issue_block. rewrite Hb. by eexists.
Qed.

Lemma replicate_ok n bid source target chk fuel attempt :
  key_ok bid → ∃ c, (replicate_from cfg w n bid source target chk fuel attempt).2 = Ok c.
Proof.
  intros Hk. revert attempt. induction fuel as [|fuel IH]; intros attempt; simpl; [by eexists|].
  destruct (capabilities_ok bid (p_time w n source attempt) Hk) as [md ->]. simpl.
  destruct (IH (S attempt)) as [c Hc]. repeat case_match; simpl; by eexists.
Qed.

Lemma copy_ok n path b target new sources :
  key_ok (block_id b) → (copy_from cfg w n path b target new sources).2 = Ok tt.
Proof.
  intros Hk. induction sources as [|source rest IH]; simpl; [done|].
  destruct (replicate_ok n (block_id b) source target (checksum b) (max_attempts cfg) 0 Hk) as [c Hc].
  unfold _replicate. destruct (replicate_from _ _ _ _ _ _ _ _ _) as [tr r]. simpl in Hc. rewrite Hc. simpl.
  destruct c; [|done]. by destruct (commit_spec n path (block_id b) (datanode_addresses b) new (max_attempts cfg) 0).
Qed.

(** A source that gives the right copy at the first attempt. *)
Definition good_source (n : nat) (b : BlockRecord) (source : string) : Prop :=
  ∀ md, p_copy w n source 0 md = Ok (checksum b).

Lemma commit_emits n path bid expected new :
  (0 < max_attempts cfg)%nat →
  EvCommit (p_uuid w n) (CUpdateBlockReplicas path bid expected new)
    ∈ (_commit_replicas cfg w n path bid expected new).1.
Proof. unfold _commit_replicas. destruct (max_attempts cfg); [lia|]. intros _. simpl. by left. Qed.

Lemma copy_commits n path b target new sources :
  key_ok (block_id b) → (0 < max_attempts cfg)%nat →
  (∃ source, source ∈ sources ∧ good_source n b source) →
  EvCommit (p_uuid w n) (CUpdateBlockReplicas path (block_id b) (datanode_addresses b) new)
    ∈ (copy_from cfg w n path b target new sources).1.
Proof.
  intros Hk Hm (source & Hin & Hgood). induction sources as [|x rest IH]; [by apply not_elem_of_nil in Hin|].
  simpl. destruct (replicate_ok n (block_id b) x target (checksum b) (max_attempts cfg) 0 Hk) as [c Hc].
  fold (_replicate cfg w n (block_id b) x target (checksum b)) in Hc.
  destruct (_replicate cfg w n (block_id b) x target (checksum b)) as [tr r] eqn:E. simpl in Hc. subst r. simpl.
  apply elem_of_app. right. destruct c; [by apply commit_emits|].
  apply elem_of_cons in Hin as [<-|Hin]; [|by apply IH]. exfalso.
  destruct (capabilities_ok (block_id b) (p_time w n source 0) Hk) as [md Hmd].
  unfold _replicate in E. destruct (max_attempts cfg); [lia|]. simpl in E. rewrite Hmd in E. simpl in E.
  rewrite Hgood in E. simpl in E. rewrite bool_decide_true in E by done. congruence.
Qed.

Lemma repair_ok n path b live target : key_ok (block_id b) → (repair cfg w n path b live target).2 = Ok tt.
Proof. intros Hk. simpl. by apply copy_ok. Qed.

Lemma loop_reaches items n completed i path b target :
  (∀ k, p_stop w k = false) → (∀ k, p_leader_at w k = true) →
  (∀ p x, (p, x) ∈ items → key_ok (block_id x)) → (0 < max_attempts cfg)%nat →
  items !! i = Some (path, b) → completed + Z.of_nat i < max_per_cycle cfg →
  chosen (n + i) b target →
  (∃ source, source ∈ live_of w (datanode_addresses b) ∧ good_source (n + i) b source) →
  EvCommit (p_uuid w (n + i)) (CUpdateBlockReplicas path (block_id b) (datanode_addresses b)
      (live_of w (datanode_addresses b) ++ [target]))
    ∈ (repair_loop cfg w items n completed).1.
Proof.
  intros Hstop Hlead Hkey Hm. revert i n completed.
  induction items as [|[p x] items IH]; intros i n completed Hi Hmax Hch Hsrc; [done|].
  cbn [repair_loop]. destruct (Z.leb_spec (max_per_cycle cfg) completed); [lia|].
  rewrite Hstop, Hlead. cbn [orb negb].
  assert (∀ p y, (p, y) ∈ items → key_ok (block_id y)) as Hkey' by (intros; eapply Hkey; by right).
  assert (key_ok (block_id x)) as Hkx by (eapply Hkey; by left).
  destruct i as [|i]; simpl in Hi.
  - injection Hi as -> ->. rewrite Nat.add_0_r in Hch, Hsrc |- *. destruct Hch as [Hlive Hshort Hdead Htgt _ _].
    destruct (Z.leb_spec (replication_factor cfg) (zlen (live_of w (datanode_addresses b)))); [lia|].
    rewrite bool_decide_false by done. rewrite Hdead, Htgt.
    match goal with |- _ ∈ (mbind ?f ?m).1 => destruct (out_bind_trace m f) as [(e & He & _)|([] & _ & ->)] end.
    { by rewrite repair_ok in He. }
    apply elem_of_app. left. rewrite repair_trace. right. apply elem_of_app. left. by apply copy_commits.
  - assert (∀ comp, comp ≤ completed + 1 →
      EvCommit (p_uuid w (n + S i)) (CUpdateBlockReplicas path (block_id b) (datanode_addresses b)
        (live_of w (datanode_addresses b) ++ [target])) ∈ (repair_loop cfg w items (S n) comp).1) as Hrest.
    { intros comp Hc. rewrite Nat.add_succ_r in Hch, Hsrc |- *. apply (IH Hkey' i (S n) comp); try done. lia. }
    destruct (_ <=? _); [apply Hrest; lia|].
    case_bool_decide; [simpl; right; apply Hrest; lia|].
    destruct (recently_dead _ _ _); [apply Hrest; lia|].
    destruct (target_of w (datanode_addresses x)) as [tx|]; [|apply Hrest; lia].
    match goal with |- _ ∈ (mbind ?f ?m).1 => destruct (out_bind_trace m f) as [(e & He & _)|([] & _ & ->)] end.
    { by rewrite repair_ok in He. }
    apply elem_of_app. right. apply Hrest. lia.
Qed.
End replicator_lemmas.

Lemma live_of_elem w l a : a ∈ live_of w l ↔ a ∈ l ∧ a ∈ p_alive w.
Proof. unfold live_of. rewrite list_elem_of_filter. tauto. Qed.

Lemma target_of_elem w l a : target_of w l = Some a → a ∈ p_alive w ∧ a ∉ l.
Proof.
  unfold target_of. intros H. assert (a ∈ filter (λ x, x ∉ l) (p_alive w)) as Hin.
  { destruct (filter _ _); [done|]. simplify_eq/=. by left. }
  apply list_elem_of_filter in Hin. tauto.
Qed.

(** The command of a repair applied to the tree it was computed from. *)
Lemma update_block_replicas_lands t path b new :
  tree_wf t → (path, b) ∈ iter_blocks t →
  (∀ b', (path, b') ∈ iter_blocks t → block_id b' = block_id b → b' = b) →
  ∃ t', update_block_replicas path (block_id b) (datanode_addresses b) new t = (t', Ok tt) ∧
    (path, set_addresses new b) ∈ iter_blocks t'.
Proof.
  intros Hwf Hin Huniq. pose proof Hin as (ps & f & Hv & Hf & Hb & Hpath & Hp)%(iter_blocks_spec _ _ _ Hwf).
  pose proof Hv as Hg%view_file.
  assert (∃ i, list_find (λ x, block_id x = block_id b) (blocks f) = Some (i, b)) as [i Hfind].
  { destruct (list_find (λ x, block_id x = block_id b) (blocks f)) as [[i x]|] eqn:E.
    - exists i. pose proof E as (Hx & Hid & _)%list_find_Some. rewrite (Huniq x); [done| |done].
      apply (iter_blocks_spec _ _ _ Hwf). exists ps, f. split_and!; try done. by eapply list_elem_of_lookup_2.
    - apply list_find_None in E. rewrite Forall_forall in E. by destruct (E b Hb). }
  assert (update_block_replicas path (block_id b) (datanode_addresses b) new t =
    (put_file ps (with_blocks (<[i := set_addresses new b]> (blocks f)) f) t, Ok tt)) as Hrun.
  { unfold update_block_replicas, _get_committed_file, committed_file.
    rewrite (bind_ok _ _ t t f).
    2: { unfold asks. rewrite Hp. unfold mbind, result_bind. rewrite Hg. by rewrite decide_True. }
    rewrite (bind_ok _ _ t t ps) by by rewrite Hp. rewrite Hfind.
    rewrite (bind_ok _ _ t t tt) by by unfold ensure; rewrite bool_decide_true. done. }
  eexists. split; [exact Hrun|].
  pose proof (update_block_replicas_wf _ _ _ _ _ _ _ Hrun Hwf) as Hwf'.
  apply (iter_blocks_spec _ _ _ Hwf').
  eexists ps, _. split_and!; [rewrite (view_put_file _ f) by done; unfold vset; by rewrite decide_True
    |done| |done|done].
  simpl. apply list_find_Some in Hfind as (Hi & _ & _). apply list_elem_of_lookup. exists i.
  by rewrite list_lookup_insert_eq by by eapply lookup_lt_Some.
Qed.

(** Every command a cycle sends is a justified repair: the node led and its
    barrier passed, the block is published with the replicas the command
    expects, fewer than the factor but some of them are alive, no dead one died
    less than the delay ago, and the new list is the alive ones followed by an
    alive node that did not have the block, onto which a DataNode confirmed a
    copy with the checksum of the metadata.  A cycle makes at most
    [max_per_cycle] repairs, and each copy and each command happens while the
    pair (block, target) is marked in flight; nothing stays marked. *)
Theorem rep_safe cfg w t :
  0 ≤ max_per_cycle cfg → let tr := (run_cycle cfg w t).1 in
  (∀ op c, EvCommit op c ∈ tr → p_leader w = true ∧ p_barrier w = true ∧
     ∃ n path b target source,
       c = CUpdateBlockReplicas path (block_id b) (datanode_addresses b)
             (live_of w (datanode_addresses b) ++ [target]) ∧
       iter_blocks t !! n = Some (path, b) ∧
       0 < zlen (live_of w (datanode_addresses b)) < replication_factor cfg ∧
       recently_dead cfg w (datanode_addresses b) = false ∧
       target ∈ p_alive w ∧ target ∉ datanode_addresses b ∧ p_leader_at w n = true ∧
       source ∈ datanode_addresses b ∧ source ∈ p_alive w ∧
       copied cfg w n (block_id b) source target (checksum b)) ∧
  (∀ path bid, EvLost path bid ∈ tr →
     ∃ b, (path, b) ∈ iter_blocks t ∧ block_id b = bid ∧ ∀ a, a ∈ datanode_addresses b → a ∉ p_alive w) ∧
  marks tr ≤ max_per_cycle cfg ∧ guarded ∅ tr ∧ in_flight_copies tr = ∅.
Proof.
  intros Hmax tr. destruct (run_cycle_segments cfg w t Hmax) as [E|(Hl & Hb & segs & E & Hs & Hm)];
    subst tr; rewrite E.
  { split_and!; [|intros; by apply not_elem_of_nil in H| |done|done]; [intros op c H; by apply not_elem_of_nil in H|].
    unfold marks, zlen. simpl. lia. }
  split_and!; [| |done|by eapply segments_guarded..].
  - intros op c Hin.
    destruct (commit_in_segments _ _ _ _ _ _ Hs Hin)
      as (n & path & b & target & source & Hn & [Hlive Hshort Hdead Ht Hlead _] & _ & -> & Hsrc & Hc).
    split_and!; [done..|]. exists n, path, b, target, source.
    apply target_of_elem in Ht as [Hta Htn]. apply live_of_elem in Hsrc as [Hsrc Hsa].
    assert (0 < zlen (live_of w (datanode_addresses b))).
    { unfold zlen. destruct (live_of w (datanode_addresses b)); [done|]. simpl. lia. }
    split_and!; done.
  - intros path bid (seg & Hseg & Hin)%elem_of_concat. rewrite Forall_forall in Hs.
    destruct (Hs seg Hseg) as [(i & p & b & target & _ & _ & ->)|(p & b & Hpb & Hlive & ->)].
    + exfalso. rewrite repair_trace in Hin. apply elem_of_cons in Hin as [?|Hin]; [done|].
      apply elem_of_app in Hin as [Hin|Hin]; [|by apply list_elem_of_singleton in Hin].
      pose proof (copy_spec cfg w (0 + i) p b target (live_of w (datanode_addresses b) ++ [target])
        (live_of w (datanode_addresses b))) as Hcopy. rewrite Forall_forall in Hcopy.
      by destruct (Hcopy _ Hin) as [(? & ? & _ & ?)|[[?|?] _]].
    + apply list_elem_of_singleton in Hin as [= -> ->]. exists b. split_and!; [done..|].
      intros a Ha Hal. assert (a ∈ live_of w (datanode_addresses b)) as H by by apply live_of_elem.
      rewrite Hlive in H. by apply not_elem_of_nil in H.
Qed.

(** The demo tree with [d2] dead: [n0] gets a copy on [d3], [n1] is lost. *)
Definition demo_rep : RepConfig := mkRep 2 30 4 3 None.
Definition demo_rep_world : RepWorld :=
  mkRepWorld true true ["d1"; "d3"] (λ a, if decide (a = "d2") then Some 60 else None)
    (λ _, false) (λ _, true) (λ _ _ _, 0%Q) (λ _ _ _ _, Ok "k0") (λ _, "op") (λ _ _, Known (OutOk VNone)).

Lemma rep_safe_witness :
  (run_cycle demo_rep demo_rep_world (demo 8)).1 =
    [EvMark "n0" "d3"; EvCopy "d1" "n0" "d3" [];
     EvCommit "op" (CUpdateBlockReplicas "/home/doc" "n0" ["d1"] ["d1"; "d3"]); EvUnmark "n0" "d3";
     EvLost "/home/doc" "n1"] ∧
  marks (run_cycle demo_rep demo_rep_world (demo 8)).1 ≤ 4.
Proof.
  split; [vm_compute; reflexivity|].
  apply (proj1 (proj2 (proj2 (rep_safe demo_rep demo_rep_world (demo 8) ltac:(vm_compute; discriminate))))).
Defined.

(** C19. Repairs are made and have effect.  In a cycle of a leader that keeps the
    lead, a block with fewer alive replicas than the factor but some, whose
    dead replicas have all been dead for the delay, for which there is an alive
    node without it and a source that answers with the right copy, is repaired
    when fewer than [max_per_cycle] blocks come before it; and the command sent,
    applied to the tree it was computed from, is accepted and puts the block on
    the alive replicas and the new node, one alive replica more than before. *)
Theorem rep_repairs cfg w s n path b target :
  tree_wf (tree s) → p_leader w = true → p_barrier w = true →
  (∀ k, p_stop w k = false) → (∀ k, p_leader_at w k = true) → (0 < max_attempts cfg)%nat →
  (∀ p x, (p, x) ∈ iter_blocks (tree s) → rep_key cfg = None ∨ is_block_id (block_id x) = true) →
  iter_blocks (tree s) !! n = Some (path, b) → Z.of_nat n < max_per_cycle cfg →
  (∀ b', (path, b') ∈ iter_blocks (tree s) → block_id b' = block_id b → b' = b) →
  0 < zlen (live_of w (datanode_addresses b)) < replication_factor cfg →
  recently_dead cfg w (datanode_addresses b) = false →
  target_of w (datanode_addresses b) = Some target →
  (∃ source, source ∈ live_of w (datanode_addresses b) ∧ good_source w n b source) →
  dict_get (p_uuid w n) (applied_ops s) = None →
  let new := live_of w (datanode_addresses b) ++ [target] in
  let c := CUpdateBlockReplicas path (block_id b) (datanode_addresses b) new in
  EvCommit (p_uuid w n) c ∈ (run_cycle cfg w (tree s)).1 ∧
  ∃ s', apply (p_uuid w n) c s = (s', OutOk VNone) ∧
    (path, set_addresses new b) ∈ iter_blocks (tree s') ∧
    (∀ a, a ∈ new → a ∈ p_alive w) ∧ zlen new = zlen (live_of w (datanode_addresses b)) + 1.
Proof.
  intros Hwf Hl Hb Hstop Hlead Hm Hkey Hn Hmax Huniq Hshort Hdead Ht Hsrc Hop new c.
  assert (path_b : (path, b) ∈ iter_blocks (tree s)) by by eapply list_elem_of_lookup_2.
  split.
  - unfold run_cycle. rewrite Hl, Hb. cbn [negb orb].
    apply (loop_reaches cfg w (iter_blocks (tree s)) 0 0 n path b target); try done.
    constructor; try done; [|by destruct Hshort].
    intros E. rewrite E in Hshort. unfold zlen in Hshort. simpl in Hshort. lia.
  - destruct (update_block_replicas_lands (tree s) path b new Hwf path_b Huniq) as (t' & Hrun & Hin').
    assert (dispatch c (tree s) = (t', OutOk VNone)) as Hd.
    { unfold dispatch. rewrite bool_decide_true by (simpl; set_solver). unfold c, run_command, as_none.
      by rewrite (bind_ok _ _ _ _ _ Hrun). }
    unfold apply. rewrite Hop, Hd. eexists. split_and!; [done|done| |].
    + intros a [Ha|Ha]%elem_of_app; [by apply live_of_elem in Ha as []|].
      apply list_elem_of_singleton in Ha as ->. by apply target_of_elem in Ht as [].
    + unfold new, zlen. rewrite length_app. simpl. lia.
Qed.

Lemma rep_repairs_witness :
  EvCommit "op" (CUpdateBlockReplicas "/home/doc" "n0" ["d1"] ["d1"; "d3"]) ∈
    (run_cycle demo_rep demo_rep_world (demo 8)).1.
Proof.
  apply (rep_repairs demo_rep demo_rep_world (apply_log demo_log replicated_init) 0 "/home/doc"
    (mkBlock "n0" ["d1"] "k0" 4 true) "d3" (demo_ok 8) eq_refl eq_refl (λ _, eq_refl) (λ _, eq_refl)).
  - vm_compute. lia.
  - intros. by left.
  - vm_compute. reflexivity.
  - vm_compute. reflexivity.
  - intros b' Hin Hid. assert (iter_blocks (tree (apply_log demo_log replicated_init)) =
      [("/home/doc", mkBlock "n0" ["d1"] "k0" 4 true); ("/home/doc", mkBlock "n1" ["d2"] "k1" 2 true)]) as E
      by (vm_compute; reflexivity).
    rewrite E in Hin. apply elem_of_cons in Hin as [[= ->]|Hin]; [reflexivity|].
    apply list_elem_of_singleton in Hin as [= ->]. discriminate Hid.
  - split; vm_compute; reflexivity.
  - vm_compute. reflexivity.
  - vm_compute. reflexivity.
  - exists "d1". split; [vm_compute; by left|]. intros md. reflexivity.
  - vm_compute. reflexivity.
Defined.
