(* ===== verification/Servicer.v ===== *)
(** [ControlNodeServicer] (dfsha/control_node/servicer.py), the machinery its
    RPCs share: authentication, leadership and barrier, the commit of a command,
    the choice of replicas, the translation of addresses and the deletion of
    blocks.

    An RPC is a program in the state-and-error monad.  Its state is the node:
    the replicated tree, the round-robin offset, a counter of observations and
    the trace of what it sends.  What it observes of the outside is the record
    [Env], read at successive ticks; between two observations the log may bring
    commands of other clients ([others_at]). *)

From Stdlib Require Import QArith Qround.
From S2P Require Import Prelude Exceptions Dict Paths TreeData Tree Replicated.
From S2P Require Import Crypto BlockToken Addresses Auth.

Open Scope Z_scope.

Definition MAX_PASSWORD_CHARS : Z := 1024.
Definition MAX_USER_GROUPS : Z := 16.
Definition BOOTSTRAP_ADMIN_OP_ID : string := "bootstrap-admin".
Definition ADMIN_USERNAME : string := "admin".
Definition _DECOY_HASH : string := string_of (repeat 0 32).
Definition _DECOY_SALT : string := string_of (repeat 0 16).

Definition _ERROR_STATUS_MAP : list (exn * StatusCode) :=
  [(PathNotFoundError, NOT_FOUND); (PathExistsError, ALREADY_EXISTS);
   (NotEmptyError, FAILED_PRECONDITION); (InvalidPathError, PERMISSION_DENIED);
   (NotAFileError, INVALID_ARGUMENT); (NotADirectoryError, INVALID_ARGUMENT);
   (ConflictError, ABORTED); (AccessDeniedError, PERMISSION_DENIED);
   (AuthError, UNAUTHENTICATED)].

Fixpoint status_in (e : exn) (m : list (exn * StatusCode)) : StatusCode :=
  match m with
  | [] => UNKNOWN
  | (e', code) :: m' => if decide (e' = e) then code else status_in e m'
  end.
Definition status_of (e : exn) : StatusCode := status_in e _ERROR_STATUS_MAP.

(** How an RPC ends without an answer: an exception that reaches gRPC, which
    reports it as [UNKNOWN], or an abort with its code and the [dfsha-error] of
    its trailing metadata.  [Insufficient] is [InsufficientLiveDataNodes]. *)
Inductive rpc_exn :=
| Raised (e : exn)
| Insufficient
| Aborted (code : StatusCode) (error : option string).

Record Config := mkConfig {
  c_datanodes : list string;
  c_block_size : Z;
  c_replication_factor : Z;
  c_min_write_replicas : Z;
  c_upload_lease : Z;
  c_lock_lease : Z;
  c_jwt_secret : option string;
  c_token_ttl : Q;
  c_capability_key : option string;
  c_capability_ttl : Q;
  c_public_addresses : list (string * string);
  c_monitored : bool
}.

(** The checks of [__init__]. *)
Definition servicer_init (cfg : Config) : result exn Config :=
  if Qle_bool (c_token_ttl cfg) 0 || Qle_bool (c_capability_ttl cfg) 0 ||
     bool_decide (c_datanodes cfg = []) || (c_replication_factor cfg <? 1) ||
     negb ((1 <=? c_min_write_replicas cfg) && (c_min_write_replicas cfg <=? c_replication_factor cfg)) ||
     (zlen (c_datanodes cfg) <? c_min_write_replicas cfg)
  then Err PyError else Ok cfg.

(** The fate of a command given to Raft: applied and answered, applied but
    answered with a [SyncObjException], or never applied. *)
Inductive raft_answer := RaftOk | RaftLate | RaftLost.

Record Env := mkEnv {
  leader_at : nat → bool;
  others_at : nat → list (string * command);
  raft_at : nat → raft_answer;
  clock_at : nat → Z;
  seconds : Z → Q;
  uuid_at : nat → string;
  salt_at : nat → string;
  alive_at : nat → list string;
  inventory_at : nat → result StatusCode (list (string * Z * Z))
}.

(** The gRPC context: the metadata of the call and the name of the peer. *)
Record Ctx := mkCtx {
  metadata : list (string * string);
  peer : string
}.

Inductive sent_event :=
| Sent (key : string) (c : command)
| Deleted (address bid : string) (md : list (string * string))
| Listed (address : string) (md : list (string * string)).

Record Node := mkNode {
  replicated : ReplicatedTree;
  next_offset : Z;
  tick : nat;
  sent : list sent_event
}.

Notation H := (M Node rpc_exn).

Definition with_replicated (r : ReplicatedTree) (s : Node) : Node :=
  mkNode r (next_offset s) (tick s) (sent s).
Definition with_offset (o : Z) (s : Node) : Node := mkNode (replicated s) o (tick s) (sent s).
Definition emit (e : sent_event) : H unit :=
  modify (λ s, mkNode (replicated s) (next_offset s) (tick s) (sent s ++ [e])).

(** One observation: [f] at the current tick. *)
Definition observe {A} (f : nat → A) : H A := λ s,
  (mkNode (replicated s) (next_offset s) (S (tick s)) (sent s), Ok (f (tick s))).

Definition raise_ (e : exn) : H unit := raise (Raised e).
Definition lift_ {A} (r : result exn A) : H A :=
  match r with
  | Ok a => mret a
  | Err e => raise (Raised e)
  end.
Definition abort {A} (code : StatusCode) : H A := raise (Aborted code None).
Definition _abort_on_domain_error {A} (e : exn) : H A :=
  raise (Aborted (status_of e) (Some (class_name e))).

(** [try: m except es as exc: _abort_on_domain_error(context, exc)]. *)
Definition catching {A} (es : list exn) (m : H A) : H A := λ s,
  match m s with
  | (s', Err (Raised e)) => if decide (e ∈ es) then _abort_on_domain_error e s' else (s', Err (Raised e))
  | r => r
  end.

(** [try: m except InsufficientLiveDataNodes: context.abort(UNAVAILABLE)]. *)
Definition catching_insufficient {A} (m : H A) : H A := λ s,
  match m s with
  | (s', Err Insufficient) => (s', Err (Aborted UNAVAILABLE None))
  | r => r
  end.

(** [dict(context.invocation_metadata()).get(key)]. *)
Definition meta_get (key : string) (ctx : Ctx) : option string :=
  dict_get key (foldl (λ d p, dict_set p.1 p.2 d) [] (metadata ctx)).

Definition lower_char (a : ascii) : ascii :=
  let n := N_of_ascii a in
  if ((65 <=? n) && (n <=? 90))%N then ascii_of_N (n + 32) else a.
Fixpoint lower (s : string) : string :=
  match s with
  | EmptyString => EmptyString
  | String a s' => String (lower_char a) (lower s')
  end.

Definition space : ascii := " "%char.

(** [header.partition(" ")]: scheme and the rest. *)
Definition scheme_token (header : string) : string * string :=
  match partition space header with
  | Some (l, r) => (l, r)
  | None => (header, "")
  end.

(** [getattr(exceptions, class_name, exceptions.DFShaError)]. *)
Definition exn_named (name : string) : exn :=
  default DFShaError (list_find (λ e, class_name e = name) domain_errors ≫= λ p, Some p.2).

Definition _caller (p : option Principal) : option Caller :=
  match p with
  | None => None
  | Some q => Some (username q, groups q, is_admin q)
  end.

(** The key of the log: the [op_id] tied to who calls. *)
Definition op_key (p : option Principal) (op_id : string) : string :=
  match p with
  | None => op_id
  | Some q => username q +:+ ":" +:+ op_id
  end.

Section servicer.
Context `{!Jwt} (cfg : Config) (env : Env) (ctx : Ctx).

Definition now_ : H Z := observe (clock_at env).

Definition _for_client (addresses : list string) (pipeline : bool) : list string :=
  if bool_decide (c_public_addresses cfg = []) then addresses
  else if bool_decide (meta_get ADDRESS_VIEW_METADATA_KEY ctx = Some INTERNAL_VIEW) then addresses
  else
    let translated := (λ a, default a (dict_get a (c_public_addresses cfg))) <$> addresses in
    if pipeline then take 1 translated ++ drop 1 addresses else translated.

Definition _authenticate : H (option Principal) :=
  match c_jwt_secret cfg with
  | None => mret None
  | Some secret =>
      let st := scheme_token (default "" (meta_get "authorization" ctx)) in
      if negb (bool_decide (lower st.1 = "bearer")) || bool_decide (str_strip st.2 = "")
      then _abort_on_domain_error AuthError
      else
        t ← now_;
        match verify_token secret (str_strip st.2) (seconds env t) with
        | Ok p => mret (Some p)
        | Err AuthError => _abort_on_domain_error AuthError
        | Err e => raise (Raised e)
        end
  end.

Definition _block_capability (bid op : string) (ttl : Q) : H string :=
  match c_capability_key cfg with
  | None => mret ""
  | Some key => t ← now_; lift_ (issue_block key bid op ttl (seconds env t))
  end.

Definition _require_leader : H unit :=
  b ← observe (leader_at env);
  if b : bool then mret tt else abort UNAVAILABLE.

(** The log reaches this node: the commands of others come first. *)
Definition sync_others : H raft_answer := λ s,
  let n := tick s in
  (mkNode (apply_log (others_at env n) (replicated s)) (next_offset s) (S n) (sent s), Ok (raft_at env n)).

Definition _read_barrier_raw : H bool :=
  b ← observe (leader_at env);
  if b : bool then
    r ← sync_others;
    mret (match r with RaftOk => true | _ => false end)
  else mret false.

Definition _read_barrier : H unit :=
  _ ← _require_leader;
  ok ← _read_barrier_raw;
  if ok : bool then mret tt else abort UNAVAILABLE.

Definition apply_here (key : string) (c : command) : H outcome := λ s,
  let out := apply key c (replicated s) in (with_replicated out.1 s, Ok out.2).

Definition _commit_raw (key : string) (c : command) : H raw_outcome :=
  b ← observe (leader_at env);
  if b : bool then
    _ ← emit (Sent key c);
    r ← sync_others;
    match r with
    | RaftOk => o ← apply_here key c; mret (Known o)
    | RaftLate => _ ← apply_here key c; mret Unknown
    | RaftLost => mret Unknown
    end
  else mret Unavailable.

Definition _commit (op_id : string) (c : command) : H value :=
  _ ← (if bool_decide (op_id = "") then abort INVALID_ARGUMENT else mret tt);
  _ ← _require_leader;
  p ← _authenticate;
  o ← _commit_raw (op_key p op_id) c;
  match o with
  | Unknown | Unavailable => abort UNAVAILABLE
  | Known (OutError class) => raise (Raised (exn_named class))
  | Known (OutOk v) => mret v
  end.

(** [alive[(start + i) % len(alive)] for i in range(count)]. *)
Definition rotation (alive : list string) (start count : Z) : list string :=
  omap (λ i, alive !! Z.to_nat ((start + i) mod zlen alive)) (zrange 0 count).

Definition _pick_replicas : H (list string) :=
  alive ← (if c_monitored cfg then observe (alive_at env) else mret (c_datanodes cfg));
  if zlen alive <? c_min_write_replicas cfg then raise Insufficient
  else
    start ← gets next_offset;
    _ ← modify (with_offset ((start + 1) mod zlen alive));
    mret (rotation alive start (Z.min (c_replication_factor cfg) (zlen alive))).

Fixpoint delete_copies (bid : string) (addresses : list string) : H unit :=
  match addresses with
  | [] => mret tt
  | a :: addresses' =>
      cap ← _block_capability bid "delete" INTERNAL_TTL_S;
      _ ← emit (Deleted a bid (capability_kwargs cap ""));
      delete_copies bid addresses'
  end.

(** Errors of the calls are ignored. *)
Fixpoint _delete_blocks (bs : list BlockRecord) : H unit :=
  match bs with
  | [] => mret tt
  | b :: bs' => _ ← delete_copies (block_id b) (datanode_addresses b); _delete_blocks bs'
  end.

(** A method of the tree that only reads it, run on this node's copy. *)
Definition read_tree {A} (m : TreeM A) : H A := λ s,
  match m (tree (replicated s)) with
  | (_, Ok a) => (s, Ok a)
  | (_, Err e) => (s, Err (Raised e))
  end.
End servicer.
