(* ===== verification/Handlers.v ===== *)
(** The RPCs of [ControlNodeServicer] (dfsha/control_node/servicer.py), one
    definition per handler, composed as the source composes them.  An answer is
    what the response message carries; gRPC time limits are not modelled. *)

From Stdlib Require Import QArith Qround.
From S2P Require Import Prelude Exceptions Dict Paths TreeData Tree Replicated.
From S2P Require Import Crypto BlockToken Addresses Auth Servicer.

Open Scope Z_scope.

Record BlockLocation := mkLocation {
  loc_id : string;
  loc_addresses : list string;
  loc_size : Z;
  loc_capability : string
}.

Record BlockInfo := mkInfo {
  i_id : string;
  i_addresses : list string;
  i_checksum : string;
  i_size : Z;
  i_capability : string
}.

Record WriteSlot := mkWriteSlot {
  ws_index : Z;
  ws_old_id : string;
  ws_old_size : Z;
  ws_old_addresses : list string;
  ws_new_id : string;
  ws_new_addresses : list string;
  ws_new_size : Z;
  ws_old_capability : string;
  ws_new_capability : string
}.

Record BeginWriteResponse := mkBeginWrite {
  bw_write_id : string;
  bw_base_version : Z;
  bw_block_size : Z;
  bw_lease : Z;
  bw_slots : list WriteSlot
}.

Record LoginResponse := mkLogin {
  lr_token : string;
  lr_expires_in : Q;
  lr_username : string;
  lr_groups : list string;
  lr_is_admin : bool
}.

(** [len] of a text, from its UTF-8 bytes: the continuation bytes do not count. *)
Fixpoint char_count (s : string) : Z :=
  match s with
  | EmptyString => 0
  | String a s' =>
      (if ((128 <=? N_of_ascii a) && (N_of_ascii a <? 192))%N then 0 else 1) + char_count s'
  end.

(** The shapes a handler can use of what the commit returned; any other value
    (an [op_id] used before for another RPC) is a Python error. *)
Definition as_block_list (v : value) : result exn (list BlockRecord) :=
  match v with
  | VBlocks bs => Ok bs
  | VStr "" => Ok []
  | _ => Err PyError
  end.
Definition as_text (v : value) : result exn string :=
  match v with
  | VStr s => Ok s
  | VNone => Ok ""
  | _ => Err PyError
  end.

(** [-(-size // block_size)]. *)
Definition num_blocks (size block_size : Z) : result exn Z :=
  if block_size =? 0 then Err PyError else Ok (- ((- size) / block_size)).

Section handlers.
Context `{!Jwt} (cfg : Config) (env : Env) (ctx : Ctx).

Notation auth := (_authenticate cfg env ctx).
Notation commit := (_commit cfg env ctx).
Notation now := (now_ env).
Notation barrier := (_read_barrier env).
Notation deletes := (_delete_blocks cfg env).

(** A mutation whose result is not used. *)
Definition mutate (es : list exn) (op_id : string) (c : H command) : H unit :=
  catching es (c' ← c; _ ← commit op_id c'; mret tt).

Definition ListDir (path : string) : H (list DirEntryData) :=
  p ← auth;
  _ ← barrier;
  catching [PathNotFoundError; NotADirectoryError; InvalidPathError; AccessDeniedError]
    (read_tree (list_dir path (_caller p))).

Definition MakeDir (op_id path : string) : H unit :=
  p ← auth;
  mutate [PathExistsError; PathNotFoundError; NotADirectoryError; InvalidPathError; AccessDeniedError]
    op_id (mret (CMakeDir path (_caller p))).

Definition RemoveDir (op_id path : string) : H unit :=
  p ← auth;
  mutate [PathNotFoundError; NotADirectoryError; NotEmptyError; InvalidPathError; AccessDeniedError]
    op_id (mret (CRemoveDir path (_caller p))).

Definition Remove (op_id path : string) : H unit :=
  p ← auth;
  v ← catching [PathNotFoundError; NotAFileError; NotADirectoryError; InvalidPathError; ConflictError;
                AccessDeniedError]
        (t ← now; commit op_id (CRemoveFile path (Some t) (_caller p)));
  bs ← lift_ (as_block_list v);
  deletes bs.

(** A fresh block with its replicas, [n] times. *)
Fixpoint propose (n : nat) : H (list (string * list string)) :=
  match n with
  | O => mret []
  | S n' =>
      id ← observe (uuid_at env);
      addresses ← _pick_replicas cfg env;
      rest ← propose n';
      mret ((id, addresses) :: rest)
  end.

Fixpoint locations (remaining : Z) (placements : list (string * list string)) : H (list BlockLocation) :=
  match placements with
  | [] => mret []
  | (bid, addresses) :: rest =>
      let size := Z.min (c_block_size cfg) remaining in
      cap ← _block_capability cfg env bid "write" (c_capability_ttl cfg);
      ls ← locations (remaining - size) rest;
      mret (mkLocation bid (_for_client cfg ctx addresses true) size cap :: ls)
  end.

Definition BeginUpload (op_id path : string) (size_bytes : Z) : H (list BlockLocation) :=
  p ← auth;
  _ ← (if size_bytes <=? 0 then _abort_on_domain_error InvalidPathError else mret tt);
  n ← lift_ (num_blocks size_bytes (c_block_size cfg));
  proposed ← catching_insufficient (propose (Z.to_nat n));
  v ← catching [PathExistsError; NotADirectoryError; InvalidPathError; AccessDeniedError]
        (t ← now;
         commit op_id (CBeginUpload path proposed (Some t) (Some (c_upload_lease cfg))
                         (Some (c_block_size cfg)) (_caller p)));
  match v with
  | VUpload placements stale => _ ← deletes stale; locations size_bytes placements
  | VCommitted _ replaced => _ ← deletes replaced; raise (Raised PyError)
  | _ => raise (Raised PyError)
  end.

Definition ConfirmBlock (op_id path bid checksum : string) (size_bytes : Z) : H unit :=
  p ← auth;
  mutate [PathNotFoundError; InvalidPathError; AccessDeniedError] op_id
    (t ← now; mret (CConfirmBlock path bid checksum size_bytes (Some t) (Some (c_upload_lease cfg)) (_caller p))).

Definition CompleteUpload (op_id path : string) : H unit :=
  p ← auth;
  mutate [PathNotFoundError; InvalidPathError; AccessDeniedError] op_id
    (mret (CCompleteUpload path (_caller p))).

Definition AbortUpload (op_id path : string) : H unit :=
  p ← auth;
  _ ← barrier;
  bs ← read_tree (pending_blocks path);
  _ ← mutate [PathNotFoundError; NotADirectoryError; InvalidPathError; AccessDeniedError] op_id
        (mret (CAbortUpload path (_caller p)));
  deletes bs.

Fixpoint infos (bs : list BlockRecord) : H (list BlockInfo) :=
  match bs with
  | [] => mret []
  | b :: bs' =>
      cap ← _block_capability cfg env (block_id b) "read" (c_capability_ttl cfg);
      rest ← infos bs';
      mret (mkInfo (block_id b) (_for_client cfg ctx (datanode_addresses b) false) (checksum b)
              (size_bytes b) cap :: rest)
  end.

Definition ListBlocks (path : string) : H (list BlockInfo) :=
  p ← auth;
  _ ← barrier;
  bs ← catching [PathNotFoundError; InvalidPathError; AccessDeniedError]
         (read_tree (list_blocks path (_caller p)));
  infos bs.

Definition Lock (op_id path mode : string) : H (string * Z) :=
  p ← auth;
  lock_id ← observe (uuid_at env);
  v ← catching [PathNotFoundError; InvalidPathError; ConflictError; AccessDeniedError]
        (t ← now;
         commit op_id (CAcquireLock path lock_id
           (match p with Some q => username q | None => peer ctx end) mode t (c_lock_lease cfg) (_caller p)));
  committed ← lift_ (as_text v);
  mret (committed, c_lock_lease cfg).

Definition RenewLock (op_id path lock_id : string) : H unit :=
  _ ← auth;
  mutate [PathNotFoundError; InvalidPathError; ConflictError] op_id
    (t ← now; mret (CRenewLock path lock_id t (c_lock_lease cfg))).

Definition Unlock (op_id path lock_id : string) : H unit :=
  _ ← auth;
  mutate [PathNotFoundError; ConflictError] op_id (t ← now; mret (CReleaseLock path lock_id (Some t))).

(** * Copy-on-write writes *)

Fixpoint write_proposals (plan : list (Z * Z)) : H (list Proposal) :=
  match plan with
  | [] => mret []
  | (index, _) :: plan' =>
      id ← observe (uuid_at env);
      addresses ← _pick_replicas cfg env;
      rest ← write_proposals plan';
      mret ((index, id, addresses) :: rest)
  end.

Fixpoint write_slots (rows : list SlotRow) : H (list WriteSlot) :=
  match rows with
  | [] => mret []
  | (index, old_id, old_size, old_addresses, new_id, new_addresses, new_size) :: rows' =>
      old_cap ← (if bool_decide (old_id = "") then mret ""
                 else _block_capability cfg env old_id "read" (c_capability_ttl cfg));
      new_cap ← _block_capability cfg env new_id "write" (c_capability_ttl cfg);
      rest ← write_slots rows';
      mret (mkWriteSlot index old_id old_size (_for_client cfg ctx old_addresses false) new_id
              (_for_client cfg ctx new_addresses true) new_size old_cap new_cap :: rest)
  end.

Definition BeginWrite (op_id path lock_id : string) (offset length : Z) : H BeginWriteResponse :=
  p ← auth;
  _ ← barrier;
  vp ← catching [PathNotFoundError; InvalidPathError; AccessDeniedError]
         (l ← read_tree (write_layout path (c_block_size cfg) (_caller p));
          plan ← lift_ (plan_write_slots l.2 l.1.2 offset length);
          mret (l.1.1, plan));
  proposals ← catching_insufficient (write_proposals vp.2);
  v ← catching [PathNotFoundError; InvalidPathError; ConflictError; AccessDeniedError]
        (wid ← observe (uuid_at env);
         t ← now;
         commit op_id (CBeginWrite path wid lock_id vp.1 offset length proposals t (c_upload_lease cfg)
                         (c_block_size cfg) (_caller p)));
  match v with
  | VBegun wid base bsz rows =>
      ws ← write_slots rows;
      mret (mkBeginWrite wid base bsz (c_upload_lease cfg) ws)
  | _ => raise (Raised PyError)
  end.

Definition CommitWrite (op_id path wid lock_id : string) (base : Z) (confirmed : list Confirmed) : H Z :=
  p ← auth;
  v ← catching [PathNotFoundError; InvalidPathError; ConflictError; AccessDeniedError]
        (t ← now; commit op_id (CCommitWrite path wid lock_id base confirmed t (_caller p)));
  match v with
  | VCommitted version replaced => _ ← deletes replaced; mret version
  | VUpload _ stale => _ ← deletes stale; raise (Raised PyError)
  | _ => raise (Raised PyError)
  end.

Definition AbortWrite (op_id path wid lock_id : string) : H unit :=
  _ ← auth;
  v ← catching [PathNotFoundError; InvalidPathError; ConflictError]
        (t ← now; commit op_id (CAbortWrite path wid lock_id (Some t)));
  bs ← lift_ (as_block_list v);
  deletes bs.

(** * Users and sessions *)

Definition _auth_disabled {A} : H A := abort UNIMPLEMENTED.

Definition _check_new_password (password : string) : result exn unit :=
  if bool_decide (password = "") then Err InvalidPathError
  else if MAX_PASSWORD_CHARS <? char_count password then Err InvalidPathError
  else Ok tt.

Definition verified (user : option UserRecord) (password : string) : option UserRecord :=
  let h := match user with Some u => (password_hash u, salt u) | None => (_DECOY_HASH, _DECOY_SALT) end in
  if verify_password password h.1 h.2 then user else None.

Definition _verified_user (username password : string) : H (option UserRecord) :=
  user ← gets (λ s, get_user username (tree (replicated s)));
  mret (verified user password).

Definition Login (name password : string) : H LoginResponse :=
  match c_jwt_secret cfg with
  | None => _auth_disabled
  | Some secret =>
      _ ← barrier;
      user ← _verified_user name password;
      match user with
      | None => _abort_on_domain_error AuthError
      | Some u =>
          let p := mkPrincipal name (u_groups u) (u_is_admin u) in
          t ← now;
          mret (mkLogin (issue_token secret p (c_token_ttl cfg) (seconds env t)) (c_token_ttl cfg)
                  name (u_groups u) (u_is_admin u))
      end
  end.

Definition CreateUser (op_id name password : string) (gs : list string) (admin : bool) : H unit :=
  p ← auth;
  match p with
  | None => _auth_disabled
  | Some q =>
      mutate [AccessDeniedError; InvalidPathError; PathExistsError] op_id
        (_ ← (if is_admin q then mret tt else raise_ AccessDeniedError);
         _ ← lift_ (_check_new_password password);
         _ ← (if MAX_USER_GROUPS <? zlen gs then raise_ InvalidPathError else mret tt);
         slt ← observe (salt_at env);
         let hs := hash_password password slt in
         mret (CCreateUser name hs.1 hs.2 (match gs with [] => [name] | _ => gs end) admin))
  end.

Definition ChangePassword (op_id name current new : string) : H unit :=
  p ← auth;
  match p with
  | None => _auth_disabled
  | Some q =>
      let target := if bool_decide (name = "") then username q else name in
      mutate [AccessDeniedError; InvalidPathError; PathNotFoundError] op_id
        (_ ← (if bool_decide (target ≠ username q) then
                if is_admin q then mret tt else raise_ AccessDeniedError
              else
                _ ← barrier;
                u ← _verified_user target current;
                match u with None => raise_ AccessDeniedError | Some _ => mret tt end);
         _ ← lift_ (_check_new_password new);
         slt ← observe (salt_at env);
         let hs := hash_password new slt in
         mret (CChangePassword target hs.1 hs.2))
  end.

Definition ensure_admin (hash slt : string) : H bool :=
  b ← gets (λ s, has_users (tree (replicated s)));
  if b : bool then mret true
  else
    l ← observe (leader_at env);
    if negb l then mret false
    else
      o ← _commit_raw env BOOTSTRAP_ADMIN_OP_ID (CCreateUser ADMIN_USERNAME hash slt [ADMIN_USERNAME] true);
      mret (match o with Known _ => true | _ => false end).

(** * Permissions and inventory *)

Definition Chmod (op_id path : string) (mode : Z) : H unit :=
  p ← auth;
  mutate [PathNotFoundError; InvalidPathError; AccessDeniedError] op_id
    (mret (CChmod path mode (_caller p))).

Definition Chown (op_id path owner group : string) : H unit :=
  p ← auth;
  mutate [PathNotFoundError; InvalidPathError; AccessDeniedError] op_id
    (mret (CChown path owner group (_caller p))).

Definition DataNodeInventory (address : string) : H (list (string * Z * Z)) :=
  p ← auth;
  _ ← catching [AccessDeniedError; InvalidPathError]
        (_ ← (match p with
              | Some q => if is_admin q then mret tt else raise_ AccessDeniedError
              | None => mret tt
              end);
         if bool_decide (address ∈ c_datanodes cfg) then mret tt else raise_ InvalidPathError);
  cap ← (match c_capability_key cfg with
         | None => mret ""
         | Some key => t ← now; lift_ (issue_internal key "list" INTERNAL_TTL_S (seconds env t))
         end);
  _ ← emit (Listed address (capability_kwargs cap ""));
  r ← observe (inventory_at env);
  match r with
  | Ok l => mret l
  | Err _ => abort UNAVAILABLE
  end.

(** * Requests *)

(** One constructor per RPC of the service, with the fields of its request. *)
Inductive request :=
| RListDir (path : string)
| RMakeDir (op path : string)
| RRemoveDir (op path : string)
| RRemove (op path : string)
| RBeginUpload (op path : string) (size : Z)
| RConfirmBlock (op path bid chk : string) (size : Z)
| RCompleteUpload (op path : string)
| RAbortUpload (op path : string)
| RListBlocks (path : string)
| RLock (op path mode : string)
| RRenewLock (op path lock_id : string)
| RUnlock (op path lock_id : string)
| RBeginWrite (op path lock_id : string) (offset length : Z)
| RCommitWrite (op path wid lock_id : string) (base : Z) (conf : list Confirmed)
| RAbortWrite (op path wid lock_id : string)
| RLogin (name password : string)
| RCreateUser (op name password : string) (gs : list string) (admin : bool)
| RChangePassword (op name current new : string)
| RChmod (op path : string) (mode : Z)
| RChown (op path owner group : string)
| RDataNodeInventory (address : string).

Definition op_of (r : request) : string :=
  match r with
  | RMakeDir op _ | RRemoveDir op _ | RRemove op _ | RBeginUpload op _ _ | RConfirmBlock op _ _ _ _
  | RCompleteUpload op _ | RAbortUpload op _ | RLock op _ _ | RRenewLock op _ _ | RUnlock op _ _
  | RBeginWrite op _ _ _ _ | RCommitWrite op _ _ _ _ _ | RAbortWrite op _ _ _
  | RCreateUser op _ _ _ _ | RChangePassword op _ _ _ | RChmod op _ _ | RChown op _ _ _ => op
  | RListDir _ | RListBlocks _ | RLogin _ _ | RDataNodeInventory _ => ""
  end.

Definition done_ {A} (m : H A) : H unit := _ ← m; mret tt.

(** The service: the handler of a request, without its answer. *)
Definition handle (r : request) : H unit :=
  match r with
  | RListDir p => done_ (ListDir p)
  | RMakeDir op p => MakeDir op p
  | RRemoveDir op p => RemoveDir op p
  | RRemove op p => Remove op p
  | RBeginUpload op p z => done_ (BeginUpload op p z)
  | RConfirmBlock op p b k z => ConfirmBlock op p b k z
  | RCompleteUpload op p => CompleteUpload op p
  | RAbortUpload op p => AbortUpload op p
  | RListBlocks p => done_ (ListBlocks p)
  | RLock op p m => done_ (Lock op p m)
  | RRenewLock op p i => RenewLock op p i
  | RUnlock op p i => Unlock op p i
  | RBeginWrite op p i o l => done_ (BeginWrite op p i o l)
  | RCommitWrite op p w i b c => done_ (CommitWrite op p w i b c)
  | RAbortWrite op p w i => AbortWrite op p w i
  | RLogin n pw => done_ (Login n pw)
  | RCreateUser op n pw gs a => CreateUser op n pw gs a
  | RChangePassword op n c new => ChangePassword op n c new
  | RChmod op p m => Chmod op p m
  | RChown op p o g => Chown op p o g
  | RDataNodeInventory a => done_ (DataNodeInventory a)
  end.
End handlers.
