(* ===== verification/ServicerProps.v ===== *)
(** The checks of every RPC of a ControlNode: lemmas on the handlers first, then who may
    call and under which identity a command reaches the log. *)

From Stdlib Require Import QArith Qround.
From S2P Require Import Prelude Exceptions Dict Paths TreeData Tree Replicated Crypto BlockToken Addresses.
From S2P Require Import Auth Servicer Handlers.

(** Lemmas on the programs of the servicer: what a program sends ([emits]) and
    which exceptions may leave it ([raises]), with the rules that follow the
    structure of a handler. *)
Open Scope Z_scope.

Create HintDb svc discriminated.

(** Every event a program adds to the trace satisfies [P]. *)
Definition emits {A} (P : sent_event → Prop) (m : H A) : Prop :=
  ∀ s, ∃ l, sent (m s).1 = sent s ++ l ∧ Forall P l.

Section emits_rules.
Context (P : sent_event → Prop).

Lemma emits_silent {A} (m : H A) : (∀ s, sent (m s).1 = sent s) → emits P m.
Proof. intros Hm s. exists []. by rewrite Hm, app_nil_r. Qed.

Lemma emits_ret {A} (a : A) : emits P (mret a).
Proof. by apply emits_silent. Qed.
Lemma emits_raise {A} e : emits P (raise e : H A).
Proof. by apply emits_silent. Qed.
Lemma emits_observe {A} (f : nat → A) : emits P (observe f).
Proof. by apply emits_silent. Qed.
Lemma emits_gets {A} (f : Node → A) : emits P (gets f).
Proof. by apply emits_silent. Qed.
Lemma emits_lift {A} (r : result exn A) : emits P (lift_ r).
Proof. destruct r; [apply emits_ret|apply emits_raise]. Qed.
Lemma emits_offset f : emits P (modify (λ s, with_offset (f s) s)).
Proof. by apply emits_silent. Qed.
Lemma emits_read_tree {A} (m : TreeM A) : emits P (read_tree m).
Proof. apply emits_silent. intros s. unfold read_tree. by destruct (m _) as [? [?|?]]. Qed.
Lemma emits_sync env : emits P (sync_others env).
Proof. by apply emits_silent. Qed.
Lemma emits_apply key c : emits P (apply_here key c).
Proof. by apply emits_silent. Qed.
Lemma emits_emit e : P e → emits P (emit e).
Proof. intros He s. exists [e]. split; [done|by repeat constructor]. Qed.

Lemma emits_bind {A B} (m : H A) (f : A → H B) :
  emits P m → (∀ a s s', m s = (s', Ok a) → emits P (f a)) → emits P (mbind f m).
Proof.
  intros Hm Hf s. destruct (Hm s) as (l & E & Hl). unfold mbind, M_bind.
  destruct (m s) as [s1 [a|e]] eqn:Hms; simpl in *; [|by exists l].
  destruct (Hf a s s1 Hms s1) as (l' & E' & Hl'). exists (l ++ l').
  rewrite E', E, app_assoc. split; [done|]. by apply Forall_app.
Qed.

Lemma emits_catching {A} es (m : H A) : emits P m → emits P (catching es m).
Proof.
  intros Hm s. destruct (Hm s) as (l & E & Hl). unfold catching.
  destruct (m s) as [s1 [a|[e| |]]]; simpl in *; try (by exists l).
  case_decide; by exists l.
Qed.
Lemma emits_catching_insufficient {A} (m : H A) : emits P m → emits P (catching_insufficient m).
Proof.
  intros Hm s. destruct (Hm s) as (l & E & Hl). unfold catching_insufficient.
  destruct (m s) as [s1 [a|[e| |]]]; simpl in *; by exists l.
Qed.
End emits_rules.

(** One step through a program, by its head. *)
Ltac emits_step :=
  match goal with
  | |- emits _ (mbind _ _) => apply emits_bind; [|intros ? ? ? ?]
  | |- emits _ (mret _) => apply emits_ret
  | |- emits _ (raise _) => apply emits_raise
  | |- emits _ (observe _) => apply emits_observe
  | |- emits _ (gets _) => apply emits_gets
  | |- emits _ (lift_ _) => apply emits_lift
  | |- emits _ (modify (with_offset _)) => apply emits_silent; reflexivity
  | |- emits _ (read_tree _) => apply emits_read_tree
  | |- emits _ (sync_others _) => apply emits_sync
  | |- emits _ (apply_here _ _) => apply emits_apply
  | |- emits _ (catching _ _) => apply emits_catching
  | |- emits _ (catching_insufficient _) => apply emits_catching_insufficient
  | |- emits _ ?m =>
      lazymatch m with
      | context [match _ with _ => _ end] => fail
      | _ => solve [eauto 1 with svc nocore]
      end
  | |- emits _ (match _ with _ => _ end) => progress case_match
  end.
Ltac emits_all := repeat emits_step.

Section facts.
Context `{!Jwt} (cfg : Config) (env : Env) (ctx : Ctx).

(** Whose token the call carries, at a time. *)
Definition session (secret : string) (t : Z) : result exn Principal :=
  let st := scheme_token (default "" (meta_get "authorization" ctx)) in
  if negb (bool_decide (lower st.1 = "bearer")) || bool_decide (str_strip st.2 = "") then Err AuthError
  else verify_token secret (str_strip st.2) (seconds env t).

(** [p] is who calls: nobody without authentication, otherwise the principal of
    the token. *)
Definition calls_as (p : option Principal) : Prop :=
  match c_jwt_secret cfg with
  | None => p = None
  | Some secret => ∃ q t, p = Some q ∧ session secret t = Ok q
  end.

Lemma calls_as_fun `{!JwtLaws} p p' : calls_as p → calls_as p' → p = p'.
Proof.
  unfold calls_as. destruct (c_jwt_secret cfg) as [secret|]; [|congruence].
  intros (q & t & -> & Hq) (q' & t' & -> & Hq'). f_equal. revert Hq Hq'. unfold session.
  destruct (_ || _); [done|]. apply verify_token_fixed.
Qed.

Lemma authenticate_inv s s' p : _authenticate cfg env ctx s = (s', Ok p) → calls_as p.
Proof.
  unfold _authenticate, calls_as, session. destruct (c_jwt_secret cfg) as [secret|]; [|intros [= _ <-]; done].
  destruct (_ || _); [done|]. unfold now_, observe, mbind, M_bind.
  destruct (verify_token _ _ _) as [q|[]] eqn:E; try done. intros [= _ <-]. eauto.
Qed.

Lemma emits_auth P : emits P (_authenticate cfg env ctx).
Proof. unfold _authenticate, now_, _abort_on_domain_error. emits_all. Qed.
Lemma emits_capability P bid op ttl : emits P (_block_capability cfg env bid op ttl).
Proof. unfold _block_capability, now_. emits_all. Qed.
Lemma emits_leader P : emits P (_require_leader env).
Proof. unfold _require_leader, abort. emits_all. Qed.
#[local] Hint Resolve emits_auth emits_capability emits_leader : svc.

Lemma emits_barrier P : emits P (_read_barrier env).
Proof. unfold _read_barrier, _read_barrier_raw, abort. emits_all. Qed.
Lemma emits_pick P : emits P (_pick_replicas cfg env).
Proof. unfold _pick_replicas. emits_all. Qed.
#[local] Hint Resolve emits_barrier emits_pick : svc.

Lemma emits_commit_raw (P : sent_event → Prop) key c : P (Sent key c) → emits P (_commit_raw env key c).
Proof. intros HP. unfold _commit_raw. emits_all. by apply emits_emit. Qed.

Lemma emits_commit (P : sent_event → Prop) op c :
  (∀ p, calls_as p → P (Sent (op_key p op) c)) → emits P (_commit cfg env ctx op c).
Proof.
  intros HP. unfold _commit, abort. apply emits_bind; [emits_all|]. intros _ _ _ _.
  apply emits_bind; [emits_all|]. intros _ _ _ _. apply emits_bind; [emits_all|].
  intros p s s' Hp%authenticate_inv. apply emits_bind; [apply emits_commit_raw; auto|]. intros o _ _ _. emits_all.
Qed.

Lemma emits_mutate (P : sent_event → Prop) es op (c : H command) :
  emits P c → (∀ c' p s s', c s = (s', Ok c') → calls_as p → P (Sent (op_key p op) c')) →
  emits P (mutate cfg env ctx es op c).
Proof.
  intros Hc HP. unfold mutate. apply emits_catching, emits_bind; [done|]. intros c' s s' Hcs.
  apply emits_bind; [apply emits_commit; intros; by eapply HP|]. intros o _ _ _. emits_all.
Qed.

Lemma emits_deletes (P : sent_event → Prop) bs :
  (∀ b a md, b ∈ bs → a ∈ datanode_addresses b → P (Deleted a (block_id b) md)) →
  emits P (_delete_blocks cfg env bs).
Proof.
  induction bs as [|b bs IH]; intros HP; simpl; [apply emits_ret|].
  apply emits_bind; [|intros _ _ _ _; apply IH; intros; apply HP; [by right|done]].
  assert (∀ a md, a ∈ datanode_addresses b → P (Deleted a (block_id b) md)) as Hb by (intros; apply HP; [by left|done]).
  clear HP IH. induction (datanode_addresses b) as [|a l IHl]; simpl; [apply emits_ret|].
  apply emits_bind; [emits_all|]. intros cap _ _ _.
  apply emits_bind; [apply emits_emit, Hb; by left|]. intros _ _ _ _. apply IHl. intros; apply Hb; by right.
Qed.

Lemma emits_propose P n : emits P (propose cfg env n).
Proof. induction n; simpl; emits_all. Qed.
Lemma emits_write_proposals P plan : emits P (write_proposals cfg env plan).
Proof. induction plan; simpl; emits_all. Qed.
Lemma emits_locations P r pl : emits P (locations cfg env ctx r pl).
Proof. revert r. induction pl; intros r; simpl; emits_all. Qed.
Lemma emits_infos P bs : emits P (infos cfg env ctx bs).
Proof. induction bs; simpl; emits_all. Qed.
Lemma emits_write_slots P rows : emits P (write_slots cfg env ctx rows).
Proof. induction rows; simpl; emits_all. Qed.
End facts.

#[export] Hint Resolve emits_auth emits_capability emits_leader emits_barrier emits_pick emits_propose
  emits_write_proposals emits_locations emits_infos emits_write_slots : svc.

(** What the RPCs guarantee: authentication, the identity and the rights of the
    commands they send, and what they delete. *)

(** * Without a valid token *)

Section auth.
Context `{!Jwt} (cfg : Config) (env : Env) (ctx : Ctx).

Lemma auth_refused secret s :
  c_jwt_secret cfg = Some secret → session env ctx secret (clock_at env (tick s)) = Err AuthError →
  ∃ s', _authenticate cfg env ctx s = (s', Err (Aborted UNAUTHENTICATED (Some "AuthError"))) ∧
    replicated s' = replicated s ∧ sent s' = sent s ∧ next_offset s' = next_offset s.
Proof.
  intros Hs. unfold _authenticate, session. rewrite Hs. destruct (_ || _); [by exists s|].
  unfold now_, observe, mbind, M_bind. intros ->. by eexists.
Qed.
End auth.

(** C21. Without a valid token nothing happens.  On a node with a session
    secret, every RPC but Login that comes without a bearer token, or with one
    that does not verify, is answered UNAUTHENTICATED with the class
    [AuthError]; the tree, the memory of the log and the round-robin are
    untouched, nothing is sent to Raft and no DataNode is called. *)
Theorem unauthenticated_is_refused `{!Jwt} cfg env ctx secret r s :
  c_jwt_secret cfg = Some secret → session env ctx secret (clock_at env (tick s)) = Err AuthError →
  (∀ n pw, r ≠ RLogin n pw) →
  ∃ s', handle cfg env ctx r s = (s', Err (Aborted UNAUTHENTICATED (Some "AuthError"))) ∧
    replicated s' = replicated s ∧ sent s' = sent s ∧ next_offset s' = next_offset s.
Proof.
  intros Hs Ht Hr. destruct (auth_refused cfg env ctx secret s Hs Ht) as (s' & Hauth & Hsame).
  exists s'. split; [|done].
  destruct r; cbn [handle]; unfold done_; try (by destruct (Hr name password));
    repeat (apply bind_err); exact Hauth.
Qed.

Definition demo_config : Config :=
  mkConfig ["d1"; "d2"; "d3"] 4 2 1 100 50 (Some "s") 60 None 3600 [] true.
Definition demo_env : Env :=
  mkEnv (λ _, true) (λ _, []) (λ _, RaftOk) Z.of_nat inject_Z (λ n, "u" +:+ str_of_Z (Z.of_nat n))
    (λ _, "salt") (λ _, ["d1"; "d2"; "d3"]) (λ _, Ok []).
Definition demo_node : Node := mkNode replicated_init 0 0 [].

Lemma unauthenticated_is_refused_witness :
  ∃ s', @handle toy_jwt demo_config demo_env (mkCtx [("authorization", "Bearer x")] "peer")
      (RMakeDir "op" "/x") demo_node = (s', Err (Aborted UNAUTHENTICATED (Some "AuthError"))) ∧
    replicated s' = replicated demo_node ∧ sent s' = sent demo_node ∧ next_offset s' = next_offset demo_node.
Proof.
  apply (@unauthenticated_is_refused toy_jwt demo_config demo_env
    (mkCtx [("authorization", "Bearer x")] "peer") "s" (RMakeDir "op" "/x") demo_node).
  - reflexivity.
  - vm_compute. reflexivity.
  - discriminate.
Defined.

(** * The commands a call sends *)

Definition command_for (p : option Principal) (peer : string) (c : command) : Prop :=
  match c with
  | CMakeDir _ cl | CRemoveDir _ cl | CRemoveFile _ _ cl | CBeginUpload _ _ _ _ _ cl
  | CConfirmBlock _ _ _ _ _ _ cl | CCompleteUpload _ cl | CAbortUpload _ cl
  | CBeginWrite _ _ _ _ _ _ _ _ _ _ cl | CCommitWrite _ _ _ _ _ _ cl | CChmod _ _ cl
  | CChown _ _ _ cl => cl = _caller p
  | CAcquireLock _ _ owner _ _ _ cl =>
      cl = _caller p ∧ owner = match p with Some q => username q | None => peer end
  | CRenewLock _ _ _ _ | CReleaseLock _ _ _ | CAbortWrite _ _ _ _ => True
  | CCreateUser _ _ _ _ _ => ∃ q, p = Some q ∧ is_admin q = true
  | CChangePassword u _ _ => ∃ q, p = Some q ∧ (is_admin q = true ∨ u = username q)
  | CUpdateBlockReplicas _ _ _ _ | CRaw _ => False
  end.

Section identity.
Context `{!Jwt, !JwtLaws} (cfg : Config) (env : Env) (ctx : Ctx).

Definition event_for (op : string) (ev : sent_event) : Prop :=
  match ev with
  | Sent key c => ∃ p, calls_as cfg env ctx p ∧ key = op_key p op ∧ command_for p (peer ctx) c
  | Listed a _ => a ∈ c_datanodes cfg ∧
      ∃ p, calls_as cfg env ctx p ∧ ∀ q, p = Some q → is_admin q = true
  | Deleted _ _ _ => True
  end.

Lemma emits_for_commit p op c :
  calls_as cfg env ctx p → command_for p (peer ctx) c → emits (event_for op) (_commit cfg env ctx op c).
Proof.
  intros Hp Hc. apply emits_commit. intros p' Hp'. rewrite (calls_as_fun _ _ _ _ _ Hp' Hp). by exists p.
Qed.

Lemma emits_for_mutate p es op (c : H command) :
  calls_as cfg env ctx p → emits (event_for op) c →
  (∀ c' s s', c s = (s', Ok c') → command_for p (peer ctx) c') →
  emits (event_for op) (mutate cfg env ctx es op c).
Proof.
  intros Hp He Hc. apply emits_mutate; [done|]. intros c' p' s s' Hcs Hp'.
  rewrite (calls_as_fun _ _ _ _ _ Hp' Hp). exists p. split_and!; [done..|by eapply Hc].
Qed.

Lemma emits_for_deletes op bs : emits (event_for op) (_delete_blocks cfg env bs).
Proof. by apply emits_deletes. Qed.
End identity.

#[export] Hint Resolve emits_for_deletes : svc.

Lemma catching_ok_inv {A} es (m : H A) s s' a : catching es m s = (s', Ok a) → m s = (s', Ok a).
Proof. unfold catching. destruct (m s) as [s1 [x|[e| |]]]; try done. by case_decide. Qed.

Section sends.
Context `{!Jwt, !JwtLaws} (cfg : Config) (env : Env) (ctx : Ctx).
Notation event_ok op := (event_for cfg env ctx op).

(** The command of a mutation that does not depend on anything but the time. *)
Lemma emits_timed_mutate p es op (f : Z → command) :
  calls_as cfg env ctx p → (∀ t, command_for p (peer ctx) (f t)) →
  emits (event_ok op) (mutate cfg env ctx es op (t ← now_ env; mret (f t))).
Proof.
  intros Hp Hf. eapply emits_for_mutate; [done|unfold now_; emits_all|].
  intros c' s s' (s1 & t & _ & [= _ <-])%bind_ok_inv. apply Hf.
Qed.

Lemma emits_simple_mutate p es op c :
  calls_as cfg env ctx p → command_for p (peer ctx) c → emits (event_ok op) (mutate cfg env ctx es op (mret c)).
Proof. intros Hp Hf. eapply emits_for_mutate; [done|emits_all|]. by intros c' s s' [= _ <-]. Qed.

Lemma emits_create_user op n pw gs a : emits (event_ok op) (CreateUser cfg env ctx op n pw gs a).
Proof.
  unfold CreateUser, _auth_disabled, abort. apply emits_bind; [emits_all|].
  intros p s s' Hp%authenticate_inv. destruct p as [q|]; [|emits_all].
  eapply emits_for_mutate; [done|unfold raise_; emits_all|].
  intros c' s1 s1' (s2 & [] & Ha & (s3 & ? & _ & (s4 & ? & _ & (s5 & ? & _ & [= _ <-])%bind_ok_inv)
    %bind_ok_inv)%bind_ok_inv)%bind_ok_inv.
  exists q. split; [done|]. by destruct (is_admin q).
Qed.

Lemma emits_change_password op n cur new : emits (event_ok op) (ChangePassword cfg env ctx op n cur new).
Proof.
  unfold ChangePassword, _auth_disabled, abort. apply emits_bind; [emits_all|].
  intros p s s' Hp%authenticate_inv. destruct p as [q|]; [|emits_all].
  eapply emits_for_mutate; [done|unfold raise_, _verified_user; emits_all|].
  intros c' s1 s1' (s2 & [] & Ha & (s3 & ? & _ & (s4 & ? & _ & [= _ <-])%bind_ok_inv)
    %bind_ok_inv)%bind_ok_inv.
  exists q. split; [done|]. set (target := if bool_decide (n = "") then username q else n) in *.
  destruct (bool_decide_reflect (target ≠ username q)) as [Ht|Ht].
  - left. by destruct (is_admin q).
  - right. by apply dec_stable.
Qed.

Lemma emits_inventory op a : emits (event_ok op) (DataNodeInventory cfg env ctx a).
Proof.
  unfold DataNodeInventory, abort. apply emits_bind; [emits_all|]. intros p s s' Hp%authenticate_inv.
  apply emits_bind; [unfold raise_; emits_all|]. intros [] s1 s1' Hc.
  apply emits_bind; [unfold now_; emits_all|]. intros cap _ _ _.
  apply emits_bind; [|intros _ _ _ _; emits_all]. apply emits_emit.
  apply catching_ok_inv, bind_ok_inv in Hc as (s3 & [] & Ha & Hin). split.
  - case_bool_decide; [done|discriminate Hin].
  - exists p. split; [done|]. intros q ->. by destruct (is_admin q).
Qed.

Lemma emits_handle r : emits (event_ok (op_of r)) (handle cfg env ctx r).
Proof.
  destruct r; cbn [handle op_of]; unfold done_;
    lazymatch goal with
    | |- emits _ (mbind _ _) => apply emits_bind; [|intros; emits_all]
    | |- emits _ (CreateUser _ _ _ _ _ _ _ _) => apply emits_create_user
    | |- emits _ (ChangePassword _ _ _ _ _ _ _) => apply emits_change_password
    | _ => idtac
    end.
  all: try apply emits_inventory.
  all: unfold ListDir, MakeDir, RemoveDir, Remove, BeginUpload, ConfirmBlock, CompleteUpload, AbortUpload,
    ListBlocks, Lock, RenewLock, Unlock, BeginWrite, CommitWrite, AbortWrite, Chmod, Chown, Login,
    _auth_disabled, abort, _abort_on_domain_error, _verified_user, now_.
  all: try (apply emits_bind; [emits_all|intros p ? ? Hp%authenticate_inv]).
  all: repeat match goal with
    | Hp : calls_as _ _ _ _ |- emits _ (_commit _ _ _ _ _) => eapply emits_for_commit; [exact Hp|done]
    | Hp : calls_as _ _ _ _ |- emits _ (mutate _ _ _ _ _ (mret _)) =>
        eapply emits_simple_mutate; [exact Hp|done]
    | Hp : calls_as _ _ _ _ |- emits _ (mutate _ _ _ _ _ _) => eapply emits_timed_mutate; [exact Hp|done]
    | |- emits _ (_delete_blocks _ _ _) => apply emits_for_deletes
    | _ => emits_step
    end.
Qed.
End sends.

Lemma all_chars_has_char c s : all_chars (λ a, negb (Ascii.eqb a c)) s = true → has_char c s = false.
Proof.
  induction s as [|a s IH]; simpl; [done|]. intros [Ha Hs]%andb_true_iff.
  apply negb_true_iff in Ha. by rewrite Ha, IH.
Qed.

(** The first colon of a key ends the user name. *)
Lemma op_key_partition q o :
  _valid_name (username q) = true → partition colon (op_key (Some q) o) = Some (username q, o).
Proof.
  intros Hq. unfold op_key. change (":" +:+ o) with (String colon o).
  apply partition_app, all_chars_has_char, valid_name_no_colon, Hq.
Qed.

(** Every command a call sends to the log is sent in the name of who calls.
    Its key is the [op_id] of the request under the user's name, its caller is
    the principal of the token (nobody without authentication), only an admin
    creates users or reads an inventory, and a password is changed by an admin
    or by its owner.  The keys of two users never coincide, nor does a user's
    key with the key of the bootstrap, so no user gets the stored answer of
    another. *)
Theorem calls_are_identified `{!Jwt, !JwtLaws} cfg env ctx r s :
  (∃ l, sent (handle cfg env ctx r s).1 = sent s ++ l ∧
     ∀ ev, ev ∈ l →
       match ev with
       | Sent key c => ∃ p, calls_as cfg env ctx p ∧ key = op_key p (op_of r) ∧ command_for p (peer ctx) c
       | Listed a _ => a ∈ c_datanodes cfg ∧
           ∃ p, calls_as cfg env ctx p ∧ ∀ q, p = Some q → is_admin q = true
       | Deleted _ _ _ => True
       end) ∧
  (∀ q q' o o', _valid_name (username q) = true → _valid_name (username q') = true →
     (op_key (Some q) o = op_key (Some q') o' → username q = username q' ∧ o = o') ∧
     op_key (Some q) o ≠ BOOTSTRAP_ADMIN_OP_ID).
Proof.
  split.
  - destruct (emits_handle cfg env ctx r s) as (l & E & Hl). exists l. split; [done|].
    rewrite Forall_forall in Hl. intros ev Hev. apply (Hl ev Hev).
  - intros q q' o o' Hq Hq'. pose proof (op_key_partition q o Hq) as E. split.
    + intros Heq. rewrite Heq, (op_key_partition q' o' Hq') in E. by injection E as -> ->.
    + intros Heq. rewrite Heq in E. discriminate E.
Qed.

Definition open_config : Config :=
  mkConfig ["d1"; "d2"; "d3"] 4 2 1 100 50 None 60 None 3600 [] true.

Lemma calls_are_identified_witness :
  sent (@handle toy_jwt open_config demo_env (mkCtx [] "peer") (RMakeDir "op" "/x") demo_node).1 =
    [Sent "op" (CMakeDir "/x" None)] ∧
  op_key (Some (mkPrincipal "ana" [] false)) "x" ≠ BOOTSTRAP_ADMIN_OP_ID.
Proof.
  split; [vm_compute; reflexivity|].
  apply (proj2 (proj2 (@calls_are_identified toy_jwt toy_laws open_config demo_env (mkCtx [] "peer")
    (RMakeDir "op" "/x") demo_node) (mkPrincipal "ana" [] false) (mkPrincipal "bob" [] false) "x" "y"
    eq_refl eq_refl)).
Defined.
