(* ===== verification/ServicerErrors.v ===== *)
(** How an RPC may fail: which exceptions leave a handler, and the status and
    class the client reads, those of the error the call was refused with. *)

From Stdlib Require Import QArith Qround.
From S2P Require Import Prelude Exceptions Dict Paths TreeData Tree TreeFacts Replicated TreeErrors TreeProps.
From S2P Require Import Crypto BlockToken Addresses Auth Servicer Handlers ServicerProps.

Open Scope Z_scope.

(** Run from a state of [I], [m] returns into [J] or fails with an error of [Q]. *)
Definition hoare {A} (I : Node → Prop) (m : H A) (J : Node → Prop) (Q : rpc_exn → Prop) : Prop :=
  ∀ s, I s → match m s with
             | (s', Ok _) => J s'
             | (_, Err e) => Q e
             end.

Lemma hoare_bind {A B} I J K Q (m : H A) (f : A → H B) :
  hoare I m J Q → (∀ a, hoare J (f a) K Q) → hoare I (mbind f m) K Q.
Proof.
  intros Hm Hf s Hs. specialize (Hm s Hs). unfold mbind, M_bind.
  destruct (m s) as [s1 [a|e]]; [by apply Hf|done].
Qed.

(** The same, knowing that the first part returned. *)
Lemma hoare_bind_ok {A B} I J K Q (m : H A) (f : A → H B) :
  hoare I m J Q → (∀ a s s', m s = (s', Ok a) → hoare J (f a) K Q) → hoare I (mbind f m) K Q.
Proof.
  intros Hm Hf s Hs. specialize (Hm s Hs). unfold mbind, M_bind.
  destruct (m s) as [s1 [a|e]] eqn:E; [by eapply Hf|done].
Qed.

Lemma hoare_raise {A} I J (Q : rpc_exn → Prop) e : Q e → hoare I (raise e : H A) J Q.
Proof. by intros He s Hs. Qed.

(** The shape of a failure that is answered: an abort of the RPC layer, or the class of
    a domain error with its status in the map.  Which error it is: [refused], below. *)
Definition shaped (x : rpc_exn) : Prop :=
  match x with
  | Aborted code None => code = UNAVAILABLE ∨ code = INVALID_ARGUMENT ∨ code = UNIMPLEMENTED
  | Aborted code (Some class) => ∃ e, class = class_name e ∧ code = status_of e ∧ code ≠ UNKNOWN
  | _ => False
  end.

(** Or an error of Python, which the log stores as a [DFShaError]. *)
Definition shaped_or_python (x : rpc_exn) : Prop :=
  shaped x ∨ x = Raised PyError ∨ x = Raised DFShaError.

(** The same, before the [except] of the handler. *)
Definition domain_failure (l : list exn) (x : rpc_exn) : Prop :=
  shaped_or_python x ∨ ∃ e, x = Raised e ∧ e ∈ l.

Lemma hoare_weaken {A} I J (Q Q' : rpc_exn → Prop) (m : H A) :
  hoare I m J Q → (∀ x, Q x → Q' x) → hoare I m J Q'.
Proof.
  intros Hm HQ s Hs. specialize (Hm s Hs). destruct (m s) as [s1 [a|e]]; [done|]. by apply HQ.
Qed.

Definition mapped (l : list exn) : Prop := Forall (λ e, status_of e ≠ UNKNOWN) l.

(** [except es] reports every error of [es]. *)
Lemma hoare_catching {A} I J es l (m : H A) :
  mapped es → hoare I m J (domain_failure (l ++ es)) → hoare I (catching es m) J (domain_failure l).
Proof.
  intros Hes Hm s Hs. specialize (Hm s Hs). unfold catching.
  destruct (m s) as [s1 [a|x]]; [done|]. destruct x as [e| |code tr].
  - case_decide as Hin; simpl.
    + left. left. simpl. exists e. unfold mapped in Hes. rewrite Forall_forall in Hes. auto.
    + destruct Hm as [Hm|(e' & [= <-] & He)]; [by left|]. right. exists e. split; [done|].
      apply elem_of_app in He as [?|?]; done.
  - destruct Hm as [[[]|[?|?]]|(? & ? & _)]; done.
  - destruct Hm as [Hm|(? & ? & _)]; [by left|done].
Qed.

Lemma hoare_insufficient {A} I J l (m : H A) :
  hoare I m J (λ x, domain_failure l x ∨ x = Insufficient) →
  hoare I (catching_insufficient m) J (domain_failure l).
Proof.
  intros Hm s Hs. specialize (Hm s Hs). unfold catching_insufficient.
  destruct (m s) as [s1 [a|x]]; [done|]. destruct x as [e| |code tr]; simpl.
  - by destruct Hm.
  - left. left. simpl. auto.
  - by destruct Hm.
Qed.

Lemma failure_abort l code : code ∈ [UNAVAILABLE; INVALID_ARGUMENT; UNIMPLEMENTED] → domain_failure l (Aborted code None).
Proof. rewrite !elem_of_cons. intros H. left. left. simpl. set_solver. Qed.
Lemma failure_domain l e : status_of e ≠ UNKNOWN → domain_failure l (Aborted (status_of e) (Some (class_name e))).
Proof. intros He. left. left. simpl. eauto. Qed.
Lemma failure_py l : domain_failure l (Raised PyError).
Proof. left. right. auto. Qed.
Lemma failure_in l e : bool_decide (e ∈ l) = true → domain_failure l (Raised e).
Proof. intros He%bool_decide_eq_true. right. eauto. Qed.

Lemma exn_named_class e : e ∈ domain_errors → exn_named (class_name e) = e.
Proof. intros H. by destruct e; try reflexivity; vm_compute in H; exfalso; repeat (apply elem_of_cons in H as [?|H]; [done|]); apply not_elem_of_nil in H. Qed.

Lemma errors_domain c e :
  e ∈ errors_of c ∨ e = DFShaError ∨ (∃ m, c = CRaw m) ∧ e = InvalidPathError → e ∈ domain_errors.
Proof.
  intros H. apply domain_or_py. intros ->. destruct H as [H|[H|[_ H]]]; [|done..].
  by apply errors_of_domain in H.
Qed.

Section rules.
Context `{!Jwt, !JwtLaws} (cfg : Config) (env : Env) (ctx : Ctx) (op : string).

(** Nothing of the log uses the key of this call. *)
Definition unused (s : Node) : Prop :=
  ∀ p, calls_as cfg env ctx p → dict_get (op_key p op) (applied_ops (replicated s)) = None.
Definition others_unused : Prop :=
  ∀ p n, calls_as cfg env ctx p → op_key p op ∉ (others_at env n).*1.

Lemma apply_absent key k c s :
  key ≠ k → dict_get key (applied_ops s) = None → dict_get key (applied_ops (apply k c s).1) = None.
Proof.
  intros Hne Hk. unfold apply. destruct (dict_get k (applied_ops s)); [done|]. simpl.
  apply dict_get_drop_None. by rewrite dict_get_set_ne.
Qed.

Lemma apply_log_absent key l s :
  key ∉ l.*1 → dict_get key (applied_ops s) = None → dict_get key (applied_ops (apply_log l s)) = None.
Proof.
  revert s. induction l as [|[k c] l IH]; intros s; [done|]. simpl. intros [Hne Hl]%not_elem_of_cons Hk.
  apply IH; [done|]. by apply apply_absent.
Qed.

(** A condition that only looks at the log and that the others keep. *)
Record stable (K : Node → Prop) : Prop := {
  stable_same : ∀ s s', replicated s' = replicated s → K s → K s';
  stable_sync : ∀ s, K s → K (sync_others env s).1
}.

Lemma stable_true : stable (λ _, True).
Proof. by split. Qed.
Lemma stable_unused : others_unused → stable unused.
Proof.
  intros Ho. split.
  - intros s s' E Hs p Hp. rewrite E. auto.
  - intros s Hs p Hp. simpl. apply apply_log_absent; [by apply Ho|auto].
Qed.

(** A step that fails only with [Q] and leaves the log alone. *)
Lemma hoare_local {A} K (Q : rpc_exn → Prop) (m : H A) :
  stable K → (∀ s, replicated (m s).1 = replicated s) → (∀ s s' e, m s = (s', Err e) → Q e) → hoare K m K Q.
Proof.
  intros HK Hr HQ s Hs. pose proof (Hr s) as E. destruct (m s) as [s1 [a|e]] eqn:Hm; simpl in E.
  - by eapply stable_same.
  - by eapply HQ.
Qed.

Section pieces.
Context (K : Node → Prop) (HK : stable K) (l : list exn).
Notation fine m := (hoare K m K (domain_failure l)).

Lemma fine_ret {A} (a : A) : fine (mret a).
Proof. by intros s Hs. Qed.
Lemma fine_observe {A} (f : nat → A) : fine (observe f).
Proof. by apply hoare_local. Qed.
Lemma fine_gets {A} (f : Node → A) : fine (gets f).
Proof. by apply hoare_local. Qed.
Lemma fine_emit e : fine (emit e).
Proof. by apply hoare_local. Qed.
Lemma fine_raise {A} e : domain_failure l e → fine (raise e : H A).
Proof. intros He. apply hoare_local; [done|done|]. by intros s s' e' [= _ <-]. Qed.
Lemma fine_offset o : fine (modify (with_offset o)).
Proof. by apply hoare_local. Qed.
Lemma fine_sync : fine (sync_others env).
Proof. intros s Hs. exact (stable_sync K HK s Hs). Qed.
Lemma fine_lift {A} (r : result exn A) : (∀ e, r = Err e → e ∈ l ∨ e = PyError) → fine (lift_ r).
Proof.
  intros Hr. destruct r as [a|e]; [apply fine_ret|]. apply fine_raise.
  destruct (Hr e eq_refl) as [?| ->]; [right; eauto|left; right; auto].
Qed.
Lemma fine_read_tree {A} (m : TreeM A) : raises (among l) m → fine (read_tree m).
Proof.
  intros Hm. apply hoare_local; [done| |].
  - intros s. unfold read_tree. by destruct (m _) as [? [?|?]].
  - intros s s' e. unfold read_tree. destruct (m _) as [? [?|x]] eqn:E; [done|]. intros [= _ <-].
    destruct (Hm _ _ _ E) as [?| ->]; [right; eauto|left; right; auto].
Qed.

End pieces.

(** One step through a program, by its head. *)
Ltac fine_step :=
  match goal with
  | |- hoare _ (mbind _ _) _ _ => eapply hoare_bind; [|intros ?]
  | |- hoare _ (mret _) _ _ => apply fine_ret
  | |- hoare _ (observe _) _ _ => by apply fine_observe
  | |- hoare _ (gets _) _ _ => by apply fine_gets
  | |- hoare _ (emit _) _ _ => by apply fine_emit
  | |- hoare _ (modify (with_offset _)) _ _ => by apply fine_offset
  | |- hoare _ (sync_others _) _ _ => by apply fine_sync
  | |- hoare _ (raise (Raised PyError)) _ _ => eapply fine_raise; [done|apply failure_py]
  | |- hoare _ (raise (Raised _)) _ _ => eapply fine_raise; [done|by apply failure_in]
  | |- hoare _ (raise (Aborted _ None)) _ _ =>
      apply fine_raise; [done|apply failure_abort; apply (bool_decide_unpack _); vm_compute; exact I]
  | |- hoare _ (_abort_on_domain_error _) _ _ => eapply fine_raise; [done|by apply failure_domain]
  | |- hoare _ (match _ with _ => _ end) _ _ => progress case_match
  end.

Section shared.
Context (K : Node → Prop) (HK : stable K) (l : list exn).
Notation fine m := (hoare K m K (domain_failure l)).

Lemma fine_auth : fine (_authenticate cfg env ctx).
Proof.
  unfold _authenticate, now_. repeat fine_step;
    match goal with E : verify_token _ _ _ = Err _ |- _ => apply verify_token_err in E; discriminate E end.
Qed.
Lemma fine_leader : fine (_require_leader env).
Proof. unfold _require_leader, abort. repeat fine_step. Qed.
Lemma fine_barrier : fine (_read_barrier env).
Proof.
  unfold _read_barrier, _read_barrier_raw, abort. eapply hoare_bind; [apply fine_leader|intros _].
  repeat fine_step.
Qed.
Lemma fine_capability bid o ttl : fine (_block_capability cfg env bid o ttl).
Proof.
  unfold _block_capability, now_. repeat fine_step. apply fine_lift; [done|]. unfold issue_block. intros e.
  repeat case_match; intros; simplify_eq; by right.
Qed.
Lemma fine_deletes bs : fine (_delete_blocks cfg env bs).
Proof.
  induction bs as [|b bs IH]; simpl; [apply fine_ret|]. eapply hoare_bind; [|intros _; apply IH].
  induction (datanode_addresses b) as [|a addrs IHa]; simpl; [apply fine_ret|].
  eapply hoare_bind; [apply fine_capability|intros cap]. fine_step; [fine_step|apply IHa].
Qed.
Lemma fine_locations r pl : fine (locations cfg env ctx r pl).
Proof.
  revert r. induction pl as [|[b a] pl IH]; intros r; simpl; [apply fine_ret|].
  eapply hoare_bind; [apply fine_capability|intros cap]. eapply hoare_bind; [apply IH|intros ls]. fine_step.
Qed.
Lemma fine_infos bs : fine (infos cfg env ctx bs).
Proof.
  induction bs as [|b bs IH]; simpl; [apply fine_ret|].
  eapply hoare_bind; [apply fine_capability|intros cap]. eapply hoare_bind; [apply IH|intros ls]. fine_step.
Qed.
Lemma fine_write_slots rows : fine (write_slots cfg env ctx rows).
Proof.
  induction rows as [|[[[[[[i o] z] a] n] b] y] rows IH]; simpl; [apply fine_ret|].
  eapply hoare_bind; [case_match; [fine_step|apply fine_capability]|intros c1].
  eapply hoare_bind; [apply fine_capability|intros c2]. eapply hoare_bind; [apply IH|intros ls]. fine_step.
Qed.

(** The choice of replicas may also lack live DataNodes. *)
Notation choosing m := (hoare K m K (λ x, domain_failure l x ∨ x = Insufficient)).
Lemma fine_choosing {A} (m : H A) : fine m → choosing m.
Proof. intros Hm. eapply hoare_weaken; [exact Hm|]. auto. Qed.
Lemma choosing_pick : choosing (_pick_replicas cfg env).
Proof.
  unfold _pick_replicas. eapply hoare_bind; [apply fine_choosing; repeat fine_step|intros alive].
  case_match; [|apply fine_choosing; repeat fine_step].
  apply hoare_local; [done|done|]. intros s s' e [= _ <-]. by right.
Qed.
Lemma choosing_propose n : choosing (propose cfg env n).
Proof.
  induction n as [|n IH]; simpl; [apply fine_choosing, fine_ret|].
  eapply hoare_bind; [apply fine_choosing; repeat fine_step|intros id].
  eapply hoare_bind; [apply choosing_pick|intros a]. eapply hoare_bind; [apply IH|intros r].
  apply fine_choosing, fine_ret.
Qed.
Lemma choosing_write_proposals plan : choosing (write_proposals cfg env plan).
Proof.
  induction plan as [|[i z] plan IH]; simpl; [apply fine_choosing, fine_ret|].
  eapply hoare_bind; [apply fine_choosing; repeat fine_step|intros id].
  eapply hoare_bind; [apply choosing_pick|intros a]. eapply hoare_bind; [apply IH|intros r].
  apply fine_choosing, fine_ret.
Qed.
End shared.

(** A commit under a key that nothing used fails only with the errors of its
    command. *)
Lemma fine_commit l c :
  others_unused → (∀ m, c ≠ CRaw m) → (∀ e, e ∈ errors_of c → e ∈ l) →
  hoare unused (_commit cfg env ctx op c) (λ _, True) (domain_failure l).
Proof.
  intros Ho Hraw Hl. pose proof (stable_unused Ho) as HU. unfold _commit, abort.
  eapply hoare_bind; [repeat fine_step|intros _]. eapply hoare_bind; [by apply fine_leader|intros _].
  intros s Hs. unfold mbind, M_bind.
  pose proof (fine_auth unused HU l s Hs) as Hauth.
  destruct (_authenticate cfg env ctx s) as [s1 [p|e]] eqn:Ha; [|exact Hauth].
  apply authenticate_inv in Ha. specialize (Hauth p Ha). clear Hs.
  unfold _commit_raw, mbind, M_bind, observe. simpl. destruct (leader_at env (tick s1)); simpl;
    [|apply failure_abort; apply (bool_decide_unpack _); vm_compute; exact I].
  destruct (raft_at env (S (tick s1))); simpl; try (apply failure_abort; apply (bool_decide_unpack _); vm_compute; exact I).
  destruct (apply (op_key p op) c _) as [r' [v|class]] eqn:Happ; simpl; [done|].
  apply apply_fresh_error in Happ as (e & -> & He).
  2: { apply apply_log_absent; [by apply Ho|done]. }
  rewrite exn_named_class by by apply errors_domain with c.
  destruct He as [He|[->|[[m ->] _]]]; [right; eauto|left; right; auto|by destruct (Hraw m)].
Qed.

(** A mutation: [commands] covers every command it may send. *)
Lemma fine_mutate es l (c : H command) :
  others_unused → mapped es → hoare unused c unused (domain_failure (l ++ es)) →
  (∀ c' s s', c s = (s', Ok c') → (∀ m, c' ≠ CRaw m) ∧ ∀ e, e ∈ errors_of c' → e ∈ l ++ es) →
  hoare unused (mutate cfg env ctx es op c) (λ _, True) (domain_failure l).
Proof.
  intros Ho Hes Hc Hall. unfold mutate. apply hoare_catching; [done|].
  eapply hoare_bind_ok; [exact Hc|]. intros c' s s' [Hraw He]%Hall.
  eapply hoare_bind; [by apply fine_commit|]. intros v. apply fine_ret.
Qed.

Lemma fine_mutate_ret es l c :
  others_unused → mapped es → (∀ m, c ≠ CRaw m) → (∀ e, e ∈ errors_of c → e ∈ l ++ es) →
  hoare unused (mutate cfg env ctx es op (mret c)) (λ _, True) (domain_failure l).
Proof. intros Ho Hes Hr He. apply fine_mutate; [done..|apply fine_ret|]. by intros c' s s' [= _ <-]. Qed.

Lemma fine_mutate_timed es l (f : Z → command) :
  others_unused → mapped es → (∀ t m, f t ≠ CRaw m) → (∀ t e, e ∈ errors_of (f t) → e ∈ l ++ es) →
  hoare unused (mutate cfg env ctx es op (t ← now_ env; mret (f t))) (λ _, True) (domain_failure l).
Proof.
  intros Ho Hes Hr He. apply fine_mutate; [done..| |].
  - unfold now_. pose proof (stable_unused Ho). repeat fine_step.
  - intros c' s s' (s1 & t & _ & [= _ <-])%bind_ok_inv. split; [apply Hr|apply He].
Qed.

(** A commit inside its [except], after the readings its command needs. *)
Lemma fine_commit_caught es l c :
  others_unused → mapped es → (∀ m, c ≠ CRaw m) → (∀ e, e ∈ errors_of c → e ∈ l ++ es) →
  hoare unused (_commit cfg env ctx op c) (λ _, True) (domain_failure (l ++ es)).
Proof. intros. by apply fine_commit. Qed.
End rules.

(** Inclusion of concrete lists of exceptions. *)
Lemma errors_covered (k l : list exn) : forallb (λ e, bool_decide (e ∈ l)) k = true → ∀ e, e ∈ k → e ∈ l.
Proof. rewrite forallb_forall. intros Hk e He%list_elem_of_In. by eapply bool_decide_eq_true, Hk. Qed.
Lemma mapped_by (l : list exn) : forallb (λ e, bool_decide (status_of e ≠ UNKNOWN)) l = true → mapped l.
Proof.
  rewrite forallb_forall. intros Hl. apply Forall_forall. intros e He%list_elem_of_In.
  by eapply bool_decide_eq_true, Hl.
Qed.

(** * Every failure is reported *)

(** What a request may fail with: [Unlock] lets an [InvalidPathError] through. *)
Definition escapes (r : request) : list exn :=
  match r with
  | RUnlock _ _ _ => [InvalidPathError]
  | _ => []
  end.

Section handlers_fail.
Context `{!Jwt, !JwtLaws} (cfg : Config) (env : Env) (ctx : Ctx) (op : string).
Context (Ho : others_unused cfg env ctx op).
Notation unused := (unused cfg env ctx op).
Notation T := (λ _ : Node, True).

Lemma HU : stable env unused.
Proof. by apply stable_unused. Qed.
Lemma HT : stable env T.
Proof. apply stable_true. Qed.

(** A part of a handler, before or after the commit. *)
Ltac part :=
  match goal with
  | |- hoare _ (mbind _ _) _ _ => eapply hoare_bind; [|intros ?]
  | |- hoare _ (_authenticate _ _ _) _ _ => apply fine_auth; apply HU || apply HT
  | |- hoare _ (_read_barrier _) _ _ => apply fine_barrier; apply HU || apply HT
  | |- hoare _ (_delete_blocks _ _ _) _ _ => apply fine_deletes, HT
  | |- hoare _ (locations _ _ _ _ _) _ _ => apply fine_locations, HT
  | |- hoare _ (infos _ _ _ _) _ _ => apply fine_infos, HU
  | |- hoare _ (write_slots _ _ _ _) _ _ => apply fine_write_slots, HT
  | |- hoare _ (_block_capability _ _ _ _ _) _ _ => apply fine_capability; apply HU || apply HT
  | |- hoare _ (catching _ _) _ _ => apply hoare_catching; [by apply mapped_by|]
  | |- hoare _ (_commit _ _ _ _ _) _ _ => apply fine_commit; [done|done|by apply errors_covered]
  | |- hoare _ (mutate _ _ _ _ _ (mret _)) _ _ =>
      apply fine_mutate_ret; [done|by apply mapped_by|done|by apply errors_covered]
  | |- hoare _ (mutate _ _ _ _ _ (mbind _ (now_ _))) _ _ =>
      apply fine_mutate_timed; [done|by apply mapped_by|done|intros ?; by apply errors_covered]
  | |- hoare _ (now_ _) _ _ => unfold now_
  | |- hoare _ (observe _) _ _ => eapply fine_observe; apply HU || apply HT
  | |- hoare _ (emit _) _ _ => eapply fine_emit; apply HU || apply HT
  | |- hoare _ (gets _) _ _ => eapply fine_gets; apply HU || apply HT
  | |- hoare _ (mret _) _ _ => apply fine_ret
  | |- hoare _ (raise (Raised PyError)) _ _ =>
      apply hoare_raise; apply failure_py
  | |- hoare _ (raise (Raised _)) _ _ => apply hoare_raise; by apply failure_in
  | |- hoare _ (raise (Aborted _ None)) _ _ =>
      apply hoare_raise; apply failure_abort; apply (bool_decide_unpack _); vm_compute; exact I
  | |- hoare _ (_abort_on_domain_error _) _ _ => apply hoare_raise; by apply failure_domain
  | |- hoare _ (match _ with _ => _ end) _ _ => progress case_match
  end.

Lemma as_block_list_fine l K (v : value) :
  stable env K → hoare K (lift_ (as_block_list v)) K (domain_failure l).
Proof.
  intros HK. eapply fine_lift; [exact HK|]. unfold as_block_list. intros e.
  repeat case_match; intros; simplify_eq; by right.
Qed.
Lemma as_text_fine l K (v : value) : stable env K → hoare K (lift_ (as_text v)) K (domain_failure l).
Proof.
  intros HK. eapply fine_lift; [exact HK|]. unfold as_text. intros e.
  repeat case_match; intros; simplify_eq; by right.
Qed.

Lemma Remove_fails p : hoare unused (Remove cfg env ctx op p) T (domain_failure []).
Proof. unfold Remove. repeat part. by apply as_block_list_fine, HT. Qed.
Lemma AbortWrite_fails p w i : hoare unused (AbortWrite cfg env ctx op p w i) T (domain_failure []).
Proof. unfold AbortWrite. repeat part. by apply as_block_list_fine, HT. Qed.
Lemma Lock_fails p m : hoare unused (Lock cfg env ctx op p m) T (domain_failure []).
Proof. unfold Lock. repeat part. by apply as_text_fine, HT. Qed.
Lemma CommitWrite_fails p w i b c : hoare unused (CommitWrite cfg env ctx op p w i b c) T (domain_failure []).
Proof. unfold CommitWrite. repeat part. Qed.

Lemma BeginUpload_fails p z : hoare unused (BeginUpload cfg env ctx op p z) T (domain_failure []).
Proof.
  unfold BeginUpload. repeat part.
  - eapply fine_lift; [apply HU|]. unfold num_blocks. intros e. case_match; [|done]. intros [= <-]. by right.
  - apply hoare_insufficient, choosing_propose, HU.
Qed.

Lemma ListDir_fails p : hoare unused (ListDir cfg env ctx p) unused (domain_failure []).
Proof. unfold ListDir. repeat part. eapply fine_read_tree; [apply HU|by apply list_dir_raises]. Qed.
Lemma ListBlocks_fails p : hoare unused (ListBlocks cfg env ctx p) unused (domain_failure []).
Proof. unfold ListBlocks. repeat part. eapply fine_read_tree; [apply HU|by apply list_blocks_raises]. Qed.
Lemma AbortUpload_fails p : hoare unused (AbortUpload cfg env ctx op p) T (domain_failure []).
Proof. unfold AbortUpload. repeat part. eapply fine_read_tree; [apply HU|by apply pending_blocks_raises]. Qed.

Lemma BeginWrite_fails p i o n : hoare unused (BeginWrite cfg env ctx op p i o n) T (domain_failure []).
Proof.
  unfold BeginWrite. repeat part.
  - eapply fine_read_tree; [apply HU|by apply write_layout_raises].
  - eapply fine_lift; [apply HU|]. unfold plan_write_slots. intros e.
    repeat case_match; intros; simplify_eq; by (right + (left; set_solver)).
  - apply hoare_insufficient, choosing_write_proposals, HU.
Qed.

Lemma Unlock_fails p i : hoare unused (Unlock cfg env ctx op p i) T (domain_failure [InvalidPathError]).
Proof. unfold Unlock. repeat part. Qed.

Lemma Login_fails n pw : hoare unused (Login cfg env n pw) unused (domain_failure []).
Proof. unfold Login, _verified_user, _auth_disabled, abort. repeat part. Qed.

Lemma DataNodeInventory_fails a : hoare unused (DataNodeInventory cfg env ctx a) unused (domain_failure []).
Proof. unfold DataNodeInventory, raise_, abort. repeat part. by eapply fine_lift; [apply HU|]. Qed.

Lemma check_password_fine l pw :
  InvalidPathError ∈ l → hoare unused (lift_ (_check_new_password pw)) unused (domain_failure l).
Proof.
  intros Hl. eapply fine_lift; [apply HU|]. unfold _check_new_password. intros e.
  repeat case_match; intros; simplify_eq; by left.
Qed.

Lemma CreateUser_fails n pw gs a : hoare unused (CreateUser cfg env ctx op n pw gs a) T (domain_failure []).
Proof.
  unfold CreateUser, _auth_disabled, abort. part; [part|]. destruct a0 as [q|]; [|part].
  apply fine_mutate; [done|by apply mapped_by| |].
  - unfold raise_. repeat part. apply check_password_fine. set_solver.
  - intros c' s1 s1' (s2 & [] & Ha & (s3 & ? & _ & (s4 & ? & _ & (s5 & ? & _ & [= _ <-])%bind_ok_inv)
      %bind_ok_inv)%bind_ok_inv)%bind_ok_inv.
    split; [done|by apply errors_covered].
Qed.

Lemma ChangePassword_fails n cur new : hoare unused (ChangePassword cfg env ctx op n cur new) T (domain_failure []).
Proof.
  unfold ChangePassword, _auth_disabled, abort. part; [part|]. destruct a as [q|]; [|repeat part].
  apply fine_mutate; [done|by apply mapped_by| |].
  - unfold raise_, _verified_user. repeat part. apply check_password_fine. set_solver.
  - intros c' s1 s1' (s2 & [] & Ha & (s3 & ? & _ & (s4 & ? & _ & [= _ <-])%bind_ok_inv)
      %bind_ok_inv)%bind_ok_inv.
    split; [done|by apply errors_covered].
Qed.
End handlers_fail.

Lemma hoare_post {A} I J Q (m : H A) : hoare I m J Q → hoare I m (λ _, True) Q.
Proof. intros Hm s Hs. specialize (Hm s Hs). by destruct (m s) as [s1 [a|e]]. Qed.

Lemma handle_fails `{!Jwt, !JwtLaws} cfg env ctx r :
  others_unused cfg env ctx (op_of r) →
  hoare (unused cfg env ctx (op_of r)) (handle cfg env ctx r) (λ _, True) (domain_failure (escapes r)).
Proof.
  intros Ho. pose proof (stable_unused cfg env ctx (op_of r) Ho) as HUn.
  destruct r; cbn [handle op_of escapes] in *; unfold done_;
    try (eapply hoare_bind; [|intros ?; apply fine_ret]);
    unfold MakeDir, RemoveDir, ConfirmBlock, CompleteUpload, RenewLock, Chmod, Chown.
  all: match goal with
    | |- hoare _ (ListDir _ _ _ _) _ _ => by eapply hoare_post, ListDir_fails
    | |- hoare _ (ListBlocks _ _ _ _) _ _ => by eapply hoare_post, ListBlocks_fails
    | |- hoare _ (Login _ _ _ _) _ _ => by eapply hoare_post, Login_fails
    | |- hoare _ (DataNodeInventory _ _ _ _) _ _ => by eapply hoare_post, DataNodeInventory_fails
    | |- hoare _ (Remove _ _ _ _ _) _ _ => by apply Remove_fails
    | |- hoare _ (AbortWrite _ _ _ _ _ _ _) _ _ => by apply AbortWrite_fails
    | |- hoare _ (Lock _ _ _ _ _ _) _ _ => by apply Lock_fails
    | |- hoare _ (CommitWrite _ _ _ _ _ _ _ _ _) _ _ => by apply CommitWrite_fails
    | |- hoare _ (BeginUpload _ _ _ _ _ _) _ _ => by apply BeginUpload_fails
    | |- hoare _ (AbortUpload _ _ _ _ _) _ _ => by apply AbortUpload_fails
    | |- hoare _ (BeginWrite _ _ _ _ _ _ _ _) _ _ => by apply BeginWrite_fails
    | |- hoare _ (Unlock _ _ _ _ _ _) _ _ => by apply Unlock_fails
    | |- hoare _ (CreateUser _ _ _ _ _ _ _ _) _ _ => by apply CreateUser_fails
    | |- hoare _ (ChangePassword _ _ _ _ _ _ _) _ _ => by apply ChangePassword_fails
    | |- _ =>
        eapply hoare_bind; [by apply fine_auth|intros ?];
        match goal with
        | |- hoare _ (mutate _ _ _ _ _ (mret _)) _ _ =>
            apply fine_mutate_ret; [done|by apply mapped_by|done|by apply errors_covered]
        | |- _ => apply fine_mutate_timed; [done|by apply mapped_by|done|intros ?; by apply errors_covered]
        end
    end.
Qed.

(** * Why a call is refused *)

Section blame.
Context `{!Jwt, !JwtLaws} (cfg : Config) (env : Env) (ctx : Ctx) (r : request).

(** What the RPC itself refuses, before or without the log: the readings of the tree
    and the checks of the request. *)
Definition refusal (p : option Principal) (t : TreeState) : option exn :=
  match r with
  | RListDir path => match (list_dir path (_caller p) t).2 with Err e => Some e | Ok _ => None end
  | RListBlocks path => match (list_blocks path (_caller p) t).2 with Err e => Some e | Ok _ => None end
  | RBeginUpload _ _ size => if size <=? 0 then Some InvalidPathError else None
  | RBeginWrite _ path _ offset length =>
      match (write_layout path (c_block_size cfg) (_caller p) t).2 with
      | Err e => Some e
      | Ok l => match plan_write_slots l.2 l.1.2 offset length with Err e => Some e | Ok _ => None end
      end
  | RCreateUser _ _ password gs _ =>
      match p with
      | None => None
      | Some q =>
          if negb (is_admin q) then Some AccessDeniedError
          else if bool_decide (password = "") || (MAX_PASSWORD_CHARS <? char_count password) then Some InvalidPathError
          else if MAX_USER_GROUPS <? zlen gs then Some InvalidPathError else None
      end
  | RChangePassword _ name current new =>
      match p with
      | None => None
      | Some q =>
          if bool_decide (name = "" ∨ name = username q)
             && bool_decide (verified (get_user (username q) t) current = None) then Some AccessDeniedError
          else if negb (bool_decide (name = "" ∨ name = username q)) && negb (is_admin q) then Some AccessDeniedError
          else if bool_decide (new = "") || (MAX_PASSWORD_CHARS <? char_count new) then Some InvalidPathError
          else None
      end
  | RDataNodeInventory address =>
      if match p with Some q => negb (is_admin q) | None => false end then Some AccessDeniedError
      else if bool_decide (address ∈ c_datanodes cfg) then None else Some InvalidPathError
  | _ => None
  end.

(** The error a call is refused with, when it left the node at [s']: that of its
    session, of its password, of its own checks, or the one with which the log answered
    its command. *)
Inductive refused (s' : Node) : exn → Prop :=
| refused_session secret t e : c_jwt_secret cfg = Some secret → session env ctx secret t = Err e → refused s' e
| refused_login name password :
    r = RLogin name password → verified (get_user name (tree (replicated s'))) password = None → refused s' AuthError
| refused_check p e : calls_as cfg env ctx p → refusal p (tree (replicated s')) = Some e → refused s' e
| refused_log p class :
    calls_as cfg env ctx p → dict_get (op_key p (op_of r)) (applied_ops (replicated s')) = Some (OutError class) →
    refused s' (exn_named class).

(** What the RPC layer aborts with by itself. *)
Definition layer_abort (code : StatusCode) : Prop :=
  code = UNAVAILABLE ∨ code = INVALID_ARGUMENT ∧ op_of r = "" ∨ code = UNIMPLEMENTED ∧ c_jwt_secret cfg = None.

Definition blamed (s' : Node) (x : rpc_exn) : Prop :=
  match x with
  | Raised e => e = PyError ∨ refused s' e
  | Insufficient => True
  | Aborted code None => layer_abort code
  | Aborted code (Some class) => ∃ e, code = status_of e ∧ class = class_name e ∧ refused s' e
  end.
Definition blamed_run {A} (out : Node * result rpc_exn A) : Prop :=
  match out with (s', Err x) => blamed s' x | _ => True end.
Definition blames {A} (m : H A) : Prop := ∀ s, blamed_run (m s).

Lemma blames_bind {A B} (m : H A) (f : A → H B) :
  blames m → (∀ a s s1, m s = (s1, Ok a) → blamed_run (f a s1)) → blames (mbind f m).
Proof.
  intros Hm Hf s. specialize (Hm s). unfold mbind, M_bind. destruct (m s) as [s1 [a|x]] eqn:E; [by eapply Hf|exact Hm].
Qed.
Lemma blames_seq {A B} (m : H A) (f : A → H B) : blames m → (∀ a, blames (f a)) → blames (mbind f m).
Proof. intros Hm Hf. apply blames_bind; [done|]. intros a s s1 _. apply Hf. Qed.
Lemma blames_fine {A} (m : H A) : (∀ s, match m s with (_, Ok _) => True | (_, Err x) => x = Raised PyError end) → blames m.
Proof. intros Hm s. specialize (Hm s). unfold blamed_run. destruct (m s) as [s1 [a|x]]; [done|]. subst x. by left. Qed.
Lemma blamed_catching {A} es (m : H A) s : PyError ∉ es → blamed_run (m s) → blamed_run (catching es m s).
Proof.
  intros Hpy Hm. unfold catching. destruct (m s) as [s1 [a|[e| |code [k|]]]]; try done.
  destruct (decide (e ∈ es)) as [He|]; [|done]. destruct Hm as [->|He']; [done|]. exists e. done.
Qed.
Lemma blames_catching {A} es (m : H A) : PyError ∉ es → blames m → blames (catching es m).
Proof. intros Hpy Hm s. by apply blamed_catching. Qed.
Lemma blames_insufficient {A} (m : H A) : blames m → blames (catching_insufficient m).
Proof.
  intros Hm s. specialize (Hm s). unfold catching_insufficient. destruct (m s) as [s1 [a|[e| |code [k|]]]]; try done. by left.
Qed.
Lemma blames_unavailable {A} : blames (abort UNAVAILABLE : H A).
Proof. intros s. by left. Qed.

Lemma blames_ret {A} (a : A) : blames (mret a).
Proof. done. Qed.
Lemma blames_observe {A} (f : nat → A) : blames (observe f).
Proof. done. Qed.
Lemma blames_py {A} : blames (raise (Raised PyError) : H A).
Proof. intros s. by left. Qed.
Lemma blames_lift {A} (x : result exn A) : (∀ e, x = Err e → e = PyError) → blames (lift_ x).
Proof. intros H s. unfold lift_. destruct x as [a|e]; [done|]. left. by apply H. Qed.

Lemma blames_auth : blames (_authenticate cfg env ctx).
Proof.
  intros s. unfold _authenticate. destruct (c_jwt_secret cfg) as [secret|] eqn:Hs; [|done].
  pose proof (λ t e, refused_session s secret t e Hs) as Hr.
  destruct (_ || _) eqn:Hh.
  - simpl. exists AuthError. split_and!; [done..|]. eapply (refused_session _ secret 0 _ Hs). unfold session. by rewrite Hh.
  - unfold now_, observe, mbind, M_bind. set (t := clock_at env (tick s)).
    destruct (verify_token secret _ (seconds env t)) as [q|e] eqn:Hv; [done|].
    assert (∀ s', refused s' e) as Hre.
    { intros s'. eapply (refused_session _ secret t _ Hs). unfold session. by rewrite Hh. }
    apply verify_token_err in Hv as ->. simpl. by exists AuthError.
Qed.
Lemma blames_barrier : blames (_read_barrier env).
Proof.
  unfold _read_barrier, _require_leader, _read_barrier_raw.
  apply blames_seq; [apply blames_seq; [apply blames_observe|intros [|]; [apply blames_ret|apply blames_unavailable]]|intros _].
  apply blames_seq; [|intros [|]; [apply blames_ret|apply blames_unavailable]].
  apply blames_seq; [apply blames_observe|intros [|]; [|apply blames_ret]]. by apply blames_seq; [|intros x; apply blames_ret].
Qed.
Lemma blames_capability bid o ttl : blames (_block_capability cfg env bid o ttl).
Proof.
  unfold _block_capability. case_match; [|apply blames_ret]. apply blames_seq; [apply blames_observe|intros t].
  apply blames_lift. unfold issue_block. intros e. repeat case_match; congruence.
Qed.
Lemma blames_deletes bs : blames (_delete_blocks cfg env bs).
Proof.
  induction bs as [|b bs IH]; simpl; [apply blames_ret|]. apply blames_seq; [|intros _; apply IH].
  induction (datanode_addresses b) as [|a addrs IHa]; simpl; [apply blames_ret|].
  apply blames_seq; [apply blames_capability|intros cap]. by apply blames_seq; [|intros _; apply IHa].
Qed.
Lemma blames_locations n pl : blames (locations cfg env ctx n pl).
Proof.
  revert n. induction pl as [|[b a] pl IH]; intros n; simpl; [apply blames_ret|].
  apply blames_seq; [apply blames_capability|intros cap]. by apply blames_seq; [|intros ls; apply blames_ret].
Qed.
Lemma blames_infos bs : blames (infos cfg env ctx bs).
Proof.
  induction bs as [|b bs IH]; simpl; [apply blames_ret|].
  apply blames_seq; [apply blames_capability|intros cap]. by apply blames_seq; [|intros ls; apply blames_ret].
Qed.
Lemma blames_write_slots rows : blames (write_slots cfg env ctx rows).
Proof.
  induction rows as [|[[[[[[i o] z] a] n] b] y] rows IH]; simpl; [apply blames_ret|].
  apply blames_seq; [case_match; [apply blames_ret|apply blames_capability]|intros c1].
  apply blames_seq; [apply blames_capability|intros c2]. by apply blames_seq; [|intros ls; apply blames_ret].
Qed.
Lemma blames_pick : blames (_pick_replicas cfg env).
Proof.
  unfold _pick_replicas. apply blames_seq; [case_match; [apply blames_observe|apply blames_ret]|intros alive].
  case_match; [done|]. by repeat (apply blames_seq; [done|intros ?]).
Qed.
Lemma blames_propose n : blames (propose cfg env n).
Proof.
  induction n as [|n IH]; simpl; [apply blames_ret|]. apply blames_seq; [apply blames_observe|intros id].
  apply blames_seq; [apply blames_pick|intros a]. by apply blames_seq; [|intros l; apply blames_ret].
Qed.
Lemma blames_write_proposals plan : blames (write_proposals cfg env plan).
Proof.
  induction plan as [|[i z] plan IH]; simpl; [apply blames_ret|]. apply blames_seq; [apply blames_observe|intros id].
  apply blames_seq; [apply blames_pick|intros a]. by apply blames_seq; [|intros l; apply blames_ret].
Qed.

(** The commit: what it raises is what the log remembers for this call. *)
Lemma applied_remembered key c s s' o : apply key c s = (s', o) → dict_get key (applied_ops s') = Some o.
Proof.
  intros Happ. destruct (dict_get key (applied_ops s)) as [o'|] eqn:E.
  - rewrite (apply_hit _ _ _ _ E) in Happ. by injection Happ as <- <-.
  - pose proof (apply_fresh_remembered key c s E) as H. by rewrite Happ in H.
Qed.
Lemma blames_commit c : blames (_commit cfg env ctx (op_of r) c).
Proof.
  unfold _commit. apply blames_seq; [case_bool_decide as Hop; [|apply blames_ret]|intros _].
  { intros s. right. by left. }
  apply blames_seq; [unfold _require_leader; apply blames_seq; [apply blames_observe|intros [|]; [apply blames_ret|apply blames_unavailable]]|intros _].
  apply blames_bind; [apply blames_auth|]. intros p s s1 Hp%authenticate_inv. clear s.
  unfold _commit_raw, mbind, M_bind, observe, emit, modify, sync_others, apply_here. simpl.
  destruct (leader_at env (tick s1)); [|by left]. simpl. destruct (raft_at env _); simpl; [|by left..].
  destruct (apply (op_key p (op_of r)) c _) as [r' [v|class]] eqn:Happ; simpl; [done|]. right.
  eapply refused_log; [exact Hp|]. by eapply applied_remembered.
Qed.

Lemma blames_mutate es (c : H command) : PyError ∉ es → blames c → blames (mutate cfg env ctx es (op_of r) c).
Proof.
  intros Hes Hc. unfold mutate. apply blames_catching; [done|]. apply blames_seq; [done|intros c'].
  apply blames_seq; [apply blames_commit|intros v; apply blames_ret].
Qed.
End blame.

Section handlers_blame.
Context `{!Jwt, !JwtLaws} (cfg : Config) (env : Env) (ctx : Ctx).
Notation blames r := (blames cfg env ctx r).
Notation refused r := (refused cfg env ctx r).

Lemma blames_checked {A} r p e : calls_as cfg env ctx p → (∀ t, refusal cfg r p t = Some e) → blames r (raise (Raised e) : H A).
Proof. intros Hp He s. right. by eapply refused_check. Qed.
Lemma blames_aborted {A} r p e :
  calls_as cfg env ctx p → (∀ t, refusal cfg r p t = Some e) → blames r (_abort_on_domain_error e : H A).
Proof. intros Hp He s. exists e. split_and!; [done..|]. by eapply refused_check. Qed.
Lemma blames_read {A} r p (m : TreeM A) :
  calls_as cfg env ctx p → (∀ t e, (m t).2 = Err e → refusal cfg r p t = Some e) → blames r (read_tree m).
Proof.
  intros Hp Hm s. unfold read_tree. specialize (Hm (tree (replicated s))). destruct (m _) as [t' [a|e]]; [done|].
  right. eapply refused_check; [exact Hp|]. by apply Hm.
Qed.
Lemma blames_pending r path : blames r (read_tree (pending_blocks path)).
Proof.
  intros s. unfold read_tree. pose proof (pending_blocks_raises [] path (tree (replicated s))) as Hm.
  destruct (pending_blocks path _) as [t' [a|e]]; [done|]. left.
  destruct (Hm t' e eq_refl) as [He|He]; [by apply not_elem_of_nil in He|done].
Qed.
Lemma blames_disabled {A} r p : calls_as cfg env ctx p → p = None → blames r (_auth_disabled : H A).
Proof.
  intros Hp -> s. right. right. split; [done|]. unfold calls_as in Hp. destruct (c_jwt_secret cfg); [|done].
  by destruct Hp as (q & t & ? & _).
Qed.
Lemma blames_authed {B} r (f : option Principal → H B) :
  (∀ p, calls_as cfg env ctx p → blames r (f p)) → blames r (p ← _authenticate cfg env ctx; f p).
Proof. intros Hf. apply blames_bind; [apply blames_auth|]. intros p s s1 Hp%authenticate_inv. by apply Hf. Qed.
Lemma blames_timed {B} r (f : Z → H B) : (∀ t, blames r (f t)) → blames r (t ← now_ env; f t).
Proof. intros Hf. by apply blames_seq; [apply blames_observe|]. Qed.
Lemma not_py (es : list exn) : bool_decide (PyError ∈ es) = false → PyError ∉ es.
Proof. by intros H%bool_decide_eq_false. Qed.

Ltac blame :=
  match goal with
  | |- ServicerErrors.blames _ _ _ _ (mbind _ (_authenticate _ _ _)) => apply blames_authed; intros ? ?
  | |- ServicerErrors.blames _ _ _ _ (mbind _ (now_ _)) => apply blames_timed; intros ?
  | |- ServicerErrors.blames _ _ _ _ (catching _ _) => apply blames_catching; [by apply not_py|]
  | |- ServicerErrors.blames _ _ _ _ (catching_insufficient _) => apply blames_insufficient
  | |- ServicerErrors.blames _ _ _ ?r (mutate _ _ _ _ ?o _) => change o with (op_of r); apply blames_mutate; [by apply not_py|]
  | |- ServicerErrors.blames _ _ _ ?r (_commit _ _ _ ?o _) => change o with (op_of r); apply blames_commit
  | |- ServicerErrors.blames _ _ _ _ (mbind _ _) => apply blames_seq; [|intros ?]
  | |- ServicerErrors.blames _ _ _ _ (mret _) => apply blames_ret
  | |- ServicerErrors.blames _ _ _ _ (observe _) => apply blames_observe
  | |- ServicerErrors.blames _ _ _ _ (_read_barrier _) => apply blames_barrier
  | |- ServicerErrors.blames _ _ _ _ (_delete_blocks _ _ _) => apply blames_deletes
  | |- ServicerErrors.blames _ _ _ _ (_block_capability _ _ _ _ _) => apply blames_capability
  | |- ServicerErrors.blames _ _ _ _ (locations _ _ _ _ _) => apply blames_locations
  | |- ServicerErrors.blames _ _ _ _ (infos _ _ _ _) => apply blames_infos
  | |- ServicerErrors.blames _ _ _ _ (write_slots _ _ _ _) => apply blames_write_slots
  | |- ServicerErrors.blames _ _ _ _ (propose _ _ _) => apply blames_propose
  | |- ServicerErrors.blames _ _ _ _ (write_proposals _ _ _) => apply blames_write_proposals
  | |- ServicerErrors.blames _ _ _ _ (read_tree (pending_blocks _)) => apply blames_pending
  | |- ServicerErrors.blames _ _ _ _ (raise (Raised PyError)) => apply blames_py
  | |- ServicerErrors.blames _ _ _ _ (abort UNAVAILABLE) => apply blames_unavailable
  | |- ServicerErrors.blames _ _ _ _ (emit _) => done
  | |- ServicerErrors.blames _ _ _ _ (lift_ (as_block_list _)) =>
      apply blames_lift; unfold as_block_list; intros ?; repeat case_match; congruence
  | |- ServicerErrors.blames _ _ _ _ (lift_ (as_text _)) =>
      apply blames_lift; unfold as_text; intros ?; repeat case_match; congruence
  | |- ServicerErrors.blames _ _ _ _ (match ?v with _ => _ end) => is_var v; destruct v
  end.

Lemma ListDir_blames p : blames (RListDir p) (ListDir cfg env ctx p).
Proof.
  unfold ListDir. repeat blame. eapply blames_read; [done|]. intros t e He. cbn [refusal]. by rewrite He.
Qed.
Lemma ListBlocks_blames p : blames (RListBlocks p) (ListBlocks cfg env ctx p).
Proof.
  unfold ListBlocks. repeat blame. eapply blames_read; [done|]. intros t e He. cbn [refusal]. by rewrite He.
Qed.
Lemma BeginUpload_blames op p z : blames (RBeginUpload op p z) (BeginUpload cfg env ctx op p z).
Proof.
  unfold BeginUpload. blame. blame.
  { destruct (z <=? 0) eqn:Hz; [|blame]. eapply blames_aborted; [done|]. intros t. cbn [refusal]. by rewrite Hz. }
  blame; [|repeat blame]. apply blames_lift. unfold num_blocks. intros e. case_match; congruence.
Qed.

(** The layout and the plan are read at once. *)
Lemma planned_blames op path id off len p :
  calls_as cfg env ctx p →
  blames (RBeginWrite op path id off len)
    (l ← read_tree (write_layout path (c_block_size cfg) (_caller p));
     plan ← lift_ (plan_write_slots l.2 l.1.2 off len); mret (l.1.1, plan)).
Proof.
  intros Hp s. unfold mbind, M_bind, read_tree, lift_.
  assert (∀ e, refusal cfg (RBeginWrite op path id off len) p (tree (replicated s)) = Some e →
    blamed cfg env ctx (RBeginWrite op path id off len) s (Raised e)) as Hr by (intros e He; right; by eapply refused_check).
  revert Hr. cbn [refusal]. destruct (write_layout _ _ _ _) as [t' [l|e]]; cbn; intros Hr; [|by apply Hr].
  destruct (plan_write_slots _ _ _ _) as [plan|e]; cbn; [done|by apply Hr].
Qed.
Lemma BeginWrite_blames op p i o n : blames (RBeginWrite op p i o n) (BeginWrite cfg env ctx op p i o n).
Proof. unfold BeginWrite. blame. blame; [repeat blame|]. blame; [|repeat blame]. blame. by apply planned_blames. Qed.

Lemma Login_blames n pw : blames (RLogin n pw) (Login cfg env n pw).
Proof.
  unfold Login. destruct (c_jwt_secret cfg) as [secret|] eqn:Hs.
  2: { intros s. right. by right. }
  blame; [blame|]. intros s. unfold _verified_user, gets, mbind, M_bind, mret, M_ret.
  destruct (verified _ pw) as [u|] eqn:Hv; [done|]. exists AuthError. split_and!; [done..|]. by eapply refused_login.
Qed.

Lemma check_password_err pw e :
  _check_new_password pw = Err e → e = InvalidPathError ∧ bool_decide (pw = "") || (MAX_PASSWORD_CHARS <? char_count pw) = true.
Proof. unfold _check_new_password. case_bool_decide; [by intros [= <-]|]. case_match; [by intros [= <-]|done]. Qed.
Lemma check_password_ok pw :
  _check_new_password pw = Ok tt → bool_decide (pw = "") || (MAX_PASSWORD_CHARS <? char_count pw) = false.
Proof. unfold _check_new_password. case_bool_decide; [done|]. by case_match. Qed.

Lemma blames_stop {A B} r e (f : A → H B) : blames r (raise (Raised e) : H A) → blames r (mbind f (raise (Raised e))).
Proof. intros He. apply blames_bind; [done|]. by intros a s s1 [=]. Qed.

Lemma CreateUser_blames op n pw gs adm : blames (RCreateUser op n pw gs adm) (CreateUser cfg env ctx op n pw gs adm).
Proof.
  unfold CreateUser. blame. destruct p as [q|]; [|by eapply blames_disabled]. blame. unfold raise_.
  destruct (is_admin q) eqn:Ha.
  2: { eapply blames_stop, blames_checked; [done|]. intros t. cbn [refusal]. by rewrite Ha. }
  blame; [blame|]. destruct (_check_new_password pw) as [[]|e] eqn:Hpw.
  2: { apply check_password_err in Hpw as [-> Hpw]. eapply blames_stop, blames_checked; [done|]. intros t. cbn [refusal]. by rewrite Ha, Hpw. }
  apply check_password_ok in Hpw. blame; [done|]. destruct (MAX_USER_GROUPS <? zlen gs) eqn:Hg; [|repeat blame].
  eapply blames_stop, blames_checked; [done|]. intros t. cbn [refusal]. by rewrite Ha, Hpw, Hg.
Qed.

(** The current password is checked on the tree of the barrier. *)
Lemma current_blames op name cur new q :
  calls_as cfg env ctx (Some q) → name = "" ∨ name = username q →
  blames (RChangePassword op name cur new)
    (_ ← _read_barrier env; u ← _verified_user (username q) cur;
     match u with None => raise_ AccessDeniedError | Some _ => mret tt end).
Proof.
  intros Hp Hn. blame; [blame|]. intros s. unfold _verified_user, gets, mbind, M_bind, mret, M_ret.
  destruct (verified _ cur) as [u|] eqn:Hv; [done|]. right. eapply refused_check; [exact Hp|].
  cbn [refusal]. rewrite Hv. by rewrite (bool_decide_true _ Hn), bool_decide_true by done.
Qed.
Lemma own_target name q : name = "" ∨ name = username q → (if bool_decide (name = "") then username q else name) = username q.
Proof. intros Hn. case_bool_decide; [done|by destruct Hn]. Qed.
Lemma other_target name q : ¬ (name = "" ∨ name = username q) → (if bool_decide (name = "") then username q else name) = name.
Proof. intros Hn. case_bool_decide; [|done]. by destruct Hn; left. Qed.

Lemma ChangePassword_blames op name cur new :
  blames (RChangePassword op name cur new) (ChangePassword cfg env ctx op name cur new).
Proof.
  unfold ChangePassword. blame. destruct p as [q|]; [|by eapply blames_disabled]. blame.
  apply blames_bind.
  - destruct (decide (name = "" ∨ name = username q)) as [Hn|Hn].
    + rewrite (own_target name q Hn), bool_decide_false by (by intros []). by apply current_blames.
    + rewrite (other_target name q Hn), bool_decide_true by auto. destruct (is_admin q) eqn:Ha; [blame|]. unfold raise_.
      eapply blames_checked; [done|]. intros t. cbn [refusal]. by rewrite (bool_decide_false _ Hn), Ha.
  - intros [] s s1 Hok. destruct (_check_new_password new) as [[]|e] eqn:Hpw; [done|].
    apply check_password_err in Hpw as [-> Hpw]. right. eapply refused_check; [eassumption|]. cbn [refusal]. rewrite Hpw.
    destruct (decide (name = "" ∨ name = username q)) as [Hn|Hn].
    + rewrite (own_target name q Hn), bool_decide_false in Hok by (by intros []).
      destruct (verified (get_user (username q) (tree (replicated s1))) cur) as [u|] eqn:Hv.
      { by rewrite (bool_decide_true _ Hn), bool_decide_false. }
      exfalso. apply bind_ok_inv in Hok as (s2 & u & _ & Hok). unfold _verified_user, gets, mbind, M_bind, mret, M_ret in Hok.
      destruct (verified _ cur) as [u'|] eqn:Hv'; [|done]. injection Hok as ->. congruence.
    + rewrite (other_target name q Hn), bool_decide_true in Hok by auto. rewrite (bool_decide_false _ Hn).
      by destruct (is_admin q).
Qed.

Lemma DataNodeInventory_blames a : blames (RDataNodeInventory a) (DataNodeInventory cfg env ctx a).
Proof.
  unfold DataNodeInventory. blame. blame.
  - blame. unfold raise_. destruct p as [q|]; [destruct (is_admin q) eqn:Ha|].
    2: { eapply blames_stop, blames_checked; [done|]. intros t. cbn [refusal]. by rewrite Ha. }
    all: blame; [blame|]; case_bool_decide as Hin; [blame|].
    all: eapply blames_checked; [done|]; intros t; cbn [refusal]; rewrite ?Ha; by rewrite bool_decide_false.
  - blame; [|repeat blame]. case_match; [|blame]. blame. apply blames_lift. unfold issue_internal. intros e. repeat case_match; congruence.
Qed.

(** Every handler. *)
Lemma handle_blames r : blames r (handle cfg env ctx r).
Proof.
  destruct r; cbn [handle]; unfold done_; try (apply blames_seq; [|intros ?; apply blames_ret]);
    first [apply ListDir_blames|apply ListBlocks_blames|apply BeginUpload_blames|apply BeginWrite_blames|apply Login_blames
          |apply CreateUser_blames|apply ChangePassword_blames|apply DataNodeInventory_blames|idtac];
    unfold MakeDir, RemoveDir, Remove, ConfirmBlock, CompleteUpload, AbortUpload, Lock, RenewLock, Unlock, CommitWrite,
      AbortWrite, Chmod, Chown; repeat blame.
Qed.
End handlers_blame.

Lemma demo_others_unused op : @others_unused toy_jwt open_config demo_env (mkCtx [] "peer") op.
Proof. intros p n _. apply not_elem_of_nil. Qed.


(** [Unlock] of a path with [..] ends as UNKNOWN, without the class of the error. *)
Lemma unlock_leaks_invalid_path :
  (@handle toy_jwt open_config demo_env (mkCtx [] "peer") (RUnlock "op" "/.." "L") demo_node).2 =
    Err (Raised InvalidPathError).
Proof. vm_compute. reflexivity. Qed.
