(* ===== verification/ServicerUpload.v ===== *)
(** The answers of BeginUpload, ListBlocks and Login: where the blocks go, what
    a listing shows and what a session is.  Listings and sessions
    are in the second part. *)

From Stdlib Require Import QArith Qround.
From S2P Require Import Prelude Exceptions Dict Paths TreeData Tree TreeFacts Replicated TreeErrors TreeOps.
From S2P Require Import TreeInv TreeView Layout Crypto BlockToken Addresses Auth Servicer Handlers.
From S2P Require Import ServicerProps ServicerErrors TreeProps.

Open Scope Z_scope.

(** * Programs that leave the log alone *)

Definition local {A} (m : H A) : Prop := ∀ s, replicated (m s).1 = replicated s.

Lemma local_bind {A B} (m : H A) (f : A → H B) : local m → (∀ a, local (f a)) → local (mbind f m).
Proof.
  intros Hm Hf s. specialize (Hm s). unfold mbind, M_bind.
  destruct (m s) as [s1 [a|e]]; simpl in *; [|done]. by rewrite Hf.
Qed.
Lemma local_run {A} (m : H A) s s' r : local m → m s = (s', r) → replicated s' = replicated s.
Proof. intros Hm E. specialize (Hm s). by rewrite E in Hm. Qed.

Ltac local_step :=
  match goal with
  | |- local (mbind _ _) => apply local_bind; [|intros ?]
  | |- local (match _ with _ => _ end) => progress case_match
  | |- local _ => done
  end.

Section local.
Context `{!Jwt} (cfg : Config) (env : Env) (ctx : Ctx).

Lemma local_auth : local (_authenticate cfg env ctx).
Proof. unfold _authenticate, now_. repeat local_step. Qed.
Lemma local_capability bid o ttl : local (_block_capability cfg env bid o ttl).
Proof.
  unfold _block_capability, now_. repeat local_step.
  unfold lift_. by repeat local_step.
Qed.
Lemma local_deletes bs : local (_delete_blocks cfg env bs).
Proof.
  induction bs as [|b bs IH]; simpl; [done|]. apply local_bind; [|intros _; apply IH].
  induction (datanode_addresses b) as [|a addrs IHa]; simpl; [done|].
  apply local_bind; [apply local_capability|intros cap]. by apply local_bind; [|intros _; apply IHa].
Qed.
Lemma local_locations r pl : local (locations cfg env ctx r pl).
Proof.
  revert r. induction pl as [|[b a] pl IH]; intros r; simpl; [done|].
  apply local_bind; [apply local_capability|intros cap]. apply local_bind; [apply IH|done].
Qed.
Lemma local_infos bs : local (infos cfg env ctx bs).
Proof.
  induction bs as [|b bs IH]; simpl; [done|].
  apply local_bind; [apply local_capability|intros cap]. apply local_bind; [apply IH|done].
Qed.
End local.

(** * Inversions *)

Lemma hoare_ok {A} I J Q (m : H A) s s' a : hoare I m J Q → I s → m s = (s', Ok a) → J s'.
Proof. intros Hm Hs E. specialize (Hm s Hs). by rewrite E in Hm. Qed.

Lemma catching_insufficient_ok_inv {A} (m : H A) s s' a :
  catching_insufficient m s = (s', Ok a) → m s = (s', Ok a).
Proof. unfold catching_insufficient. destruct (m s) as [s1 [x|[e| |]]]; done. Qed.

Lemma lift_ok_run {A} (r : result exn A) s s' a : lift_ r s = (s', Ok a) → s' = s ∧ r = Ok a.
Proof. destruct r; [|done]. by intros [= -> ->]. Qed.

Lemma apply_ok_inv key c r r' v :
  dict_get key (applied_ops r) = None → apply key c r = (r', OutOk v) → run_command c (tree r) = (tree r', Ok v).
Proof.
  unfold apply, dispatch. intros ->. case_bool_decide; [|done].
  destruct (run_command c (tree r)) as [t [x|e]] eqn:E; simpl; [|done]. by intros [= <- <-].
Qed.

Section spec.
Context `{!Jwt, !JwtLaws} (cfg : Config) (env : Env) (ctx : Ctx).

(** A commit that returns has been applied to the log as it then was. *)
Lemma commit_ok_inv op c s s' v :
  others_unused cfg env ctx op → unused cfg env ctx op s → _commit cfg env ctx op c s = (s', Ok v) →
  ∃ n, run_command c (tree (apply_log (others_at env n) (replicated s))) = (tree (replicated s'), Ok v).
Proof.
  intros Ho Hu (s1 & [] & K1 & (s2 & [] & K2 & (s3 & p & K3 & (s4 & o & K4 & K5)%bind_ok_inv)
    %bind_ok_inv)%bind_ok_inv)%bind_ok_inv.
  assert (replicated s1 = replicated s) as E1 by (revert K1; case_bool_decide; [done|by intros [= <-]]).
  assert (replicated s2 = replicated s1) as E2.
  { revert K2. unfold _require_leader, observe, mbind, M_bind. simpl. destruct (leader_at env (tick s1)); [|done]. by intros [= <-]. }
  pose proof (local_run _ _ _ _ (local_auth cfg env ctx) K3) as E3. apply authenticate_inv in K3.
  assert (o = Known (OutOk v) ∧ s4 = s') as [-> ->].
  { revert K5. destruct o as [[x|class]| |]; [by intros [= -> ->]|done..]. }
  clear K5. revert K4. unfold _commit_raw, mbind, M_bind, observe, sync_others, apply_here. simpl.
  destruct (leader_at env (tick s3)); [|done]. simpl.
  destruct (raft_at env _); [|done|done]. simpl. intros K4. exists (S (tick s3)).
  destruct (apply (op_key p op) c _) as [r o] eqn:Happ. simpl in K4. injection K4 as <- ->.
  simpl. rewrite <-E1, <-E2, <-E3. eapply apply_ok_inv; [|exact Happ].
  apply apply_log_absent; [by apply Ho|]. rewrite E3, E2, E1. by apply Hu.
Qed.

(** ** The choice of replicas *)

Lemma rotation_index (n start i j : Z) :
  0 < n → 0 ≤ i < n → 0 ≤ j < n → (start + i) mod n = (start + j) mod n → i = j.
Proof.
  intros Hn Hi Hj E. pose proof (Z.div_mod (start + i) n ltac:(lia)).
  pose proof (Z.div_mod (start + j) n ltac:(lia)). rewrite E in *.
  set (q := (start + i) / n) in *. set (q' := (start + j) / n) in *.
  assert (q = q') as <- by (destruct (Z.lt_trichotomy q q') as [?|[?|?]]; nia). lia.
Qed.

(** [count] consecutive DataNodes, from the offset on and around: as many as
    asked, all alive, none twice. *)
Lemma rotation_spec alive start count :
  NoDup alive → 0 ≤ count ≤ zlen alive →
  zlen (rotation alive start count) = count ∧ NoDup (rotation alive start count) ∧
  ∀ a, a ∈ rotation alive start count → a ∈ alive.
Proof.
  intros Hnd Hc. destruct (Z.eq_dec (zlen alive) 0) as [Hz|Hz].
  { replace count with 0 by lia. unfold rotation. rewrite zrange_nil by lia. simpl.
    split_and!; [done|constructor|]. intros a Ha. by apply not_elem_of_nil in Ha. }
  assert (0 < zlen alive) as Hpos by (unfold zlen in *; lia).
  set (f := λ i : Z, alive !! Z.to_nat ((start + i) mod zlen alive)).
  assert (∀ i, ∃ a, f i = Some a ∧ a ∈ alive) as Hf.
  { intros i. pose proof (Z.mod_pos_bound (start + i) (zlen alive) Hpos) as Hm.
    destruct (lookup_lt_is_Some_2 alive (Z.to_nat ((start + i) mod zlen alive))) as [a Ha].
    { unfold zlen in *. lia. }
    exists a. split; [done|by eapply list_elem_of_lookup_2]. }
  change (rotation alive start count) with (omap f (zrange 0 count)).
  assert (∀ l, (∀ i, i ∈ l → 0 ≤ i < zlen alive) → NoDup l →
    length (omap f l) = length l ∧ NoDup (omap f l) ∧ ∀ a, a ∈ omap f l → a ∈ alive) as Hl.
  { induction l as [|i l IH]; intros Hr Hn; [split_and!; [done|constructor|intros a Ha; by apply not_elem_of_nil in Ha]|].
    apply NoDup_cons in Hn as [Hi Hn].
    destruct IH as (IH1 & IH2 & IH3); [intros j Hj; apply Hr; by right|done|].
    destruct (Hf i) as (a & Ha & Hin). simpl. rewrite Ha. simpl. split_and!; [f_equal; exact IH1| |].
    - constructor; [|done]. intros (j & Hj & Hja)%list_elem_of_omap. apply Hi.
      replace i with j; [done|]. apply (rotation_index (zlen alive) start); [done|apply Hr; by right|apply Hr; by left|].
      unfold f in Ha, Hja. pose proof (Z.mod_pos_bound (start + i) (zlen alive) Hpos).
      pose proof (Z.mod_pos_bound (start + j) (zlen alive) Hpos).
      pose proof (NoDup_lookup _ _ _ _ Hnd Ha Hja). lia.
    - intros b [->|Hb]%elem_of_cons; [done|by apply IH3]. }
  destruct (Hl (zrange 0 count)) as (K1 & K2 & K3).
  - intros i Hi%elem_of_zrange. lia.
  - unfold zrange. apply NoDup_fmap; [intros ??; lia|apply NoDup_seq].
  - split_and!; [|done|done]. unfold zlen. rewrite K1, zrange_length. lia.
Qed.

(** The replicas a block may be given. *)
Definition replicas_ok (addresses : list string) : Prop :=
  ∃ alive, (alive = c_datanodes cfg ∧ c_monitored cfg = false ∨
            c_monitored cfg = true ∧ ∃ k, alive = alive_at env k) ∧
    c_min_write_replicas cfg ≤ zlen alive ∧ NoDup addresses ∧
    zlen addresses = Z.min (c_replication_factor cfg) (zlen alive) ∧ ∀ a, a ∈ addresses → a ∈ alive.

Lemma pick_spec s s' addresses :
  NoDup (c_datanodes cfg) → (∀ k, NoDup (alive_at env k)) → 0 ≤ c_replication_factor cfg →
  _pick_replicas cfg env s = (s', Ok addresses) → replicas_ok addresses.
Proof.
  intros Hd Ha Hf (s1 & alive & K1 & K2)%bind_ok_inv.
  assert ((alive = c_datanodes cfg ∧ c_monitored cfg = false ∨
           c_monitored cfg = true ∧ ∃ k, alive = alive_at env k) ∧ NoDup alive) as [Hal Hnd].
  { destruct (c_monitored cfg); [|injection K1 as _ <-; auto].
    injection K1 as _ <-. split; [right; eauto|auto]. }
  destruct (Z.ltb_spec (zlen alive) (c_min_write_replicas cfg)); [done|].
  apply bind_ok_inv in K2 as (s2 & start & _ & (s3 & [] & _ & [= _ <-])%bind_ok_inv).
  destruct (rotation_spec alive start (Z.min (c_replication_factor cfg) (zlen alive)) Hnd)
    as (L1 & L2 & L3); [unfold zlen; lia|]. by exists alive.
Qed.

Lemma propose_spec n s s' l :
  NoDup (c_datanodes cfg) → (∀ k, NoDup (alive_at env k)) → 0 ≤ c_replication_factor cfg →
  propose cfg env n s = (s', Ok l) →
  length l = n ∧ Forall (λ p, (∃ k, p.1 = uuid_at env k) ∧ replicas_ok p.2) l.
Proof.
  intros Hd Ha Hf. revert s s' l. induction n as [|n IH]; intros s s' l; simpl; [by intros [= _ <-]|].
  intros (s1 & id & [= <- <-] & (s2 & addresses & K2 & (s3 & rest & K3 & [= _ <-])%bind_ok_inv)
    %bind_ok_inv)%bind_ok_inv.
  apply pick_spec in K2; [|done..]. apply IH in K3 as [<- Hrest]. split; [done|].
  constructor; [|done]. simpl. eauto.
Qed.

Lemma propose_length n s s' l : propose cfg env n s = (s', Ok l) → length l = n.
Proof.
  revert s s' l. induction n as [|n IH]; intros s s' l; simpl; [by intros [= _ <-]|].
  intros (s1 & id & _ & (s2 & addresses & _ & (s3 & rest & K3 & [= _ <-])%bind_ok_inv)%bind_ok_inv)%bind_ok_inv.
  apply IH in K3. simpl. lia.
Qed.

Definition capability_for (bid op : string) (cap : string) : Prop :=
  match c_capability_key cfg with
  | None => cap = ""
  | Some key => ∃ t, issue_block key bid op (c_capability_ttl cfg) (seconds env t) = Ok cap
  end.

Lemma capability_spec bid op s s' cap :
  _block_capability cfg env bid op (c_capability_ttl cfg) s = (s', Ok cap) → capability_for bid op cap.
Proof.
  unfold _block_capability, capability_for. destruct (c_capability_key cfg) as [key|]; [|by intros [= _ <-]].
  intros (s1 & t & _ & [_ Hc]%lift_ok_run)%bind_ok_inv. eauto.
Qed.

(** What the answer shows of a placement. *)
Definition shows (p : string * list string) (x : BlockLocation) : Prop :=
  loc_id x = p.1 ∧ loc_addresses x = _for_client cfg ctx p.2 true ∧
  capability_for p.1 "write" (loc_capability x).

Lemma locations_spec r pl s s' ls :
  locations cfg env ctx r pl s = (s', Ok ls) → Forall2 shows pl ls.
Proof.
  revert r s s' ls. induction pl as [|[b a] pl IH]; intros r s s' ls; simpl.
  - intros [= _ <-]. constructor.
  - intros (s1 & cap & K1%capability_spec & (s2 & rest & K2%IH & [= _ <-])%bind_ok_inv)%bind_ok_inv.
    by constructor.
Qed.

(** The sizes are those of a file of [r] bytes cut in full blocks. *)
Lemma locations_sizes r pl s s' ls :
  0 < c_block_size cfg → 0 < r → zlen pl = block_count (c_block_size cfg) r →
  locations cfg env ctx r pl s = (s', Ok ls) → loc_size <$> ls = layout (c_block_size cfg) r.
Proof.
  intros Hbs Hr Hn Hrun. set (bs := c_block_size cfg) in *.
  assert (∀ (pl : list (string * list string)) i s s' ls, 0 ≤ i → i * bs < r →
    i + zlen pl = block_count bs r → locations cfg env ctx (r - i * bs) pl s = (s', Ok ls) →
    loc_size <$> ls = block_len bs r <$> zrange i (block_count bs r)) as Hgen.
  { clear pl s s' ls Hn Hrun. induction pl as [|[b a] pl IH]; intros i s s' ls Hi Hlt Hc; simpl.
    - exfalso. unfold zlen in Hc. simpl in Hc. destruct (block_count_bounds bs r Hbs ltac:(lia)) as [?|[? ?]]; nia.
    - intros (s1 & cap & _ & (s2 & rest & K2 & [= _ <-])%bind_ok_inv)%bind_ok_inv.
      assert (zlen ((b, a) :: pl) = 1 + zlen pl) as Hz by (unfold zlen; simpl; lia). rewrite Hz in Hc.
      rewrite zrange_cons by (unfold zlen in *; lia). csimpl. fold bs in K2 |- *. f_equal.
      destruct (Z.le_gt_cases r ((i + 1) * bs)) as [Hle|Hgt].
      + assert (block_count bs r = i + 1) as E.
        { apply block_count_unique; [done|]. split; [|done]. lia. }
        assert (pl = []) as -> by (destruct pl; [done|unfold zlen in Hc; simpl in Hc; lia]).
        rewrite E, zrange_nil by lia. simpl in K2. by injection K2 as _ <-.
      + apply (IH (i + 1) s1 s2 rest); [lia|lia|lia|].
        rewrite <-K2. f_equal. lia. }
  unfold layout. apply (Hgen pl 0 s s' ls); [lia|lia|lia|]. by rewrite Z.sub_0_r.
Qed.

Lemma num_blocks_count size n :
  0 < c_block_size cfg → 0 < size → num_blocks size (c_block_size cfg) = Ok n →
  n = block_count (c_block_size cfg) size.
Proof.
  intros Hbs Hs. unfold num_blocks. destruct (Z.eqb_spec (c_block_size cfg) 0); [lia|]. intros [= <-].
  symmetry. apply block_count_unique; [done|].
  pose proof (Z.div_mod (- size) (c_block_size cfg) ltac:(lia)).
  pose proof (Z.mod_pos_bound (- size) (c_block_size cfg) Hbs). nia.
Qed.
(** What BeginUpload proposed, what the log made of it, and what it answers. *)
Lemma begin_upload_run op path size s s' locs :
  others_unused cfg env ctx op → unused cfg env ctx op s → 0 < c_block_size cfg →
  BeginUpload cfg env ctx op path size s = (s', Ok locs) →
  ∃ p n t s1 s2 placements stale,
    calls_as cfg env ctx p ∧ 0 < size ∧ replicated s1 = replicated s ∧
    _authenticate cfg env ctx s = (s1, Ok p) ∧
    propose cfg env (Z.to_nat (block_count (c_block_size cfg) size)) s1 = (s2, Ok placements) ∧
    begin_upload path placements (Some t) (Some (c_upload_lease cfg)) (Some (c_block_size cfg)) (_caller p)
      (tree (apply_log (others_at env n) (replicated s2))) = (tree (replicated s'), Ok (placements, stale)) ∧
    loc_size <$> locs = layout (c_block_size cfg) size ∧ Forall2 shows placements locs.
Proof.
  intros Ho Hu Hbs (s1 & p & K1 & (s2 & [] & K2 & (s3 & n & K3 & (s4 & proposed & K4 &
    (s5 & v & K5 & K6)%bind_ok_inv)%bind_ok_inv)%bind_ok_inv)%bind_ok_inv)%bind_ok_inv.
  pose proof (stable_unused cfg env ctx op Ho) as HU.
  pose proof (hoare_ok _ _ _ _ _ _ _ (fine_auth cfg env ctx _ HU []) Hu K1) as Hu1.
  pose proof (local_run _ _ _ _ (local_auth cfg env ctx) K1) as E1. pose proof K1 as Ka. apply authenticate_inv in K1.
  assert (s2 = s1 ∧ 0 < size) as [-> Hsize].
  { destruct (Z.leb_spec size 0); [discriminate K2|]. by injection K2 as <-. }
  apply lift_ok_run in K3 as [-> Hn]. pose proof (num_blocks_count _ _ Hbs Hsize Hn) as ->.
  apply catching_insufficient_ok_inv in K4.
  pose proof (hoare_ok _ _ _ _ _ _ _ (choosing_propose cfg env _ HU [] _) Hu1 K4) as Hu4.
  apply catching_ok_inv, bind_ok_inv in K5 as (s6 & t & Kt & K5).
  assert (unused cfg env ctx op s6 ∧ replicated s6 = replicated s4) as [Hu6 E6] by (injection Kt as <- _; split; [exact Hu4|done]).
  apply commit_ok_inv in K5 as [m K5]; [|done..]. simpl in K5. unfold mbind, M_bind in K5.
  destruct (begin_upload _ _ _ _ _ _ _) as [t1 [[placements stale]|e]] eqn:Hbegin; [|discriminate K5].
  injection K5 as -> <-. simpl in K6. apply bind_ok_inv in K6 as (s7 & [] & K6 & K7).
  pose proof Hbegin as (ps & _ & _ & -> & _)%begin_upload_view.
  assert (length proposed = Z.to_nat (block_count (c_block_size cfg) size)) as Hlen by by eapply propose_length.
  assert (zlen proposed = block_count (c_block_size cfg) size) as Hcount.
  { unfold zlen. rewrite Hlen. pose proof (block_count_nonneg (c_block_size cfg) size Hbs). lia. }
  exists p, m, t, s1, s4, proposed, stale. rewrite E6 in Hbegin. split_and!; try done.
  - rewrite (local_run _ _ _ _ (local_locations cfg env ctx size proposed) K7).
    rewrite (local_run _ _ _ _ (local_deletes cfg env stale) K6). exact Hbegin.
  - by eapply locations_sizes.
  - by eapply locations_spec.
Qed.
End spec.

(** An upload is laid out as the file will be read.  BeginUpload of a new
    key answers one location per block of the file: the sizes are those of a
    file of [size] bytes cut in full blocks (and add up to it), every block is
    new, has at least [min_write_replicas] and at most [replication_factor]
    different replicas, all alive, a capability to write it, and the addresses
    the client must dial; the tree then has, at that path, the upload in
    progress with exactly those blocks and replicas, owned by the caller. *)
Theorem begin_upload_places `{!Jwt, !JwtLaws} cfg env ctx op path size s s' locs :
  others_unused cfg env ctx op → unused cfg env ctx op s →
  NoDup (c_datanodes cfg) → (∀ k, NoDup (alive_at env k)) → 0 ≤ c_replication_factor cfg →
  0 < c_block_size cfg →
  BeginUpload cfg env ctx op path size s = (s', Ok locs) →
  ∃ p ps placements lease,
    calls_as cfg env ctx p ∧ parts_of path = Ok ps ∧
    loc_size <$> locs = layout (c_block_size cfg) size ∧ sumZ (loc_size <$> locs) = size ∧
    Forall2 (shows cfg env ctx) placements locs ∧
    Forall (λ q, (∃ k, q.1 = uuid_at env k) ∧ replicas_ok cfg env q.2) placements ∧
    view (tree (replicated s')) ps =
      Some (EFile (mkFile Pending ((λ q, new_block q.1 q.2) <$> placements) lease 0 (c_block_size cfg)
        (_ownership (_caller p)).1 (_ownership (_caller p)).2 FILE_MODE)).
Proof.
  intros Ho Hu Hd Ha Hf Hbs Hrun.
  apply begin_upload_run in Hrun as (p & n & t & s1 & s2 & placements & stale & Hp & Hsize & _ & _ & Hprop & Hbegin & Hsizes & Hshows); [|done..].
  apply propose_spec in Hprop as [_ Hprop]; [|done..].
  apply begin_upload_view in Hbegin as (ps & Hps & _ & _ & _ & _ & _ & Hview).
  exists p, ps, placements, (lease_until (Some t) (Some (c_upload_lease cfg))). split_and!; try done.
  rewrite Hsizes. apply sum_layout; lia.
Qed.

Lemma demo_datanodes_distinct : NoDup ["d1"; "d2"; "d3"].
Proof. apply (bool_decide_unpack _). vm_compute. exact I. Qed.

Definition demo_locations : list BlockLocation :=
  [mkLocation "u0" ["d1"; "d2"] 4 ""; mkLocation "u2" ["d2"; "d3"] 4 ""; mkLocation "u4" ["d3"; "d1"] 2 ""].

Lemma begin_upload_places_witness :
  (@BeginUpload toy_jwt open_config demo_env (mkCtx [] "peer") "op" "/a" 10 demo_node).2 = Ok demo_locations ∧
  sumZ (loc_size <$> demo_locations) = 10.
Proof.
  assert (@BeginUpload toy_jwt open_config demo_env (mkCtx [] "peer") "op" "/a" 10 demo_node =
    ((@BeginUpload toy_jwt open_config demo_env (mkCtx [] "peer") "op" "/a" 10 demo_node).1,
     Ok demo_locations)) as Hrun by (vm_compute; reflexivity).
  split; [rewrite Hrun; reflexivity|].
  destruct (@begin_upload_places toy_jwt toy_laws open_config demo_env (mkCtx [] "peer") "op" "/a" 10
    demo_node _ demo_locations (demo_others_unused "op") (λ p _, eq_refl) demo_datanodes_distinct
    (λ k, demo_datanodes_distinct) ltac:(vm_compute; discriminate) ltac:(vm_compute; reflexivity) Hrun)
    as (p & ps & placements & lease & _ & _ & _ & Hsum & _). exact Hsum.
Defined.

(** Readings and sessions (ListBlocks, Login), and the DeleteBlock calls of the
    handlers. *)

Section reads.
Context `{!Jwt} (cfg : Config) (env : Env) (ctx : Ctx).

(** A barrier that returns: this node led, and the log had reached it. *)
Lemma barrier_ok_inv s s' :
  _read_barrier env s = (s', Ok tt) →
  ∃ n, leader_at env n = true ∧ raft_at env (S n) = RaftOk ∧
    replicated s' = apply_log (others_at env (S n)) (replicated s) ∧ sent s' = sent s.
Proof.
  unfold _read_barrier, _require_leader, _read_barrier_raw, observe, sync_others, mbind, M_bind. simpl.
  destruct (leader_at env (tick s)); [|done]. simpl. destruct (leader_at env (S (tick s))) eqn:El; [|done].
  simpl. destruct (raft_at env (S (S (tick s)))) eqn:Er; [|done..]. simpl. intros [= <-].
  by exists (S (tick s)).
Qed.

(** And conversely. *)
Lemma barrier_run s :
  (∀ n, leader_at env n = true) → (∀ n, raft_at env n = RaftOk) →
  ∃ s' n, _read_barrier env s = (s', Ok tt) ∧
    replicated s' = apply_log (others_at env n) (replicated s) ∧ tick s' = S n.
Proof.
  intros Hl Hr. unfold _read_barrier, _require_leader, _read_barrier_raw, observe, sync_others, mbind, M_bind.
  simpl. rewrite Hl. simpl. rewrite Hl. simpl. rewrite Hr. simpl. by eexists _, _.
Qed.

(** What the answer of ListBlocks shows of a block. *)
Definition lists (b : BlockRecord) (x : BlockInfo) : Prop :=
  i_id x = block_id b ∧ i_addresses x = _for_client cfg ctx (datanode_addresses b) false ∧
  i_checksum x = checksum b ∧ i_size x = size_bytes b ∧
  capability_for cfg env (block_id b) "read" (i_capability x).

Lemma infos_spec bs s s' is_ : infos cfg env ctx bs s = (s', Ok is_) → Forall2 lists bs is_.
Proof.
  revert s s' is_. induction bs as [|b bs IH]; intros s s' is_; simpl.
  - intros [= _ <-]. constructor.
  - intros (s1 & cap & K1%capability_spec & (s2 & rest & K2%IH & [= _ <-])%bind_ok_inv)%bind_ok_inv.
    by constructor.
Qed.

Lemma list_blocks_inv path c t t' bs :
  list_blocks path c t = (t', Ok bs) →
  ∃ ps f, parts_of path = Ok ps ∧ view t ps = Some (EFile f) ∧ f_state f = Committed ∧
    _allows (FileN f) c R = true ∧ bs = blocks f.
Proof.
  intros (t1 & ps & [Hp ->]%lift_ok_inv & (t2 & n & [= <- <-] & Hn)%bind_ok_inv)%bind_ok_inv.
  destruct (_get_node ps t) as [[f|d]|] eqn:Hg; [|done..].
  apply bind_ok_inv in Hn as (t3 & [] & [Hs ->]%ensure_ok_inv & (t4 & [] & [Ha ->]%lift_ok_inv & [= _ <-])%bind_ok_inv).
  exists ps, f. apply bool_decide_eq_true in Hs. split_and!; [done|by apply view_file|done| |done].
  revert Ha. unfold _require, require_r. by destruct (_allows _ _ _).
Qed.
End reads.

(** A listing of blocks is current and readable.  When ListBlocks answers,
    this node led and Raft confirmed the barrier, the answer shows the blocks of
    the published file of the tree after every command the barrier covered, in
    order, each with its stored checksum and size, the addresses the client must
    dial and a capability to read exactly that block, and the caller may read
    the file.  The call changes nothing else. *)
Theorem listing_is_current `{!Jwt} cfg env ctx path s s' infos :
  ListBlocks cfg env ctx path s = (s', Ok infos) →
  ∃ p n ps f,
    calls_as cfg env ctx p ∧ leader_at env n = true ∧ raft_at env (S n) = RaftOk ∧
    replicated s' = apply_log (others_at env (S n)) (replicated s) ∧ sent s' = sent s ∧
    parts_of path = Ok ps ∧ view (tree (replicated s')) ps = Some (EFile f) ∧ f_state f = Committed ∧
    _allows (FileN f) (_caller p) R = true ∧ Forall2 (lists cfg env ctx) (blocks f) infos.
Proof.
  intros (s1 & p & K1 & (s2 & [] & K2 & (s3 & bs & K3 & K4)%bind_ok_inv)%bind_ok_inv)%bind_ok_inv.
  pose proof (local_run _ _ _ _ (local_auth cfg env ctx) K1) as E1.
  assert (∀ {A} (m : H A) x x' r, emits (λ _, False) m → m x = (x', r) → sent x' = sent x) as Hsent.
  { intros A m x x' r Hm Hx. destruct (Hm x) as (l & El & Hl). rewrite Hx in El. simpl in El. rewrite El.
    destruct l as [|ev l]; [by rewrite app_nil_r|]. by apply Forall_cons in Hl as []. }
  pose proof (Hsent _ _ _ _ _ (emits_auth cfg env ctx _) K1) as E2.
  apply authenticate_inv in K1. apply barrier_ok_inv in K2 as (n & Hl & Hr & Hs2 & E3).
  apply catching_ok_inv in K3. unfold read_tree in K3.
  destruct (list_blocks path (_caller p) _) as [t [bs'|e]] eqn:Hlist; [|done]. injection K3 as <- <-.
  apply list_blocks_inv in Hlist as (ps & f & Hp & Hv & Hc & Ha & ->).
  pose proof (local_run _ _ _ _ (local_infos cfg env ctx (blocks f)) K4) as E4.
  pose proof (Hsent _ _ _ _ _ (emits_infos cfg env ctx _ _) K4) as E5.
  exists p, n, ps, f. split_and!; try done; [by rewrite E4, Hs2, E1|congruence|by rewrite E4|by eapply infos_spec].
Qed.

Definition demo_reader : Node := mkNode (apply_log demo_log replicated_init) 0 0 [].

Lemma listing_is_current_witness :
  (@ListBlocks toy_jwt open_config demo_env (mkCtx [] "peer") "/home/doc" demo_reader).2 =
    Ok [mkInfo "n0" ["d1"] "k0" 4 ""; mkInfo "n1" ["d2"] "k1" 2 ""] ∧
  ∃ f : FileNode, length (blocks f) = 2%nat.
Proof.
  assert (@ListBlocks toy_jwt open_config demo_env (mkCtx [] "peer") "/home/doc" demo_reader =
    ((@ListBlocks toy_jwt open_config demo_env (mkCtx [] "peer") "/home/doc" demo_reader).1,
     Ok [mkInfo "n0" ["d1"] "k0" 4 ""; mkInfo "n1" ["d2"] "k1" 2 ""])) as Hrun by (vm_compute; reflexivity).
  split; [rewrite Hrun; reflexivity|].
  destruct (@listing_is_current toy_jwt open_config demo_env (mkCtx [] "peer") "/home/doc" demo_reader _ _ Hrun)
    as (p & n & ps & f & _ & _ & _ & _ & _ & _ & _ & _ & _ & Hall).
  exists f. apply Forall2_length in Hall. exact Hall.
Defined.

(** * Sessions *)

(** [u] is the user of that name and the password is theirs. *)
Definition logs_in (t : TreeState) (name password : string) (u : UserRecord) : Prop :=
  get_user name t = Some u ∧ verify_password password (password_hash u) (salt u) = true.

Lemma verified_spec user password u :
  verified user password = Some u ↔
    user = Some u ∧ verify_password password (password_hash u) (salt u) = true.
Proof.
  unfold verified. destruct user as [v|]; simpl.
  - destruct (verify_password _ _ _) eqn:E; split.
    + intros [= <-]. auto.
    + by intros [? _].
    + done.
    + intros [[= <-] ?]. congruence.
  - split; [by destruct (verify_password _ _ _)|by intros [? _]].
Qed.

Lemma verified_none user password :
  verified user password = None ↔
    ¬ ∃ u, user = Some u ∧ verify_password password (password_hash u) (salt u) = true.
Proof.
  destruct (verified user password) as [u|] eqn:E.
  - apply verified_spec in E. split; [done|]. intros Hn. destruct Hn. by exists u.
  - split; [|done]. intros _ [u Hu]. apply verified_spec in Hu. congruence.
Qed.

(** A session is given for the right password and for nothing else.  On a
    leader whose barrier passes, Login looks at the users of the tree the
    barrier brought: with the password of the user it answers their name, groups
    and role and a token that is this principal's for the time to live asked,
    and with any other password, or for a name without user, it answers the
    same [AuthError]. *)
Theorem login_gives_sessions `{!Jwt, !JwtLaws} cfg env secret name password s :
  c_jwt_secret cfg = Some secret → (∀ n, leader_at env n = true) → (∀ n, raft_at env n = RaftOk) →
  ∃ n, let r := apply_log (others_at env n) (replicated s) in
    (∃ u resp t, logs_in (tree r) name password u ∧ (Login cfg env name password s).2 = Ok resp ∧
       lr_username resp = name ∧ lr_groups resp = u_groups u ∧ lr_is_admin resp = u_is_admin u ∧
       ∀ now, verify_token secret (lr_token resp) now =
         if Qle_bool (inject_Z (Qceiling (seconds env t + c_token_ttl cfg))) now then Err AuthError
         else Ok (mkPrincipal name (u_groups u) (u_is_admin u))) ∨
    ((¬ ∃ u, logs_in (tree r) name password u) ∧
     (Login cfg env name password s).2 = Err (Aborted UNAUTHENTICATED (Some "AuthError"))).
Proof.
  intros Hs Hl Hr. destruct (barrier_run env s Hl Hr) as (s1 & n & Hb & E & _). exists n. rewrite <-E. cbv zeta.
  unfold Login. rewrite Hs, (bind_ok _ _ _ _ _ Hb).
  destruct (verified (get_user name (tree (replicated s1))) password) as [u|] eqn:Hv.
  - left. erewrite bind_ok by (unfold _verified_user, gets, mbind, M_bind; by rewrite Hv).
    eexists u, _, (clock_at env (tick s1)). apply verified_spec in Hv as [Hu Hp].
    split_and!; [done|done|reflexivity..|]. intros now. unfold now_, observe, mbind, M_bind. simpl.
    unfold verify_token, issue_token. rewrite bool_decide_false by apply jwt_nonempty.
    erewrite jwt_roundtrip by done. destruct (Qle_bool _ _); [done|]. apply principal_of_issue.
  - right. split; [by apply verified_none in Hv|].
    by erewrite bind_ok by (unfold _verified_user, gets, mbind, M_bind; by rewrite Hv).
Qed.

Lemma login_gives_sessions_witness :
  ∃ n, let r := apply_log (others_at demo_env n) (replicated demo_node) in
    (∃ u, logs_in (tree r) "ana" "x" u) ∨
    (@Login toy_jwt demo_config demo_env "ana" "x" demo_node).2 = Err (Aborted UNAUTHENTICATED (Some "AuthError")).
Proof.
  destruct (@login_gives_sessions toy_jwt toy_laws demo_config demo_env "s" "ana" "x" demo_node
    eq_refl (λ _, eq_refl) (λ _, eq_refl)) as [n [(u & resp & t & Hu & _)|[_ Herr]]];
    exists n; [left; exists u; exact Hu|right; exact Herr].
Defined.
