(* ===== verification/ServicerDeletes.v ===== *)
(** The DeleteBlock calls of the servicer: they delete what the log answered,
    except those of AbortUpload, which are what it read before its commit. *)

From Stdlib Require Import QArith Qround.
From S2P Require Import Prelude Exceptions Dict Paths TreeData Tree TreeFacts Replicated TreeErrors.
From S2P Require Import TreeOps TreeInv TreeView TreeRefs TreeProps Crypto BlockToken Addresses Auth.
From S2P Require Import Servicer Handlers ServicerProps ServicerErrors ServicerUpload.

Open Scope Z_scope.

(** The blocks an answer of the log hands over for deletion. *)
Definition freed (v : value) : list BlockRecord :=
  match v with
  | VBlocks bs => bs
  | VUpload _ stale => stale
  | VCommitted _ replaced => replaced
  | _ => []
  end.

Definition no_delete (ev : sent_event) : Prop :=
  match ev with
  | Deleted _ _ _ => False
  | _ => True
  end.

Section deletes.
Context `{!Jwt} (cfg : Config) (env : Env) (ctx : Ctx) (op : string).

(** The memory of the log has, under the key of this call, an answer that frees
    the block at that address. *)
Definition freed_by_log (r : ReplicatedTree) (a bid : string) : Prop :=
  ∃ p v b, calls_as cfg env ctx p ∧ dict_get (op_key p op) (applied_ops r) = Some (OutOk v) ∧
    b ∈ freed v ∧ block_id b = bid ∧ a ∈ datanode_addresses b.

(** Run from [s], [m] deletes only such blocks. *)
Definition deletes_freed {A} (m : H A) (s : Node) : Prop :=
  ∃ l, sent (m s).1 = sent s ++ l ∧
    ∀ a bid md, Deleted a bid md ∈ l → freed_by_log (replicated (m s).1) a bid.

Lemma deletes_silent {A} (m : H A) s : emits no_delete m → deletes_freed m s.
Proof.
  intros Hm. destruct (Hm s) as (l & E & Hl). exists l. split; [done|].
  intros a bid md Hin. rewrite Forall_forall in Hl. by apply Hl in Hin.
Qed.

Lemma deletes_after {A B} (m : H A) (f : A → H B) s :
  emits no_delete m → (∀ a s1, m s = (s1, Ok a) → deletes_freed (f a) s1) → deletes_freed (mbind f m) s.
Proof.
  intros Hm Hf. destruct (Hm s) as (l & E & Hl). unfold deletes_freed, mbind, M_bind.
  destruct (m s) as [s1 [a|e]] eqn:Hms; simpl in *.
  - destruct (Hf a s1 eq_refl) as (l' & E' & Hl'). exists (l ++ l'). rewrite E', E, app_assoc.
    split; [done|]. intros x bid md [Hin|Hin]%elem_of_app; [|by eapply Hl'].
    rewrite Forall_forall in Hl. by apply Hl in Hin.
  - exists l. split; [done|]. intros x bid md Hin. rewrite Forall_forall in Hl. by apply Hl in Hin.
Qed.

(** A program that leaves the log alone and deletes freed blocks. *)
Definition freed_event (r : ReplicatedTree) (ev : sent_event) : Prop :=
  match ev with
  | Deleted a bid _ => freed_by_log r a bid
  | _ => True
  end.

Lemma deletes_local {A} (m : H A) s :
  local m → emits (freed_event (replicated s)) m → deletes_freed m s.
Proof.
  intros Hloc He. destruct (He s) as (l & E & Hl). exists l. split; [done|]. rewrite Hloc.
  intros a bid md Hin. rewrite Forall_forall in Hl. by apply (Hl _ Hin).
Qed.

Lemma emits_freed_deletes r bs :
  (∀ b a, b ∈ bs → a ∈ datanode_addresses b → freed_by_log r a (block_id b)) →
  emits (freed_event r) (_delete_blocks cfg env bs).
Proof. intros Hbs. apply emits_deletes. intros b a md. apply Hbs. Qed.

(** The answer of a commit is in the memory of the log. *)
Lemma commit_remembered c s s' v :
  _commit cfg env ctx op c s = (s', Ok v) →
  ∃ p, calls_as cfg env ctx p ∧ dict_get (op_key p op) (applied_ops (replicated s')) = Some (OutOk v).
Proof.
  intros (s1 & [] & _ & (s2 & [] & _ & (s3 & p & K3 & (s4 & o & K4 & K5)%bind_ok_inv)%bind_ok_inv)%bind_ok_inv)%bind_ok_inv.
  apply authenticate_inv in K3. exists p. split; [done|].
  assert (o = Known (OutOk v) ∧ s4 = s') as [-> ->].
  { revert K5. destruct o as [[x|class]| |]; [by intros [= -> ->]|done..]. }
  clear K5. revert K4. unfold _commit_raw, mbind, M_bind, observe, sync_others, apply_here. simpl.
  destruct (leader_at env (tick s3)); [|done]. simpl.
  destruct (raft_at env _); [|done|done]. simpl.
  destruct (apply (op_key p op) c _) as [r o] eqn:Happ. simpl. intros [= <- ->]. simpl.
  revert Happ. set (r0 := apply_log _ _). intros Happ.
  destruct (dict_get (op_key p op) (applied_ops r0)) as [o'|] eqn:E.
  - rewrite (apply_hit _ _ _ _ E) in Happ. by injection Happ as <- ->.
  - pose proof (apply_fresh_remembered (op_key p op) c r0 E) as Hrem. by rewrite Happ in Hrem.
Qed.

Lemma emits_commit_nothing c : emits no_delete (_commit cfg env ctx op c).
Proof. by apply emits_commit. Qed.

Lemma emits_mutate_nothing es (c : H command) : emits no_delete c → emits no_delete (mutate cfg env ctx es op c).
Proof. intros Hc. by apply emits_mutate. Qed.

Lemma freed_after c s s' v b a :
  _commit cfg env ctx op c s = (s', Ok v) → b ∈ freed v → a ∈ datanode_addresses b →
  freed_by_log (replicated s') a (block_id b).
Proof. intros (p & Hp & Hv)%commit_remembered Hb Ha. by exists p, v, b. Qed.

(** The commit of a handler inside its [except], and what it frees. *)
Lemma caught_commit_freed es (f : Z → command) s s' v b a :
  catching es (t ← now_ env; _commit cfg env ctx op (f t)) s = (s', Ok v) →
  b ∈ freed v → a ∈ datanode_addresses b → freed_by_log (replicated s') a (block_id b).
Proof.
  intros (s1 & t & _ & Hc)%catching_ok_inv%bind_ok_inv Hb Ha. by eapply freed_after.
Qed.

Lemma as_block_list_freed v bs : as_block_list v = Ok bs → ∀ b, b ∈ bs → b ∈ freed v.
Proof. destruct v as [|[|x y]|l| | |]; try done; intros [= <-]; [intros b Hb; by apply not_elem_of_nil in Hb|done]. Qed.

Lemma emits_caught_commit es (f : Z → command) :
  emits no_delete (catching es (t ← now_ env; _commit cfg env ctx op (f t))).
Proof. apply emits_catching. unfold now_. emits_step; [emits_step|apply emits_commit_nothing]. Qed.

(** Remove and AbortWrite: the freed blocks are those of a list. *)
Lemma list_deletes es (f : Z → command) s :
  deletes_freed (v ← catching es (t ← now_ env; _commit cfg env ctx op (f t));
                 bs ← lift_ (as_block_list v); _delete_blocks cfg env bs) s.
Proof.
  apply deletes_after; [apply emits_caught_commit|]. intros v s1 Hv.
  apply deletes_after; [emits_step|]. intros bs s2 [-> Hbs]%lift_ok_run.
  apply deletes_local; [apply local_deletes|]. apply emits_freed_deletes. intros b a Hb Ha.
  eapply caught_commit_freed; [exact Hv| |done]. by eapply as_block_list_freed.
Qed.

Lemma Remove_deletes p s : deletes_freed (Remove cfg env ctx op p) s.
Proof. apply deletes_after; [emits_step|]. intros q s1 _. apply list_deletes. Qed.
Lemma AbortWrite_deletes p w i s : deletes_freed (AbortWrite cfg env ctx op p w i) s.
Proof. apply deletes_after; [emits_step|]. intros q s1 _. apply list_deletes. Qed.

Lemma BeginUpload_deletes p z s : deletes_freed (BeginUpload cfg env ctx op p z) s.
Proof.
  unfold BeginUpload, _abort_on_domain_error. apply deletes_after; [emits_step|]. intros q s1 _.
  apply deletes_after; [emits_all|]. intros _ s2 _. apply deletes_after; [emits_all|]. intros n s3 _.
  apply deletes_after; [emits_all|]. intros pr s4 _. apply deletes_after; [apply emits_caught_commit|].
  intros v s5 Hv. destruct v; try (by apply deletes_silent, emits_raise).
  all: apply deletes_local; [apply local_bind; [apply local_deletes|intros _; first [by intros ?|apply local_locations]]|].
  all: apply emits_bind; [|intros _ _ _ _; emits_step].
  all: apply emits_freed_deletes; intros b a Hb Ha; eapply caught_commit_freed; [exact Hv|exact Hb|exact Ha].
Qed.

Lemma CommitWrite_deletes p w i z c s : deletes_freed (CommitWrite cfg env ctx op p w i z c) s.
Proof.
  unfold CommitWrite. apply deletes_after; [emits_step|]. intros q s1 _.
  apply deletes_after; [apply emits_caught_commit|].
  intros v s5 Hv. destruct v; try (by apply deletes_silent, emits_raise).
  all: apply deletes_local; [apply local_bind; [apply local_deletes|by intros ? ?]|].
  all: apply emits_bind; [|intros _ _ _ _; emits_step].
  all: apply emits_freed_deletes; intros b a Hb Ha; eapply caught_commit_freed; [exact Hv|exact Hb|exact Ha].
Qed.
End deletes.

(** The other handlers delete nothing. *)
Lemma handle_emits_no_delete `{!Jwt} cfg env ctx r :
  match r with
  | RRemove _ _ | RBeginUpload _ _ _ | RAbortUpload _ _ | RCommitWrite _ _ _ _ _ _ | RAbortWrite _ _ _ _ => True
  | _ => emits no_delete (handle cfg env ctx r)
  end.
Proof.
  destruct r; try done; cbn [handle]; unfold done_, ListDir, MakeDir, RemoveDir, ConfirmBlock, CompleteUpload,
    ListBlocks, Lock, RenewLock, Unlock, BeginWrite, Chmod, Chown, Login, CreateUser, ChangePassword,
    DataNodeInventory, _auth_disabled, abort, _abort_on_domain_error, _verified_user, now_, raise_.
  all: repeat match goal with
    | |- emits _ (_commit _ _ _ _ _) => apply emits_commit_nothing
    | |- emits _ (mutate _ _ _ _ _ _) => apply emits_mutate_nothing
    | |- emits _ (emit _) => by apply emits_emit
    | _ => emits_step
    end.
Qed.

(** C23. The servicer deletes what the log told it to delete.  In every RPC but
    AbortUpload, each DeleteBlock call names a block and an address that the
    answer the log keeps for this call's key frees: the blocks of the removed
    file, of the expired upload whose name is taken, of the replaced version or
    of the aborted write.  No other call deletes anything. *)
Theorem deletes_follow_commit `{!Jwt} cfg env ctx r s :
  (∀ op p, r ≠ RAbortUpload op p) →
  ∃ l, sent (handle cfg env ctx r s).1 = sent s ++ l ∧
    ∀ a bid md, Deleted a bid md ∈ l →
      ∃ p v b, calls_as cfg env ctx p ∧
        dict_get (op_key p (op_of r)) (applied_ops (replicated (handle cfg env ctx r s).1)) = Some (OutOk v) ∧
        b ∈ freed v ∧ block_id b = bid ∧ a ∈ datanode_addresses b.
Proof.
  intros Hr. pose proof (handle_emits_no_delete cfg env ctx r) as He.
  assert (∀ {A} op (m : H A), deletes_freed cfg env ctx op m s → deletes_freed cfg env ctx op (done_ m) s) as Hdone.
  { intros A op m (l & E & Hl). exists l. unfold done_, mbind, M_bind. destruct (m s) as [s1 [a|e]]; done. }
  change (deletes_freed cfg env ctx (op_of r) (handle cfg env ctx r) s).
  destruct r; try (by apply deletes_silent); cbn [handle op_of].
  - apply Remove_deletes.
  - apply Hdone, BeginUpload_deletes.
  - by destruct (Hr op path).
  - apply Hdone, CommitWrite_deletes.
  - apply AbortWrite_deletes.
Qed.

Lemma deletes_follow_commit_witness :
  sent (@handle toy_jwt open_config demo_env (mkCtx [] "peer") (RRemove "rm" "/home/doc")
    (mkNode (apply_log (take 5 demo_log) replicated_init) 0 0 [])).1 =
    [Sent "rm" (CRemoveFile "/home/doc" (Some 0) None); Deleted "d1" "b0" []; Deleted "d2" "b1" []] ∧
  ∃ l, sent (@handle toy_jwt open_config demo_env (mkCtx [] "peer") (RRemove "rm" "/home/doc") demo_node).1 =
    sent demo_node ++ l.
Proof.
  split; [vm_compute; reflexivity|].
  destruct (@deletes_follow_commit toy_jwt open_config demo_env (mkCtx [] "peer") (RRemove "rm" "/home/doc")
    demo_node ltac:(discriminate)) as (l & E & _). exists l. exact E.
Defined.

(** * AbortUpload *)

Lemma aborts_ok path c t t' v :
  run_command (CAbortUpload path c) t = (t', Ok v) → abort_upload path c t = (t', Ok tt).
Proof. by intros (t1 & [] & Hm & [= <- _])%bind_ok_inv. Qed.

Section abort_upload.
Context `{!Jwt, !JwtLaws} (cfg : Config) (env : Env) (ctx : Ctx).

Lemma silent_run {A} (m : H A) s s' r : emits (λ _, False) m → m s = (s', r) → sent s' = sent s.
Proof.
  intros Hm E. destruct (Hm s) as (l & Hl & Hf). rewrite E in Hl. simpl in Hl.
  destruct l as [|x l]; [by rewrite Hl, app_nil_r|]. by apply Forall_cons in Hf as [[] _].
Qed.

(** A commit that returns sent its command and applied it, under the key of the caller,
    to the log as it then was. *)
Lemma commit_run op c s s' v :
  _commit cfg env ctx op c s = (s', Ok v) →
  ∃ p n, calls_as cfg env ctx p ∧ sent s' = sent s ++ [Sent (op_key p op) c] ∧
    apply (op_key p op) c (apply_log (others_at env n) (replicated s)) = (replicated s', OutOk v).
Proof.
  intros (s1 & [] & K1 & (s2 & [] & K2 & (s3 & p & K3 & (s4 & o & K4 & K5)%bind_ok_inv)
    %bind_ok_inv)%bind_ok_inv)%bind_ok_inv.
  assert (s1 = s) as -> by (revert K1; case_bool_decide; [done|by intros [= <-]]).
  assert (replicated s2 = replicated s ∧ sent s2 = sent s) as [E2 F2].
  { revert K2. unfold _require_leader, observe, mbind, M_bind. simpl. destruct (leader_at env (tick s)); [|done]. by intros [= <-]. }
  pose proof (local_run _ _ _ _ (local_auth cfg env ctx) K3) as E3.
  pose proof (silent_run _ _ _ _ (emits_auth cfg env ctx (λ _, False)) K3) as F3. apply authenticate_inv in K3.
  assert (o = Known (OutOk v) ∧ s4 = s') as [-> ->].
  { revert K5. destruct o as [[x|class]| |]; [by intros [= -> ->]|done..]. }
  revert K4. unfold _commit_raw, mbind, M_bind, observe, emit, modify, sync_others, apply_here. simpl.
  destruct (leader_at env (tick s3)); [|done]. simpl. destruct (raft_at env _); [|done|done]. simpl.
  destruct (apply (op_key p op) c _) as [r o] eqn:Happ. simpl. intros [= <- ->]. exists p, (S (tick s3)). simpl.
  rewrite <-E2, <-E3, F3, F2. done.
Qed.

(** The calls of a deletion that returns: one per copy. *)
Definition deletes_exactly (bs : list BlockRecord) (evs : list sent_event) : Prop :=
  ∀ a bid, (∃ md, Deleted a bid md ∈ evs) ↔ ∃ b, b ∈ bs ∧ block_id b = bid ∧ a ∈ datanode_addresses b.

Lemma capability_silent bid o ttl s s' c :
  _block_capability cfg env bid o ttl s = (s', Ok c) → sent s' = sent s ∧ replicated s' = replicated s.
Proof.
  intros E. split; [exact (silent_run _ _ _ _ (emits_capability cfg env (λ _, False) bid o ttl) E)|].
  exact (local_run _ _ _ _ (local_capability cfg env bid o ttl) E).
Qed.
Lemma delete_copies_run bid l s s' :
  delete_copies cfg env bid l s = (s', Ok tt) →
  ∃ evs, sent s' = sent s ++ evs ∧ ∀ a bid', (∃ md, Deleted a bid' md ∈ evs) ↔ bid' = bid ∧ a ∈ l.
Proof.
  revert s. induction l as [|a l IH]; intros s; simpl.
  - intros [= <-]. exists []. rewrite app_nil_r. split; [done|]. intros a bid'. split; [by intros [md ?%not_elem_of_nil]|by intros [_ ?%not_elem_of_nil]].
  - intros (s1 & cap & [E1 _]%capability_silent & (s2 & [] & [= <-] & (evs & E & H)%IH)%bind_ok_inv)%bind_ok_inv.
    exists (Deleted a bid (capability_kwargs cap "") :: evs). simpl in E. rewrite E, E1, <-app_assoc. split; [done|].
    intros x bid'. setoid_rewrite elem_of_cons. specialize (H x bid'). naive_solver.
Qed.
Lemma delete_blocks_run bs s s' :
  _delete_blocks cfg env bs s = (s', Ok tt) → ∃ evs, sent s' = sent s ++ evs ∧ deletes_exactly bs evs.
Proof.
  revert s. induction bs as [|b bs IH]; intros s; simpl.
  - intros [= <-]. exists []. rewrite app_nil_r. split; [done|]. intros a bid.
    split; [by intros [md ?%not_elem_of_nil]|by intros (b & ?%not_elem_of_nil & _)].
  - intros (s1 & [] & (evs1 & E1 & Hc)%delete_copies_run & (evs2 & E2 & Hr)%IH)%bind_ok_inv.
    exists (evs1 ++ evs2). rewrite E2, E1, <-app_assoc. split; [done|]. intros a bid. setoid_rewrite elem_of_app.
    setoid_rewrite elem_of_cons. specialize (Hc a bid). specialize (Hr a bid). naive_solver.
Qed.

(** The upload a tree has at a path: nobody's, or somebody's with these blocks. *)
Definition uploading (t : TreeState) (ps : list string) (f : FileNode) : Prop :=
  view t ps = Some (EFile f) ∧ f_state f = Pending.

Lemma pending_blocks_spec path ps t t' bs :
  parts_of path = Ok ps → pending_blocks path t = (t', Ok bs) →
  ∀ a bid, (∃ b, b ∈ bs ∧ block_id b = bid ∧ a ∈ datanode_addresses b) ↔
    ∃ f b, uploading t ps f ∧ b ∈ blocks f ∧ block_id b = bid ∧ a ∈ datanode_addresses b.
Proof.
  intros Hps. unfold pending_blocks, _get_pending_file, mbind, M_bind, lift, gets, uploading. rewrite Hps. cbn [fst snd].
  intros H a bid.
  assert (view t ps = entry_of <$> _get_node ps t) as Hv by done. rewrite Hv.
  destruct (_get_node ps t) as [[f|d]|]; cbn in *.
  2,3: injection H as <- <-; split; [by intros (b & ?%not_elem_of_nil & _)|by intros (f & b & [[=] _] & _)].
  destruct (decide (f_state f = Pending)) as [Hf|Hf]; injection H as <- <-.
  - split.
    + intros (b & (b0 & -> & Hb)%list_elem_of_fmap & Hbid & Ha). by exists f, b0.
    + intros (g & b & [[= <-] _] & Hb & Hbid & Ha). exists (copy_unconfirmed b). split; [by apply list_elem_of_fmap_2|done].
  - split; [by intros (b & ?%not_elem_of_nil & _)|by intros (g & b & [[= <-] ?] & _)].
Qed.
End abort_upload.

(** C24. AbortUpload deletes the blocks it read before its commit, all of them and no
    other: those of the upload its path had when the barrier passed, whoever's it was.
    The commit that follows removes the upload it then finds, which the caller may
    remove, when its key is new to the log; when the key is known (a retry, or another
    use of the [op_id]), the log answers from its memory, nothing leaves the tree, and
    the deletion goes on all the same. *)
Theorem abort_deletes_what_it_read `{!Jwt, !JwtLaws} cfg env ctx op path ps s s' :
  tree_wf (tree (replicated s)) → parts_of path = Ok ps →
  handle cfg env ctx (RAbortUpload op path) s = (s', Ok tt) →
  ∃ p n m evs, calls_as cfg env ctx p ∧
    let read := apply_log (others_at env n) (replicated s) in
    let found := apply_log (others_at env m) read in
    sent s' = sent s ++ Sent (op_key p op) (CAbortUpload path (_caller p)) :: evs ∧
    (∀ a bid, (∃ md, Deleted a bid md ∈ evs) ↔
       ∃ f b, uploading (tree read) ps f ∧ b ∈ blocks f ∧ block_id b = bid ∧ a ∈ datanode_addresses b) ∧
    match dict_get (op_key p op) (applied_ops found) with
    | None => ∃ f, uploading (tree found) ps f ∧ _owner_or_admin (FileN f) (_caller p) = true ∧
                ∀ q, view (tree (replicated s')) q = vset ps None (view (tree found)) q
    | Some _ => replicated s' = found
    end.
Proof.
  intros Hwf Hps. cbn [handle]. unfold AbortUpload, mutate.
  intros (s1 & p & Ha & (s2 & [] & Hb & (s3 & bs & Hr & (s4 & [] & Hm & Hd)%bind_ok_inv)%bind_ok_inv)%bind_ok_inv)%bind_ok_inv.
  pose proof (local_run _ _ _ _ (local_auth cfg env ctx) Ha) as E1.
  pose proof (silent_run _ _ _ _ (emits_auth cfg env ctx (λ _, False)) Ha) as F1. apply authenticate_inv in Ha.
  apply barrier_ok_inv in Hb as (n & _ & _ & E2 & F2). rewrite E1 in E2.
  assert (s3 = s2 ∧ ∃ t', pending_blocks path (tree (replicated s2)) = (t', Ok bs)) as [-> [t' Hbs]].
  { revert Hr. unfold read_tree. destruct (pending_blocks path _) as [t' [l|e]]; [|done]. intros [= <- <-]. eauto. }
  apply catching_ok_inv, bind_ok_inv in Hm as (s5 & c & [= <- <-] & Hm).
  apply bind_ok_inv in Hm as (s6 & v & (q & m & Hq & F4 & Happ)%commit_run & [= <-]).
  pose proof (calls_as_fun _ _ _ _ _ Ha Hq) as <-.
  pose proof (delete_blocks_run _ _ _ _ _ Hd) as (evs & F5 & Hevs).
  pose proof (local_run _ _ _ _ (local_deletes cfg env bs) Hd) as E5.
  exists p, (S n), m, evs. split; [done|]. cbv zeta. rewrite <-E2. split; [by rewrite F5, F4, F2, F1, <-app_assoc|]. split.
  - intros a bid. etrans; [apply Hevs|]. by eapply pending_blocks_spec.
  - destruct (dict_get _ _) as [o|] eqn:Hmem.
    + rewrite (apply_hit _ _ _ _ Hmem) in Happ. injection Happ as Happ _. congruence.
    + apply apply_ok_inv in Happ; [|done]. rewrite <-E5 in Happ. apply aborts_ok in Happ. apply abort_upload_view in Happ as (ps' & f & Hps' & Hg & Hf & Ho & Hv).
      * rewrite Hps in Hps'. injection Hps' as <-. exists f. by split; [split; [apply view_file|]|].
      * apply apply_log_keeps. rewrite E2. by apply apply_log_keeps.
Qed.

(** ana aborts an upload of hers; bob then starts one at the same path. *)
Definition retried_abort : list (string * command) :=
  [("ana:b1", CBeginUpload "/a" [("c0", ["d1"])] (Some 0) (Some 100) (Some 4) ana);
   ("ana:x", CAbortUpload "/a" ana);
   ("bob:b2", CBeginUpload "/a" [("c1", ["d2"])] (Some 1) (Some 100) (Some 4) bob)].
Definition ana_token : string := @issue_token toy_jwt "s" (mkPrincipal "ana" ["staff"] false) 60 100.
Definition ana_ctx : Ctx := mkCtx [("authorization", "Bearer " +:+ ana_token)] "peer".

(** So AbortUpload is not safe to retry: a retry of the abort of ana deletes the blocks
    of the upload of bob, which the tree still holds. *)
Example abort_retry_deletes_live_upload :
  let s := mkNode (apply_log (("chmod", CChmod "/" 511 None) :: retried_abort) replicated_init) 0 0 [] in
  let out := @handle toy_jwt demo_config demo_env ana_ctx (RAbortUpload "x" "/a") s in
  out.2 = Ok tt ∧
  sent out.1 = [Sent "ana:x" (CAbortUpload "/a" ana); Deleted "d2" "c1" []] ∧
  (∃ f, view (tree (replicated out.1)) ["a"] = Some (EFile f) ∧ f_owner f = "bob" ∧
     f_state f = Pending ∧ blocks f = [mkBlock "c1" ["d2"] "" 0 false]).
Proof.
  cbv zeta. split_and!; [vm_compute; reflexivity..|].
  eexists. split_and!; vm_compute; reflexivity.
Qed.

Definition retried_node : Node := mkNode (apply_log (("chmod", CChmod "/" 511 None) :: retried_abort) replicated_init) 0 0 [].
Lemma abort_deletes_what_it_read_witness :
  ∃ evs key c, sent (@handle toy_jwt demo_config demo_env ana_ctx (RAbortUpload "x" "/a") retried_node).1 =
    [] ++ Sent key c :: evs ∧ ∃ md, Deleted "d2" "c1" md ∈ evs.
Proof.
  destruct (@abort_deletes_what_it_read toy_jwt toy_laws demo_config demo_env ana_ctx "x" "/a" ["a"] retried_node
    (@handle toy_jwt demo_config demo_env ana_ctx (RAbortUpload "x" "/a") retried_node).1) as (p & n & m & evs & _ & E & Hd & _).
  - apply apply_log_keeps, tree_init_ok.
  - vm_compute. reflexivity.
  - vm_compute. reflexivity.
  - exists evs, (op_key p "x"), (CAbortUpload "/a" (_caller p)). split; [exact E|]. apply Hd.
    eexists _, _. split; [split; [vm_compute; reflexivity|reflexivity]|]. split; [by left|]. split; [reflexivity|by left].
Defined.
