(* ===== verification/ServicerSteps.v ===== *)
(** What a call leaves for the next one: the identifiers of other calls stay
    unused, the clock of observations moves on, and the RPCs a client transfers
    with have applied their command to the tree the log had then.  The lock and write commands
    are in the second part. *)

From Stdlib Require Import QArith Qround.
From S2P Require Import Prelude Exceptions Dict Paths TreeData Tree TreeFacts Replicated TreeErrors TreeOps.
From S2P Require Import TreeInv TreeView Layout Crypto BlockToken Addresses Auth Servicer Handlers.
From S2P Require Import ServicerProps ServicerErrors ServicerUpload ServicerDeletes.

Open Scope Z_scope.

Section steps.
Context `{!Jwt, !JwtLaws} (cfg : Config) (env : Env) (ctx : Ctx) (op : string).

(** A call under [op] keeps every other identifier as unused as it was. *)
Definition advances (s s' : Node) : Prop :=
  (tick s ≤ tick s')%nat ∧
  ∀ o, o ≠ op → others_unused cfg env ctx o → unused cfg env ctx o s → unused cfg env ctx o s'.

#[global] Instance advances_preorder : PreOrder advances.
Proof.
  split; [by split|]. intros x y z [T1 U1] [T2 U2]. split; [lia|]. auto.
Qed.

Lemma advances_local {A} (m : H A) : local m → (∀ s, tick s ≤ tick (m s).1)%nat → moves advances m.
Proof.
  intros Hl Ht s. split; [apply Ht|]. intros o _ _ Hu p Hp. rewrite Hl. by apply Hu.
Qed.
Lemma advances_catching {A} es (m : H A) : moves advances m → moves advances (catching es m).
Proof. intros Hm s. specialize (Hm s). unfold catching. destruct (m s) as [s1 [a|[e| |]]]; try done. by case_decide. Qed.
Lemma advances_insufficient {A} (m : H A) : moves advances m → moves advances (catching_insufficient m).
Proof. intros Hm s. specialize (Hm s). unfold catching_insufficient. by destruct (m s) as [s1 [a|[e| |]]]. Qed.
Lemma advances_sync : moves advances (sync_others env).
Proof.
  intros s. split; [simpl; lia|]. intros o _ Ho Hu. by apply (stable_unused cfg env ctx o Ho).
Qed.
Lemma advances_apply p c : calls_as cfg env ctx p → moves advances (apply_here (op_key p op) c).
Proof.
  intros Hp s. split; [done|]. intros o Hne Ho Hu q Hq. simpl. apply apply_absent; [|by apply Hu].
  rewrite (calls_as_fun _ _ _ _ _ Hq Hp). destruct p as [r|]; simpl; [|done].
  intros E. apply Hne. by apply (inj (String.append (username r))), (inj (String.append ":")) in E.
Qed.

End steps.

(** One step through a program, by its head. *)
Ltac advance_step :=
  match goal with
  | |- moves _ (mbind _ _) => apply moves_bind; [apply _| |intros ?]
  | |- moves _ (catching _ _) => apply advances_catching
  | |- moves _ (catching_insufficient _) => apply advances_insufficient
  | |- moves _ (sync_others _) => apply advances_sync
  | |- moves _ (match _ with _ => _ end) => progress case_match
  | |- moves _ _ => solve [apply advances_local; [done|simpl; lia]]
  | |- moves _ _ => solve [auto 1 with svc nocore]
  end.

Section handlers.
Context `{!Jwt, !JwtLaws} (cfg : Config) (env : Env) (ctx : Ctx) (op : string).
Notation advances := (advances cfg env ctx op).

Lemma tick_read_tree {A} (m : TreeM A) : moves advances (read_tree m).
Proof. intros s. unfold read_tree. by destruct (m _) as [? [?|?]]. Qed.
Lemma tick_lift {A} (r : result exn A) : moves advances (lift_ r).
Proof. by destruct r. Qed.
#[local] Hint Resolve tick_read_tree tick_lift : svc.

Lemma advances_auth : moves advances (_authenticate cfg env ctx).
Proof. unfold _authenticate, now_, _abort_on_domain_error. repeat advance_step. Qed.
Lemma advances_capability bid o ttl : moves advances (_block_capability cfg env bid o ttl).
Proof. unfold _block_capability, now_. repeat advance_step. Qed.
Lemma advances_barrier : moves advances (_read_barrier env).
Proof. unfold _read_barrier, _require_leader, _read_barrier_raw, abort. repeat advance_step. Qed.
Lemma advances_pick : moves advances (_pick_replicas cfg env).
Proof. unfold _pick_replicas. repeat advance_step. Qed.
#[local] Hint Resolve advances_auth advances_capability advances_barrier advances_pick : svc.

(** A step whose continuation may use what the step returned. *)
Lemma moves_bind_ok {A B} (m : H A) (f : A → H B) :
  moves advances m → (∀ s a s1, m s = (s1, Ok a) → moves advances (f a)) → moves advances (mbind f m).
Proof.
  intros Hm Hf s. specialize (Hm s). unfold mbind, M_bind. destruct (m s) as [s1 [a|e]] eqn:E; [|done].
  etrans; [exact Hm|]. by eapply Hf.
Qed.

Lemma advances_commit c : moves advances (_commit cfg env ctx op c).
Proof.
  unfold _commit, _require_leader, abort. do 2 (apply moves_bind; [apply _|repeat advance_step|intros _]).
  apply moves_bind_ok; [apply advances_auth|]. intros s p s1 Hp%authenticate_inv.
  unfold _commit_raw, emit, abort. repeat (advance_step || (by apply advances_apply)).
Qed.
#[local] Hint Resolve advances_commit : svc.

Lemma advances_mutate es (c : H command) : moves advances c → moves advances (mutate cfg env ctx es op c).
Proof. intros Hc. unfold mutate. repeat advance_step. Qed.
Lemma advances_deletes bs : moves advances (_delete_blocks cfg env bs).
Proof.
  induction bs as [|b bs IH]; simpl; [advance_step|]. apply moves_bind; [apply _| |intros _; apply IH].
  induction (datanode_addresses b); simpl; [advance_step|]. unfold emit. repeat advance_step. all: auto.
Qed.
Lemma advances_propose n : moves advances (propose cfg env n).
Proof. induction n; simpl; repeat advance_step; auto. Qed.
Lemma advances_write_proposals l : moves advances (write_proposals cfg env l).
Proof. induction l as [|[? ?] l IH]; simpl; repeat advance_step; auto. Qed.
Lemma advances_locations r pl : moves advances (locations cfg env ctx r pl).
Proof. revert r. induction pl as [|[? ?] l IH]; intros r; simpl; repeat advance_step; auto. Qed.
Lemma advances_infos l : moves advances (infos cfg env ctx l).
Proof. induction l; simpl; repeat advance_step; auto. Qed.
Lemma advances_slots l : moves advances (write_slots cfg env ctx l).
Proof. induction l as [|[[[[[[? ?] ?] ?] ?] ?] ?] l IH]; simpl; repeat advance_step; auto. Qed.
#[local] Hint Resolve advances_deletes advances_propose advances_write_proposals advances_locations advances_infos
  advances_slots : svc.

(** * Fresh identifiers *)

(** Identifiers drawn one after the other between two moments. *)
Definition drawn (from to : nat) (l : list string) : Prop :=
  ∃ ks, l = uuid_at env <$> ks ∧ Forall (λ k, from ≤ k < to)%nat ks ∧ NoDup ks.

Lemma drawn_cons k from to l :
  (from ≤ k)%nat → (k < to)%nat → drawn (S k) to l → drawn from to (uuid_at env k :: l).
Proof.
  intros Hf Ht (ks & -> & Hks & Hnd). exists (k :: ks). split; [done|]. rewrite Forall_forall in Hks. split.
  - constructor; [lia|]. apply Forall_forall. intros j Hj. apply Hks in Hj. lia.
  - constructor; [|done]. intros Hk%Hks. lia.
Qed.
Lemma drawn_weaken from from' to to' l : (from' ≤ from)%nat → (to ≤ to')%nat → drawn from to l → drawn from' to' l.
Proof.
  intros Hf Ht (ks & -> & Hks & Hnd). exists ks. split_and!; [done| |done]. eapply Forall_impl; [exact Hks|]. simpl. lia.
Qed.

Lemma propose_drawn n s s' l : propose cfg env n s = (s', Ok l) → drawn (tick s) (tick s') l.*1.
Proof.
  revert s s' l. induction n as [|n IH]; intros s s' l; simpl.
  { intros [= <- <-]. exists []. split_and!; [done|constructor|constructor]. }
  intros (s1 & id & [= <- <-] & (s2 & a & K2%(moves_inv _ _ _ _ _ advances_pick) & (s3 & rest & K3 & [= <- <-])%bind_ok_inv)%bind_ok_inv)%bind_ok_inv.
  pose proof (moves_inv _ _ _ _ _ (advances_propose n) K3) as [T3 _]. apply IH in K3. destruct K2 as [T2 _]. simpl in T2.
  apply drawn_cons; [done|lia|]. by apply (drawn_weaken (tick s2) _ (tick s3)).
Qed.

Lemma write_proposals_drawn plan s s' l :
  write_proposals cfg env plan s = (s', Ok l) → drawn (tick s) (tick s') ((λ p : Proposal, p.1.2) <$> l).
Proof.
  revert s s' l. induction plan as [|[i z] plan IH]; intros s s' l; simpl.
  { intros [= <- <-]. exists []. split_and!; [done|constructor|constructor]. }
  intros (s1 & id & [= <- <-] & (s2 & a & K2%(moves_inv _ _ _ _ _ advances_pick) & (s3 & rest & K3 & [= <- <-])%bind_ok_inv)%bind_ok_inv)%bind_ok_inv.
  pose proof (moves_inv _ _ _ _ _ (advances_write_proposals plan) K3) as [T3 _]. apply IH in K3. destruct K2 as [T2 _]. simpl in T2.
  apply drawn_cons; [done|lia|]. by apply (drawn_weaken (tick s2) _ (tick s3)).
Qed.

(** * The commands behind the answers *)

Context (Ho : others_unused cfg env ctx op).

(** The tree the command of a call finds, when [n] is its barrier. *)
Definition log_at (n : nat) (s : Node) : TreeState := tree (apply_log (others_at env n) (replicated s)).

Lemma mutate_run es c s s' u :
  unused cfg env ctx op s → mutate cfg env ctx es op (mret c) s = (s', Ok u) →
  ∃ n v, run_command c (log_at n s) = (tree (replicated s'), Ok v).
Proof.
  intros Hu (s1 & c' & [= <- <-] & (s2 & v & Hc & [= <-])%bind_ok_inv)%catching_ok_inv%bind_ok_inv.
  apply commit_ok_inv in Hc as [n Hn]; [|done..]. by exists n, v.
Qed.

Lemma timed_mutate_run es (f : Z → command) s s' u :
  unused cfg env ctx op s → mutate cfg env ctx es op (t ← now_ env; mret (f t)) s = (s', Ok u) →
  ∃ n t v, run_command (f t) (log_at n s) = (tree (replicated s'), Ok v).
Proof.
  intros Hu (s1 & c' & (s3 & t & [= <- <-] & [= <- <-])%bind_ok_inv & (s2 & v & Hc & [= <-])%bind_ok_inv)%catching_ok_inv%bind_ok_inv.
  apply commit_ok_inv in Hc as [n Hn]; [|done..]. by exists n, (clock_at env (tick s)), v.
Qed.

Lemma timed_commit_run es (f : Z → command) s s' v :
  unused cfg env ctx op s → catching es (t ← now_ env; _commit cfg env ctx op (f t)) s = (s', Ok v) →
  ∃ n t, run_command (f t) (log_at n s) = (tree (replicated s'), Ok v).
Proof.
  intros Hu (s1 & t & [= <- <-] & Hc)%catching_ok_inv%bind_ok_inv.
  apply commit_ok_inv in Hc as [n Hn]; [|done..]. by exists n, (clock_at env (tick s)).
Qed.

Lemma as_none_ok (m : TreeM ()) t t' v : as_none m t = (t', Ok v) → m t = (t', Ok tt).
Proof. by intros (t1 & [] & Hm & [= <- _])%bind_ok_inv. Qed.

(** Authentication first: the log and its memory are as they were. *)
Lemma auth_run s s1 p :
  _authenticate cfg env ctx s = (s1, Ok p) → unused cfg env ctx op s →
  calls_as cfg env ctx p ∧ replicated s1 = replicated s ∧ unused cfg env ctx op s1.
Proof.
  intros Ha Hu. pose proof (local_run _ _ _ _ (local_auth cfg env ctx) Ha) as E. apply authenticate_inv in Ha.
  split_and!; [done..|]. intros q Hq. rewrite E. by apply Hu.
Qed.

Lemma ConfirmBlock_run path bid k z s s' :
  unused cfg env ctx op s → ConfirmBlock cfg env ctx op path bid k z s = (s', Ok tt) →
  ∃ p n t, calls_as cfg env ctx p ∧
    confirm_block path bid k z (Some t) (Some (c_upload_lease cfg)) (_caller p) (log_at n s) = (tree (replicated s'), Ok tt).
Proof.
  intros Hu (s1 & p & [Hp [E Hu1]]%auth_run & H)%bind_ok_inv; [|done]. apply timed_mutate_run in H as (n & t & v & H); [|done].
  unfold log_at in *. rewrite E in H. apply as_none_ok in H. eauto.
Qed.

Lemma CompleteUpload_run path s s' :
  unused cfg env ctx op s → CompleteUpload cfg env ctx op path s = (s', Ok tt) →
  ∃ p n, calls_as cfg env ctx p ∧
    complete_upload path (_caller p) (log_at n s) = (tree (replicated s'), Ok tt).
Proof.
  intros Hu (s1 & p & [Hp [E Hu1]]%auth_run & H)%bind_ok_inv; [|done]. apply mutate_run in H as (n & v & H); [|done].
  unfold log_at in *. rewrite E in H. apply as_none_ok in H. eauto.
Qed.

Lemma Unlock_run path id s s' :
  unused cfg env ctx op s → Unlock cfg env ctx op path id s = (s', Ok tt) →
  ∃ n t, release_lock path id (Some t) (log_at n s) = (tree (replicated s'), Ok tt).
Proof.
  intros Hu (s1 & p & [Hp [E Hu1]]%auth_run & H)%bind_ok_inv; [|done]. apply timed_mutate_run in H as (n & t & v & H); [|done].
  unfold log_at in *. rewrite E in H. apply as_none_ok in H. eauto.
Qed.

Lemma Lock_run path mode s s' r :
  unused cfg env ctx op s → Lock cfg env ctx op path mode s = (s', Ok r) →
  ∃ p n t o id id', calls_as cfg env ctx p ∧
    acquire_lock path id o mode t (c_lock_lease cfg) (_caller p) (log_at n s) = (tree (replicated s'), Ok id').
Proof.
  intros Hu (s1 & p & [Hp [E Hu1]]%auth_run & (s2 & id & [= <- <-] & (s3 & v & Hc & (s4 & x & [-> _]%lift_ok_run & [= <- _])%bind_ok_inv)
    %bind_ok_inv)%bind_ok_inv)%bind_ok_inv; [|done].
  apply timed_commit_run in Hc as (n & t & H); [|done]. unfold log_at in *. simpl in H. rewrite E in H.
  apply bind_ok_inv in H as (t1 & id' & H & [= <- _]). do 6 eexists. split; [exact Hp|]. exact H.
Qed.

(** The choice of the replicas of an upload comes before its answer. *)
Lemma BeginUpload_tick path size s s' locs s1 p s2 pl :
  0 < c_block_size cfg → BeginUpload cfg env ctx op path size s = (s', Ok locs) →
  _authenticate cfg env ctx s = (s1, Ok p) →
  propose cfg env (Z.to_nat (block_count (c_block_size cfg) size)) s1 = (s2, Ok pl) → (tick s2 ≤ tick s')%nat.
Proof.
  intros Hbs (x1 & q & K1 & (x2 & [] & K2 & (x3 & n & K3 & (x4 & proposed & K4 &
    (x5 & v & K5 & K6)%bind_ok_inv)%bind_ok_inv)%bind_ok_inv)%bind_ok_inv)%bind_ok_inv Ha Hb. rewrite K1 in Ha. injection Ha as <- <-.
  assert (x2 = x1 ∧ 0 < size) as [-> Hsize].
  { destruct (Z.leb_spec size 0); [discriminate K2|]. by injection K2 as <-. }
  apply lift_ok_run in K3 as [-> Hn]. apply num_blocks_count in Hn as ->; [|done..].
  apply catching_insufficient_ok_inv in K4. rewrite K4 in Hb. injection Hb as <- <-.
  eapply (moves_inv advances) in K5 as [T5 _]; [|apply advances_catching; unfold now_; repeat (advance_step || apply advances_commit)].
  destruct v as [| | |v st| |v w]; try discriminate K6.
  - apply bind_ok_inv in K6 as (x6 & [] & [T6 _]%(moves_inv _ _ _ _ _ (advances_deletes _)) & [T7 _]%(moves_inv _ _ _ _ _ (advances_locations _ _))). lia.
  - by apply bind_ok_inv in K6 as (x6 & [] & _ & K7).
Qed.
End handlers.

(** * Calls that leave a path alone *)

(** The commands of other clients leave the path alone. *)
Definition others_keep (env : Env) (q : list string) : Prop :=
  ∀ n r, view (tree (apply_log (others_at env n) r)) q = view (tree r) q.

Section keeps.
Context `{!Jwt} (cfg : Config) (env : Env) (ctx : Ctx) (q : list string).
Hypothesis Hothers : others_keep env q.

Notation keeps_tree := (same (λ t : TreeState, view t q)).
Notation keeps := (same (λ s : Node, view (tree (replicated s)) q)).

Ltac keep_tree_step :=
  first [apply moves_bind; [apply _| |intros ?] | progress case_match | (apply moves_ensure; apply _) | (intros ?; reflexivity)].

Lemma acquire_lock_keeps p id o m now l c : moves keeps_tree (acquire_lock p id o m now l c).
Proof. unfold acquire_lock, put_holder, _cleanup_expired_locks. repeat keep_tree_step. Qed.
Lemma renew_lock_keeps p id now l : moves keeps_tree (renew_lock p id now l).
Proof. unfold renew_lock, put_holder, _cleanup_expired_locks. repeat keep_tree_step. Qed.
Lemma release_lock_keeps p id now : moves keeps_tree (release_lock p id now).
Proof. unfold release_lock, put_holder, _cleanup_expired_locks. repeat keep_tree_step. Qed.

(** The commands of the lock table. *)
Definition lock_command (c : command) : bool :=
  match c with
  | CAcquireLock _ _ _ _ _ _ _ | CRenewLock _ _ _ _ | CReleaseLock _ _ _ => true
  | _ => false
  end.

Lemma lock_command_keeps c : lock_command c = true → moves keeps_tree (run_command c).
Proof.
  intros Hc. destruct c; try discriminate Hc; cbn [run_command]; unfold as_none;
    (apply moves_bind; [apply _| |intros ? ?; reflexivity]);
    [apply acquire_lock_keeps|apply renew_lock_keeps|apply release_lock_keeps].
Qed.

Lemma apply_keeps_path key c r : lock_command c = true → view (tree (apply key c r).1) q = view (tree r) q.
Proof.
  intros Hc. unfold apply, dispatch. destruct (dict_get key (applied_ops r)); [done|]. case_bool_decide; [|done].
  pose proof (lock_command_keeps c Hc (tree r)) as Hk. by destruct (run_command c (tree r)) as [t o].
Qed.

Lemma keeps_local {A} (m : H A) : local m → moves keeps m.
Proof. intros Hl s. unfold same. by rewrite Hl. Qed.
Lemma keeps_sync : moves keeps (sync_others env).
Proof. intros s. apply Hothers. Qed.
Lemma keeps_catching {A} es (m : H A) : moves keeps m → moves keeps (catching es m).
Proof. intros Hm s. specialize (Hm s). unfold catching. destruct (m s) as [s1 [a|[e| |]]]; try done. by case_decide. Qed.

Ltac keep_step :=
  match goal with
  | |- moves _ (mbind _ _) => apply moves_bind; [apply _| |intros ?]
  | |- moves _ (catching _ _) => apply keeps_catching
  | |- moves _ (sync_others _) => apply keeps_sync
  | |- moves _ (match _ with _ => _ end) => progress case_match
  | |- moves _ _ => apply keeps_local; done
  end.

Lemma keeps_barrier : moves keeps (_read_barrier env).
Proof. unfold _read_barrier, _require_leader, _read_barrier_raw, abort. repeat keep_step. Qed.
Lemma keeps_commit op c : lock_command c = true → moves keeps (_commit cfg env ctx op c).
Proof.
  intros Hc. unfold _commit, _require_leader, abort, _commit_raw, emit.
  repeat (keep_step || apply keeps_local, local_auth). all: intros s; by apply apply_keeps_path.
Qed.
Lemma keeps_mutate es op (f : Z → command) :
  (∀ t, lock_command (f t) = true) → moves keeps (mutate cfg env ctx es op (t ← now_ env; mret (f t))).
Proof.
  intros Hf. unfold mutate. apply keeps_catching.
  change (moves keeps (t ← now_ env; _ ← _commit cfg env ctx op (f t); mret tt)). unfold now_.
  repeat (keep_step || (by apply keeps_commit)).
Qed.
Lemma keeps_read_tree {A} (m : TreeM A) : moves keeps (read_tree m).
Proof. intros s. unfold read_tree. by destruct (m _) as [? [?|?]]. Qed.

Lemma Lock_keeps op p m : moves keeps (Lock cfg env ctx op p m).
Proof.
  unfold Lock, now_. repeat (keep_step || (apply keeps_local, local_auth) || (by apply keeps_commit)). 
  all: by destruct (as_text _).
Qed.
Lemma RenewLock_keeps op p i : moves keeps (RenewLock cfg env ctx op p i).
Proof. apply moves_bind; [apply _|apply keeps_local, local_auth|intros _]. by apply keeps_mutate. Qed.
Lemma Unlock_keeps op p i : moves keeps (Unlock cfg env ctx op p i).
Proof. apply moves_bind; [apply _|apply keeps_local, local_auth|intros _]. by apply keeps_mutate. Qed.
Lemma ListBlocks_keeps p : moves keeps (ListBlocks cfg env ctx p).
Proof.
  unfold ListBlocks. repeat first [apply keeps_barrier | apply keeps_catching, keeps_read_tree
    | apply keeps_local, local_auth | apply keeps_local, local_infos | apply moves_bind; [apply _| |intros ?]].
Qed.
End keeps.

#[export] Hint Resolve tick_read_tree tick_lift advances_auth advances_capability advances_barrier advances_pick
  advances_commit advances_mutate advances_deletes advances_propose advances_write_proposals advances_locations
  advances_infos advances_slots : svc.

(** What BeginWrite and CommitWrite did when they answer: the command the log applied,
    the slots the answer describes and the blocks the answer deletes. *)

Section writes.
Context `{!Jwt, !JwtLaws} (cfg : Config) (env : Env) (ctx : Ctx) (op : string).

(** What the answer shows of a row of the log. *)
Definition shows_slot (row : SlotRow) (x : WriteSlot) : Prop :=
  match row with
  | (index, old_id, old_size, old_addresses, new_id, new_addresses, new_size) =>
      ws_index x = index ∧ ws_old_id x = old_id ∧ ws_old_size x = old_size ∧
      ws_old_addresses x = _for_client cfg ctx old_addresses false ∧ ws_new_id x = new_id ∧
      ws_new_addresses x = _for_client cfg ctx new_addresses true ∧ ws_new_size x = new_size
  end.

Lemma write_slots_spec rows s s' l : write_slots cfg env ctx rows s = (s', Ok l) → Forall2 shows_slot rows l.
Proof.
  revert s s' l. induction rows as [|[[[[[[i o] oz] oa] n] na] nz] rows IH]; intros s s' l; cbn [write_slots].
  { intros [= _ <-]. constructor. }
  intros (s1 & oc & _ & (s2 & nc & _ & (s3 & rest & K%IH & [= _ <-])%bind_ok_inv)%bind_ok_inv)%bind_ok_inv.
  by constructor.
Qed.

Lemma local_write_slots rows : local (write_slots cfg env ctx rows).
Proof.
  induction rows as [|[[[[[[i o] oz] oa] n] na] nz] rows IH]; cbn [write_slots]; [done|].
  apply local_bind; [case_bool_decide; [done|apply local_capability]|intros oc].
  apply local_bind; [apply local_capability|intros nc]. apply local_bind; [apply IH|done].
Qed.

Lemma local_pick : local (_pick_replicas cfg env).
Proof. unfold _pick_replicas. repeat local_step. Qed.
Lemma local_write_proposals plan : local (write_proposals cfg env plan).
Proof.
  induction plan as [|[i z] plan IH]; cbn [write_proposals]; [done|].
  apply local_bind; [done|intros id]. apply local_bind; [apply local_pick|intros a]. by apply local_bind.
Qed.

Lemma write_proposals_replicas plan s s' l :
  NoDup (c_datanodes cfg) → (∀ k, NoDup (alive_at env k)) → 0 ≤ c_replication_factor cfg →
  write_proposals cfg env plan s = (s', Ok l) → Forall (λ p : Proposal, replicas_ok cfg env p.2) l.
Proof.
  intros Hd Ha Hf. revert s s' l. induction plan as [|[i z] plan IH]; intros s s' l; cbn [write_proposals]; [by intros [= _ <-]|].
  intros (s1 & id & _ & (s2 & a & K2%pick_spec & (s3 & rest & K3%IH & [= _ <-])%bind_ok_inv)%bind_ok_inv)%bind_ok_inv; [|done..].
  by constructor.
Qed.

(** The log and its memory, up to what others wrote. *)
Lemma unused_local s s' : replicated s' = replicated s → unused cfg env ctx op s → unused cfg env ctx op s'.
Proof. intros E Hu q Hq. rewrite E. by apply Hu. Qed.

Context (Ho : others_unused cfg env ctx op).

Lemma begin_write_run path id off len s s' resp :
  NoDup (c_datanodes cfg) → (∀ k, NoDup (alive_at env k)) → 0 ≤ c_replication_factor cfg →
  unused cfg env ctx op s → BeginWrite cfg env ctx op path id off len s = (s', Ok resp) →
  ∃ p k n t expected proposals rows,
    calls_as cfg env ctx p ∧
    begin_write path (bw_write_id resp) id expected off len proposals t (c_upload_lease cfg) (c_block_size cfg) (_caller p)
      (tree (apply_log (others_at env n) (apply_log (others_at env k) (replicated s))))
      = (tree (replicated s'), Ok (bw_write_id resp, bw_base_version resp, bw_block_size resp, rows)) ∧
    Forall2 shows_slot rows (bw_slots resp) ∧
    drawn env (tick s) (tick s') ((λ p : Proposal, p.1.2) <$> proposals) ∧
    Forall (λ p : Proposal, replicas_ok cfg env p.2) proposals ∧
    ∃ j, bw_write_id resp = uuid_at env j.
Proof.
  intros Hd Ha Hf Hu (s1 & p & K1 & (s2 & [] & K2 & (s3 & vp & K3 & (s4 & proposals & K4 & (s5 & v & K5 & K6)
    %bind_ok_inv)%bind_ok_inv)%bind_ok_inv)%bind_ok_inv)%bind_ok_inv.
  pose proof (moves_inv _ _ _ _ _ (advances_auth cfg env ctx op) K1) as [T1 _].
  apply (auth_run cfg env ctx op) in K1 as (Hp & E1 & Hu1); [|done].
  pose proof (moves_inv _ _ _ _ _ (advances_barrier cfg env ctx op) K2) as [T2 _].
  apply barrier_ok_inv in K2 as (k & _ & _ & E2 & _).
  assert (unused cfg env ctx op s2) as Hu2.
  { intros q Hq. rewrite E2. apply apply_log_absent; [by apply Ho|by apply Hu1]. }
  assert (local (l ← read_tree (write_layout path (c_block_size cfg) (_caller p));
    plan ← lift_ (plan_write_slots l.2 l.1.2 off len); mret (l.1.1, plan))) as Hread.
  { apply local_bind; [intros x; unfold read_tree; by destruct (write_layout _ _ _ _) as [? [?|?]]|intros l].
    apply local_bind; [by destruct (plan_write_slots _ _ _ _)|done]. }
  apply catching_ok_inv in K3. pose proof (local_run _ _ _ _ Hread K3) as E3.
  assert (tick s2 = tick s3) as T3.
  { apply bind_ok_inv in K3 as (x & l & Kl & (y & plan & [-> _]%lift_ok_run & [= <- _])%bind_ok_inv).
    revert Kl. unfold read_tree. destruct (write_layout _ _ _ _) as [? [?|?]]; [|done]. by intros [= <- _]. }
  apply catching_insufficient_ok_inv in K4.
  pose proof (moves_inv _ _ _ _ _ (advances_write_proposals cfg env ctx op _) K4) as [T4 _].
  pose proof (local_run _ _ _ _ (local_write_proposals _) K4) as E4.
  pose proof (write_proposals_drawn cfg env ctx op _ _ _ _ K4) as Hdrawn.
  apply write_proposals_replicas in K4; [|done..].
  apply catching_ok_inv, bind_ok_inv in K5 as (s6 & wid & [= <- <-] & (s7 & t & [= <- <-] & K5)%bind_ok_inv).
  pose proof (moves_inv _ _ _ _ _ (advances_commit cfg env ctx op _) K5) as [T5 _]. simpl in T5.
  apply commit_ok_inv in K5 as [n K5]; [|done|]; [|eapply unused_local; [|exact Hu2]; simpl; congruence].
  simpl in K5. apply bind_ok_inv in K5 as (t1 & [[[w base] bsz] rows] & Hb & [= E5 <-]). rewrite E5 in Hb. clear E5.
  rewrite E4, E3, E2, E1 in Hb.
  apply bind_ok_inv in K6 as (s8 & slots & K6 & [= <- <-]).
  pose proof (moves_inv _ _ _ _ _ (advances_slots cfg env ctx op rows) K6) as [T6 _].
  rewrite <-(local_run _ _ _ _ (local_write_slots _) K6) in Hb. cbn [bw_write_id bw_base_version bw_block_size bw_slots].
  pose proof Hb as (? & ? & ? & ? & _ & _ & _ & _ & _ & _ & _ & _ & _ & _ & [= -> _ _ _] & _)%begin_write_inv.
  do 7 eexists. split; [exact Hp|]. split; [exact Hb|]. split_and!.
  - by eapply write_slots_spec.
  - eapply drawn_weaken; [| |exact Hdrawn]; lia.
  - done.
  - by eexists.
Qed.

Lemma CommitWrite_run path wid id base conf s s' v :
  unused cfg env ctx op s → CommitWrite cfg env ctx op path wid id base conf s = (s', Ok v) →
  ∃ p n t replaced, calls_as cfg env ctx p ∧
    commit_write path wid id base conf t (_caller p) (log_at env n s) = (tree (replicated s'), Ok (v, replaced)) ∧
    ∃ l, sent s' = sent s ++ l ∧ ∀ a bid md, Deleted a bid md ∈ l → ∃ b, b ∈ replaced ∧ bid = block_id b.
Proof.
  intros Hu (s1 & p & K1 & (s2 & o & K2 & K3)%bind_ok_inv)%bind_ok_inv.
  assert (emits no_delete (_authenticate cfg env ctx)) as Hauth by emits_step.
  destruct (Hauth s) as (l1 & L1 & N1). rewrite K1 in L1. simpl in L1.
  apply (auth_run cfg env ctx op) in K1 as (Hp & E1 & Hu1); [|done].
  destruct (emits_caught_commit cfg env ctx op [PathNotFoundError; InvalidPathError; ConflictError; AccessDeniedError]
    (λ t, CCommitWrite path wid id base conf t (_caller p)) s1) as (l2 & L2 & N2). rewrite K2 in L2. simpl in L2.
  apply timed_commit_run in K2 as (n & t & K2); [|done..]. unfold log_at in *. rewrite E1 in K2.
  simpl in K2. apply bind_ok_inv in K2 as (t1 & [ver replaced] & Hc & [= E5 <-]). rewrite E5 in Hc. clear E5.
  apply bind_ok_inv in K3 as (s3 & [] & K3 & [= <- <-]).
  destruct (emits_deletes cfg env (λ e, ∀ a bid md, e = Deleted a bid md → ∃ b, b ∈ replaced ∧ bid = block_id b) replaced
    ltac:(by intros b a md Hb _ a' bid md' [= <- <- <-]; eauto) s2) as (l3 & L3 & N3). rewrite K3 in L3. simpl in L3.
  exists p, n, t, replaced. split; [done|]. split.
  - rewrite (local_run _ _ _ _ (local_deletes cfg env _) K3). exact Hc.
  - exists (l1 ++ l2 ++ l3). split; [by rewrite L3, L2, L1, !app_assoc|]. intros a bid md.
    rewrite Forall_forall in N1, N2, N3. intros [Hin|[Hin|Hin]%elem_of_app]%elem_of_app.
    + by apply N1 in Hin.
    + by apply N2 in Hin.
    + by eapply N3.
Qed.
End writes.
