(* ===== verification/RpcClient.v ===== *)
(** The RPC layer of [DistributedDFShaClient] (dfsha/client/distributed_client.py):
    the translation of a gRPC error back to a domain error, and [_call], which
    follows the leader of the ControlNodes and retries within a budget.

    Times are integers in microseconds.  What an attempt answers and how long it
    takes, the jitter of each delay, how much later the second reading of the clock of
    a round is and how long a sleep overruns are the record [CallEnv], read at the
    number of the attempt or of the round. *)

From S2P Require Import Prelude Exceptions Dict Crypto DataNode.
From S2P Require Servicer.

Open Scope Z_scope.

(** * Errors *)

Definition _RETRYABLE_CODES : list StatusCode := [UNAVAILABLE; DEADLINE_EXCEEDED].
Definition _READ_FAILOVER_CODES : list StatusCode := [UNAVAILABLE; DEADLINE_EXCEEDED; DATA_LOSS].

Definition _STATUS_ERROR_MAP : list (StatusCode * exn) :=
  [(NOT_FOUND, PathNotFoundError); (ALREADY_EXISTS, PathExistsError);
   (FAILED_PRECONDITION, NotEmptyError); (PERMISSION_DENIED, InvalidPathError);
   (INVALID_ARGUMENT, NotAFileError); (DATA_LOSS, BlockCorruptedError);
   (ABORTED, ConflictError); (UNAUTHENTICATED, AuthError)].

Definition ALLOWED_DOMAIN_ERROR_TYPES : list exn :=
  [InvalidPathError; PathNotFoundError; PathExistsError; NotEmptyError; NotAFileError; NotADirectoryError;
   BlockNotFoundError; BlockCorruptedError; ConflictError; AccessDeniedError; AuthError].

Definition _ALLOWED_DOMAIN_ERROR_BY_NAME (name : string) : option exn :=
  list_find (λ e, class_name e = name) ALLOWED_DOMAIN_ERROR_TYPES ≫= λ p, Some p.2.

(** The values of the [dfsha-error] entries of the trailing metadata. *)
Definition error_names (md : list (string * string)) : list string :=
  omap (λ e, if bool_decide (e.1 = "dfsha-error") then Some e.2 else None) md.

Definition _metadata_error_type (err : RpcError) : option exn :=
  match error_names (rpc_trailing err) with
  | [name] => _ALLOWED_DOMAIN_ERROR_BY_NAME name
  | _ => None
  end.

Definition _translate (err : RpcError) : exn :=
  match _metadata_error_type err with
  | Some e => e
  | None => default DFShaError (list_find (λ p, p.1 = rpc_code err) _STATUS_ERROR_MAP ≫= λ p, Some p.2.2)
  end.

Definition _is_recoverable_read_error (err : RpcError) : bool :=
  bool_decide (rpc_code err ∈ _READ_FAILOVER_CODES) ||
  bool_decide (rpc_code err = NOT_FOUND ∧ _metadata_error_type err = Some BlockNotFoundError).

(** What the client sees of an RPC of a ControlNode that ended without an answer. *)
Definition seen (e : Servicer.rpc_exn) : RpcError :=
  match e with
  | Servicer.Raised _ | Servicer.Insufficient => raised
  | Servicer.Aborted code None => aborted code
  | Servicer.Aborted code (Some name) => mkRpcError code [("dfsha-error", name)]
  end.

(** * Following the leader *)

Definition DEFAULT_FAILOVER_BUDGET_S : Z := 15000000.
Definition _RETRY_BACKOFF_S : Z := 200000.
Definition _MAX_RETRY_BACKOFF_S : Z := 2000000.

(** [random.uniform(0.5, 1.5)] in thousandths is an argument. *)
Definition _retry_delay (attempt : nat) (jitter : Z) : Z :=
  Z.min (_RETRY_BACKOFF_S * 2 ^ Z.of_nat attempt) _MAX_RETRY_BACKOFF_S * jitter / 1000.

Section call.
Context {A : Type}.

Record CallEnv := mkCallEnv {
  reply_at : nat → string → result RpcError A;
  took_at : nat → Z;
  jitter_at : nat → Z;
  reading_at : nat → Z;
  oversleep_at : nat → Z
}.

Context (env : CallEnv) (addresses : list string).

Definition total : Z := zlen addresses.
Definition address_at (index : Z) : string := default "" (addresses !! Z.to_nat index).
Definition retryable (e : RpcError) : bool := bool_decide (rpc_code e ∈ _RETRYABLE_CODES).

(** A pass over the nodes from the last one that answered: an answer and who gave
    it, an error that is raised, or the last error when every node was tried; and the
    time it ends at. *)
Inductive pass :=
| Answered (a : A) (index : Z) (now : Z)
| Failed (e : exn) (now : Z)
| Exhausted (last : option RpcError) (now : Z).

Fixpoint try_nodes (leader : Z) (offsets : list Z) (n : nat) (now : Z) (last : option RpcError) : nat * pass :=
  match offsets with
  | [] => (n, Exhausted last now)
  | offset :: rest =>
      let index := (leader + offset) mod total in
      match reply_at env n (address_at index) with
      | Ok a => (S n, Answered a index (now + took_at env n))
      | Err e =>
          if retryable e then try_nodes leader rest (S n) (now + took_at env n) (Some e)
          else (S n, Failed (_translate e) (now + took_at env n))
      end
  end.

(** [while True]: [None] when [fuel] rounds did not end it.  The answer comes with
    the leader it leaves, the number of attempts and the time of the end. *)
Fixpoint call_loop (fuel : nat) (leader : Z) (deadline : Z) (attempt n : nat) (now : Z)
    : option (result exn A * Z * nat * Z) :=
  match fuel with
  | O => None
  | S fuel' =>
      match try_nodes leader (zrange 0 total) n now None with
      | (n', Answered a index now') => Some (Ok a, index, n', now')
      | (n', Failed e now') => Some (Err e, leader, n', now')
      | (n', Exhausted last now') =>
          if deadline <=? now' then
            Some (Err (match last with Some e => _translate e | None => PyError end), leader, n', now')
          else
            let later := now' + reading_at env attempt in
            let pause := Z.min (_retry_delay attempt (jitter_at env attempt)) (Z.max 0 (deadline - later)) in
            call_loop fuel' leader deadline (S attempt) n' (later + pause + oversleep_at env attempt)
      end
  end.

(** [_call], with a budget. *)
Definition _call (fuel : nat) (leader budget start : Z) : option (result exn A * Z * nat * Z) :=
  call_loop fuel leader (start + budget) 0 0 start.

(** The rounds a budget can take: a round that is followed by another pauses for at
    least a tenth of a second. *)
Definition rounds_for (budget : Z) : nat := Z.to_nat (budget / 100000 + 2).
End call.
Arguments CallEnv : clear implicits.
Arguments pass : clear implicits.
