(* ===== verification/RpcProps.v ===== *)
(** The properties of the client's RPC layer: how long a call takes, whom it asks, and which
    errors travel. *)

From S2P Require Import Prelude Exceptions Dict Crypto Bytes DataNode RpcClient.
From S2P Require Servicer.

Open Scope Z_scope.

(** A domain error travels: the class a ControlNode or a DataNode reports is the
    class the client raises, for each class of the hierarchy. *)
Theorem domain_errors_travel e :
  is_domain e = true →
  _translate (_abort_on_domain_error e) = e
  ∧ _translate (seen (Servicer.Aborted (Servicer.status_of e) (Some (class_name e)))) = e.
Proof. destruct e; try discriminate; intros _; split; vm_compute; reflexivity. Qed.
Lemma domain_errors_travel_witness :
  _translate (_abort_on_domain_error BlockCorruptedError) = BlockCorruptedError
  ∧ _translate (seen (Servicer.Aborted (Servicer.status_of BlockCorruptedError) (Some (class_name BlockCorruptedError)))) = BlockCorruptedError.
Proof. apply (domain_errors_travel BlockCorruptedError). reflexivity. Defined.

Section call.
Context {A : Type} (env : CallEnv A) (addresses : list string).

Local Notation total := (total addresses).
Local Notation address_at := (address_at addresses).

(** The clock goes forward: an attempt takes at most its timeout [T], two readings of
    the clock are at most [C] apart, a sleep overruns by at most [O]; delays have the
    jitter of [uniform(0.5, 1.5)]. *)
Record sane (T C O : Z) : Prop := {
  sane_took : ∀ n, 0 ≤ took_at env n ≤ T;
  sane_jitter : ∀ n, 500 ≤ jitter_at env n ≤ 1500;
  sane_reading : ∀ n, 0 ≤ reading_at env n ≤ C;
  sane_oversleep : ∀ n, 0 ≤ oversleep_at env n ≤ O
}.
Context (T C O : Z) (Hs : sane T C O).

Lemma retry_delay_bounds attempt j :
  500 ≤ j ≤ 1500 → 100000 ≤ _retry_delay attempt j ≤ 3000000.
Proof.
  intros Hj. unfold _retry_delay, _RETRY_BACKOFF_S, _MAX_RETRY_BACKOFF_S.
  assert (1 ≤ 2 ^ Z.of_nat attempt) by (apply (Z.pow_le_mono_r 2 0); lia).
  set (b := Z.min (200000 * 2 ^ Z.of_nat attempt) 2000000). assert (200000 ≤ b ≤ 2000000) by (unfold b; lia).
  split; [apply Z.div_le_lower_bound|apply Z.div_le_upper_bound]; nia.
Qed.

Definition ends_at (out : pass A) : Z :=
  match out with Answered _ _ now | Failed _ now | Exhausted _ now => now end.
Lemma try_nodes_time leader offsets n now last n' out :
  try_nodes env addresses leader offsets n now last = (n', out) → now ≤ ends_at out ≤ now + zlen offsets * T.
Proof.
  revert n now last. induction offsets as [|o rest IH]; intros n now last; cbn [try_nodes].
  - intros [= _ <-]. cbn [ends_at]. unfold zlen. simpl. lia.
  - replace (zlen (o :: rest)) with (zlen rest + 1) by (unfold zlen; simpl; lia). pose proof (sane_took _ _ _ Hs n). pose proof (zlen_nonneg rest).
    destruct (reply_at env n _) as [a|e]; [intros [= _ <-]; cbn [ends_at]; nia|].
    destruct (retryable e); [|intros [= _ <-]; cbn [ends_at]; nia]. intros Hr%IH. nia.
Qed.

(** Rounds left when the clock is at [now]. *)
Lemma call_loop_ends fuel leader deadline attempt n now :
  Z.max 0 (deadline - now) + 100000 ≤ Z.of_nat fuel * 100000 →
  ∃ out, call_loop env addresses fuel leader deadline attempt n now = Some out.
Proof.
  revert attempt n now. induction fuel as [|fuel IH]; intros attempt n now Hf; [lia|]. cbn [call_loop].
  destruct (try_nodes _ _ _ _ _ _ _) as [n' [a i t|e t|last now']] eqn:Hr; [eauto..|].
  apply try_nodes_time in Hr as [Hr _]. cbn [ends_at] in Hr. destruct (Z.leb_spec deadline now'); [eauto|].
  apply IH. pose proof (retry_delay_bounds attempt _ (sane_jitter _ _ _ Hs attempt)).
  pose proof (sane_oversleep _ _ _ Hs attempt). pose proof (sane_reading _ _ _ Hs attempt). lia.
Qed.

(** A round begins before the deadline or just after a sleep that ended there, and
    lasts at most one timeout per node. *)
Lemma call_loop_time fuel leader deadline attempt n now r l n' end_ :
  now ≤ deadline + C + O →
  call_loop env addresses fuel leader deadline attempt n now = Some (r, l, n', end_) →
  now ≤ end_ ≤ deadline + C + O + total * T.
Proof.
  revert attempt n now. induction fuel as [|fuel IH]; intros attempt n now Hnow; [discriminate|]. cbn [call_loop].
  destruct (try_nodes _ _ _ _ _ _ _) as [m out] eqn:Hr. apply try_nodes_time in Hr. 
  rewrite zrange_zlen, Z.sub_0_r in Hr by apply zlen_nonneg.
  destruct out as [a i now'|e now'|last now']; cbn [ends_at] in Hr; [intros [= _ _ _ <-]; lia..|].
  destruct (Z.leb_spec deadline now'); [intros [= _ _ _ <-]; lia|]. intros Hl.
  pose proof (retry_delay_bounds attempt _ (sane_jitter _ _ _ Hs attempt)).
  pose proof (sane_oversleep _ _ _ Hs attempt). pose proof (sane_reading _ _ _ Hs attempt). apply IH in Hl; lia.
Qed.
End call.

(** Three nodes that are all followers until the fourth attempt. *)
Definition demo_call : CallEnv string :=
  mkCallEnv (λ n a, if Nat.leb n 3 then Err (aborted UNAVAILABLE) else Ok a) (λ _, 1000) (λ _, 1000) (λ _, 2) (λ _, 7).
Lemma demo_call_sane : sane demo_call 1000 2 7.
Proof. constructor; intros n; simpl; lia. Qed.
(** * What a call answers *)

Section answers.
Context {A : Type} (env : CallEnv A) (addresses : list string) (leader : Z).
Hypothesis some_node : 0 < zlen addresses.

Local Notation total := (total addresses).

(** The [k]-th attempt: the nodes in turn from the leader. *)
Definition attempt_index (k : nat) : Z := (leader + Z.of_nat k) mod total.
Definition attempt (k : nat) : result RpcError A := reply_at env k (address_at addresses (attempt_index k)).
Definition retried (k : nat) : Prop := ∃ e, attempt k = Err e ∧ retryable e = true.

Lemma round_index (base offset : Z) :
  base mod total = 0 → (leader + offset) mod total = (leader + (base + offset)) mod total.
Proof.
  intros Hb. replace (leader + (base + offset)) with (leader + offset + base) by lia.
  rewrite (Z.add_mod (leader + offset) base), Hb, Z.add_0_r, Z.mod_mod; unfold RpcClient.total; lia.
Qed.

(** The last error of a round that tried up to attempt [n]. *)
Definition last_error (n : nat) (last : option RpcError) : Prop :=
  ∃ m e, n = S m ∧ attempt m = Err e ∧ last = Some e.

Lemma try_nodes_spec base offset now last n' out :
  Z.of_nat base mod total = 0 → 0 ≤ offset ≤ total → (0 < offset → last_error (base + Z.to_nat offset) last) →
  try_nodes env addresses leader (zrange offset total) (base + Z.to_nat offset) now last = (n', out) →
  (∀ j, (base + Z.to_nat offset ≤ j < n')%nat → j = pred n' ∨ retried j) ∧ (base + Z.to_nat offset ≤ n')%nat ∧
  match out with
  | Answered a index _ => (base < n')%nat ∧ attempt (pred n') = Ok a ∧ index = attempt_index (pred n')
  | Failed e _ => (base < n')%nat ∧ ∃ x, attempt (pred n') = Err x ∧ retryable x = false ∧ e = _translate x
  | Exhausted last' _ => n' = (base + Z.to_nat total)%nat ∧ last_error n' last' ∧
                         (∀ j, (base + Z.to_nat offset ≤ j < n')%nat → retried j)
  end.
Proof.
  intros Hbase. remember (Z.to_nat (total - offset)) as m eqn:Hm. revert offset Hm now last.
  induction m as [|m IH]; intros offset Hm now last Ho Hlast.
  - rewrite zrange_nil by lia. intros [= <- <-]. split; [lia|]. split; [lia|]. split_and!; [lia| |lia].
    apply Hlast. unfold RpcClient.total in *. lia.
  - rewrite zrange_cons by lia. cbn [try_nodes]. set (n := (base + Z.to_nat offset)%nat).
    assert (reply_at env n (address_at addresses ((leader + offset) mod total)) = attempt n) as Hat.
    { unfold attempt, attempt_index, n. do 2 f_equal. rewrite (round_index (Z.of_nat base)) by done. do 2 f_equal. lia. }
    rewrite Hat. destruct (attempt n) as [a|e] eqn:Ha.
    { intros [= <- <-]. split; [lia|]. split; [lia|]. simpl. split_and!; [lia|done|].
      unfold attempt_index, n. rewrite (round_index (Z.of_nat base)) by done. do 2 f_equal. lia. }
    destruct (retryable e) eqn:Hr.
    2: { intros [= <- <-]. split; [lia|]. split; [lia|]. simpl. split; [lia|]. eauto. }
    replace (S n) with (base + Z.to_nat (offset + 1))%nat by (unfold n; lia). intros Hout.
    apply IH in Hout as (H1 & H2 & H3); [|lia|lia|intros _; exists n, e; split; [unfold n; lia|done]].
    assert (retried n) as Hn by (exists e; done).
    split; [|split; [lia|]].
    + intros j Hj. destruct (decide (j = n)) as [->|]; [by right|]. apply H1. lia.
    + destruct out as [a i t|x t|l t]; [done..|]. destruct H3 as (? & ? & H4). split_and!; [done..|].
      intros j Hj. destruct (decide (j = n)) as [->|]; [done|]. apply H4. lia.
Qed.

Lemma call_loop_spec fuel deadline k base now r leader' n end_ :
  Z.of_nat base mod total = 0 →
  call_loop env addresses fuel leader deadline k base now = Some (r, leader', n, end_) →
  (∀ j, (base ≤ j < pred n)%nat → retried j) ∧ (base < n)%nat ∧
  match r with
  | Ok a => attempt (pred n) = Ok a ∧ leader' = attempt_index (pred n)
  | Err e => leader' = leader ∧ ∃ x, attempt (pred n) = Err x ∧ e = _translate x ∧
               (retryable x = true → Z.of_nat n mod total = 0 ∧ deadline ≤ end_)
  end.
Proof.
  revert k base now. induction fuel as [|fuel IH]; intros k base now Hbase; [discriminate|]. cbn [call_loop].
  destruct (try_nodes env addresses leader (zrange 0 total) base now None) as [n' out] eqn:Hr.
  pose proof (try_nodes_spec base 0 now None n' out Hbase) as Hspec. rewrite Nat.add_0_r in Hspec.
  destruct Hspec as (H1 & H2 & H3); [unfold RpcClient.total; lia|lia|done|].
  destruct out as [a i t|e t|last now'].
  - intros [= <- <- <- <-]. destruct H3 as (? & ? & ->). split_and!; try done. intros j Hj. destruct (H1 j); [lia|lia|done].
  - intros [= <- <- <- <-]. destruct H3 as (? & x & Hx & Hre & ->). split_and!; try done.
    + intros j Hj. destruct (H1 j); [lia|lia|done].
    + exists x. split_and!; try done. by rewrite Hre.
  - destruct H3 as (-> & (m & e & Hm & Hme & ->) & Hall).
    assert (Z.of_nat (base + Z.to_nat total) mod total = 0) as Hmod.
    { rewrite Nat2Z.inj_add, Z2Nat.id by (unfold RpcClient.total; lia).
      rewrite Z.add_mod, Hbase, Z.mod_same, Z.mod_0_l by (unfold RpcClient.total; lia). done. }
    destruct (Z.leb_spec deadline now').
    + intros [= <- <- <- <-]. rewrite Hm. simpl. split_and!; [|unfold RpcClient.total in *; lia|done|].
      * intros j Hj. apply Hall. lia.
      * exists e. split_and!; [done..|]. intros _. split; [by rewrite <-Hm|done].
    + intros Hloop. apply IH in Hloop as (G1 & G2 & G3); [|done]. split_and!; [|unfold RpcClient.total in *; lia|done].
      intros j Hj. destruct (decide (j < base + Z.to_nat total)%nat); [apply Hall; lia|apply G1; lia].
Qed.
End answers.

(** [_call] follows the leader: it tries the nodes in turn from the last one
    that answered, gives the first answer and remembers who gave it, raises the
    first error that is not retryable, and otherwise gives up after a whole pass
    and raises the last one. *)
Theorem call_follows_leader {A} (env : CallEnv A) addresses leader fuel budget start r leader' n end_ :
  0 < zlen addresses → _call env addresses fuel leader budget start = Some (r, leader', n, end_) →
  (∀ j, (j < pred n)%nat → retried env addresses leader j) ∧ (0 < n)%nat ∧
  match r with
  | Ok a => attempt env addresses leader (pred n) = Ok a ∧ leader' = attempt_index addresses leader (pred n)
  | Err e => leader' = leader ∧ ∃ x, attempt env addresses leader (pred n) = Err x ∧ e = _translate x ∧
               (retryable x = true → Z.of_nat n mod zlen addresses = 0 ∧ start + budget ≤ end_)
  end.
Proof.
  intros Hn Hc. apply call_loop_spec in Hc as (H1 & H2 & H3); [|done|by rewrite Z.mod_0_l by (unfold total; lia)].
  split_and!; [|done|done]. intros j Hj. apply H1. lia.
Qed.
Lemma call_follows_leader_witness :
  attempt demo_call ["c1"; "c2"; "c3"] 1 4 = Ok "c3" ∧ 2 = attempt_index ["c1"; "c2"; "c3"] 1 4.
Proof.
  refine (proj2 (proj2 (call_follows_leader demo_call ["c1"; "c2"; "c3"] 1 (rounds_for DEFAULT_FAILOVER_BUDGET_S)
    DEFAULT_FAILOVER_BUDGET_S 0 (Ok "c3") 2 5 _ _ _))); vm_compute; reflexivity.
Defined.

(** C26. [_call] terminates in time: with attempts that last at most [T], whatever the
    nodes answer, it makes at most one round per tenth of a second of its budget and
    two more, and then it has an answer or raises; its end is at most one round of the
    nodes past the budget (and what the last sleep overran), since no sleep goes past
    the deadline; and it gives up on an error it could retry only once its budget is
    over. *)
Theorem call_terminates {A} (env : CallEnv A) addresses leader budget start T C O :
  sane env T C O → 0 ≤ budget → 0 < zlen addresses →
  ∃ r leader' n end_, _call env addresses (rounds_for budget) leader budget start = Some (r, leader', n, end_) ∧
    start ≤ end_ ≤ start + budget + zlen addresses * T + C + O ∧
    (∀ e x, r = Err e → attempt env addresses leader (pred n) = Err x → retryable x = true → start + budget ≤ end_).
Proof.
  intros Hs Hb Hn.
  destruct (call_loop_ends env addresses T C O Hs (rounds_for budget) leader (start + budget) 0 0 start) as [[[[r l] n] end_] Hr].
  - unfold rounds_for. pose proof (Z.div_mod budget 100000 ltac:(lia)). pose proof (Z.mod_pos_bound budget 100000 ltac:(lia)).
    pose proof (Z.div_pos budget 100000 Hb ltac:(lia)). lia.
  - exists r, l, n, end_. split; [exact Hr|]. split.
    + apply (call_loop_time _ _ T C O Hs) in Hr; [unfold total in Hr; lia|].
      pose proof (sane_reading _ _ _ _ Hs 0). pose proof (sane_oversleep _ _ _ _ Hs 0). lia.
    + intros e x -> Hx Hre. apply call_loop_spec in Hr as (_ & _ & _ & y & Hy & _ & Hd); [|done|by rewrite Z.mod_0_l by (unfold total; lia)].
      rewrite Hx in Hy. injection Hy as <-. by apply Hd.
Qed.
Lemma call_terminates_witness :
  ∃ r leader' n end_, _call demo_call ["c1"; "c2"; "c3"] (rounds_for DEFAULT_FAILOVER_BUDGET_S) 1 DEFAULT_FAILOVER_BUDGET_S 0 =
    Some (r, leader', n, end_) ∧ end_ ≤ 15003009.
Proof.
  destruct (call_terminates demo_call ["c1"; "c2"; "c3"] 1 DEFAULT_FAILOVER_BUDGET_S 0 1000 2 7 demo_call_sane
    ltac:(vm_compute; discriminate) ltac:(vm_compute; reflexivity)) as (r & l & n & end_ & Hr & Ht & _).
  exists r, l, n, end_. split; [exact Hr|exact (proj2 Ht)].
Defined.
