(* ===== verification/ClientData.v ===== *)
(** The data path of [DistributedDFShaClient] (dfsha/client/distributed_client.py):
    the blocks of a file, the region writer of a parallel download, the read of a
    block with failover between its replicas, the read of a range, the content of
    the blocks of a write, and the stream of an upload.

    What the client writes to is the interface [Sink]: a local file or buffer
    ([PyFile]), or the region of one block in it ([_RegionWriter]).  What a replica
    answers to a read is a parameter, [serve].  The [stop] event that cuts the
    transfers of a download one of whose blocks already failed is not modelled. *)

From S2P Require Import Prelude Exceptions Crypto Bytes DataNode RpcClient.

Open Scope Z_scope.

(** * Local files *)

(** Writing [d] at position [p] of [l]: overwrites, extends, fills a gap with zeros. *)
Definition splice (l : list Z) (p : Z) (d : list Z) : list Z :=
  take (Z.to_nat p) (l ++ replicate (Z.to_nat p - length l) 0) ++ d ++ drop (Z.to_nat (p + zlen d)) l.

(** A file or [io.BytesIO] opened for writing. *)
Record PyFile := mkPyFile { f_bytes : list Z; f_pos : Z }.

Class Sink (S : Type) := {
  tell : S → Z;
  seek : Z → S → S;
  truncate : S → S;
  write : list Z → S → S * result exn unit
}.

#[global] Instance file_sink : Sink PyFile := {|
  tell := f_pos;
  seek p f := mkPyFile (f_bytes f) p;
  truncate f := mkPyFile (take (Z.to_nat (f_pos f)) (f_bytes f)) (f_pos f);
  write d f := (mkPyFile (splice (f_bytes f) (f_pos f) d) (f_pos f + zlen d), Ok tt)
|}.

(** [_RegionWriter]: the region of [r_size] bytes from [r_start]. *)
Record _RegionWriter := mkRegion { r_file : PyFile; r_start : Z; r_size : Z }.
Definition region_of (f : PyFile) (size : Z) : _RegionWriter := mkRegion f (f_pos f) size.

#[global] Instance region_sink : Sink _RegionWriter := {|
  tell r := f_pos (r_file r) - r_start r;
  seek p r := mkRegion (mkPyFile (f_bytes (r_file r)) (r_start r + p)) (r_start r) (r_size r);
  truncate r := r;
  write d r :=
    if r_size r <? f_pos (r_file r) - r_start r + zlen d then (r, Err BlockCorruptedError)
    else (mkRegion (mkPyFile (splice (f_bytes (r_file r)) (f_pos (r_file r)) d) (f_pos (r_file r) + zlen d))
            (r_start r) (r_size r), Ok tt)
|}.

(** * Reading *)

(** What a read raises: a [grpc.RpcError], translated by its caller, or a domain
    error of its own. *)
Inductive client_error := ByRpc (e : RpcError) | ByExn (e : exn).

(** A block as [ListBlocks] or [BeginWrite] describe it. *)
Record CBlock := mkCBlock {
  cb_id : string;
  cb_addresses : list string;
  cb_size : Z;
  cb_capability : string
}.

Fixpoint _block_starts_from (position : Z) (blocks : list CBlock) : list Z :=
  match blocks with
  | [] => []
  | b :: rest => position :: _block_starts_from (position + cb_size b) rest
  end.
Definition _block_starts (blocks : list CBlock) : list Z := _block_starts_from 0 blocks.

(** [_block_transfer_timeout] in microseconds, for a throughput in bytes per second. *)
Definition _block_transfer_timeout (base throughput size_bytes : Z) : Z := base + size_bytes * 1000000 / throughput.

Section read.
Context (serve : string → CBlock → Z → Z → list (list Z) * result RpcError unit).
Context {S : Type} `{!Sink S}.

(** [for chunk in call: fh.write(chunk.data)]. *)
Fixpoint copy_chunks (chunks : list (list Z)) (s : S) : S * result exn unit :=
  match chunks with
  | [] => (s, Ok tt)
  | c :: rest =>
      match write c s with
      | (s', Ok _) => copy_chunks rest s'
      | (s', Err e) => (s', Err e)
      end
  end.

Fixpoint failover (block : CBlock) (offset length start : Z) (addresses : list string)
    (last_error : option RpcError) (s : S) : S * result client_error Z :=
  match addresses with
  | [] => (s, Err (match last_error with None => ByExn PathNotFoundError | Some e => ByRpc e end))
  | address :: rest =>
      let call := serve address block offset length in
      match copy_chunks call.1 s with
      | (s', Err e) => (s', Err (ByExn e))
      | (s', Ok _) =>
          match call.2 with
          | Ok _ => (s', Ok (tell s' - start))
          | Err e =>
              let s'' := truncate (seek start s') in
              if _is_recoverable_read_error e then failover block offset length start rest (Some e) s''
              else (s'', Err (ByRpc e))
          end
      end
  end.

Definition _read_block_with_failover (block : CBlock) (offset length : Z) (s : S) : S * result client_error Z :=
  failover block offset length (tell s) (cb_addresses block) None s.

(** The loop of [_read_range] over the blocks. *)
Fixpoint read_blocks (offset end_ block_start : Z) (blocks : list CBlock) (written : Z) (s : S)
    : S * result client_error Z :=
  match blocks with
  | [] => (s, Ok written)
  | block :: rest =>
      let block_end := block_start + cb_size block in
      if (block_start <? end_) && (offset <? block_end) then
        let start_in_block := Z.max offset block_start - block_start in
        let count := Z.min end_ block_end - block_start - start_in_block in
        match _read_block_with_failover block start_in_block count s with
        | (s', Ok n) => read_blocks offset end_ block_end rest (written + n) s'
        | (s', Err e) => (s', Err e)
        end
      else read_blocks offset end_ block_end rest written s
  end.

(** [_read_range] under its lock, of the blocks [ListBlocks] gave. *)
Definition _read_range (blocks : list CBlock) (offset : Z) (length : option Z) (s : S) : S * result client_error Z :=
  if (offset <? 0) || (match length with Some n => n <? 0 | None => false end) then (s, Err (ByExn InvalidPathError))
  else
    let size := sumZ (cb_size <$> blocks) in
    if size <? offset then (s, Err (ByExn InvalidPathError))
    else
      let end_ := match length with None => size | Some n => Z.min size (offset + n) end in
      read_blocks offset end_ 0 blocks 0 s.
End read.

(** * The blocks of a write *)

(** A slot as [BeginWrite] describes it; the old block is empty when there is none. *)
Record Slot := mkSlotRow {
  sl_index : Z;
  sl_old : CBlock;
  sl_new : CBlock
}.

(** [content[a:b] = d] of a [bytearray], for [a <= b] within it and [len(d) = b - a]. *)
Definition assign (content : list Z) (a b : Z) (d : list Z) : list Z :=
  take (Z.to_nat a) content ++ d ++ drop (Z.to_nat b) content.

(** [_slot_content] once the old block was read. *)
Definition mix_slot (index new_size block_size offset : Z) (data : list Z) (old : option (list Z)) : list Z :=
  let block_start := index * block_size in
  let block_end := block_start + new_size in
  let write_start := Z.max offset block_start in
  let write_end := Z.min (offset + zlen data) block_end in
  if (write_start =? block_start) && (write_end =? block_end) then slice (write_start - offset) (write_end - offset) data
  else
    let content := replicate (Z.to_nat new_size) 0 in
    let content :=
      match old with
      | Some bytes =>
          let old_bytes := slice 0 new_size bytes in
          assign content 0 (zlen old_bytes) old_bytes
      | None => content
      end in
    assign content (write_start - block_start) (write_end - block_start) (slice (write_start - offset) (write_end - offset) data).

Definition covers_slot (index new_size block_size offset len : Z) : bool :=
  (Z.max offset (index * block_size) =? index * block_size) &&
  (Z.min (offset + len) (index * block_size + new_size) =? index * block_size + new_size).

Section write.
Context (serve : string → CBlock → Z → Z → list (list Z) * result RpcError unit).

Definition _slot_content (slot : Slot) (block_size offset : Z) (data : list Z) : result client_error (list Z) :=
  let size := cb_size (sl_new slot) in
  if covers_slot (sl_index slot) size block_size offset (zlen data) then
    Ok (mix_slot (sl_index slot) size block_size offset data None)
  else if bool_decide (cb_id (sl_old slot) = "") then
    Ok (mix_slot (sl_index slot) size block_size offset data None)
  else
    match _read_block_with_failover serve (sl_old slot) 0 0 (mkPyFile [] 0) with
    | (f, Ok _) => Ok (mix_slot (sl_index slot) size block_size offset data (Some (f_bytes f)))
    | (_, Err e) => Err e
    end.
End write.

(** * The stream of a block *)

(** The chunks [_write_block] reads of [rest], the file from its position: [remaining]
    bytes, one megabyte at a time, until the file ends. *)
Fixpoint block_chunks (fuel : nat) (remaining : Z) (rest : list Z) : list (list Z) :=
  match fuel with
  | O => []
  | S fuel' =>
      if 0 <? remaining then
        let data := slice 0 (Z.min CHUNK_SIZE_BYTES remaining) rest in
        if bool_decide (data = []) then []
        else data :: block_chunks fuel' (remaining - zlen data) (drop (length data) rest)
      else []
  end.

(** The messages of [_write_block]: each chunk takes at least one byte. *)
Definition write_messages (block : CBlock) (file : list Z) (position : Z) : list Msg :=
  MHeader (cb_id block) (tail (cb_addresses block)) ::
  (MData <$> block_chunks (Z.to_nat (cb_size block)) (cb_size block) (drop (Z.to_nat position) file)).
