(* ===== verification/ClientRead.v ===== *)
(** Reading through the client: a read of a block with failover gives the content of
    a replica that answered, and the read of a range the bytes of the range.  Reads from a network of DataNodes come last. *)

From Stdlib Require Import QArith.
From S2P Require Import Prelude Exceptions Crypto Bytes DataNode RpcClient ClientData Container Dict.
From S2P Require Import BlockToken BlockStore BlockStoreProps DataNodeFacts.

Open Scope Z_scope.

(** * Positions of a file *)

Lemma splice_end l d : splice l (zlen l) d = l ++ d.
Proof.
  unfold splice, zlen. rewrite !Nat2Z.id, Nat.sub_diag. cbn [replicate]. rewrite app_nil_r, take_ge by lia.
  rewrite drop_ge by lia. by rewrite app_nil_r.
Qed.

Lemma slice_split {A} a b (l1 l2 : list A) :
  0 ≤ a → slice a b (l1 ++ l2) = slice a (Z.min b (zlen l1)) l1 ++ slice (Z.max 0 (a - zlen l1)) (b - zlen l1) l2.
Proof.
  intros Ha. pose proof (zlen_nonneg l1). destruct (Z.le_gt_cases b (zlen l1)) as [Hb|Hb].
  - rewrite Z.min_l by lia. rewrite slice_app_l by lia. rewrite (slice_nil _ (b - zlen l1)) by lia. by rewrite app_nil_r.
  - rewrite Z.min_r by lia. destruct (Z.le_gt_cases (zlen l1) a).
    + rewrite (slice_nil a (zlen l1)) by lia. rewrite slice_app_r by lia. by rewrite Z.max_r by lia.
    + rewrite <-(slice_app a (zlen l1) b) by lia. rewrite slice_app_l by lia. rewrite slice_app_r by lia.
      by rewrite Z.sub_diag, Z.max_l by lia.
Qed.

Section reads.
Context (serve : string → CBlock → Z → Z → list (list Z) * result RpcError unit) (content : CBlock → list Z).

(** What a read of [length] bytes at [offset] of a block asks a replica for. *)
Definition asked (block : CBlock) (offset length : Z) : list Z :=
  slice offset (range_end (zlen (content block)) offset (if length =? 0 then None else Some length)) (content block).

(** A replica that ends its answer normally sent the bytes that were asked for. *)
Definition faithful : Prop :=
  ∀ address block offset length chunks,
    serve address block offset length = (chunks, Ok tt) → concat chunks = asked block offset length.

(** Some replica answers, and those that do not fail recoverably. *)
Definition available (block : CBlock) : Prop :=
  ∀ offset length,
    Exists (λ a, (serve a block offset length).2 = Ok tt) (cb_addresses block) ∧
    Forall (λ a, match (serve a block offset length).2 with Ok _ => True | Err e => _is_recoverable_read_error e = true end)
      (cb_addresses block).

(** A file being appended to. *)
Definition at_end (f : PyFile) : Prop := f_pos f = zlen (f_bytes f).
Definition append (f : PyFile) (d : list Z) : PyFile := mkPyFile (f_bytes f ++ d) (f_pos f + zlen d).

Lemma append_nil f : append f [] = f.
Proof. destruct f as [b p]. unfold append. cbn. by rewrite app_nil_r, Z.add_0_r. Qed.
Lemma append_append f d e : append (append f d) e = append f (d ++ e).
Proof. unfold append. cbn. by rewrite <-app_assoc, zlen_app, Z.add_assoc. Qed.
Lemma append_at_end f d : at_end f → at_end (append f d).
Proof. unfold at_end, append. cbn. intros ->. by rewrite zlen_app. Qed.

Lemma copy_chunks_file f chunks : at_end f → copy_chunks chunks f = (append f (concat chunks), Ok tt).
Proof.
  revert f. induction chunks as [|c chunks IH]; intros f Hf; cbn [copy_chunks concat]; [by rewrite append_nil|].
  cbn [write file_sink]. rewrite Hf, splice_end, <-Hf. fold (append f c). rewrite IH by by apply append_at_end.
  by rewrite append_append.
Qed.

(** What a replica that failed wrote is discarded. *)
Lemma discard_file f d : at_end f → truncate (seek (tell f) (append f d)) = f.
Proof.
  intros Hf. destruct f as [b p]. unfold at_end in Hf. cbn in *. subst p. f_equal. apply take_app_length'. unfold zlen. lia.
Qed.

Lemma failover_file block offset length addresses last f s r :
  faithful → at_end f → failover serve block offset length (tell f) addresses last f = (s, r) →
  match r with
  | Ok n => s = append f (asked block offset length) ∧ n = zlen (asked block offset length)
  | Err _ => s = f
  end.
Proof.
  intros Hfa Hf. revert last. induction addresses as [|a rest IH]; intros last; cbn [failover].
  { by intros [= <- <-]. }
  destruct (serve a block offset length) as [chunks fin] eqn:Hs. cbn [fst snd]. rewrite copy_chunks_file by done.
  destruct fin as [[]|e].
  - intros [= <- <-]. rewrite (Hfa _ _ _ _ _ Hs). split; [done|]. cbn. lia.
  - rewrite discard_file by done. destruct (_is_recoverable_read_error e); [apply IH|]. by intros [= <- <-].
Qed.

Lemma failover_available block offset length f :
  available block → at_end f → ∃ n, (_read_block_with_failover serve block offset length f).2 = Ok n.
Proof.
  intros Ha Hf. destruct (Ha offset length) as [He Hr]. unfold _read_block_with_failover. clear Ha. generalize (@None RpcError) as last.
  induction Hr as [|a rest Hfa Hr IH]; intros last; [by apply Exists_nil in He|]. cbn [failover].
  rewrite copy_chunks_file by done. destruct (serve a block offset length).2 as [[]|e] eqn:Hs; [eauto|].
  rewrite discard_file by done. rewrite Hfa. apply IH.
  apply Exists_cons in He as [He|He]; [by rewrite Hs in He|done].
Qed.

(** * Ranges *)

Definition sizes_match (blocks : list CBlock) : Prop := Forall (λ b, zlen (content b) = cb_size b) blocks.

Lemma asked_range block start count :
  0 ≤ start → 0 < count ∨ zlen (content block) = 0 → asked block start count = slice start (Z.min (start + count) (zlen (content block))) (content block).
Proof.
  intros Hs [Hc|Hc].
  - unfold asked. rewrite (proj2 (Z.eqb_neq count 0)) by lia. unfold range_end. f_equal. lia.
  - assert (content block = []) as E by (destruct (content block); [done|unfold zlen in Hc; simpl in Hc; lia]).
    unfold asked. rewrite E. unfold slice. by rewrite !drop_nil, !take_nil.
Qed.

Lemma read_blocks_exact offset end_ block_start blocks written f s n :
  faithful → sizes_match blocks → at_end f → 0 ≤ offset < end_ → 0 ≤ block_start →
  read_blocks serve offset end_ block_start blocks written f = (s, Ok n) →
  let got := slice (Z.max 0 (offset - block_start)) (end_ - block_start) (concat (content <$> blocks)) in
  s = append f got ∧ n = written + zlen got.
Proof.
  intros Hfa Hsz. revert block_start written f. induction Hsz as [|b rest Hb Hsz IH]; intros start written f Hf Ho Hst; cbn [read_blocks].
  { intros [= <- <-]. csimpl. unfold slice. rewrite drop_nil, take_nil, append_nil. unfold zlen. simpl. split; [done|lia]. }
  csimpl. rewrite slice_split by lia. rewrite Hb.
  pose proof (zlen_nonneg (content b)) as Hnn.
  replace (Z.max 0 (Z.max 0 (offset - start) - cb_size b)) with (Z.max 0 (offset - (start + cb_size b))) by lia.
  replace (end_ - start - cb_size b) with (end_ - (start + cb_size b)) by lia.
  destruct ((start <? end_) && (offset <? start + cb_size b)) eqn:Hin.
  - apply andb_true_iff in Hin as [H1%Z.ltb_lt H2%Z.ltb_lt].
    destruct (_read_block_with_failover serve b _ _ f) as [s1 [m|e]] eqn:Hrd; [|discriminate].
    apply failover_file in Hrd as [-> ->]; [|done..]. intros Hrest. apply IH in Hrest as [-> ->]; [|by apply append_at_end|done|lia].
    rewrite asked_range, Hb by lia.
    replace (Z.max offset start - start) with (Z.max 0 (offset - start)) by lia.
    replace (Z.max 0 (offset - start) + (Z.min end_ (start + cb_size b) - start - Z.max 0 (offset - start)))
      with (Z.min (end_ - start) (cb_size b)) by lia.
    rewrite (Z.min_l (Z.min (end_ - start) (cb_size b))) by lia. rewrite append_append, zlen_app. split; [done|lia].
  - intros Hrest. apply IH in Hrest; [|done|done|lia].
    rewrite (slice_nil _ (Z.min (end_ - start) (cb_size b))); [done|].
    apply andb_false_iff in Hin as [H1%Z.ltb_ge|H1%Z.ltb_ge]; lia.
Qed.

Lemma read_blocks_available offset end_ block_start blocks written f :
  faithful → sizes_match blocks → Forall available blocks → at_end f →
  ∃ n, (read_blocks serve offset end_ block_start blocks written f).2 = Ok n.
Proof.
  intros Hfa Hsz Hav. revert block_start written f. induction Hav as [|b rest Hb Hav IH]; intros start written f Hf; cbn [read_blocks]; [eauto|].
  apply Forall_cons in Hsz as [_ Hsz]. destruct (_ && _); [|by apply IH].
  destruct (failover_available b (Z.max offset start - start) (Z.min end_ (start + cb_size b) - start - (Z.max offset start - start)) f Hb Hf) as [m Hm].
  destruct (_read_block_with_failover serve b _ _ f) as [s1 r] eqn:Hr. cbn in Hm. subst r.
  apply failover_file in Hr as [-> _]; [|done..]. apply IH; [done|by apply append_at_end].
Qed.

Lemma sum_sizes blocks : sizes_match blocks → sumZ (cb_size <$> blocks) = zlen (concat (content <$> blocks)).
Proof.
  induction 1 as [|b rest Hb Hsz IH]; [done|]. csimpl. rewrite zlen_app, <-IH. simpl. lia.
Qed.

Lemma sumZ_cons x l : sumZ (x :: l) = x + sumZ l.
Proof. done. Qed.

(** Blocks before the range are skipped, and so are blocks after it. *)
Lemma read_blocks_before offset end_ start pre post written (f : PyFile) :
  sizes_match pre → start + sumZ (cb_size <$> pre) ≤ offset →
  read_blocks serve offset end_ start (pre ++ post) written f =
  read_blocks serve offset end_ (start + sumZ (cb_size <$> pre)) post written f.
Proof.
  intros Hsz. revert start. induction Hsz as [|b rest Hb Hsz IH]; intros start Hle; [by rewrite fmap_nil, Z.add_0_r|].
  rewrite fmap_cons, sumZ_cons in Hle |- *. cbn [app read_blocks]. rewrite (proj2 (Z.ltb_ge offset (start + cb_size b))), andb_false_r.
  - rewrite IH by lia. by rewrite Z.add_assoc.
  - pose proof (sum_sizes rest Hsz). pose proof (zlen_nonneg (concat (content <$> rest))). lia.
Qed.
Lemma read_blocks_beyond offset end_ start blocks written (f : PyFile) :
  sizes_match blocks → start + sumZ (cb_size <$> blocks) ≤ offset →
  read_blocks serve offset end_ start blocks written f = (f, Ok written).
Proof. intros Hsz Hle. rewrite <-(app_nil_r blocks). by rewrite read_blocks_before. Qed.
Lemma read_blocks_after offset end_ start blocks written (f : PyFile) :
  sizes_match blocks → end_ ≤ start → read_blocks serve offset end_ start blocks written f = (f, Ok written).
Proof.
  intros Hsz. revert start. induction Hsz as [|b rest Hb Hsz IH]; intros start Hle; cbn [read_blocks]; [done|].
  rewrite (proj2 (Z.ltb_ge start end_)) by lia. cbn [andb]. apply IH. pose proof (zlen_nonneg (content b)). lia.
Qed.
End reads.

(** A range read that succeeds gives the range, whatever replicas failed midway. *)
Lemma range_read_bytes serve content blocks offset length n :
  faithful serve content → sizes_match content blocks → length ≠ Some 0 →
  let file := concat (content <$> blocks) in
  let out := _read_range serve blocks offset length (mkPyFile [] 0) in
  out.2 = Ok n → f_bytes out.1 = slice offset (range_end (zlen file) offset length) file ∧ n = zlen (f_bytes out.1).
Proof.
  intros Hf Hs Hl file out. unfold out, _read_range. rewrite (sum_sizes content) by done. fold file.
  assert (at_end (mkPyFile [] 0)) as Hend by done.
  destruct (_ || _) eqn:Hr; [discriminate|]. apply orb_false_iff in Hr as [H0%Z.ltb_ge Hl0].
  destruct (Z.ltb_spec (zlen file) offset); [discriminate|]. fold (range_end (zlen file) offset length).
  destruct (read_blocks _ _ _ _ _ _ _) as [s r] eqn:Hrd. cbn [fst snd]. intros ->.
  destruct (Z.eq_dec offset (range_end (zlen file) offset length)) as [He|He].
  - rewrite <-He in Hrd. rewrite <-He, (slice_nil offset offset) by lia.
    assert (offset = zlen file) as -> by (unfold range_end in He; destruct length as [k|]; [|lia]; apply Z.ltb_ge in Hl0; assert (k ≠ 0) by congruence; lia).
    rewrite (read_blocks_beyond serve content) in Hrd; [|done|rewrite (sum_sizes content) by done; fold file; lia].
    injection Hrd as <- <-. done.
  - apply (read_blocks_exact serve content) in Hrd as [-> ->]; [|done..|unfold range_end in *; destruct length; [apply Z.ltb_ge in Hl0|]; lia|lia].
    rewrite !Z.sub_0_r, Z.max_r by lia. cbn. done.
Qed.

(** The DataNodes of a network as the replicas of a client: what they answer is
    faithful to a store of block contents when every copy they hold is one of it. *)

(** The replicas of a client: the nodes of the network at their addresses. *)
Definition served_by `{!Aead} (csize : Z) (env : DEnv) (net : Net) (address : string) (block : CBlock) (offset length : Z)
    : list (list Z) * result RpcError unit :=
  match net !! address with
  | None => ([], Err (aborted UNAVAILABLE))
  | Some node => ReadBlock csize env node (capability_kwargs (cb_capability block) "") (cb_id block) offset length
  end.

(** Every copy of a block the nodes hold is a container of its content in [store]. *)
Definition consistent `{!Aead} (csize : Z) (net : Net) (store : gmap string (list Z)) : Prop :=
  ∀ address node bid file, net !! address = Some node → dn_files node !! bid = Some file →
    zlen (dn_key node) = 32 ∧ ∃ data, store !! bid = Some data ∧ holds_block csize (dn_key node) bid file (data, file.2).

Definition stored (store : gmap string (list Z)) (b : CBlock) : list Z := default [] (store !! cb_id b).

Lemma cluster_faithful `{!Aead, !AeadLaws} csize env net store :
  0 < csize → csize ≤ 2 ^ 32 → consistent csize net store → faithful (served_by csize env net) (stored store).
Proof.
  intros Hc Hf Hcon a b off len chunks. unfold served_by. destruct (net !! a) as [node|] eqn:Hn; [|discriminate].
  unfold ReadBlock. destruct (_require_block _ _ _ _ _ _); [|discriminate].
  destruct (_ || _) eqn:Hr; [discriminate|]. apply orb_false_iff in Hr as [Ho%Z.ltb_ge Hl%Z.ltb_ge].
  destruct (dn_files node !! cb_id b) as [[c m]|] eqn:Hfile.
  - destruct (Hcon _ _ _ _ Hn Hfile) as (Hk & data & Hs & _ & Hb & Hmax & prefix & Hp & Hcont). cbn in Hmax, Hcont. subst c.
    destruct (read_block_container csize (dn_key node) Hc Hf Hk (dn_files node) (cb_id b) prefix data (sha256 data) m
      CHUNK_SIZE_BYTES off (if len =? 0 then None else Some len)) as (-> & Hdata & _);
      try done; [apply sha256_zlen|by destruct (len =? 0)|]. intros [= <-]. unfold asked, stored. rewrite Hs. exact Hdata.
  - unfold read_block. rewrite (proj2 (Z.ltb_ge off 0)) by lia. cbn [orb].
    assert (match (if len =? 0 then None else Some len) with Some n => n <? 0 | None => false end = false) as ->
      by (destruct (len =? 0); [done|by apply Z.ltb_ge]).
    rewrite Hfile. unfold validate_block_id. by destruct (is_block_id (cb_id b)).
Qed.
