(* ===== verification/ClientWrite.v ===== *)
(** Writing through the client: the new blocks of a copy-on-write are the blocks of
    the file with the bytes of the write in place. *)

From S2P Require Import Prelude Exceptions Dict Crypto Bytes Container DataNode RpcClient ClientData ClientRead.
From S2P Require Import TreeData Layout.

Open Scope Z_scope.

(** The blocks of a file of content [l], of [bs] bytes but the last. *)
Definition block_of (bs : Z) (l : list Z) (i : Z) : list Z := slice (i * bs) (i * bs + bs) l.
Definition blocks_of (bs : Z) (l : list Z) : list (list Z) := block_of bs l <$> zrange 0 (block_count bs (zlen l)).

Lemma blocks_of_concat bs l : 0 < bs → concat (blocks_of bs l) = l.
Proof.
  intros Hbs. transitivity (concat (pieces 0 (zlen l) bs l)); [|by rewrite pieces_concat, slice_all by lia].
  unfold blocks_of, pieces, range_step, block_count. rewrite <-list_fmap_compose, Z.sub_0_r. f_equal.
  apply list_fmap_ext. intros k i Hi%list_elem_of_lookup_2%elem_of_zrange. unfold compose, block_of. rewrite Z.add_0_l.
  destruct (Z.le_gt_cases (i * bs + bs) (zlen l)); [by rewrite Z.min_l by lia|].
  rewrite Z.min_r by lia. rewrite !slice_beyond by nia. done.
Qed.

(** * One block *)

Section slot.
Context (bs off : Z) (data l : list Z).
Hypothesis bs_pos : 0 < bs.
Hypothesis off_in : 0 ≤ off ≤ zlen l.
Hypothesis data_some : 0 < zlen data.

Local Notation len := (zlen data).
Local Notation new := (Z.max (zlen l) (off + len)).

Lemma splice_parts : splice l off data = slice 0 off l ++ data ++ slice (off + len) (zlen l) l.
Proof.
  unfold splice. pose proof (zlen_nonneg l). rewrite (slice_beyond (off + len)) by lia.
  unfold zlen in *. replace (Z.to_nat off - length l)%nat with 0%nat by lia. cbn [replicate]. rewrite app_nil_r.
  unfold slice. by rewrite drop_0, Z.sub_0_r.
Qed.

Lemma splice_zlen : zlen (splice l off data) = new.
Proof.
  rewrite splice_parts, !zlen_app, slice_length by lia. destruct (Z.le_gt_cases (off + len) (zlen l)).
  - rewrite slice_length by lia. lia.
  - rewrite slice_nil by lia. unfold zlen at 2. simpl. lia.
Qed.

(** The part of a range of the new content that comes from each source. *)
Lemma splice_slice s e :
  0 ≤ s ≤ e → s < off + len → off < e →
  slice s e (splice l off data) =
    slice s off l ++ slice (Z.max off s - off) (Z.min (off + len) e - off) data ++ slice (off + len) (Z.min e (zlen l)) l.
Proof.
  intros Hs Hlt Hoe. rewrite splice_parts, !slice_split by lia. rewrite slice_length by lia. rewrite Z.sub_0_r.
  rewrite (Z.min_r e off) by lia. f_equal; [|f_equal].
  - rewrite (slice_slice s off 0 off) by lia. rewrite !Z.add_0_l. done.
  - f_equal; lia.
  - rewrite (Z.max_l 0) by lia. destruct (Z.le_gt_cases (zlen l) (off + len)).
    + rewrite (slice_nil (off + len) (zlen l)), (slice_nil _ (Z.min e (zlen l))) by lia. unfold slice. by rewrite drop_nil, take_nil.
    + destruct (Z.le_gt_cases (zlen l) e).
      * rewrite Z.min_r by lia. rewrite slice_beyond; [done|lia|]. rewrite slice_length by lia. lia.
      * rewrite Z.min_l by lia. rewrite slice_slice by lia. f_equal; lia.
Qed.

(** The [bytearray] the block is built in: the old bytes, then zeros. *)
Lemma padded_content n old :
  0 ≤ n → assign (replicate (Z.to_nat n) 0) 0 (zlen (slice 0 n old)) (slice 0 n old)
          = slice 0 n old ++ replicate (Z.to_nat n - length (slice 0 n old)) 0.
Proof. intros Hn. unfold assign. cbn [take app]. unfold zlen. by rewrite Nat2Z.id, drop_replicate. Qed.

Context (i : Z).
Hypothesis i_planned : off / bs ≤ i < (off + len - 1) / bs + 1.

Local Notation s := (i * bs).
Local Notation n := (Z.min bs (new - i * bs)).

Lemma planned_bounds : 0 ≤ s ∧ off < s + bs ∧ s < off + len ∧ 0 < n ∧ off < s + n.
Proof.
  pose proof (Z.div_mod off bs ltac:(lia)). pose proof (Z.mod_pos_bound off bs bs_pos).
  pose proof (Z.div_mod (off + len - 1) bs ltac:(lia)). pose proof (Z.mod_pos_bound (off + len - 1) bs bs_pos).
  pose proof (Z.div_pos off bs ltac:(lia) bs_pos). nia.
Qed.

(** What the old block gives before and after the written bytes. *)
Lemma kept_before rest : s < off → take (Z.to_nat (off - s)) (slice 0 n (block_of bs l i) ++ rest) = slice s off l.
Proof.
  intros Hs. pose proof planned_bounds as (H0 & H1 & H2 & H3 & H4). unfold block_of. rewrite slice_slice by lia.
  rewrite take_app_le.
  - rewrite <-(Z.sub_0_r (off - s)). change (take (Z.to_nat (off - s - 0)) ?x) with (slice 0 (off - s) x).
    transitivity (slice 0 (off - s) (slice (s + 0) (s + n) l)); [unfold slice; by rewrite drop_0|].
    rewrite slice_slice by lia. f_equal; lia.
  - unfold slice. rewrite length_take, length_drop. unfold zlen in *. lia.
Qed.

Lemma kept_after :
  off + len < s + n →
  drop (Z.to_nat (off + len - s)) (slice 0 n (block_of bs l i)) = slice (off + len) (Z.min (s + n) (zlen l)) l
  ∧ length (slice 0 n (block_of bs l i)) = Z.to_nat n.
Proof.
  intros Hlt. pose proof planned_bounds as (H0 & H1 & H2 & H3 & H4). unfold block_of. rewrite slice_slice by lia.
  split.
  - rewrite (Z.min_l (s + n) (zlen l)) by lia. unfold slice. rewrite skipn_firstn_comm, drop_drop. f_equal; [lia|]. f_equal. lia.
  - unfold slice. rewrite length_take, length_drop. unfold zlen in *. lia.
Qed.

(** The content the client builds for a planned block is the block of the new file,
    given the old block when the write does not cover it. *)
Lemma mix_slot_spec old :
  (old = None → zlen l ≤ s ∨ covers_slot i n bs off len = true) → (∀ o, old = Some o → o = block_of bs l i) →
  mix_slot i n bs off data old = slice s (s + n) (splice l off data).
Proof.
  intros Hnone Hsome. pose proof planned_bounds as (H0 & H1 & H2 & H3 & H4).
  rewrite splice_slice by lia. unfold mix_slot. fold (covers_slot i n bs off len).
  destruct (covers_slot i n bs off len) eqn:Hcov.
  - apply andb_true_iff in Hcov as [E1%Z.eqb_eq E2%Z.eqb_eq]. rewrite (slice_nil s off) by lia.
    rewrite (slice_nil (off + len)) by lia. by rewrite app_nil_r.
  - unfold covers_slot in Hcov. set (ws := Z.max off s) in *. set (we := Z.min (off + len) (s + n)) in *.
    set (mid := slice (ws - off) (we - off) data).
    assert (∃ rest, match old with
      | Some bytes => assign (replicate (Z.to_nat n) 0) 0 (zlen (slice 0 n bytes)) (slice 0 n bytes)
      | None => replicate (Z.to_nat n) 0 end = slice 0 n (block_of bs l i) ++ replicate (Z.to_nat n - rest) 0 ∧
        rest = length (slice 0 n (block_of bs l i))) as (rest & -> & Hrest).
    { eexists. split; [|done]. destruct old as [o|].
      - rewrite (Hsome o eq_refl), padded_content by lia. done.
      - destruct (Hnone eq_refl) as [Hle|]; [|congruence].
        assert (block_of bs l i = []) as -> by (unfold block_of, slice; rewrite drop_ge; [by rewrite take_nil|unfold zlen in *; lia]).
        unfold slice. rewrite drop_nil, take_nil. simpl. by rewrite Nat.sub_0_r. }
    unfold assign. f_equal; [|f_equal].
    + destruct (Z.le_gt_cases off s) as [Hle|Hgt].
      * rewrite (slice_nil s off) by lia. replace (ws - s) with 0 by lia. done.
      * replace (ws - s) with (off - s) by lia. by apply kept_before.
    + destruct (Z.le_gt_cases (s + n) (off + len)) as [Hle|Hgt].
      * rewrite (slice_nil (off + len)) by lia. apply drop_ge. rewrite length_app, length_replicate, Hrest.
        unfold slice. rewrite length_take. unfold we. lia.
      * destruct (kept_after Hgt) as [Hk Hn]. rewrite Hrest, Hn, Nat.sub_diag. cbn [replicate]. rewrite app_nil_r.
        replace (we - s) with (off + len - s) by lia. exact Hk.
Qed.
End slot.

(** * The whole file *)

Section file.
Context (bs off : Z) (data l : list Z).
Hypothesis bs_pos : 0 < bs.
Hypothesis off_in : 0 ≤ off ≤ zlen l.
Hypothesis data_some : 0 < zlen data.

Local Notation len := (zlen data).
Local Notation new := (Z.max (zlen l) (off + len)).
Local Notation first := (off / bs).
Local Notation last := ((off + len - 1) / bs).

Lemma planned_block i : 0 ≤ i → slice (i * bs) (i * bs + Z.min bs (new - i * bs)) (splice l off data) = block_of bs (splice l off data) i.
Proof.
  intros Hi. unfold block_of. destruct (Z.le_gt_cases bs (new - i * bs)); [by rewrite Z.min_l by lia|].
  rewrite Z.min_r by lia. rewrite !slice_beyond; [done|nia|rewrite splice_zlen by done; lia|nia|rewrite splice_zlen by done; lia].
Qed.

Lemma block_before i : 0 ≤ i < first → block_of bs (splice l off data) i = block_of bs l i.
Proof.
  intros Hi. pose proof (Z.div_mod off bs ltac:(lia)). pose proof (Z.mod_pos_bound off bs bs_pos).
  unfold block_of. rewrite splice_parts by done. rewrite slice_app_l; [|nia|rewrite slice_length by lia; nia].
  rewrite slice_slice by nia. f_equal; lia.
Qed.

Lemma block_after i : last < i → i < block_count bs (zlen l) → block_of bs (splice l off data) i = block_of bs l i.
Proof.
  intros Hi Hc. pose proof (Z.div_mod (off + len - 1) bs ltac:(lia)). pose proof (Z.mod_pos_bound (off + len - 1) bs bs_pos).
  assert (off + len ≤ i * bs) as Hle by nia. assert (i * bs < zlen l) as Hlt.
  { destruct (block_count_bounds bs (zlen l) bs_pos) as [?|[? Hz]]; [apply zlen_nonneg|nia|].
    rewrite Hz in Hc. pose proof (Z.div_pos (off + len - 1) bs ltac:(lia) bs_pos). lia. }
  unfold block_of. rewrite splice_parts by done. rewrite app_assoc, slice_app_r; rewrite zlen_app, slice_length by lia; [|lia].
  rewrite (slice_beyond (off + len)) by lia. unfold slice. rewrite drop_drop. f_equal; [lia|]. f_equal. lia.
Qed.

(** The blocks of the file after the write: the planned ones are new, the others
    are the old ones. *)
Lemma blocks_of_splice :
  take (Z.to_nat first) (blocks_of bs l) ++ (block_of bs (splice l off data) <$> zrange first (last + 1))
  ++ drop (Z.to_nat (last + 1)) (blocks_of bs l) = blocks_of bs (splice l off data).
Proof.
  pose proof (Z.div_mod off bs ltac:(lia)). pose proof (Z.mod_pos_bound off bs bs_pos).
  pose proof (Z.div_mod (off + len - 1) bs ltac:(lia)). pose proof (Z.mod_pos_bound (off + len - 1) bs bs_pos).
  assert (0 ≤ first) by (apply Z.div_pos; lia). assert (first ≤ last) by (apply Z.div_le_mono; lia).
  set (c := block_count bs (zlen l)).
  assert (first ≤ c) as Hfc.
  { unfold c. destruct (block_count_bounds bs (zlen l) bs_pos) as [?|[? ->]]; nia. }
  assert (block_count bs new = Z.max c (last + 1)) as Hnew.
  { apply block_count_unique; [done|]. unfold c.
    destruct (block_count_bounds bs (zlen l) bs_pos ltac:(lia)) as [?|[? ->]]; nia. }
  unfold blocks_of. rewrite splice_zlen by done. fold c. rewrite Hnew, <-fmap_take, <-fmap_drop.
  replace (Z.to_nat first) with (Z.to_nat (first - 0)) by (f_equal; lia).
  replace (Z.to_nat (last + 1)) with (Z.to_nat (last + 1 - 0)) by (f_equal; lia).
  rewrite take_zrange, drop_zrange by lia.
  rewrite (zrange_app 0 first (Z.max c (last + 1))) by lia.
  rewrite (zrange_app first (last + 1) (Z.max c (last + 1))) by lia.
  rewrite !fmap_app. f_equal; [|f_equal].
  - apply fmap_zrange_ext. intros i Hi. symmetry. by apply block_before.
  - destruct (Z.le_gt_cases c (last + 1)); [by rewrite !zrange_nil by lia|].
    rewrite Z.max_l by lia. apply fmap_zrange_ext. intros i Hi. symmetry. apply block_after; [lia|fold c; lia].
Qed.
End file.

(** * The slots *)

Section slots.
Context (serve : string → CBlock → Z → Z → list (list Z) * result RpcError unit) (content : CBlock → list Z).

(** A slot describes the block [index] of a file of content [l]: its old block is the
    block of the file when it has one, and empty otherwise. *)
Definition describes (bs : Z) (l : list Z) (index size : Z) (slot : Slot) : Prop :=
  sl_index slot = index ∧ cb_size (sl_new slot) = size ∧
  if index <? block_count bs (zlen l) then cb_id (sl_old slot) ≠ "" ∧ content (sl_old slot) = block_of bs l index
  else cb_id (sl_old slot) = "".

Lemma slot_content_spec bs off data l i slot c :
  faithful serve content → 0 < bs → 0 ≤ off ≤ zlen l → 0 < zlen data →
  off / bs ≤ i < (off + zlen data - 1) / bs + 1 →
  describes bs l i (Z.min bs (Z.max (zlen l) (off + zlen data) - i * bs)) slot →
  _slot_content serve slot bs off data = Ok c → c = block_of bs (splice l off data) i.
Proof.
  intros Hf Hbs Hoff Hd Hi (<- & Hsz & Hold). unfold _slot_content. rewrite Hsz.
  pose proof (planned_bounds bs off data l Hbs Hoff Hd (sl_index slot) Hi) as (H0 & _).
  rewrite <-(planned_block bs off data l) by (done || nia).
  destruct (covers_slot _ _ _ _ _) eqn:Hc.
  { intros [= <-]. apply mix_slot_spec; try done. by right. }
  destruct (Z.ltb_spec (sl_index slot) (block_count bs (zlen l))) as [Hlt|Hge].
  - destruct Hold as [Hid Hcont]. rewrite bool_decide_false by done.
    destruct (_read_block_with_failover _ _ _ _ _) as [f [m|e]] eqn:Hr; [|discriminate].
    apply (failover_file serve content) in Hr as [-> _]; [|done..]. intros [= <-].
    apply mix_slot_spec; try done. intros o [= <-]. cbn. unfold asked. cbn [Z.eqb range_end]. by rewrite slice_all.
  - rewrite bool_decide_true by done. intros [= <-]. apply mix_slot_spec; try done. left.
    destruct (block_count_bounds bs (zlen l) Hbs) as [?|[? ?]]; [lia|nia|nia].
Qed.
End slots.

Lemma sum_zlen (ls : list (list Z)) : sumZ (zlen <$> ls) = zlen (concat ls).
Proof. induction ls as [|l ls IH]; [done|]. rewrite fmap_cons, sumZ_cons. cbn [concat]. by rewrite zlen_app, IH. Qed.

Lemma slots_contents serve content bs off data l g slots cs idx :
  faithful serve content → 0 < bs → 0 ≤ off ≤ zlen l → 0 < zlen data →
  (∀ i, i ∈ idx → off / bs ≤ i < (off + zlen data - 1) / bs + 1) →
  g = (λ i, (i, Z.min bs (Z.max (zlen l) (off + zlen data) - i * bs))) →
  Forall2 (λ p slot, describes content bs l p.1 p.2 slot) (g <$> idx) slots →
  mapM (λ slot, _slot_content serve slot bs off data) slots = Ok cs →
  cs = block_of bs (splice l off data) <$> idx.
Proof.
  intros Hf Hbs Hoff Hd His ->. revert slots cs. induction idx as [|i idx IH]; intros slots cs.
  - intros ->%Forall2_nil_inv_l. by intros [= <-].
  - rewrite fmap_cons. intros (slot & rest & Hslot & Hrest & ->)%Forall2_cons_inv_l. cbn [mapM].
    destruct (_slot_content serve slot bs off data) as [c|e] eqn:Hc; cbn [mbind result_bind]; [|discriminate].
    destruct (mapM _ rest) as [cs'|e] eqn:Hcs; cbn [mbind result_bind]; [|discriminate]. intros [= <-].
    rewrite fmap_cons. f_equal.
    + apply (slot_content_spec serve content bs off data l i slot c); try done. apply His. set_solver.
    + apply (IH ltac:(intros j Hj; apply His; set_solver) rest); done.
Qed.
