(* ===== verification/ClientTransfer.v ===== *)
(** Whole files: a parallel download writes each block in its region and never
    outside, and the streams of an upload are the blocks of the file. *)

From S2P Require Import Prelude Exceptions Crypto Bytes Container DataNode DataNodeFacts RpcClient.
From S2P Require Import ClientData ClientRead.

Open Scope Z_scope.

#[export] Instance sumZ_proper : Proper ((≡ₚ) ==> (=)) sumZ.
Proof. intros l1 l2 Hp. induction Hp; simpl; lia. Qed.

Lemma sum_sizes_nonneg blocks : Forall (λ b, 0 ≤ cb_size b) blocks → 0 ≤ sumZ (cb_size <$> blocks).
Proof. induction 1 as [|b rest Hb Hs IH]; [done|]. rewrite fmap_cons, sumZ_cons. lia. Qed.

(** * Writes inside a file *)

Lemma splice_inside l p d :
  0 ≤ p → p + zlen d ≤ zlen l → splice l p d = slice 0 p l ++ d ++ slice (p + zlen d) (zlen l) l.
Proof.
  intros Hp Hd. unfold splice. pose proof (zlen_nonneg d). rewrite (slice_beyond (p + zlen d)) by lia.
  unfold zlen in *. replace (Z.to_nat p - length l)%nat with 0%nat by lia. cbn [replicate]. rewrite app_nil_r.
  unfold slice. by rewrite drop_0, Z.sub_0_r.
Qed.

Lemma splice_inside_zlen l p d : 0 ≤ p → p + zlen d ≤ zlen l → zlen (splice l p d) = zlen l.
Proof.
  intros Hp Hd. pose proof (zlen_nonneg d). rewrite splice_inside, !zlen_app, !slice_length by lia. lia.
Qed.

Lemma splice_before l p d a b : 0 ≤ a → b ≤ p → p + zlen d ≤ zlen l → slice a b (splice l p d) = slice a b l.
Proof.
  intros Ha Hb Hd. pose proof (zlen_nonneg d). destruct (Z.le_gt_cases b a); [by rewrite !slice_nil by lia|].
  rewrite splice_inside by lia. rewrite slice_app_l; [|lia|rewrite slice_length by lia; lia].
  rewrite slice_slice by lia. f_equal; lia.
Qed.

Lemma splice_after l p d a b : 0 ≤ p → p + zlen d ≤ a → p + zlen d ≤ zlen l → slice a b (splice l p d) = slice a b l.
Proof.
  intros Hp Ha Hd. pose proof (zlen_nonneg d). rewrite splice_inside, app_assoc by lia.
  assert (zlen (slice 0 p l ++ d) = p + zlen d) as Hz by (rewrite zlen_app, slice_length by lia; lia).
  rewrite slice_app_r, Hz by lia. rewrite (slice_beyond (p + zlen d)) by lia. unfold slice. rewrite drop_drop.
  f_equal; [lia|]. f_equal. lia.
Qed.

Lemma splice_at l p d : 0 ≤ p → p + zlen d ≤ zlen l → slice p (p + zlen d) (splice l p d) = d.
Proof.
  intros Hp Hd. pose proof (zlen_nonneg d). rewrite splice_inside by lia.
  rewrite slice_app_r; rewrite slice_length by lia; [|lia].
  replace (p - (p - 0)) with 0 by lia. apply slice_prefix. lia.
Qed.

Lemma slice_zlen_le {A} a b (l : list A) : 0 ≤ a → zlen (slice a b l) ≤ Z.max 0 (b - a).
Proof. intros. unfold slice, zlen. rewrite length_take. lia. Qed.

(** * Regions *)

(** The region writer stays in its region, of a file that holds it. *)
Definition in_region (orig : list Z) (r : _RegionWriter) : Prop :=
  let bytes := f_bytes (r_file r) in
  0 ≤ r_start r ≤ f_pos (r_file r) ∧ f_pos (r_file r) ≤ r_start r + r_size r ∧ r_start r + r_size r ≤ zlen orig ∧
  zlen bytes = zlen orig ∧
  (∀ a b, 0 ≤ a → b ≤ r_start r → slice a b bytes = slice a b orig) ∧
  (∀ a b, r_start r + r_size r ≤ a → slice a b bytes = slice a b orig).

Definition same_region (r r' : _RegionWriter) : Prop := r_start r' = r_start r ∧ r_size r' = r_size r.

Lemma write_region orig r d :
  in_region orig r →
  let out := write d r in
  in_region orig out.1 ∧ same_region r out.1 ∧
  (out.2 = Ok tt → f_pos (r_file out.1) = f_pos (r_file r) + zlen d ∧
     slice (r_start r) (f_pos (r_file out.1)) (f_bytes (r_file out.1))
     = slice (r_start r) (f_pos (r_file r)) (f_bytes (r_file r)) ++ d).
Proof.
  intros Hr. cbn [write region_sink]. pose proof (zlen_nonneg d) as Hd.
  destruct (Z.ltb_spec (r_size r) (f_pos (r_file r) - r_start r + zlen d)) as [Hlt|Hle]; [done|].
  destruct Hr as (H1 & H2 & H3 & H4 & H5 & H6). unfold in_region. cbn. split_and!; try lia.
  - rewrite splice_inside_zlen; lia.
  - intros a b Ha Hb. rewrite splice_before by lia. by apply H5.
  - intros a b Ha. rewrite splice_after by lia. by apply H6.
  - done.
  - intros _. split; [done|]. rewrite <-(slice_app _ (f_pos (r_file r))) by lia.
    by rewrite splice_before, splice_at by lia.
Qed.

Lemma copy_chunks_region orig chunks r :
  in_region orig r →
  let out := copy_chunks chunks r in
  in_region orig out.1 ∧ same_region r out.1 ∧
  (out.2 = Ok tt → f_pos (r_file out.1) = f_pos (r_file r) + zlen (concat chunks) ∧
     slice (r_start r) (f_pos (r_file out.1)) (f_bytes (r_file out.1))
     = slice (r_start r) (f_pos (r_file r)) (f_bytes (r_file r)) ++ concat chunks).
Proof.
  revert r. induction chunks as [|c rest IH]; intros r Hr; cbn [copy_chunks].
  { cbn. rewrite app_nil_r, Z.add_0_r. done. }
  destruct (write_region orig r c Hr) as (Hw & Hs & Hd).
  destruct (write c r) as [r1 [[]|e]]; cbn [fst snd] in *; [|done].
  destruct (Hd eq_refl) as [Hp Hb]. destruct (IH r1 Hw) as (Hw2 & Hs2 & Hd2). destruct Hs as [S1 S2], Hs2 as [S3 S4].
  split; [done|]. split; [unfold same_region; split; congruence|].
  intros [Hp2 Hb2]%Hd2. cbn [concat]. rewrite zlen_app. split; [lia|].
  rewrite S1 in Hb2. by rewrite Hb2, Hb, app_assoc.
Qed.

Lemma rewind_region orig r r1 :
  in_region orig r1 → same_region r r1 → in_region orig r →
  in_region orig (truncate (seek (tell r) r1)) ∧ same_region r (truncate (seek (tell r) r1))
  ∧ f_pos (r_file (truncate (seek (tell r) r1))) = f_pos (r_file r).
Proof.
  intros (H1 & H2 & H3 & H4 & H5 & H6) [S1 S2] (G1 & G2 & G3 & _). cbn. unfold in_region. cbn.
  rewrite S1, S2 in *. split_and!; try done; lia.
Qed.

Section fetch.
Context (serve : string → CBlock → Z → Z → list (list Z) * result RpcError unit) (content : CBlock → list Z).

Lemma failover_region orig block offset length start addresses last r r' res :
  faithful serve content → in_region orig r → start = tell r → f_pos (r_file r) = r_start r →
  failover serve block offset length start addresses last r = (r', res) →
  in_region orig r' ∧ same_region r r' ∧
  match res with
  | Ok n => n = zlen (asked content block offset length) ∧
            slice (r_start r) (r_start r + n) (f_bytes (r_file r')) = asked content block offset length
  | Err _ => True
  end.
Proof.
  intros Hf Hr -> Hp. revert last r Hr Hp. induction addresses as [|a rest IH]; intros last r Hr Hp; cbn [failover].
  { intros [= <- <-]. done. }
  destruct (copy_chunks_region orig (serve a block offset length).1 r Hr) as (Hc & Hs & Hd).
  destruct (copy_chunks (serve a block offset length).1 r) as [r1 [[]|e]]; cbn [fst snd] in *; [|by intros [= <- <-]].
  destruct (Hd eq_refl) as [Hp1 Hb1]. destruct (serve a block offset length) as [chunks [[]|e]] eqn:Hserve; cbn [fst snd] in *.
  - intros [= <- <-]. split; [done|]. split; [done|]. rewrite <-(Hf _ _ _ _ _ Hserve).
    rewrite (slice_nil (r_start r) (f_pos (r_file r))) in Hb1 by lia. destruct Hs as [S1 S2]. cbn. rewrite S1, Hp1, Hp.
    assert (r_start r + zlen (concat chunks) - r_start r - (r_start r - r_start r) = zlen (concat chunks)) as -> by lia.
    split; [done|]. rewrite Hp1, Hp in Hb1. exact Hb1.
  - destruct (rewind_region orig r r1 Hc Hs Hr) as (Hw & Hws & Hwp). destruct (_is_recoverable_read_error e).
    + intros Hrest. destruct Hws as [W1 W2].
      replace (tell r) with (tell (truncate (seek (tell r) r1))) in Hrest at 1 by (cbn in *; lia).
      apply IH in Hrest as (K1 & [K2 K3] & K4); [|done|lia]. split; [done|].
      split; [unfold same_region; split; congruence|]. by rewrite W1 in K4.
    + intros [= <- <-]. done.
Qed.

(** [fetch_block] of [download], on the temporary file of content [bytes]. *)
Definition fetch_block (bytes : list Z) (block : CBlock) (start : Z) : list Z * result client_error Z :=
  match _read_block_with_failover serve block 0 0 (region_of (mkPyFile bytes start) (cb_size block)) with
  | (r, Ok n) => (f_bytes (r_file r), if n =? cb_size block then Ok n else Err (ByExn BlockCorruptedError))
  | (r, Err e) => (f_bytes (r_file r), Err e)
  end.

Lemma fetch_block_spec bytes block start bytes' res :
  faithful serve content → 0 ≤ start → 0 ≤ cb_size block → start + cb_size block ≤ zlen bytes →
  fetch_block bytes block start = (bytes', res) →
  zlen bytes' = zlen bytes ∧
  (∀ a b, 0 ≤ a → b ≤ start → slice a b bytes' = slice a b bytes) ∧
  (∀ a b, start + cb_size block ≤ a → slice a b bytes' = slice a b bytes) ∧
  match res with
  | Ok n => n = cb_size block ∧ slice start (start + cb_size block) bytes' = content block
  | Err _ => True
  end.
Proof.
  intros Hf Hs Hz Hfit. unfold fetch_block, _read_block_with_failover.
  set (r := region_of (mkPyFile bytes start) (cb_size block)).
  assert (in_region bytes r) as Hr by (unfold in_region; cbn; split_and!; try lia; done).
  destruct (failover _ _ _ _ _ _ _ r) as [r1 res1] eqn:Hfo.
  apply (failover_region bytes) in Hfo as ((_ & _ & _ & Hl & H5 & H6) & [S1 S2] & H7); [|done..].
  rewrite S1, S2 in *. cbn in H5, H6, H7.
  assert (∀ e, (f_bytes (r_file r1), e) = (bytes', res) → bytes' = f_bytes (r_file r1)) as Hb by (intros ? [= <- _]; done).
  destruct res1 as [n|e]; intros Heq; rewrite (Hb _ Heq); (split; [done|]); (split; [done|]); (split; [done|]).
  - destruct H7 as [-> H7]. assert (asked content block 0 0 = content block) as Ha by (unfold asked; cbn; apply slice_all).
    rewrite Ha in *. destruct (Z.eqb_spec (zlen (content block)) (cb_size block)) as [Hsz|]; injection Heq as _ <-; [|done].
    by rewrite <-Hsz.
  - by injection Heq as _ <-.
Qed.

(** The fetches of a download, in the order the threads run them. *)
Fixpoint fetch_all (bytes : list Z) (items : list (CBlock * Z)) : list Z * result client_error Z :=
  match items with
  | [] => (bytes, Ok 0)
  | (block, start) :: rest =>
      match fetch_block bytes block start with
      | (bytes', Ok n) =>
          match fetch_all bytes' rest with
          | (out, Ok m) => (out, Ok (n + m))
          | (out, Err e) => (out, Err e)
          end
      | (bytes', Err e) => (bytes', Err e)
      end
  end.

(** The file [download] makes: its size first, then the blocks in the order [order]. *)
Definition download (blocks : list CBlock) (order : list (CBlock * Z)) : list Z * result client_error Z :=
  fetch_all (replicate (Z.to_nat (sumZ (cb_size <$> blocks))) 0) order.

(** * Any order gives the file *)

(** Two items of a download are the same or their regions do not meet. *)
Definition apart (x y : CBlock * Z) : Prop :=
  x = y ∨ x.2 + cb_size x.1 ≤ y.2 ∨ y.2 + cb_size y.1 ≤ x.2.

Definition filled (bytes : list Z) (x : CBlock * Z) : Prop := slice x.2 (x.2 + cb_size x.1) bytes = content x.1.
Definition fits (total : Z) (x : CBlock * Z) : Prop := 0 ≤ x.2 ∧ 0 ≤ cb_size x.1 ∧ x.2 + cb_size x.1 ≤ total.

Lemma fetch_all_placed bytes done items out m :
  faithful serve content → Forall (fits (zlen bytes)) items →
  (∀ x y, x ∈ done ++ items → y ∈ items → apart x y) → Forall (filled bytes) done → Forall (fits (zlen bytes)) done →
  fetch_all bytes items = (out, Ok m) →
  zlen out = zlen bytes ∧ Forall (filled out) (done ++ items) ∧ m = sumZ ((λ x, cb_size x.1) <$> items).
Proof.
  intros Hf. revert bytes done m. induction items as [|[block start] rest IH]; intros bytes done m Hfit Hap Hdone Hdf; cbn [fetch_all].
  { intros [= <- <-]. by rewrite app_nil_r. }
  apply Forall_cons in Hfit as [(F1 & F2 & F3) Hfit]. simpl in F1, F2, F3.
  destruct (fetch_block bytes block start) as [bytes1 [n|e]] eqn:Hfb; [|discriminate].
  apply fetch_block_spec in Hfb as (Hl & Hlo & Hhi & -> & Hat); [|done..].
  destruct (fetch_all bytes1 rest) as [out' [m'|e]] eqn:Hrest; [|discriminate]. intros [= <- <-].
  apply (IH bytes1 (done ++ [(block, start)])) in Hrest as (R1 & R2 & R3); rewrite ?Hl.
  - split; [congruence|]. rewrite <-app_assoc in R2. split; [done|]. by rewrite R3.
  - done.
  - intros x y Hx Hy. apply Hap; [|set_solver]. rewrite <-app_assoc in Hx. done.
  - apply Forall_app. split; [|by apply Forall_singleton]. apply Forall_forall. intros x Hx.
    rewrite Forall_forall in Hdone, Hdf. destruct (Hdf x Hx) as (X1 & X2 & X3). unfold filled.
    destruct (Hap x (block, start)) as [->|[Hb|Ha]]; [set_solver|set_solver|done| |]; simpl in *.
    + rewrite Hlo by lia. by apply Hdone.
    + rewrite Hhi by lia. by apply Hdone.
  - apply Forall_app. split; [done|]. by apply Forall_singleton.
Qed.
End fetch.

(** * The regions of the blocks of a file *)

Lemma starts_items position blocks x :
  Forall (λ b, 0 ≤ cb_size b) blocks → x ∈ zip blocks (_block_starts_from position blocks) →
  position ≤ x.2 ∧ 0 ≤ cb_size x.1 ∧ x.2 + cb_size x.1 ≤ position + sumZ (cb_size <$> blocks).
Proof.
  intros Hs. revert position. induction Hs as [|b rest Hb Hs IH]; intros position; cbn [_block_starts_from zip zip_with].
  { by intros ?%elem_of_nil. }
  rewrite fmap_cons, sumZ_cons. pose proof (sum_sizes_nonneg rest Hs) as Hsum.
  intros [->|Hx]%elem_of_cons; simpl; [lia|]. apply IH in Hx. lia.
Qed.

Lemma starts_apart position blocks x y :
  Forall (λ b, 0 ≤ cb_size b) blocks → x ∈ zip blocks (_block_starts_from position blocks) →
  y ∈ zip blocks (_block_starts_from position blocks) → apart x y.
Proof.
  intros Hs. revert position. induction Hs as [|b rest Hb Hs IH]; intros position; cbn [_block_starts_from zip zip_with].
  { by intros ?%elem_of_nil. }
  intros [->|Hx]%elem_of_cons [->|Hy]%elem_of_cons; [by left| | |by apply (IH (position + cb_size b))].
  - apply starts_items in Hy; [|done]. right. left. simpl. lia.
  - apply starts_items in Hx; [|done]. right. right. simpl. lia.
Qed.

Lemma placed_concat content position blocks out :
  0 ≤ position → Forall (λ b, 0 ≤ cb_size b) blocks →
  Forall (filled content out) (zip blocks (_block_starts_from position blocks)) →
  slice position (position + sumZ (cb_size <$> blocks)) out = concat (content <$> blocks).
Proof.
  intros Hp Hs. revert position Hp. induction Hs as [|b rest Hb Hs IH]; intros position Hp; cbn [_block_starts_from zip zip_with].
  { intros _. apply slice_nil. cbn. lia. }
  intros [Hat Hrest]%Forall_cons. rewrite fmap_cons, sumZ_cons. csimpl. pose proof (sum_sizes_nonneg rest Hs) as Hsum.
  apply IH in Hrest; [|lia]. rewrite <-Hrest, <-Hat. simpl.
  rewrite (slice_app position) by lia. f_equal. lia.
Qed.

Lemma download_spec serve content blocks order out m :
  faithful serve content → Forall (λ b, 0 ≤ cb_size b) blocks → order ≡ₚ zip blocks (_block_starts blocks) →
  download serve blocks order = (out, Ok m) →
  out = concat (content <$> blocks) ∧ m = sumZ (cb_size <$> blocks).
Proof.
  intros Hf Hs Hperm. unfold download, _block_starts in *. set (total := sumZ (cb_size <$> blocks)).
  assert (0 ≤ total) as Ht by by apply sum_sizes_nonneg.
  assert (zlen (replicate (Z.to_nat total) 0) = total) as Hz by (unfold zlen; rewrite length_replicate; lia).
  intros Hd. apply (fetch_all_placed serve content _ []) in Hd as (D1 & D2 & D3); rewrite ?Hz in *; [|done| | |done|done].
  - rewrite app_nil_l in D2. rewrite Hperm in D2. apply placed_concat in D2; [|done..].
    rewrite Z.add_0_l in D2. fold total in D2. split.
    + rewrite <-D2, <-D1. symmetry. apply slice_all.
    + rewrite D3. unfold total. rewrite Hperm. clear. generalize 0 as p. induction blocks as [|b rest IH]; intros p; [done|].
      cbn [_block_starts_from zip zip_with]. rewrite !fmap_cons, !sumZ_cons. by rewrite IH.
  - apply Forall_forall. intros x Hx. rewrite Hperm in Hx. apply starts_items in Hx; [|done]. unfold fits. fold total in Hx. lia.
  - intros x y Hx Hy. rewrite app_nil_l, Hperm in Hx. rewrite Hperm in Hy. by eapply starts_apart.
Qed.

(** * Uploads *)

Lemma block_chunks_spec fuel remaining rest :
  remaining ≤ Z.of_nat fuel →
  concat (block_chunks fuel remaining rest) = slice 0 remaining rest ∧
  Forall (λ c, 0 < zlen c ≤ CHUNK_SIZE_BYTES) (block_chunks fuel remaining rest).
Proof.
  revert remaining rest. induction fuel as [|fuel IH]; intros remaining rest Hf; cbn [block_chunks].
  { split; [|done]. symmetry. apply slice_nil. lia. }
  destruct (Z.ltb_spec 0 remaining) as [Hr|Hr]; [|split; [|done]; symmetry; by apply slice_nil].
  set (data := slice 0 (Z.min CHUNK_SIZE_BYTES remaining) rest).
  pose proof (slice_zlen_le 0 (Z.min CHUNK_SIZE_BYTES remaining) rest ltac:(lia)) as Hle. fold data in Hle.
  case_bool_decide as Hd.
  - split; [|done]. symmetry. destruct rest as [|b rest]; [unfold slice; by rewrite drop_nil, take_nil|].
    exfalso. unfold data, slice, CHUNK_SIZE_BYTES in Hd. rewrite drop_0 in Hd.
    destruct (Z.to_nat (Z.min 1048576 remaining - 0)) eqn:E; [lia|done].
  - assert (0 < zlen data) as Hpos by (destruct data; [done|unfold zlen; simpl; lia]).
    destruct (IH (remaining - zlen data) (drop (length data) rest)) as [Hc Hall]; [lia|]. split.
    + cbn [concat]. rewrite Hc. assert (data = slice 0 (zlen data) rest) as Hdata.
      { unfold data, slice, zlen. rewrite drop_0, !Z.sub_0_r, Nat2Z.id, length_take.
        destruct (Nat.le_gt_cases (Z.to_nat (Z.min CHUNK_SIZE_BYTES remaining)) (length rest)).
        - by rewrite Nat.min_l.
        - rewrite Nat.min_r, !take_ge by lia. done. }
      rewrite Hdata at 1. rewrite <-(slice_app 0 (zlen data) remaining) by lia. f_equal. unfold slice. rewrite drop_drop.
      unfold zlen. f_equal; [lia|]. f_equal. lia.
    + constructor; [|done]. unfold CHUNK_SIZE_BYTES in *. lia.
Qed.

(** The blocks of an upload cut the file. *)
Lemma starts_concat position blocks (file : list Z) :
  0 ≤ position → Forall (λ b, 0 ≤ cb_size b) blocks →
  concat ((λ x, slice x.2 (x.2 + cb_size x.1) file) <$> zip blocks (_block_starts_from position blocks))
  = slice position (position + sumZ (cb_size <$> blocks)) file.
Proof.
  intros Hp Hs. revert position Hp. induction Hs as [|b rest Hb Hs IH]; intros position Hp; cbn [_block_starts_from zip zip_with].
  { symmetry. apply slice_nil. cbn. lia. }
  rewrite !fmap_cons, sumZ_cons. cbn [concat fst snd]. pose proof (sum_sizes_nonneg rest Hs) as Hsum.
  rewrite IH by lia. rewrite slice_app by lia. f_equal. lia.
Qed.

Lemma starts_length position blocks : length (_block_starts_from position blocks) = length blocks.
Proof. revert position. induction blocks as [|b rest IH]; intros position; [done|]. simpl. by rewrite IH. Qed.

Lemma write_messages_data block file position :
  0 ≤ position → 0 ≤ cb_size block →
  concat (msg_data <$> write_messages block file position) = slice position (position + cb_size block) file.
Proof.
  intros Hp Hs. unfold write_messages. rewrite fmap_cons, msg_data_chunks. cbn [concat msg_data app].
  destruct (block_chunks_spec (Z.to_nat (cb_size block)) (cb_size block) (drop (Z.to_nat position) file)) as [-> _]; [lia|].
  unfold slice. rewrite drop_0. f_equal. lia.
Qed.
