(* ===== verification/ClientProps.v ===== *)
(** The properties of the client's data path: range reads, copy-on-write writes,
    downloads and uploads. *)

From Stdlib Require Import QArith.
From S2P Require Import Prelude Exceptions Dict Crypto Bytes BlockToken BlockStore Container BlockStoreProps.
From S2P Require Import DataNode DataNodeFacts DataNodeProps RpcClient ClientData ClientRead ClientWrite.
From S2P Require Import ClientTransfer.
From S2P Require Import TreeData Layout.

Open Scope Z_scope.

(** * A demonstration: a file in blocks of four bytes, two replicas, the first damaged *)

Definition demo_blocks : list CBlock :=
  [mkCBlock "a" ["x"; "y"] 4 ""; mkCBlock "b" ["y"] 4 ""; mkCBlock "c" ["x"; "y"] 2 ""].
Definition demo_contents (b : CBlock) : list Z :=
  if bool_decide (cb_id b = "a") then [1; 2; 3; 4] else if bool_decide (cb_id b = "b") then [5; 6; 7; 8] else [9; 10].
Definition demo_serve (address : string) (b : CBlock) (offset length : Z) : list (list Z) * result RpcError unit :=
  if bool_decide (address = "x") then ([[77; 78]], Err (mkRpcError DATA_LOSS []))
  else ([asked demo_contents b offset length], Ok tt).

Lemma demo_faithful : faithful demo_serve demo_contents.
Proof.
  intros a b off len chunks. unfold demo_serve. case_bool_decide; [discriminate|]. intros [= <-]. cbn. apply app_nil_r.
Qed.
Lemma demo_sizes : sizes_match demo_contents demo_blocks.
Proof. repeat constructor. Qed.
Lemma demo_available : Forall (available demo_serve) demo_blocks.
Proof.
  assert (∀ b off len, (demo_serve "y" b off len).2 = Ok tt) as Hy by done.
  assert (∀ b off len, (demo_serve "x" b off len).2 = Err (mkRpcError DATA_LOSS [])) as Hx by done.
  unfold demo_blocks. rewrite !Forall_cons, Forall_nil. unfold available. cbn [cb_addresses].
  split_and!; try done; intros off len; rewrite ?Exists_cons, !Forall_cons, ?Forall_nil, ?Hx, ?Hy; naive_solver.
Qed.

(** A range read gives the range: when a replica that ends its answer normally
    has sent what it was asked for, a read of a non-empty range (or to the end of
    the file) that succeeds has written exactly the bytes of the range, whatever
    replicas failed midway before; and it succeeds when each block has a replica
    that answers and the others fail recoverably. *)
Theorem range_read_exact serve content blocks offset length :
  faithful serve content → sizes_match content blocks → length ≠ Some 0 →
  let file := concat (content <$> blocks) in
  let out := _read_range serve blocks offset length (mkPyFile [] 0) in
  (∀ n, out.2 = Ok n →
     f_bytes out.1 = slice offset (range_end (zlen file) offset length) file ∧ n = zlen (f_bytes out.1))
  ∧ (Forall (available serve) blocks → 0 ≤ offset ≤ zlen file → from_option (λ n, 0 < n) True length → ∃ n, out.2 = Ok n).
Proof.
  intros Hf Hs Hl file out. split; [intros n; by apply range_read_bytes|].
  unfold out, _read_range. rewrite (sum_sizes content) by done. fold file.
  assert (at_end (mkPyFile [] 0)) as Hend by done. intros Hav Ho Hlen. rewrite (proj2 (Z.ltb_ge offset 0)) by lia. cbn [orb].
  destruct length as [k|]; [cbn in Hlen; rewrite (proj2 (Z.ltb_ge k 0)) by lia|]; rewrite (proj2 (Z.ltb_ge (zlen file) offset)) by lia;
    by apply (read_blocks_available serve content).
Qed.
Lemma range_read_exact_witness :
  ∃ n, (_read_range demo_serve demo_blocks 2 (Some 7) (mkPyFile [] 0)).2 = Ok n.
Proof.
  refine (proj2 (range_read_exact demo_serve demo_contents demo_blocks 2 (Some 7) demo_faithful demo_sizes _) demo_available _ _);
    vm_compute; (discriminate || split; discriminate || reflexivity).
Defined.

Definition cluster_env : DEnv := demo_env (λ _, Delivered).

(** The network after the demonstration's write holds copies of one block. *)
Lemma demo_write_consistent : @consistent toy_aead 4 demo_write.1 {[store_block := [1; 2; 3]]}.
Proof.
  assert (demo_write.1 = {["a:1" := @copy_at toy_aead 4 cluster_env 0 (bare_node None) store_block [1; 2; 3];
    "b:1" := @copy_at toy_aead 4 cluster_env 1 (bare_node None) store_block [1; 2; 3];
    "c:1" := @copy_at toy_aead 4 cluster_env 2 (bare_node None) store_block [1; 2; 3]]}) as -> by (vm_compute; reflexivity).
  assert (∀ d bid file, dn_files (@copy_at toy_aead 4 cluster_env d (bare_node None) store_block [1; 2; 3]) !! bid = Some file →
    zlen store_key = 32 ∧ ∃ data, ({[store_block := [1; 2; 3]]} : gmap string (list Z)) !! bid = Some data ∧
      @holds_block toy_aead 4 store_key bid file (data, file.2)) as Hcopy.
  { intros d bid file Hf. unfold copy_at, with_files, bare_node in Hf. cbn [dn_files] in Hf.
    apply lookup_insert_Some in Hf as [[<- <-]|[_ Hf]]; [|by rewrite lookup_empty in Hf].
    split; [done|]. eexists. split; [apply lookup_singleton_eq|]. split_and!; [done|done|vm_compute; discriminate|].
    exists store_prefix. split; [reflexivity|]. cbn [fst]. reflexivity. }
  intros address node bid file Hn Hf.
  repeat (apply lookup_insert_Some in Hn as [[<- <-]|[_ Hn]]; [by apply (Hcopy _ _ _ Hf)|]).
  apply lookup_singleton_Some in Hn as [<- <-]. by apply (Hcopy _ _ _ Hf).
Qed.

(** Through the whole stack: over DataNodes whose encrypted copies are of the
    blocks of a store, whichever are down, damaged or refuse the capability, a
    non-empty range read of the client that succeeds gives exactly the range of
    the file those blocks make. *)
Theorem cluster_range_read `{!Aead, !AeadLaws} (csize : Z) (env : DEnv) net store blocks offset length n :
  0 < csize → csize ≤ 2 ^ 32 → consistent csize net store → sizes_match (stored store) blocks → length ≠ Some 0 →
  let file := concat (stored store <$> blocks) in
  let out := _read_range (served_by csize env net) blocks offset length (mkPyFile [] 0) in
  out.2 = Ok n → f_bytes out.1 = slice offset (range_end (zlen file) offset length) file ∧ n = zlen (f_bytes out.1).
Proof.
  intros Hc Hf Hcon Hs Hl file out. apply range_read_bytes; [by apply cluster_faithful|done..].
Qed.
Definition cluster_store : gmap string (list Z) := {[store_block := [1; 2; 3]]}.
Definition cluster_blocks : list CBlock := [mkCBlock store_block ["z:9"; "b:1"] 3 ""].
Lemma cluster_range_read_witness :
  let file := concat (stored cluster_store <$> cluster_blocks) in
  let out := _read_range (@served_by toy_aead 4 cluster_env demo_write.1) cluster_blocks 1 None (mkPyFile [] 0) in
  f_bytes out.1 = slice 1 (range_end (zlen file) 1 None) file ∧ 2 = zlen (f_bytes out.1).
Proof.
  apply (@cluster_range_read toy_aead toy_aead_laws 4 cluster_env demo_write.1 cluster_store cluster_blocks 1 None 2);
    [lia|lia|apply demo_write_consistent|repeat constructor|discriminate|vm_compute; reflexivity].
Defined.

(** But an empty range is not empty: a read of no bytes at an offset inside a
    block gives the rest of that block, because a length of zero asks a DataNode
    for everything to the end. *)
Theorem empty_read_gives_rest serve content before block after offset :
  faithful serve content → sizes_match content (before ++ block :: after) → Forall (available serve) (before ++ block :: after) →
  let start := zlen (concat (content <$> before)) in
  start < offset < start + cb_size block →
  let out := _read_range serve (before ++ block :: after) offset (Some 0) (mkPyFile [] 0) in
  out.2 = Ok (start + cb_size block - offset)
  ∧ f_bytes out.1 = slice (offset - start) (cb_size block) (content block)
  ∧ 0 < zlen (f_bytes out.1).
Proof.
  intros Hf Hs Hav start Ho out. unfold out, _read_range. rewrite (sum_sizes content) by done.
  pose proof Hs as Hs'. apply Forall_app in Hs' as [Hsb [Hsz Hsa]%Forall_cons]. apply Forall_app in Hav as [_ [Hab _]%Forall_cons].
  assert (zlen (concat (content <$> before ++ block :: after)) = start + cb_size block + zlen (concat (content <$> after))) as Hz.
  { rewrite fmap_app, fmap_cons, concat_app, zlen_app. cbn [concat]. rewrite zlen_app, Hsz. unfold start. lia. }
  pose proof (zlen_nonneg (concat (content <$> before))) as Hst. pose proof (zlen_nonneg (concat (content <$> after))) as Haf.
  fold start in Hst. rewrite (proj2 (Z.ltb_ge offset 0)) by lia. cbn [orb]. rewrite (proj2 (Z.ltb_ge _ offset)) by lia.
  replace (Z.min _ (offset + 0)) with offset by lia.
  assert (start = sumZ (cb_size <$> before)) as Hstart by by rewrite (sum_sizes content).
  rewrite (read_blocks_before serve content) by (done || lia). rewrite Z.add_0_l, <-Hstart. cbn [read_blocks].
  rewrite (proj2 (Z.ltb_lt start offset)), (proj2 (Z.ltb_lt offset (start + cb_size block))) by lia. cbn [andb].
  replace (Z.max offset start - start) with (offset - start) by lia.
  replace (Z.min offset (start + cb_size block) - start - (offset - start)) with 0 by lia.
  destruct (failover_available serve block (offset - start) 0 (mkPyFile [] 0) Hab eq_refl) as [n Hn].
  destruct (_read_block_with_failover serve block _ _ _) as [f r] eqn:Hr. cbn in Hn. subst r.
  apply (failover_file serve content) in Hr as [-> ->]; [|done..].
  rewrite (read_blocks_after serve content) by (done || lia).
  assert (asked content block (offset - start) 0 = slice (offset - start) (cb_size block) (content block)) as Ha
    by (unfold asked; cbn; by rewrite Hsz).
  rewrite Ha. cbn. assert (zlen (slice (offset - start) (cb_size block) (content block)) = start + cb_size block - offset) as Hlen
    by (rewrite slice_length; lia).
  rewrite Hlen. split_and!; [done|done|lia].
Qed.
Lemma empty_read_gives_rest_witness :
  let out := _read_range demo_serve demo_blocks 5 (Some 0) (mkPyFile [] 0) in
  out.2 = Ok (4 + 4 - 5) ∧ f_bytes out.1 = [6; 7; 8] ∧ 0 < zlen (f_bytes out.1).
Proof.
  apply (empty_read_gives_rest demo_serve demo_contents [mkCBlock "a" ["x"; "y"] 4 ""] (mkCBlock "b" ["y"] 4 "")
    [mkCBlock "c" ["x"; "y"] 2 ""] 5 demo_faithful demo_sizes demo_available). vm_compute. split; reflexivity.
Defined.

(** A write puts its bytes in place: over a file cut in blocks of [block_size]
    bytes, the plan of the ControlNode and the content the client builds for each
    planned block, old bytes included, give together the blocks of the file with
    the written bytes at their offset and every other byte as it was. *)
Theorem write_puts_bytes serve content block_size offset data file plan slots cs :
  faithful serve content → 0 < block_size →
  plan_write_slots (zlen <$> blocks_of block_size file) block_size offset (zlen data) = Ok plan →
  Forall2 (λ p slot, describes content block_size file p.1 p.2 slot) plan slots →
  mapM (λ slot, _slot_content serve slot block_size offset data) slots = Ok cs →
  let blocks := take (Z.to_nat (offset / block_size)) (blocks_of block_size file) ++ cs
                ++ drop (Z.to_nat ((offset + zlen data - 1) / block_size + 1)) (blocks_of block_size file) in
  blocks = blocks_of block_size (splice file offset data)
  ∧ concat blocks = slice 0 offset file ++ data ++ slice (offset + zlen data) (zlen file) file.
Proof.
  intros Hf Hbs Hplan Hslots Hcs blocks. apply plan_write_slots_ok_inv in Hplan as (Hlen & Hoff & _ & Hplan).
  rewrite sum_zlen, blocks_of_concat in Hoff, Hplan by done. rewrite Hplan in Hslots. clear Hplan.
  assert (cs = block_of block_size (splice file offset data) <$>
               zrange (offset / block_size) ((offset + zlen data - 1) / block_size + 1)) as Hcs'.
  { by apply (slots_contents serve content block_size offset data file _ slots cs _ Hf Hbs Hoff Hlen (λ i Hi, proj1 (elem_of_zrange _ _ i) Hi) eq_refl Hslots). }
  assert (blocks = blocks_of block_size (splice file offset data)) as Hb
    by (unfold blocks; rewrite Hcs'; by apply blocks_of_splice).
  split; [done|]. rewrite Hb, blocks_of_concat by done. by apply splice_parts.
Qed.
Definition demo_slots : list Slot :=
  [mkSlotRow 1 (mkCBlock "b" ["x"; "y"] 4 "") (mkCBlock "n1" ["x"] 4 ""); mkSlotRow 2 (mkCBlock "c" ["x"; "y"] 2 "") (mkCBlock "n2" ["x"] 3 "")].
Lemma write_puts_bytes_witness :
  [[1; 2; 3; 4]; [5; 50; 51; 52]; [53; 54; 55]] = blocks_of 4 (splice [1; 2; 3; 4; 5; 6; 7; 8; 9; 10] 5 [50; 51; 52; 53; 54; 55])
  ∧ [1; 2; 3; 4; 5; 50; 51; 52; 53; 54; 55] = [1; 2; 3; 4; 5] ++ [50; 51; 52; 53; 54; 55] ++ [].
Proof.
  apply (write_puts_bytes demo_serve demo_contents 4 5 [50; 51; 52; 53; 54; 55] [1; 2; 3; 4; 5; 6; 7; 8; 9; 10]
    [(1, 4); (2, 3)] demo_slots [[5; 50; 51; 52]; [53; 54; 55]] demo_faithful);
    [lia|vm_compute; reflexivity| |vm_compute; reflexivity].
  repeat constructor; vm_compute; discriminate.
Defined.

(** A download assembles the file: the fetches of its blocks, each in its region
    of the temporary file and in any order, leave exactly the concatenation of the
    blocks when all succeed, even where a replica that failed midway had already
    written in the region. *)
Theorem download_assembles serve content blocks order out m :
  faithful serve content → Forall (λ b, 0 ≤ cb_size b) blocks → order ≡ₚ zip blocks (_block_starts blocks) →
  download serve blocks order = (out, Ok m) →
  out = concat (content <$> blocks) ∧ m = sumZ (cb_size <$> blocks).
Proof. apply download_spec. Qed.
Lemma download_assembles_witness : [1; 2; 3; 4; 5; 6; 7; 8; 9; 10] = concat (demo_contents <$> demo_blocks) ∧ 10 = sumZ (cb_size <$> demo_blocks).
Proof.
  apply (download_assembles demo_serve demo_contents demo_blocks (rev (zip demo_blocks (_block_starts demo_blocks))) _ _ demo_faithful);
    [repeat constructor; vm_compute; discriminate|symmetry; apply Permutation_rev|vm_compute; reflexivity].
Defined.

(** An upload sends the file: the streams of its blocks, opened at the offsets
    of the blocks, carry together the bytes of the file in order when the sizes of
    the blocks add up to it, each under the header of its block and in messages of
    one byte to one megabyte. *)
Theorem upload_sends_file blocks file :
  Forall (λ b, 0 ≤ cb_size b) blocks → sumZ (cb_size <$> blocks) = zlen file →
  let streams : list (list Msg) := (λ x, write_messages x.1 file x.2) <$> zip blocks (_block_starts blocks) in
  concat ((λ ms : list Msg, concat (msg_data <$> ms)) <$> streams) = file
  ∧ Forall2 (λ b ms, ∃ chunks, ms = MHeader (cb_id b) (tail (cb_addresses b)) :: (MData <$> chunks) ∧
                     zlen (concat chunks) = cb_size b ∧ Forall (λ c, 0 < zlen c ≤ CHUNK_SIZE_BYTES) chunks) blocks streams.
Proof.
  intros Hs Hz streams. split.
  - transitivity (slice 0 (0 + sumZ (cb_size <$> blocks)) file); [|rewrite Z.add_0_l, Hz; apply slice_all].
    rewrite <-starts_concat by done.
    unfold streams, _block_starts. f_equal. rewrite <-list_fmap_compose. apply list_fmap_ext.
    intros k x Hx%list_elem_of_lookup_2. apply starts_items in Hx as (Hx1 & Hx2 & _); [|done].
    unfold compose. by apply write_messages_data.
  - unfold streams, _block_starts. apply Forall2_same_length_lookup. split.
    + rewrite length_fmap, length_zip_with, starts_length. lia.
    + intros i b ms Hb. rewrite list_lookup_fmap. intros ([c p] & Hx & ->)%fmap_Some.
      pose proof (list_elem_of_lookup_2 _ _ _ Hx) as Hin. apply starts_items in Hin as (Hx1 & Hx2 & Hx3); [|done].
      apply lookup_zip_Some in Hx as [Hxb _]. rewrite Hb in Hxb. injection Hxb as <-. simpl in *.
      eexists. split; [done|]. destruct (block_chunks_spec (Z.to_nat (cb_size b)) (cb_size b) (drop (Z.to_nat p) file)) as [Hc Hall]; [lia|].
      split; [|done]. rewrite Hc. rewrite slice_length; [lia|lia|]. unfold zlen in *. rewrite length_drop. lia.
Qed.
Lemma upload_sends_file_witness :
  concat ((λ ms : list Msg, concat (msg_data <$> ms)) <$> ((λ x : CBlock * Z, write_messages x.1 [1; 2; 3; 4; 5; 6; 7; 8; 9; 10] x.2) <$> zip demo_blocks (_block_starts demo_blocks)))
  = [1; 2; 3; 4; 5; 6; 7; 8; 9; 10].
Proof.
  refine (proj1 (upload_sends_file demo_blocks [1; 2; 3; 4; 5; 6; 7; 8; 9; 10] _ eq_refl)). repeat constructor; vm_compute; discriminate.
Defined.
