(* ===== verification/ClientLocks.v ===== *)
(** The locks a client holds ([LeaseLock] and the lock methods of
    [DistributedDFShaClient], dfsha/client/distributed_client.py).

    A handle is an object that both its user and the table of the client hold, and
    that both mutate: the state has a heap of handles, addressed by their position,
    and the table from lock ids to positions, in insertion order.  What a call to
    the ControlNode answers is an argument of the operation that makes it; the
    operation says whether it makes it.  The renewal thread is a flag: whether one
    is running. *)

From S2P Require Import Prelude Exceptions Dict Paths.

Record Handle := mkHandle {
  h_path : string;
  h_mode : string;
  h_id : string;
  h_lease : Z;
  h_lost : bool;
  h_released : bool
}.

Record Locks := mkLocks {
  heap : list Handle;
  held : list (string * nat);
  renewing : bool
}.

Definition locks_init : Locks := mkLocks [] [] false.

Notation L := (M Locks exn).

(** What the call of an operation answers. *)
Notation reply A := (result exn A).

Definition _canonical_lock_path (path : string) : string :=
  path_of (filter (λ p, p ≠ "") (split_on slash (strip slash path))).

Definition handle_at (i : nat) (s : Locks) : Handle := default (mkHandle "" "" "" 0 false false) (heap s !! i).
Definition mark_lost (h : Handle) : Handle := mkHandle (h_path h) (h_mode h) (h_id h) (h_lease h) true (h_released h).
Definition mark_released (h : Handle) : Handle := mkHandle (h_path h) (h_mode h) (h_id h) (h_lease h) (h_lost h) true.
Definition update_handle (f : Handle → Handle) (i : nat) : L unit :=
  modify (λ s, mkLocks (alter f i (heap s)) (held s) (renewing s)).

(** [locks()]: the handles of the table. *)
Definition locks (s : Locks) : list nat := (held s).*2.

Definition _start_lock_renewer : L unit := modify (λ s, mkLocks (heap s) (held s) true).
Definition _stop_lock_renewer : L unit := modify (λ s, mkLocks (heap s) (held s) false).

(** [lock]: the handle's position is its identity. *)
Definition lock (path mode : string) (answer : reply (string * Z)) : L nat :=
  _ ← ensure (bool_decide (mode = "r" ∨ mode = "w")) InvalidPathError;
  r ← lift answer;
  i ← gets (λ s, length (heap s));
  _ ← modify (λ s, mkLocks (heap s ++ [mkHandle (_canonical_lock_path path) mode r.1 r.2 false false])
                     (dict_set r.1 i (held s)) (renewing s));
  _ ← _start_lock_renewer;
  mret i.

Definition _forget_held_lock (i : nat) (lost : bool) : L unit :=
  _ ← (if lost then update_handle mark_lost i else mret tt);
  h ← gets (handle_at i);
  _ ← modify (λ s, mkLocks (heap s) (dict_del (h_id h) (held s)) (renewing s));
  empty ← gets (λ s, bool_decide (held s = []));
  if (empty : bool) then _stop_lock_renewer else mret tt.

Definition _renew_held_lock (i : nat) (answer : reply unit) : L unit :=
  h ← gets (handle_at i);
  if h_lost h || h_released h then mret tt
  else
    match answer with
    | Ok _ => mret tt
    | Err e =>
        _ ← (if bool_decide (e = ConflictError ∨ e = AuthError) then _forget_held_lock i true else mret tt);
        raise e
    end.

(** [LeaseLock.renew]. *)
Definition renew (i : nat) (answer : reply unit) : L unit :=
  h ← gets (handle_at i);
  if h_released h then mret tt else _renew_held_lock i answer.

(** The [finally] of the release runs whatever the call answered. *)
Definition _release_held_lock (i : nat) (answer : reply unit) : L unit :=
  h ← gets (handle_at i);
  if h_released h then mret tt
  else
    let outcome : reply unit := if h_lost h then Ok tt else answer in
    _ ← match outcome with Err ConflictError => update_handle mark_lost i | _ => mret tt end;
    _ ← update_handle mark_released i;
    _ ← _forget_held_lock i false;
    match outcome with
    | Err ConflictError | Ok _ => mret tt
    | Err e => raise e
    end.

(** [LeaseLock.release], which is [close]. *)
Definition release (i : nat) (answer : reply unit) : L unit :=
  h ← gets (handle_at i);
  if h_released h then mret tt else _release_held_lock i answer.

Definition unlock (path : string) (answer : reply unit) : L unit :=
  mine ← gets (λ s, list_find (λ i, h_path (handle_at i s) = _canonical_lock_path path ∧ h_released (handle_at i s) = false)
                      (rev (locks s)));
  match mine with
  | Some (_, i) => release i answer
  | None => raise ConflictError
  end.

(** The handle [_read_range] reads under, and the one [write] writes under. *)
Definition reading_handle (path : string) (s : Locks) : option nat :=
  list_find (λ i, h_path (handle_at i s) = _canonical_lock_path path ∧ h_lost (handle_at i s) = false) (locks s) ≫= λ p, Some p.2.
Definition writing_handle (path : string) (s : Locks) : option nat :=
  list_find (λ i, h_path (handle_at i s) = _canonical_lock_path path ∧ h_mode (handle_at i s) = "w"
                  ∧ h_lost (handle_at i s) = false) (locks s) ≫= λ p, Some p.2.

(** The guard of [_write_with_lock]. *)
Definition may_write (h : Handle) : bool := bool_decide (h_mode h = "w") && negb (h_released h) && negb (h_lost h).

(** A round of the renewal thread over a snapshot of the table: a domain error of one
    lock does not stop the round. *)
Fixpoint renew_round (mine : list nat) (answers : nat → reply unit) : L unit :=
  match mine with
  | [] => mret tt
  | i :: rest => λ s, renew_round rest answers (renew i (answers i) s).1
  end.

(** [close]: releases every lock, whatever each answers, and stops the thread. *)
Fixpoint release_all (mine : list nat) (answers : nat → reply unit) : L unit :=
  match mine with
  | [] => mret tt
  | i :: rest => λ s, release_all rest answers (release i (answers i) s).1
  end.
Definition close (answers : nat → reply unit) : L unit :=
  mine ← gets locks;
  _ ← release_all mine answers;
  _stop_lock_renewer.

(** * The table *)

(** The table is in order: each entry is a handle of its id, neither lost nor
    released, and the renewal thread runs exactly while there are entries. *)
Record locks_ok (s : Locks) : Prop := {
  ok_entry : ∀ k i, (k, i) ∈ held s → ∃ h, heap s !! i = Some h ∧ h_id h = k ∧ h_lost h = false ∧ h_released h = false;
  ok_keys : NoDup (held s).*1;
  ok_renewing : renewing s = negb (bool_decide (held s = []))
}.

Inductive lock_op :=
| OLock (path mode : string) (answer : reply (string * Z))
| ORenew (i : nat) (answer : reply unit)
| ORelease (i : nat) (answer : reply unit)
| OUnlock (path : string) (answer : reply unit)
| ORenewRound (answers : nat → reply unit)
| OClose (answers : nat → reply unit).

(** Operations on handles the client gave out. *)
Definition lock_step (op : lock_op) (s : Locks) : Locks :=
  match op with
  | OLock p m a => (lock p m a s).1
  | ORenew i a => (renew i a s).1
  | ORelease i a => (release i a s).1
  | OUnlock p a => (unlock p a s).1
  | ORenewRound f => (renew_round (locks s) f s).1
  | OClose f => (close f s).1
  end.

(** A client only has the handles it was given. *)
Definition in_range (s : Locks) (i : nat) : Prop := is_Some (heap s !! i).
Definition op_valid (op : lock_op) (s : Locks) : Prop :=
  match op with
  | ORenew i _ | ORelease i _ => in_range s i
  | _ => True
  end.

Inductive lock_reachable : Locks → Prop :=
| LR_init : lock_reachable locks_init
| LR_step op s : lock_reachable s → op_valid op s → lock_reachable (lock_step op s).

(** * The operations keep the table *)

Lemma in_del k k' (i : nat) d : NoDup d.*1 → (k', i) ∈ dict_del k d → (k', i) ∈ d ∧ k' ≠ k.
Proof.
  intros Hnd Hin. split; [by apply (sublist_subseteq _ _ (dict_del_sublist k d))|]. intros ->.
  apply (dict_elem_get k i) in Hin; [|by apply dict_ok_del]. by rewrite dict_get_del_eq in Hin.
Qed.

Lemma in_set k k' (i j : nat) d : NoDup d.*1 → (k', j) ∈ dict_set k i d → (k' = k ∧ j = i) ∨ ((k', j) ∈ d ∧ k' ≠ k).
Proof.
  intros Hnd Hin. apply dict_elem_get in Hin; [|by apply dict_ok_set]. rewrite dict_get_set in Hin.
  case_decide; [left; naive_solver|]. right. split; [by apply dict_get_elem|done].
Qed.

Lemma set_nonempty k (i : nat) d : dict_set k i d ≠ [].
Proof. destruct d as [|[k' j] d]; simpl; [done|]. by case_decide. Qed.

Lemma handle_at_lookup i s h : heap s !! i = Some h → handle_at i s = h.
Proof. unfold handle_at. by intros ->. Qed.

(** Removing the entry of a handle, after the handle itself was changed. *)
Lemma remove_entry s i f :
  locks_ok s → (∀ h, h_id (f h) = h_id h) → (∃ h, heap s !! i = Some h) →
  let d := dict_del (h_id (handle_at i s)) (held s) in
  locks_ok (mkLocks (alter f i (heap s)) d (if bool_decide (d = []) then false else renewing s)).
Proof.
  intros [He Hk Hr] Hf [h Hh] d. unfold d. rewrite (handle_at_lookup _ _ _ Hh). constructor; cbn.
  - intros k j Hin. apply in_del in Hin as [Hin Hne]; [|done]. destruct (He k j Hin) as (g & Hg & <- & ? & ?).
    exists g. split_and!; try done. rewrite list_lookup_alter_ne; [done|]. intros ->. simplify_eq.
  - by apply dict_ok_del.
  - destruct (decide (dict_del (h_id h) (held s) = [])) as [Hd|Hd]; [by rewrite !bool_decide_true|].
    rewrite !bool_decide_false, Hr by done. rewrite bool_decide_false; [done|]. intros E. apply Hd. by rewrite E.
Qed.

Lemma gets_bind {A B} (f : Locks → A) (k : A → L B) s : (gets f ≫= k) s = k (f s) s.
Proof. done. Qed.
Lemma modify_bind {B} (f : Locks → Locks) (k : unit → L B) s : (modify f ≫= k) s = k tt (f s).
Proof. done. Qed.
Lemma ret_bind {A B} (a : A) (k : A → L B) s : (mret a ≫= k) s = k a s.
Proof. done. Qed.

(** What forgetting a handle leaves. *)
Definition forgotten (i : nat) (f : Handle → Handle) (s : Locks) : Locks :=
  let d := dict_del (h_id (handle_at i s)) (held s) in
  mkLocks (alter f i (heap s)) d (if bool_decide (d = []) then false else renewing s).

Lemma handle_at_alter f i s r d : (∀ h, h_id (f h) = h_id h) → h_id (handle_at i (mkLocks (alter f i (heap s)) d r)) = h_id (handle_at i s).
Proof.
  intros Hf. unfold handle_at. cbn. rewrite list_lookup_alter_eq. destruct (heap s !! i); cbn; [by rewrite Hf|done].
Qed.

Lemma forget_lost i s : _forget_held_lock i true s = (forgotten i mark_lost s, Ok tt).
Proof.
  unfold _forget_held_lock, forgotten, update_handle, mbind, M_bind, modify, gets. cbn.
  rewrite handle_at_alter by done. by case_bool_decide.
Qed.

Lemma forget_kept i s : _forget_held_lock i false s = (forgotten i id s, Ok tt).
Proof.
  unfold _forget_held_lock, forgotten, mbind, M_bind, modify, gets. cbn.
  assert (alter id i (heap s) = heap s) as -> by (apply list_alter_id; done). by case_bool_decide.
Qed.

Lemma forgotten_forgotten i f g s :
  (∀ h, h_id (f h) = h_id h) →
  forgotten i g (mkLocks (alter f i (heap s)) (held s) (renewing s)) = forgotten i (g ∘ f) s.
Proof. intros Hf. unfold forgotten. rewrite handle_at_alter by done. cbn. by rewrite list_alter_alter_eq. Qed.

(** The release of a handle, whatever its call answers. *)
Definition outcome_of_release (h : Handle) (answer : reply unit) : reply unit :=
  if h_released h || h_lost h then Ok tt else match answer with Err ConflictError => Ok tt | r => r end.

Lemma release_spec i answer s :
  let h := handle_at i s in
  (release i answer s).2 = outcome_of_release h answer ∧
  ((release i answer s).1 = if h_released h then s
     else if h_lost h then forgotten i mark_released s
     else match answer with
          | Err ConflictError => forgotten i (mark_released ∘ mark_lost) s
          | _ => forgotten i mark_released s
          end).
Proof.
  cbv zeta. unfold release, outcome_of_release. rewrite gets_bind.
  destruct (h_released (handle_at i s)) eqn:Hr; [done|]. unfold _release_held_lock. rewrite gets_bind, Hr. cbn [orb].
  destruct (h_lost (handle_at i s)); [|destruct answer as [[]|[]]];
    rewrite ?ret_bind; unfold update_handle; rewrite ?modify_bind;
    (erewrite bind_ok by apply forget_kept); (split; [done|]); cbn [fst].
  all: by repeat rewrite forgotten_forgotten.
Qed.

(** * Every operation keeps the table *)

Lemma forgotten_ok i f s : locks_ok s → (∀ h, h_id (f h) = h_id h) → in_range s i → locks_ok (forgotten i f s).
Proof. intros Hok Hf Hi. by apply remove_entry. Qed.

Lemma forgotten_range i f s j : in_range (forgotten i f s) j ↔ in_range s j.
Proof. 
  unfold in_range, forgotten. cbn. destruct (decide (i = j)) as [<-|].
  - by rewrite list_lookup_alter_eq, fmap_is_Some.
  - by rewrite list_lookup_alter_ne.
Qed.

Lemma release_ok i answer s :
  locks_ok s → in_range s i → locks_ok (release i answer s).1 ∧ ∀ j, in_range (release i answer s).1 j ↔ in_range s j.
Proof.
  intros Hok Hi. destruct (release_spec i answer s) as [_ ->].
  destruct (h_released _); [done|]. destruct (h_lost _); [|destruct answer as [[]|[]]];
    (split; [by apply forgotten_ok|apply forgotten_range]).
Qed.

Lemma renew_spec i answer s :
  let h := handle_at i s in
  renew i answer s =
    if h_released h || h_lost h then (s, Ok tt)
    else match answer with
         | Ok _ => (s, Ok tt)
         | Err e => (if bool_decide (e = ConflictError ∨ e = AuthError) then forgotten i mark_lost s else s, Err e)
         end.
Proof.
  cbv zeta. unfold renew. rewrite gets_bind. destruct (h_released (handle_at i s)) eqn:Hr; [done|].
  unfold _renew_held_lock. rewrite gets_bind, Hr, orb_false_r. cbn [orb].
  destruct (h_lost (handle_at i s)); [done|]. destruct answer as [[]|e]; [done|]. case_bool_decide; [|done].
  by erewrite bind_ok by apply forget_lost.
Qed.

Lemma renew_ok i answer s :
  locks_ok s → in_range s i → locks_ok (renew i answer s).1 ∧ ∀ j, in_range (renew i answer s).1 j ↔ in_range s j.
Proof.
  intros Hok Hi. rewrite renew_spec. cbv zeta. destruct (_ || _); [done|]. destruct answer as [[]|e]; [done|]. cbn [fst].
  case_bool_decide; [|done]. split; [by apply forgotten_ok|apply forgotten_range].
Qed.

Lemma lock_keeps path mode answer s : locks_ok s → locks_ok (lock path mode answer s).1.
Proof.
  intros Hok. unfold lock. destruct (bool_decide _); [|done]. cbn [ensure]. rewrite ret_bind. destruct answer as [[k l]|e]; [|done].
  cbn. destruct Hok as [He Hk Hr]. constructor; cbn.
  - intros k' j Hin. apply in_set in Hin as [[-> ->]|[Hin Hne]]; [| |done].
    { eexists. split; [apply list_lookup_middle; done|done]. }
    destruct (He k' j Hin) as (h & Hh & ?). exists h. split; [|done]. by apply lookup_app_l_Some.
  - by apply dict_ok_set.
  - rewrite bool_decide_false; [done|]. apply set_nonempty.
Qed.

Lemma rounds_ok (step : nat → (nat → reply unit) → Locks → Locks) :
  (∀ i answers s, locks_ok s → in_range s i → locks_ok (step i answers s) ∧ ∀ j, in_range (step i answers s) j ↔ in_range s j) →
  ∀ mine answers s, locks_ok s → Forall (in_range s) mine → locks_ok (foldl (λ s i, step i answers s) s mine).
Proof.
  intros Hstep mine. induction mine as [|i rest IH]; intros answers s Hok Hin; [done|]. apply Forall_cons in Hin as [Hi Hin].
  destruct (Hstep i answers s Hok Hi) as [Hok' Hr]. apply IH; [done|]. eapply Forall_impl; [exact Hin|]. intros j. apply Hr.
Qed.

Lemma renew_round_fold mine answers s : (renew_round mine answers s).1 = foldl (λ s i, (renew i (answers i) s).1) s mine.
Proof. revert s. induction mine as [|i rest IH]; intros s; [done|]. apply IH. Qed.
Lemma release_all_fold mine answers s : release_all mine answers s = (foldl (λ s i, (release i (answers i) s).1) s mine, Ok tt).
Proof. revert s. induction mine as [|i rest IH]; intros s; [done|]. apply IH. Qed.

Lemma locks_range s : locks_ok s → Forall (in_range s) (locks s).
Proof.
  intros Hok. apply Forall_forall. intros i ([k j] & -> & Hin)%list_elem_of_fmap. destruct (ok_entry _ Hok k j Hin) as (h & Hh & _). by exists h.
Qed.

(** After [close] the table is empty. *)
Lemma release_empties i answer s k : (k, i) ∈ held s → locks_ok s → ∀ j, (k, j) ∉ held (release i answer s).1.
Proof.
  intros Hin Hok j Hj. destruct (ok_entry _ Hok k i Hin) as (h & Hh & Hk & Hl & Hr).
  destruct (release_spec i answer s) as [_ E]. rewrite (handle_at_lookup _ _ _ Hh), Hr, Hl in E.
  assert (held (release i answer s).1 = dict_del k (held s)) as Hd
    by (rewrite E; destruct answer as [[]|[]]; cbn; by rewrite (handle_at_lookup _ _ _ Hh), Hk).
  rewrite Hd in Hj. apply in_del in Hj as [_ ?]; [done|apply Hok].
Qed.

Lemma release_shrinks i answer s e : e ∈ held (release i answer s).1 → e ∈ held s.
Proof.
  destruct (release_spec i answer s) as [_ ->].
  destruct (h_released _); [done|]. destruct (h_lost _); [|destruct answer as [[]|[]]];
    apply (sublist_subseteq _ _ (dict_del_sublist _ _)).
Qed.

Lemma release_all_held mine answers s k j :
  locks_ok s → Forall (in_range s) mine →
  (k, j) ∈ held (foldl (λ s i, (release i (answers i) s).1) s mine) → (k, j) ∈ held s ∧ j ∉ mine.
Proof.
  revert s. induction mine as [|i rest IH]; intros s Hok Hin; simpl; [set_solver|]. apply Forall_cons in Hin as [Hi Hin].
  destruct (release_ok i (answers i) s Hok Hi) as [Hok' Hr].
  intros [He Hn]%IH; [|done|by eapply Forall_impl; [exact Hin|]; intros x; apply Hr].
  pose proof (release_shrinks _ _ _ _ He) as Hs. split; [done|]. intros [->|]%elem_of_cons; [|done].
  by apply (release_empties i (answers i) s k) in He.
Qed.

Lemma closed_table answers s : locks_ok s → held (foldl (λ s i, (release i (answers i) s).1) s (locks s)) = [].
Proof.
  intros Hok. apply elem_of_nil_inv. intros [k j] Hin. apply release_all_held in Hin as [Hin Hn]; [|done|by apply locks_range].
  apply Hn, list_elem_of_fmap. by exists (k, j).
Qed.

Lemma close_empties answers s : locks_ok s → held (close answers s).1 = [].
Proof. intros Hok. unfold close. rewrite gets_bind. erewrite bind_ok by apply release_all_fold. by apply closed_table. Qed.

Lemma reachable_locks_ok s : lock_reachable s → locks_ok s.
Proof.
  induction 1 as [|op s Hr Hok Hv].
  - constructor; cbn; [by intros k i ?%elem_of_nil|constructor|done].
  - destruct op as [p m a|i a|i a|p a|f|f]; cbn [lock_step].
    + by apply lock_keeps.
    + by apply renew_ok.
    + by apply release_ok.
    + unfold unlock. rewrite gets_bind. destruct (list_find _ _) as [[n i]|] eqn:Hf; [|done].
      apply list_find_Some in Hf as (Hi & _). apply list_elem_of_lookup_2, list_elem_of_In, in_rev, list_elem_of_In in Hi.
      apply release_ok; [done|]. by apply (proj1 (Forall_forall _ _) (locks_range s Hok)).
    + rewrite renew_round_fold. apply (rounds_ok (λ i f s, (renew i (f i) s).1)); [|done|by apply locks_range].
      intros i answers s'. apply renew_ok.
    + unfold close. rewrite gets_bind. erewrite bind_ok by apply release_all_fold. cbn.
      pose proof (rounds_ok (λ i f s, (release i (f i) s).1) (λ i answers s', release_ok i (answers i) s') (locks s) f s Hok (locks_range s Hok)) as [He Hk _].
      constructor; cbn; [done|done|]. symmetry. apply negb_false_iff, bool_decide_eq_true, (closed_table f s Hok).
Qed.

(** The table of held locks stays in order: in every state the operations of a
    client reach, whatever the calls answer, each entry is a handle of its id that
    is neither lost nor released, and the renewal thread runs exactly while there
    are entries; the handle a write picks may write; closing empties the table. *)
Theorem lock_table_in_order s :
  lock_reachable s →
  locks_ok s
  ∧ (∀ path i, writing_handle path s = Some i → may_write (handle_at i s) = true)
  ∧ (∀ answers, held (lock_step (OClose answers) s) = []).
Proof.
  intros Hr%reachable_locks_ok. split; [done|]. split; [|intros answers; by apply close_empties].
  intros path i. unfold writing_handle. intros ([n j] & Hf & [= ->])%bind_Some.
  apply list_find_Some in Hf as (Hi & (_ & Hm & Hl) & _). apply list_elem_of_lookup_2 in Hi.
  apply list_elem_of_fmap in Hi as ([k j] & -> & Hin). destruct (ok_entry _ Hr k j Hin) as (h & Hh & _ & _ & Hrel).
  simpl in *. rewrite (handle_at_lookup _ _ _ Hh) in *. unfold may_write. by rewrite bool_decide_true, Hl, Hrel.
Qed.
Definition demo_locks : Locks :=
  lock_step (ORenew 0 (Err AuthError)) (lock_step (OLock "b" "w" (Ok ("id2", 30%Z))) (lock_step (OLock "/a/" "r" (Ok ("id1", 30%Z))) locks_init)).
Lemma lock_table_in_order_witness :
  locks_ok demo_locks
  ∧ (∀ path i, writing_handle path demo_locks = Some i → may_write (handle_at i demo_locks) = true)
  ∧ (∀ answers, held (lock_step (OClose answers) demo_locks) = []).
Proof. apply lock_table_in_order. repeat (apply LR_step; [|first [exact I|by eexists]]). apply LR_init. Defined.

(** A release is final: whatever the call answers, the handle is released and out
    of the table afterwards, a [ConflictError] is not an error, and releasing again
    does nothing and answers nothing else. *)
Theorem release_is_final i answer again s :
  lock_reachable s → in_range s i →
  let out := release i answer s in
  h_released (handle_at i out.1) = true
  ∧ (∀ k, (k, i) ∉ held out.1)
  ∧ (answer = Err ConflictError → out.2 = Ok tt)
  ∧ release i again out.1 = (out.1, Ok tt).
Proof.
  intros Hr%reachable_locks_ok [h Hh] out.
  assert (h_released (handle_at i out.1) = true) as Hrel.
  { unfold out. destruct (release_spec i answer s) as [_ ->]. rewrite (handle_at_lookup _ _ _ Hh).
    destruct (h_released h) eqn:E; [by rewrite (handle_at_lookup _ _ _ Hh)|].
    destruct (h_lost h); [|destruct answer as [[]|[]]]; unfold handle_at; cbn; by rewrite list_lookup_alter_eq, Hh. }
  split; [done|]. split; [|split].
  - intros k Hin. destruct (release_ok i answer s Hr ltac:(by eexists)) as [Hok _].
    destruct (ok_entry _ Hok k i Hin) as (g & Hg & _ & _ & Hg'). fold out in Hg. rewrite (handle_at_lookup _ _ _ Hg) in Hrel. congruence.
  - intros ->. unfold out. destruct (release_spec i (Err ConflictError) s) as [-> _]. unfold outcome_of_release. by destruct (_ || _).
  - unfold release at 1. rewrite gets_bind, Hrel. done.
Qed.
Lemma release_is_final_witness :
  let answer : reply unit := Err ConflictError in
  let out := release 1 answer demo_locks in
  h_released (handle_at 1 out.1) = true ∧ (∀ k, (k, 1%nat) ∉ held out.1)
  ∧ (answer = Err ConflictError → out.2 = Ok tt) ∧ release 1 (Ok tt) out.1 = (out.1, Ok tt).
Proof.
  apply release_is_final; [|by eexists]. repeat (apply LR_step; [|first [exact I|by eexists]]). apply LR_init.
Defined.
