(* ===== verification/Session.v ===== *)
(** The operations of [DistributedDFShaClient] (dfsha/client/distributed_client.py)
    as programs over a cluster: the RPCs each makes, in order, with its
    [try]/[except]/[finally].

    The cluster is the interface [Cluster]: what an RPC of a ControlNode answers
    once [_call] is done with it (RpcClient.v), what a DataNode answers to a read or
    a write stream, and fresh identifiers.  The client's own state is its lock table
    (ClientLocks.v), its session, its local files and the requests it has made.

    The transfers of [_in_parallel] run one after the other in the order [schedule]
    gives, until the first fails: a transfer that is cut halfway when another one
    failed counts as not started.  The rounds of the renewal thread are in
    ClientLocks.v.  A local file that cannot be read or written is not modelled. *)

From Stdlib Require Import QArith.
From S2P Require Import Prelude Exceptions Dict Crypto Bytes Paths TreeData BlockToken Addresses Auth.
From S2P Require Tree.
From S2P Require Import Handlers DataNode RpcClient ClientData ClientTransfer ClientLocks.

Open Scope Z_scope.

(** What an RPC answers. *)
Definition answer_of (r : request) : Type :=
  match r with
  | RListDir _ => list DirEntryData
  | RBeginUpload _ _ _ => list BlockLocation
  | RListBlocks _ => list BlockInfo
  | RLock _ _ _ => string * Z
  | RBeginWrite _ _ _ _ _ => BeginWriteResponse
  | RCommitWrite _ _ _ _ _ _ => Z
  | RLogin _ _ => LoginResponse
  | RDataNodeInventory _ => list (string * Z * Z)
  | _ => unit
  end.

Class Cluster (W : Type) := {
  rpc (md : list (string * string)) (r : request) : W → W * result exn (answer_of r);
  replica_read : W → string → CBlock → Z → Z → list (list Z) * result RpcError unit;
  replica_write (address : string) (block : CBlock) (stream : list Msg) : W → W * result RpcError (string * Z);
  fresh_id : W → W * string
}.

Record Identity := mkIdentity {
  id_username : option string;
  id_groups : list string;
  id_admin : bool
}.

Record Client (W : Type) := mkClient {
  cl_world : W;
  cl_locks : Locks;
  cl_auth : list (string * string);
  cl_identity : Identity;
  cl_files : gmap string (list Z);
  cl_calls : list request
}.
Arguments mkClient {W}.
Arguments cl_world {W}.
Arguments cl_locks {W}.
Arguments cl_auth {W}.
Arguments cl_identity {W}.
Arguments cl_files {W}.
Arguments cl_calls {W}.

Section session.
Context {W : Type} `{!Cluster W}.
(** [_view_metadata] and the order the threads of a transfer run in. *)
Context (view_metadata : list (string * string)) (schedule : nat → list nat).

Notation C := (M (Client W) client_error).

Definition with_world (w : W) (c : Client W) : Client W :=
  mkClient w (cl_locks c) (cl_auth c) (cl_identity c) (cl_files c) (cl_calls c).
Definition with_locks (l : Locks) (c : Client W) : Client W :=
  mkClient (cl_world c) l (cl_auth c) (cl_identity c) (cl_files c) (cl_calls c).
Definition with_local (f : gmap string (list Z)) (c : Client W) : Client W :=
  mkClient (cl_world c) (cl_locks c) (cl_auth c) (cl_identity c) f (cl_calls c).

Definition client_init (w : W) (files : gmap string (list Z)) : Client W :=
  mkClient w locks_init [] (mkIdentity None [] false) files [].

(** * Calls and handlers of exceptions *)

Definition raise_exn {A} (e : exn) : C A := raise (ByExn e).

(** A call whose error is looked at, and one that raises it. *)
Definition ask (r : request) : C (result exn (answer_of r)) := λ c,
  let out := rpc (cl_auth c ++ view_metadata) r (cl_world c) in
  (mkClient out.1 (cl_locks c) (cl_auth c) (cl_identity c) (cl_files c) (cl_calls c ++ [r]), Ok out.2).
Definition call (r : request) : C (answer_of r) :=
  a ← ask r;
  match a with
  | Ok x => mret x
  | Err e => raise_exn e
  end.

Definition _new_op_id : C string := λ c,
  let out := fresh_id (cl_world c) in (with_world out.1 c, Ok out.2).

(** [except (grpc.RpcError, OSError, DFShaError)]. *)
Definition caught (e : client_error) : bool :=
  match e with ByRpc _ => true | ByExn e => is_domain e end.
(** [raise _translate(exc)] of a [grpc.RpcError], [raise] of the others. *)
Definition translated (e : client_error) : client_error :=
  match e with ByRpc e => ByExn (_translate e) | ByExn e => ByExn e end.

(** [try: m except ...: handler; raise]. *)
Definition on_failure {A} (m : C A) (handler : C unit) : C A := λ c,
  match m c with
  | (c', Err e) =>
      if caught e then
        match handler c' with
        | (c'', Ok _) => (c'', Err (translated e))
        | (c'', Err e') => (c'', Err e')
        end
      else (c', Err e)
  | r => r
  end.
(** [try: m except DFShaError: pass]. *)
Definition ignoring (m : C unit) : C unit := λ c,
  match m c with
  | (c', Err (ByExn e)) => if is_domain e then (c', Ok tt) else (c', Err (ByExn e))
  | r => r
  end.
(** [try: m finally: f]. *)
Definition finally {A} (m : C A) (f : C unit) : C A := λ c,
  match m c with
  | (c', r) =>
      match f c' with
      | (c'', Ok _) => (c'', r)
      | (c'', Err e) => (c'', Err e)
      end
  end.
(** [except grpc.RpcError as exc: raise _translate(exc)]. *)
Definition translating {A} (m : C A) : C A := λ c,
  match m c with
  | (c', Err e) => (c', Err (translated e))
  | r => r
  end.
(** [except BaseException: handler; raise]. *)
Definition cleaning {A} (m : C A) (handler : Client W → Client W) : C A := λ c,
  match m c with
  | (c', Err e) => (handler c', Err e)
  | r => r
  end.

(** * Sessions and the namespace *)

Definition login (username password : string) : C unit :=
  response ← call (RLogin username password);
  modify (λ c, mkClient (cl_world c) (cl_locks c) [("authorization", "Bearer " +:+ lr_token response)]
                 (mkIdentity (Some (lr_username response)) (lr_groups response) (lr_is_admin response))
                 (cl_files c) (cl_calls c)).

Definition create_user (username password : string) (groups : option (list string)) (admin : bool) : C unit :=
  op ← _new_op_id; call (RCreateUser op username password (default [] groups) admin).
Definition change_password (new current username : string) : C unit :=
  op ← _new_op_id; call (RChangePassword op username current new).
Definition list_dir (path : string) : C (list DirEntryData) := call (RListDir path).
Definition make_dir (path : string) : C unit := op ← _new_op_id; call (RMakeDir op path).
Definition remove_dir (path : string) : C unit := op ← _new_op_id; call (RRemoveDir op path).
Definition remove (path : string) : C unit := op ← _new_op_id; call (RRemove op path).
Definition chmod (path : string) (mode : Z) : C unit := op ← _new_op_id; call (RChmod op path mode).
Definition chown (path owner group : string) : C unit := op ← _new_op_id; call (RChown op path owner group).

(** * Locks *)

Definition on_locks {A} (m : M Locks exn A) : C A := λ c,
  let out := m (cl_locks c) in
  (with_locks out.1 c, match out.2 with Ok a => Ok a | Err e => Err (ByExn e) end).
Definition the_handle (i : nat) : C Handle := gets (λ c, handle_at i (cl_locks c)).

Definition lock (path mode : string) : C nat :=
  if bool_decide (mode = "r" ∨ mode = "w") then
    op ← _new_op_id;
    answer ← ask (RLock op (_canonical_lock_path path) mode);
    on_locks (ClientLocks.lock path mode answer)
  else raise_exn InvalidPathError.
Definition open (path mode : string) : C nat := lock path mode.

Definition renew (i : nat) : C unit :=
  h ← the_handle i;
  if h_released h || h_lost h then mret tt
  else
    op ← _new_op_id;
    answer ← ask (RRenewLock op (h_path h) (h_id h));
    on_locks (ClientLocks.renew i answer).

Definition release (i : nat) : C unit :=
  h ← the_handle i;
  if h_released h then mret tt
  else if h_lost h then on_locks (ClientLocks.release i (Ok tt))
  else
    op ← _new_op_id;
    answer ← ask (RUnlock op (h_path h) (h_id h));
    on_locks (ClientLocks.release i answer).

Definition unlock (path : string) : C unit :=
  mine ← gets (λ c, list_find (λ i, h_path (handle_at i (cl_locks c)) = _canonical_lock_path path
                                    ∧ h_released (handle_at i (cl_locks c)) = false) (rev (locks (cl_locks c))));
  match mine with
  | Some (_, i) => release i
  | None => raise_exn ConflictError
  end.

(** * Transfers *)

Fixpoint run_transfers {I R} (transfer : I → C R) (items : list I) (order : list nat) : C (list (nat * R)) :=
  match order with
  | [] => mret []
  | i :: rest =>
      match items !! i with
      | Some item =>
          r ← transfer item;
          rs ← run_transfers transfer items rest;
          mret ((i, r) :: rs)
      | None => run_transfers transfer items rest
      end
  end.
(** The results in the order of [items]. *)
Definition in_order {R} (n : nat) (results : list (nat * R)) : list R :=
  omap (λ i, snd <$> list_find (λ p, p.1 = i) results ≫= λ p, Some p.2) (seq 0 n).
Definition _in_parallel {I R} (transfer : I → C R) (items : list I) : C (list R) :=
  results ← run_transfers transfer items (schedule (length items));
  mret (in_order (length items) results).

(** [_write_block] of the local content [file] from [position]. *)
Definition _write_block (block : CBlock) (file : list Z) (position : Z) : C (string * Z) :=
  match cb_addresses block with
  | [] => raise_exn PyError
  | address :: _ => λ c,
      let out := replica_write address block (write_messages block file position) (cl_world c) in
      (with_world out.1 c, match out.2 with Ok r => Ok r | Err e => Err (ByRpc e) end)
  end.

Definition block_at (l : BlockLocation) : CBlock := mkCBlock (loc_id l) (loc_addresses l) (loc_size l) (loc_capability l).
Definition block_in (i : BlockInfo) : CBlock := mkCBlock (i_id i) (i_addresses i) (i_size i) (i_capability i).

Definition send_block (remote : string) (file : list Z) (item : CBlock * Z) : C Z :=
  written ← _write_block item.1 file item.2;
  op ← _new_op_id;
  _ ← call (RConfirmBlock op remote (cb_id item.1) written.1 written.2);
  mret written.2.

(** [local] is the content of the local path when it is a file. *)
Definition upload (local : option (list Z)) (remote : string) : C Z :=
  match local with
  | None => raise_exn NotAFileError
  | Some file =>
      op ← _new_op_id;
      begun ← call (RBeginUpload op remote (zlen file));
      let blocks := block_at <$> begun in
      total ← on_failure
        (ns ← _in_parallel (send_block remote file) (zip blocks (_block_starts blocks)); mret (sumZ ns))
        (ignoring (op' ← _new_op_id; call (RAbortUpload op' remote)));
      op'' ← _new_op_id;
      _ ← call (RCompleteUpload op'' remote);
      mret total
  end.

Definition fetch_in (tmp : string) (item : CBlock * Z) : C Z := λ c,
  let out := fetch_block (replica_read (cl_world c)) (default [] (cl_files c !! tmp)) item.1 item.2 in
  (with_local (<[tmp := out.1]> (cl_files c)) c, out.2).
Definition discard (tmp : string) (c : Client W) : Client W := with_local (delete tmp (cl_files c)) c.
(** [os.replace]. *)
Definition replace (tmp local : string) : C unit := modify (λ c,
  with_local (<[local := default [] (cl_files c !! tmp)]> (delete tmp (cl_files c))) c).

Definition download (remote local : string) : C Z :=
  held ← lock remote "r";
  uid ← _new_op_id;
  let tmp := local +:+ ".part-" +:+ uid in
  finally
    (cleaning (translating
      (listed ← call (RListBlocks remote);
       let blocks := block_in <$> listed in
       _ ← modify (λ c, with_local (<[tmp := replicate (Z.to_nat (sumZ (cb_size <$> blocks))) 0]> (cl_files c)) c);
       ns ← _in_parallel (fetch_in tmp) (zip blocks (_block_starts blocks));
       _ ← replace tmp local;
       mret (sumZ ns)))
      (discard tmp))
    (ignoring (release held)).

(** * Ranges *)

(** The body of [_read_range] under its lock: the file it leaves and the bytes written. *)
Definition read_under_lock (path : string) (offset : Z) (length : option Z) (fh : PyFile) : C (PyFile * Z) :=
  translating
    (listed ← call (RListBlocks path);
     w ← gets cl_world;
     match ClientData._read_range (replica_read w) (block_in <$> listed) offset length fh with
     | (fh', Ok n) => mret (fh', n)
     | (_, Err e) => raise e
     end).

Definition _read_range (path : string) (offset : Z) (length : option Z) (fh : PyFile) (held : option nat) : C (PyFile * Z) :=
  if (offset <? 0) || (match length with Some n => n <? 0 | None => false end) then raise_exn InvalidPathError
  else
    mine ← gets (λ c, match held with Some i => Some i | None => reading_handle path (cl_locks c) end);
    match mine with
    | Some _ => read_under_lock path offset length fh
    | None => i ← lock path "r"; finally (read_under_lock path offset length fh) (ignoring (release i))
    end.

Definition read (path : string) (offset : Z) (length : option Z) : C (list Z) :=
  out ← _read_range path offset length (mkPyFile [] 0) None; mret (f_bytes out.1).

Definition read_to_file (path : string) (offset : Z) (length : option Z) (local : string) : C Z :=
  uid ← _new_op_id;
  let tmp := local +:+ ".part-" +:+ uid in
  cleaning
    (_ ← modify (λ c, with_local (<[tmp := []]> (cl_files c)) c);
     out ← _read_range path offset length (mkPyFile [] 0) None;
     _ ← modify (λ c, with_local (<[tmp := f_bytes out.1]> (cl_files c)) c);
     _ ← replace tmp local;
     mret out.2)
    (discard tmp).

(** * Writes *)

Definition slot_of (s : WriteSlot) : Slot :=
  mkSlotRow (ws_index s)
    (mkCBlock (ws_old_id s) (ws_old_addresses s) (ws_old_size s) (ws_old_capability s))
    (mkCBlock (ws_new_id s) (ws_new_addresses s) (ws_new_size s) (ws_new_capability s)).

Definition write_slot (block_size offset : Z) (data : list Z) (s : WriteSlot) : C Tree.Confirmed :=
  w ← gets cl_world;
  content ← lift (_slot_content (replica_read w) (slot_of s) block_size offset data);
  written ← _write_block (sl_new (slot_of s)) content 0;
  mret (ws_index s, ws_new_id s, written.1, written.2).

Fixpoint write_all (block_size offset : Z) (data : list Z) (slots : list WriteSlot) : C (list Tree.Confirmed) :=
  match slots with
  | [] => mret []
  | s :: rest =>
      c ← write_slot block_size offset data s;
      cs ← write_all block_size offset data rest;
      mret (c :: cs)
  end.

Definition _write_with_lock (i : nat) (offset : Z) (data : list Z) : C Z :=
  h ← the_handle i;
  if may_write h then
    op ← _new_op_id;
    begun ← call (RBeginWrite op (h_path h) (h_id h) offset (zlen data));
    _ ← on_failure
      (confirmed ← write_all (bw_block_size begun) offset data (bw_slots begun);
       op' ← _new_op_id;
       _ ← call (RCommitWrite op' (h_path h) (bw_write_id begun) (h_id h) (bw_base_version begun) confirmed);
       mret tt)
      (ignoring (op' ← _new_op_id; call (RAbortWrite op' (h_path h) (bw_write_id begun) (h_id h))));
    mret (zlen data)
  else raise_exn ConflictError.

Definition write (path : string) (offset : Z) (data : list Z) : C Z :=
  mine ← gets (λ c, writing_handle path (cl_locks c));
  match mine with
  | Some i => _write_with_lock i offset data
  | None => i ← lock path "w"; finally (_write_with_lock i offset data) (ignoring (release i))
  end.

(** [LeaseLock.read] and [LeaseLock.write]. *)
Definition handle_read (i : nat) (offset : Z) (length : option Z) : C (list Z) :=
  h ← the_handle i;
  out ← _read_range (h_path h) offset length (mkPyFile [] 0) (Some i);
  mret (f_bytes out.1).
Definition handle_write (i : nat) (offset : Z) (data : list Z) : C Z := _write_with_lock i offset data.

Fixpoint release_each (mine : list nat) : C unit :=
  match mine with
  | [] => mret tt
  | i :: rest => _ ← ignoring (release i); release_each rest
  end.
Definition close : C unit :=
  mine ← gets (λ c, locks (cl_locks c));
  _ ← release_each mine;
  on_locks _stop_lock_renewer.
End session.
