(* ===== verification/ClusterWorld.v ===== *)
(** The cluster a client talks to, made of the parts of the program: a leader that
    answers the RPCs with the handlers of [ControlNodeServicer], and a network of
    DataNodes.  It discharges the interface [Cluster] of Session.v.

    A call reaches the leader at its first attempt (which node is the leader, and
    the retries, are RpcClient.v).  The DeleteBlock calls a handler makes reach the
    DataNodes before its answer reaches the client.  Commands of other clients
    arrive at every barrier and commit ([others_at]); on the network only this
    client and the deletions of its calls act. *)

From Stdlib Require Import QArith.
From S2P Require Import Prelude Exceptions Dict Crypto Bytes BlockToken Addresses Auth BlockStore.
From S2P Require Import Servicer Handlers DataNode RpcClient ClientData ClientRead Session.

Open Scope Z_scope.

Record World := mkWorld {
  w_node : Node;
  w_net : Net;
  w_ids : nat;
  w_calls : nat
}.

Section cluster.
Context `{!Jwt, !Aead} (cfg : Config) (env : Env) (csize : Z).
(** What the DataNodes observe during the [n]-th transfer, the identifiers the
    client draws, and how the ControlNode sees the client. *)
Context (denv : nat → DEnv) (ids : nat → string) (peer_name : string).

(** The handler of a request with its answer. *)
Definition serve_rpc (ctx : Ctx) (r : request) : H (answer_of r) :=
  match r with
  | RListDir p => ListDir cfg env ctx p
  | RMakeDir op p => MakeDir cfg env ctx op p
  | RRemoveDir op p => RemoveDir cfg env ctx op p
  | RRemove op p => Remove cfg env ctx op p
  | RBeginUpload op p z => BeginUpload cfg env ctx op p z
  | RConfirmBlock op p b k z => ConfirmBlock cfg env ctx op p b k z
  | RCompleteUpload op p => CompleteUpload cfg env ctx op p
  | RAbortUpload op p => AbortUpload cfg env ctx op p
  | RListBlocks p => ListBlocks cfg env ctx p
  | RLock op p m => Lock cfg env ctx op p m
  | RRenewLock op p i => RenewLock cfg env ctx op p i
  | RUnlock op p i => Unlock cfg env ctx op p i
  | RBeginWrite op p i o l => BeginWrite cfg env ctx op p i o l
  | RCommitWrite op p w i b c => CommitWrite cfg env ctx op p w i b c
  | RAbortWrite op p w i => AbortWrite cfg env ctx op p w i
  | RLogin n pw => Login cfg env n pw
  | RCreateUser op n pw gs a => CreateUser cfg env ctx op n pw gs a
  | RChangePassword op n c new => ChangePassword cfg env ctx op n c new
  | RChmod op p m => Chmod cfg env ctx op p m
  | RChown op p o g => Chown cfg env ctx op p o g
  | RDataNodeInventory a => DataNodeInventory cfg env ctx a
  end.

(** A DeleteBlock call of the ControlNode: its error is ignored. *)
Definition deliver (d : DEnv) (e : sent_event) (net : Net) : Net :=
  match e with
  | Deleted a bid md => alter (λ n, (DeleteBlock d n md bid).1) a net
  | _ => net
  end.

Definition world_rpc (md : list (string * string)) (r : request) (w : World) : World * result exn (answer_of r) :=
  let out := serve_rpc (mkCtx md peer_name) r (w_node w) in
  let events := drop (length (sent (w_node w))) (sent out.1) in
  (mkWorld out.1 (foldl (λ net e, deliver (denv (w_calls w)) e net) (w_net w) events) (w_ids w) (S (w_calls w)),
   match out.2 with Ok a => Ok a | Err e => Err (_translate (seen e)) end).

Definition world_read (w : World) : string → CBlock → Z → Z → list (list Z) * result RpcError unit :=
  served_by csize (denv (w_calls w)) (w_net w).

Definition world_write (address : string) (block : CBlock) (stream : list Msg) (w : World)
    : World * result RpcError (string * Z) :=
  let out := WriteBlock csize (denv (w_calls w)) (w_net w) address (capability_kwargs (cb_capability block) "") stream None in
  (mkWorld (w_node w) out.1 (w_ids w) (S (w_calls w)), out.2).

Definition world_id (w : World) : World * string :=
  (mkWorld (w_node w) (w_net w) (S (w_ids w)) (w_calls w), ids (w_ids w)).

#[global] Instance world_cluster : Cluster World := {|
  rpc := world_rpc;
  replica_read := world_read;
  replica_write := world_write;
  fresh_id := world_id
|}.

Lemma serve_rpc_handle ctx r s : handle cfg env ctx r s = (s' ← serve_rpc ctx r; mret tt) s.
Proof.
  destruct r; cbn [handle serve_rpc done_]; try done;
    unfold mbind, M_bind; match goal with |- ?m s = _ => destruct (m s) as [? [[]|]]; done end.
Qed.
End cluster.
