(* ===== verification/ClusterFacts.v ===== *)
(** What the steps of a client leave of the cluster of ClusterWorld.v: every copy on
    the DataNodes stays one of a store of block contents, writes under fresh
    identifiers add to it, and RPCs only delete.  The second part is what a call, a fresh
    identifier and a block transfer leave in the whole cluster. *)

From Stdlib Require Import QArith.
From S2P Require Import Prelude Exceptions Dict Crypto Bytes Paths BlockToken Addresses Auth BlockStore.
From S2P Require Import Container BlockStoreProps TreeData Tree TreeFacts Layout Replicated Servicer.
From S2P Require Import Handlers ServicerProps ServicerErrors ServicerUpload ServicerDeletes ServicerSteps.
From S2P Require Import DataNode DataNodeFacts RpcClient ClientData ClientRead Session ClusterWorld.
From S2P Require Import ClientWrite ClientTransfer ClientLocks.

Open Scope Z_scope.

(** * Copies on the network *)

(** The node at [a] has a copy under [bid]. *)
Definition has_copy (net : Net) (a bid : string) : Prop :=
  ∃ node file, net !! a = Some node ∧ dn_files node !! bid = Some file.

Lemma DeleteBlock_files env node md bid :
  dn_key (DeleteBlock env node md bid).1 = dn_key node ∧
  (dn_files (DeleteBlock env node md bid).1 = dn_files node ∨
   dn_files (DeleteBlock env node md bid).1 = delete bid (dn_files node)).
Proof.
  unfold DeleteBlock. destruct (_require_block _ _ _ _ _ _); [|auto]. cbn. split; [done|].
  unfold delete_block. destruct (validate_block_id bid); [|auto]. destruct (dn_files node !! bid); cbn; auto.
Qed.

Lemma deliver_node env e net a node' :
  deliver env e net !! a = Some node' → ∃ node, net !! a = Some node ∧ dn_key node' = dn_key node ∧
    dn_files node' ⊆ dn_files node ∧
    ∀ bid, (∀ md, e ≠ Deleted a bid md) → dn_files node' !! bid = dn_files node !! bid.
Proof.
  destruct e as [| a' bid md|]; cbn [deliver]; [by eauto| |by eauto].
  destruct (decide (a' = a)) as [->|Hne].
  - rewrite lookup_alter_eq. intros (node & Hn & ->)%fmap_Some. exists node. split; [done|].
    cbv beta. destruct (DeleteBlock_files env node md bid) as [Hk [Hf|Hf]]; rewrite Hk, Hf; (split; [done|]).
    + split; [done|]. done.
    + split; [apply delete_subseteq|]. intros b Hb. apply lookup_delete_ne. intros ->. by apply (Hb md).
  - rewrite lookup_alter_ne by done. eauto.
Qed.

Lemma delivered_node (envs : DEnv) l net a node' :
  foldl (λ net e, deliver envs e net) net l !! a = Some node' → ∃ node, net !! a = Some node ∧ dn_key node' = dn_key node ∧
    dn_files node' ⊆ dn_files node ∧
    ∀ bid, (∀ md, Deleted a bid md ∉ l) → dn_files node' !! bid = dn_files node !! bid.
Proof.
  revert net. induction l as [|e l IH]; intros net; cbn [foldl]; [by eauto|].
  intros (node1 & Hn1 & Hk1 & Hs1 & Hb1)%IH. apply deliver_node in Hn1 as (node & Hn & Hk & Hs & Hb).
  exists node. split_and!; [done|congruence|by etrans|]. intros bid Hbid. rewrite Hb1, Hb; [done| |].
  - intros md ->. apply (Hbid md). set_solver.
  - intros md Hin. apply (Hbid md). set_solver.
Qed.

Lemma delivered_present (envs : DEnv) l net a :
  is_Some (net !! a) → is_Some (foldl (λ net e, deliver envs e net) net l !! a).
Proof.
  revert net. induction l as [|e l IH]; intros net Hn; cbn [foldl]; [done|]. apply IH.
  destruct e as [|a' b md|]; cbn [deliver]; [done| |done]. by apply lookup_alter_is_Some.
Qed.

Lemma delivered_keeps (envs : DEnv) l net a bid :
  has_copy net a bid → (∀ md, Deleted a bid md ∉ l) → has_copy (foldl (λ net e, deliver envs e net) net l) a bid.
Proof.
  intros (node & file & Hn & Hf) Hl. destruct (delivered_present envs l net a) as [node' Hn']; [by eauto|].
  exists node', file. split; [done|]. apply delivered_node in Hn' as (node0 & Hn0 & _ & _ & Hb).
  rewrite Hb by done. by simplify_eq.
Qed.

Section copies.
Context `{!Aead, !AeadLaws} (csize : Z).
Hypothesis csize_pos : 0 < csize.

Lemma consistent_deleted net net' store :
  (∀ a node', net' !! a = Some node' → ∃ node, net !! a = Some node ∧ dn_key node' = dn_key node
     ∧ dn_files node' ⊆ dn_files node) →
  consistent csize net store → consistent csize net' store.
Proof.
  intros Hsub Hc a node' bid file Hn Hf. destruct (Hsub a node' Hn) as (node & Hn0 & -> & Hs).
  by eapply Hc, lookup_weaken.
Qed.

(** An answered write adds a copy of its bytes at every node of its pipeline. *)
Lemma write_adds env net address md bid downstream chunks net' r store :
  (∀ d, zlen (urandom_at env d) = 8) → chunk_total csize (zlen (concat chunks)) ≤ _MAX_CHUNKS → NoDup (address :: downstream) →
  store !! bid = None → consistent csize net store →
  WriteBlock csize env net address md (MHeader bid downstream :: (MData <$> chunks)) None = (net', Ok r) →
  r = (hexdigest (sha256 (concat chunks)), zlen (concat chunks)) ∧ is_block_id bid = true
  ∧ consistent csize net' (<[bid := concat chunks]> store)
  ∧ (∀ a, a ∈ address :: downstream → has_copy net' a bid)
  ∧ (∀ a b, has_copy net a b → has_copy net' a b).
Proof.
  intros Hu Hmax Hnd Hst Hc. unfold WriteBlock. destruct (net !! address) as [head|]; [|discriminate].
  rewrite msg_data_chunks. intros Hw.
  assert (∀ a, a ∉ address :: downstream → net' !! a = net !! a) as Hother.
  { intros a Ha. pose proof (write_at_other csize env 0 net address md bid downstream (mkStream chunks None) a Ha) as E.
    by rewrite Hw in E. }
  apply write_at_ok in Hw as [-> Hin]; [|done..]. cbn [st_chunks] in *.
  assert (∀ a, a ∈ address :: downstream → ∃ d node, net !! a = Some node ∧
    net' !! a = Some (copy_at csize env d node bid (concat chunks)) ∧ zlen (dn_key node) = 32 ∧ is_block_id bid = true) as Hcopies.
  { intros a [i Hi]%list_elem_of_lookup_1. destruct (Hin i a Hi) as (node & ?). eauto. }
  clear Hin. split; [done|].
  split; [by destruct (Hcopies address ltac:(by left)) as (? & ? & ? & ? & ? & ?)|]. split_and!.
  - intros a node b file Hn Hf. destruct (decide (a ∈ address :: downstream)) as [Ha|Ha].
    + destruct (Hcopies a Ha) as (d & node0 & Hn0 & Hn' & Hk & Hb). rewrite Hn' in Hn. injection Hn as <-.
      unfold copy_at, with_files in Hf. cbn [dn_files] in Hf. cbn [copy_at with_files dn_key].
      apply lookup_insert_Some in Hf as [[<- <-]|[Hne Hf]].
      * split; [done|]. exists (concat chunks). rewrite lookup_insert_eq. split; [done|]. split_and!; [done|done|done|].
        exists (urandom_at env d). split; [apply Hu|]. done.
      * destruct (Hc _ _ _ _ Hn0 Hf) as (Hk0 & data & Hd & Hh). split; [done|]. exists data. by rewrite lookup_insert_ne.
    + rewrite Hother in Hn by done. destruct (Hc _ _ _ _ Hn Hf) as (Hk0 & data & Hd & Hh). split; [done|]. exists data.
      rewrite lookup_insert_ne; [done|]. intros <-. by rewrite Hst in Hd.
  - intros a Ha. destruct (Hcopies a Ha) as (d & node & _ & Hn' & _). eexists _, _. split; [exact Hn'|]. apply lookup_insert_eq.
  - intros a b (node & file & Hn & Hf). destruct (decide (a ∈ address :: downstream)) as [Ha|Ha].
    + destruct (Hcopies a Ha) as (d & node0 & Hn0 & Hn' & _). simplify_eq. unfold has_copy.
      destruct (decide (b = bid)) as [->|]; eexists _, _; (split; [exact Hn'|]); [apply lookup_insert_eq|].
      cbn. rewrite lookup_insert_ne by done. exact Hf.
    + exists node, file. by rewrite Hother.
Qed.
End copies.

(** * The handlers behind the RPCs *)

Section handlers.
Context `{!Jwt, !JwtLaws, !Aead} (cfg : Config) (env : Env) (ctx : Ctx).

(** The RPCs without an identifier of their own. *)
Definition is_read (r : request) : bool :=
  match r with
  | RListDir _ | RListBlocks _ | RLogin _ _ | RDataNodeInventory _ => true
  | _ => false
  end.

Lemma handler_advances r op : op = op_of r ∨ is_read r = true → moves (advances cfg env ctx op) (serve_rpc cfg env ctx r).
Proof.
  intros Hop. destruct r; cbn [serve_rpc op_of is_read] in *; destruct Hop as [->|Hop]; try discriminate Hop.
  all: unfold ListDir, MakeDir, RemoveDir, Remove, BeginUpload, ConfirmBlock, CompleteUpload, AbortUpload, ListBlocks,
    Lock, RenewLock, Unlock, BeginWrite, CommitWrite, AbortWrite, Login, CreateUser, ChangePassword, Chmod, Chown,
    DataNodeInventory, _auth_disabled, _verified_user, abort, raise_, now_, emit, Servicer._abort_on_domain_error.
  all: repeat (advance_step || apply advances_mutate || apply advances_commit).
Qed.

Lemma handler_sends r s : ∃ l, sent (serve_rpc cfg env ctx r s).1 = sent s ++ l.
Proof.
  destruct (emits_handle cfg env ctx r s) as (l & E & _). exists l. rewrite <-E, serve_rpc_handle.
  unfold mbind, M_bind. by destruct (serve_rpc cfg env ctx r s) as [? [?|?]].
Qed.

(** The RPCs that may delete blocks. *)
Definition may_delete (r : request) : bool :=
  match r with
  | RRemove _ _ | RBeginUpload _ _ _ | RAbortUpload _ _ | RCommitWrite _ _ _ _ _ _ | RAbortWrite _ _ _ _ => true
  | _ => false
  end.

Lemma handler_deletes_nothing r : may_delete r = false → emits no_delete (serve_rpc cfg env ctx r).
Proof.
  intros Hr. destruct r; try discriminate Hr; cbn [serve_rpc].
  all: unfold ListDir, MakeDir, RemoveDir, ConfirmBlock, CompleteUpload, ListBlocks,
    Lock, RenewLock, Unlock, BeginWrite, Login, CreateUser, ChangePassword, Chmod, Chown,
    DataNodeInventory, _auth_disabled, _verified_user, abort, raise_, now_, Servicer._abort_on_domain_error.
  all: repeat (emits_step || apply emits_mutate_nothing || apply emits_commit_nothing || (by apply emits_emit)).
Qed.

Lemma delivered_nothing (envs : DEnv) l net :
  Forall no_delete l → foldl (λ net e, deliver envs e net) net l = net.
Proof. intros Hl. revert net. induction Hl as [|e l He Hl IH]; intros net; [done|]. cbn [foldl]. rewrite IH. by destruct e. Qed.

Lemma deletes_nothing r s s' res events (envs : DEnv) net :
  may_delete r = false → serve_rpc cfg env ctx r s = (s', res) → sent s' = sent s ++ events →
  foldl (λ net e, deliver envs e net) net events = net.
Proof.
  intros Hr Hs He. destruct (handler_deletes_nothing r Hr s) as (l & E & Hl). rewrite Hs in E. simpl in E.
  rewrite He in E. apply app_inv_head in E as ->. by apply delivered_nothing.
Qed.
End handlers.

(** The steps of a client over the cluster of ClusterWorld.v: what a call, a fresh
    identifier and the transfer of a block leave of the cluster, and what it means
    that the cluster holds a file. *)

Section steps.
Context `{!Jwt, !JwtLaws, !Aead, !AeadLaws} (cfg : Config) (env : Env) (csize : Z).
Context (denv : nat → DEnv) (ids : nat → string) (peer_name : string) (md : list (string * string)).
Notation ctx := (mkCtx md peer_name).

(** What the configuration and the randomness of the cluster are assumed to be. *)
Record setting : Prop := {
  chunk_pos : 0 < csize;
  chunk_fits : csize ≤ 2 ^ 32;
  block_pos : 0 < c_block_size cfg;
  block_fits : chunk_total csize (c_block_size cfg) ≤ _MAX_CHUNKS;
  internal_view : c_public_addresses cfg = [];
  replicas_nonneg : 0 ≤ c_replication_factor cfg;
  nodes_distinct : NoDup (c_datanodes cfg);
  alive_distinct : ∀ k, NoDup (alive_at env k);
  prefix_size : ∀ n d, zlen (urandom_at (denv n) d) = 8;
  uuids_distinct : ∀ i j, uuid_at env i = uuid_at env j → i = j;
  ids_distinct : ∀ i j, ids i = ids j → i = j;
  ids_own : ∀ k, others_unused cfg env ctx (ids k)
}.
Context (Hset : setting).
#[local] Hint Extern 0 (Cluster _) => exact (world_cluster cfg env csize denv ids peer_name) : typeclass_instances.

(** The cluster is consistent with the contents in [store], and what it and the
    client will draw next is unused. *)
Record world_ok (w : World) (store : gmap string (list Z)) : Prop := {
  ok_copies : consistent csize (w_net w) store;
  ok_uuids : ∀ k, (tick (w_node w) ≤ k)%nat → store !! uuid_at env k = None;
  ok_ids : ∀ k, (w_ids w ≤ k)%nat → unused cfg env ctx (ids k) (w_node w);
  ok_named : store !! "" = None
}.

(** The published file at [ps] has the content [data], and every replica the tree
    names has its block. *)
Definition block_is (net : Net) (store : gmap string (list Z)) (b : BlockRecord) (piece : list Z) : Prop :=
  store !! block_id b = Some piece ∧ size_bytes b = zlen piece ∧
  ∀ a, a ∈ datanode_addresses b → has_copy net a (block_id b).
Definition file_is (w : World) (store : gmap string (list Z)) (ps : list string) (data : list Z) : Prop :=
  ∃ f, view (tree (replicated (w_node w))) ps = Some (EFile f) ∧ f_state f = Committed ∧
    0 < f_block_size f ≤ c_block_size cfg ∧
    NoDup (block_id <$> blocks f) ∧
    Forall2 (block_is (w_net w) store) (blocks f) (blocks_of (f_block_size f) data).

(** ** Steps *)

Definition drawn_id (w : World) (op : string) : Prop := ∃ j, op = ids j ∧ (j < w_ids w)%nat.

Lemma new_op_id_step c c' op store :
  world_ok (cl_world c) store → _new_op_id c = (c', Ok op) →
  world_ok (cl_world c') store ∧ drawn_id (cl_world c') op ∧ unused cfg env ctx op (w_node (cl_world c'))
  ∧ w_node (cl_world c') = w_node (cl_world c) ∧ w_net (cl_world c') = w_net (cl_world c)
  ∧ c' = with_world (cl_world c') c.
Proof.
  intros [K1 K2 K3 K4] [= <- <-]. cbn. split; [|split; [|split_and!; try done]].
  - constructor; [done..| |done]. intros k Hk. cbn in *. apply K3. lia.
  - exists (w_ids (cl_world c)). cbn. split; [done|lia].
  - apply K3. lia.
Qed.

(** Whether [r] may be sent now. *)
Definition may_send (w : World) (r : request) : Prop := drawn_id w (op_of r) ∨ is_read r = true.

Lemma world_rpc_step r w w' out store :
  world_ok w store → may_send w r → world_rpc cfg env denv peer_name md r w = (w', out) →
  ∃ res events, serve_rpc cfg env ctx r (w_node w) = (w_node w', res) ∧
    out = match res with Ok a => Ok a | Err e => Err (_translate (seen e)) end ∧
    sent (w_node w') = sent (w_node w) ++ events ∧
    w_net w' = foldl (λ net e, deliver (denv (w_calls w)) e net) (w_net w) events ∧
    w_ids w' = w_ids w ∧ world_ok w' store.
Proof.
  intros [K1 K2 K3 K4] Hsend. unfold world_rpc. destruct (serve_rpc cfg env ctx r (w_node w)) as [s' res] eqn:Hs. cbn [fst snd].
  intros [= <- <-]. cbn.
  assert (∃ events, sent s' = sent (w_node w) ++ events) as [events He].
  { pose proof (handler_sends cfg env ctx r (w_node w)) as (l & E). rewrite Hs in E. by exists l. }
  exists res, events. rewrite He, drop_app_length. split_and!; [done..|]. constructor; cbn.
  - apply (consistent_deleted csize (w_net w)); [|exact K1].
    intros a node' Hn. apply delivered_node in Hn as (node & ? & ? & ? & _). eauto.
  - intros k Hk. apply K2. destruct Hsend as [(j & Hj & _)|Hr].
    + pose proof (handler_advances cfg env ctx r (op_of r) (or_introl eq_refl) (w_node w)) as [Ht _]. rewrite Hs in Ht. simpl in Ht. lia.
    + pose proof (handler_advances cfg env ctx r "" (or_intror Hr) (w_node w)) as [Ht _]. rewrite Hs in Ht. simpl in Ht. lia.
  - intros k Hk. assert (∃ o, (o = op_of r ∨ is_read r = true) ∧ ids k ≠ o) as (o & Ho & Hne).
    { destruct Hsend as [(j & Hj & Hlt)|Hr]; [exists (op_of r); split; [by left|]|].
      - rewrite Hj. intros ->%(ids_distinct Hset). lia.
      - exists (ids (S k)). split; [by right|]. intros E%(ids_distinct Hset). lia. }
    pose proof (handler_advances cfg env ctx r o Ho (w_node w)) as [_ Hadv]. rewrite Hs in Hadv. simpl in Hadv.
    apply Hadv; [done|apply (ids_own Hset)|by apply K3].
  - exact K4.
Qed.

(** The client's own state but its requests is as it was. *)
Definition keeps_client (c c' : Client World) : Prop :=
  cl_locks c' = cl_locks c ∧ cl_auth c' = cl_auth c ∧ cl_files c' = cl_files c.
#[global] Instance keeps_client_preorder : PreOrder keeps_client.
Proof. split; unfold keeps_client; [done|]. intros x y z (? & ? & ?) (? & ? & ?). split_and!; congruence. Qed.

Context (view_metadata : list (string * string)).

Lemma call_step r c c' a store :
  cl_auth c ++ view_metadata = md → world_ok (cl_world c) store → may_send (cl_world c) r →
  call view_metadata r c = (c', Ok a) →
  ∃ events, serve_rpc cfg env ctx r (w_node (cl_world c)) = (w_node (cl_world c'), Ok a) ∧
    sent (w_node (cl_world c')) = sent (w_node (cl_world c)) ++ events ∧
    w_net (cl_world c') = foldl (λ net e, deliver (denv (w_calls (cl_world c))) e net) (w_net (cl_world c)) events ∧
    w_ids (cl_world c') = w_ids (cl_world c) ∧ world_ok (cl_world c') store ∧ keeps_client c c'.
Proof.
  intros Hmd Hok Hsend (c1 & out & Hask & Hout)%bind_ok_inv.
  assert (out = Ok a ∧ c1 = c') as [-> ->] by (destruct out; [by injection Hout as -> ->|discriminate]).
  clear Hout. unfold ask in Hask. rewrite Hmd in Hask. destruct (rpc md r (cl_world c)) as [w' out] eqn:Hrpc.
  injection Hask as <- ->. cbn.
  apply (world_rpc_step _ _ _ _ store) in Hrpc as (res & events & Hs & Hres & He & Hn & Hi & Hw); [|done..].
  exists events. destruct res as [a'|e]; [|discriminate]. injection Hres as <-. split_and!; done.
Qed.

Lemma write_step block file position c c' r store :
  world_ok (cl_world c) store → store !! cb_id block = None →
  (∃ k, cb_id block = uuid_at env k ∧ (k < tick (w_node (cl_world c)))%nat) →
  NoDup (cb_addresses block) → 0 ≤ position → 0 ≤ cb_size block ≤ c_block_size cfg → position + cb_size block ≤ zlen file →
  _write_block block file position c = (c', Ok r) →
  let piece := slice position (position + cb_size block) file in
  r = (hexdigest (sha256 piece), cb_size block) ∧
  world_ok (cl_world c') (<[cb_id block := piece]> store) ∧
  (∀ a, a ∈ cb_addresses block → has_copy (w_net (cl_world c')) a (cb_id block)) ∧
  (∀ a b, has_copy (w_net (cl_world c)) a b → has_copy (w_net (cl_world c')) a b) ∧
  w_node (cl_world c') = w_node (cl_world c) ∧ w_ids (cl_world c') = w_ids (cl_world c) ∧ keeps_client c c'.
Proof.
  intros [K1 K2 K3 K4] Hst (k & Hk & Hlt) Hnd Hp Hz Hfit. unfold _write_block.
  destruct (cb_addresses block) as [|address downstream] eqn:Ha; [discriminate|].
  set (piece := slice position (position + cb_size block) file).
  assert (zlen piece = cb_size block) as Hlen by (unfold piece; rewrite slice_length; lia).
  unfold write_messages. rewrite Ha. cbn [tail].
  destruct (block_chunks_spec (Z.to_nat (cb_size block)) (cb_size block) (drop (Z.to_nat position) file)) as [Hc _]; [lia|].
  assert (slice 0 (cb_size block) (drop (Z.to_nat position) file) = piece) as Hslice
    by (unfold piece, slice; rewrite drop_0; f_equal; lia).
  rewrite Hslice in Hc. cbn [replica_write world_cluster]. unfold world_write.
  destruct (WriteBlock _ _ _ _ _ _ _) as [net' [r'|e]] eqn:Hw; cbn [fst snd]; [|discriminate]. intros [= <- <-].
  apply (write_adds csize (chunk_pos Hset) _ _ _ _ _ _ _ _ _ store) in Hw as (-> & Hname & Hcon & Hin & Hkeep);
    [|apply (prefix_size Hset)| |done..].
  - rewrite Hc in *. split; [by rewrite Hlen|]. split; [|split_and!; try done].
    constructor; cbn; [done| |done|by rewrite lookup_insert_ne by (by intros E; rewrite E in Hname)]. intros j Hj. rewrite lookup_insert_ne; [by apply K2|].
    rewrite Hk. intros E%(uuids_distinct Hset). lia.
  - rewrite Hc, Hlen. etrans; [apply (chunk_total_mono csize (chunk_pos Hset)); exact Hz|apply (block_fits Hset)].
Qed.
End steps.
