(* ===== verification/ClusterUpload.v ===== *)
(** An upload end to end: the blocks the client streams to the DataNodes, in any
    order, and the file the tree publishes are the local file. *)

From Stdlib Require Import QArith.
From S2P Require Import Prelude Exceptions Dict Crypto Bytes Paths BlockToken Addresses Auth BlockStore.
From S2P Require Import Container BlockStoreProps.
From S2P Require Import TreeData Tree TreeFacts TreeOps TreeView TreeUpload Layout Replicated Servicer.
From S2P Require Import Handlers ServicerProps ServicerErrors.
From S2P Require Import ServicerUpload ServicerDeletes ServicerSteps.
From S2P Require Import DataNode RpcClient ClientData ClientRead ClientWrite ClientTransfer ClientLocks.
From S2P Require Import Session ClusterWorld ClusterFacts.

Open Scope Z_scope.

(** * The items of a transfer *)

Lemma starts_lookup position blocks i :
  (i < length blocks)%nat →
  _block_starts_from position blocks !! i = Some (position + sumZ (take i (cb_size <$> blocks))).
Proof.
  revert position i. induction blocks as [|b rest IH]; intros position i Hi; simpl in Hi; [lia|].
  destruct i as [|i]; cbn [_block_starts_from lookup list_lookup]; [by rewrite take_0, Z.add_0_r|].
  change (_block_starts_from (position + cb_size b) rest !! i = Some (position + sumZ (take (S i) (cb_size <$> b :: rest)))).
  rewrite IH by lia. f_equal. rewrite fmap_cons. cbn [take]. rewrite sumZ_cons. lia.
Qed.

Lemma sum_layout_take bs n i :
  0 < bs → 0 ≤ n → 0 ≤ i → i * bs ≤ n → i ≤ block_count bs n → sumZ (take (Z.to_nat i) (layout bs n)) = i * bs.
Proof.
  intros Hbs Hn Hi Hle Hc. pose proof (sum_layout bs n Hbs Hn) as Hsum.
  rewrite <-(take_drop (Z.to_nat i) (layout bs n)) in Hsum.
  assert (drop (Z.to_nat i) (layout bs n) = block_len bs n <$> zrange i (block_count bs n)) as Hd.
  { unfold layout. rewrite <-fmap_drop. f_equal. replace i with (i - 0) at 1 by lia. apply drop_zrange. lia. }
  assert (∀ l1 l2, sumZ (l1 ++ l2) = sumZ l1 + sumZ l2) as Happ by (intros l1 l2; induction l1; simpl; lia).
  rewrite Happ, Hd, sum_blocks_from in Hsum by lia. lia.
Qed.

Lemma block_of_length bs l i : 0 < bs → 0 ≤ i → i * bs ≤ zlen l → zlen (block_of bs l i) = block_len bs (zlen l) i.
Proof. intros Hbs Hi Hl. unfold block_of, block_len. rewrite slice_length_min by nia. lia. Qed.

(** The item [i] of an upload is the block [i] of the file. *)
Lemma upload_item bs file blocks i item :
  0 < bs → cb_size <$> blocks = layout bs (zlen file) → zip blocks (_block_starts blocks) !! i = Some item →
  blocks !! i = Some item.1 ∧ item.2 = Z.of_nat i * bs ∧ cb_size item.1 = zlen (block_of bs file (Z.of_nat i)) ∧
  slice item.2 (item.2 + cb_size item.1) file = block_of bs file (Z.of_nat i) ∧
  0 ≤ cb_size item.1 ≤ bs ∧ item.2 + cb_size item.1 ≤ zlen file.
Proof.
  intros Hbs Hsz Hitem. destruct item as [b s]. apply lookup_zip_Some in Hitem as [Hb Hs]. cbn [fst snd].
  pose proof (lookup_lt_Some _ _ _ Hb) as Hlt. unfold _block_starts in Hs. rewrite starts_lookup in Hs by done.
  pose proof (zlen_nonneg file) as Hn.
  assert (Z.of_nat (length blocks) = block_count bs (zlen file)) as Hcount.
  { rewrite <-layout_length by lia. rewrite <-Hsz. unfold zlen. by rewrite length_fmap. }
  assert (Z.of_nat i * bs < zlen file) as Hi.
  { destruct (block_count_bounds bs (zlen file) Hbs Hn) as [?|[? ?]]; nia. }
  assert (s = Z.of_nat i * bs) as ->.
  { injection Hs as <-. rewrite Hsz. rewrite <-(Nat2Z.id i) at 1. rewrite sum_layout_take; [lia|lia..]. }
  assert (cb_size b = block_len bs (zlen file) (Z.of_nat i)) as Hbz.
  { assert ((cb_size <$> blocks) !! i = Some (cb_size b)) as E by by rewrite list_lookup_fmap, Hb.
    rewrite Hsz in E. unfold layout in E. rewrite list_lookup_fmap in E.
    apply fmap_Some in E as (j & Hj & ->). apply zrange_lookup in Hj as [-> _]. f_equal. }
  rewrite block_of_length by lia. unfold block_len in *. split; [done|]. split; [done|]. split; [done|]. split; [|lia].
  rewrite Hbz. unfold block_of. destruct (Z.le_gt_cases bs (zlen file - Z.of_nat i * bs)); [by rewrite Z.min_l by lia|].
  rewrite Z.min_r by lia. rewrite !slice_beyond by lia. done.
Qed.

(** * The results of a transfer in the order of its items *)

Lemma list_find_index {R} (g : nat → R) order i :
  i ∈ order → list_find (λ p : nat * R, p.1 = i) ((λ j, (j, g j)) <$> order) ≫= (λ p, Some p.2) = Some (i, g i).
Proof.
  induction order as [|j order IH]; [by intros ?%elem_of_nil|]. rewrite fmap_cons. cbn [list_find].
  destruct (decide (j = i)) as [->|Hne]; [by rewrite decide_True|]. rewrite decide_False by done.
  intros [->|Hin]%elem_of_cons; [done|]. apply IH in Hin.
  destruct (list_find _ _) as [[k x]|]; simpl in *; [exact Hin|discriminate].
Qed.

Lemma in_order_spec {R} (g : nat → R) n order :
  order ≡ₚ seq 0 n → in_order n ((λ i, (i, g i)) <$> order) = g <$> seq 0 n.
Proof.
  intros Hp. unfold in_order.
  assert (∀ l, l ⊆ order → omap (λ i, snd <$> list_find (λ p : nat * R, p.1 = i) ((λ i, (i, g i)) <$> order) ≫= (λ p, Some p.2)) l = g <$> l) as Hgen.
  { induction l as [|i l IH]; intros Hl; [done|]. cbn [omap list_omap]. rewrite list_find_index by set_solver.
    rewrite fmap_cons. cbn. f_equal. apply IH. set_solver. }
  apply Hgen. intros i. by rewrite Hp.
Qed.

Section upload.
Context `{!Jwt, !JwtLaws, !Aead, !AeadLaws} (cfg : Config) (env : Env) (csize : Z).
Context (denv : nat → DEnv) (ids : nat → string) (peer_name : string) (md view_metadata : list (string * string)).
Notation ctx := (mkCtx md peer_name).
Context (Hset : setting cfg env csize denv ids peer_name md).
#[local] Hint Extern 0 (Cluster _) => exact (world_cluster cfg env csize denv ids peer_name) : typeclass_instances.
Notation world_ok := (world_ok cfg env csize ids peer_name md).

Context (path : string) (ps : list string) (file : list Z) (pl : list (string * list string)).
Hypothesis Hpath : parts_of path = Ok ps.
Hypothesis Hothers : others_keep env ps.
Hypothesis Hids : NoDup pl.*1.
Hypothesis Hreplicas : Forall (λ p, NoDup p.2) pl.

Notation bs := (c_block_size cfg).
Definition placement (i : nat) : string * list string := default ("", []) (pl !! i).
Notation piece i := (block_of bs file (Z.of_nat i)).
Definition confirmation (i : nat) : string * (string * Z) :=
  ((placement i).1, (hexdigest (sha256 (piece i)), zlen (piece i))).

(** The upload once the blocks [done] were sent and confirmed. *)
Record sending (done : list nat) (store0 store : gmap string (list Z)) (c0 c : Client World) : Prop := {
  sd_world : world_ok (cl_world c) store;
  sd_client : keeps_client c0 c;
  sd_file : ∃ f, view (tree (replicated (w_node (cl_world c)))) ps = Some (EFile f) ∧ f_state f = Pending ∧
    f_block_size f = bs ∧ blocks f = placed (confirmation <$> done) <$> pl;
  sd_extends : store0 ⊆ store;
  sd_sent : ∀ i, i ∈ done → store !! (placement i).1 = Some (piece i) ∧
    ∀ a, a ∈ (placement i).2 → has_copy (w_net (cl_world c)) a (placement i).1;
  sd_unsent : ∀ i, (i < length pl)%nat → i ∉ done → store !! (placement i).1 = None;
  sd_drawn : ∀ i, (i < length pl)%nat →
    ∃ k, (placement i).1 = uuid_at env k ∧ (k < tick (w_node (cl_world c)))%nat
}.

Lemma placement_lookup i : (i < length pl)%nat → pl !! i = Some (placement i).
Proof. intros Hi. unfold placement. destruct (pl !! i) eqn:E; [done|]. apply lookup_ge_None in E. lia. Qed.

Lemma placement_inj i j : (i < length pl)%nat → (j < length pl)%nat → (placement i).1 = (placement j).1 → i = j.
Proof.
  intros Hi Hj E. apply (NoDup_lookup pl.*1 i j (placement i).1 Hids); rewrite list_lookup_fmap.
  - by rewrite placement_lookup.
  - rewrite placement_lookup by done. cbn. by rewrite E.
Qed.

(** A confirmation of the log on top of what it had. *)
Lemma confirm_sent done n i t lease caller r t' :
  (i < length pl)%nat → i ∉ done → Forall (λ j, j < length pl)%nat done →
  (∃ f, view (tree r) ps = Some (EFile f) ∧ f_state f = Pending ∧ f_block_size f = bs ∧
     blocks f = placed (confirmation <$> done) <$> pl) →
  confirm_block path (placement i).1 (hexdigest (sha256 (piece i))) (zlen (piece i)) t lease caller
    (tree (apply_log (others_at env n) r)) = (t', Ok tt) →
  ∃ f, view t' ps = Some (EFile f) ∧ f_state f = Pending ∧ f_block_size f = bs ∧
    blocks f = placed (confirmation <$> (done ++ [i])) <$> pl.
Proof.
  intros Hi Hnin Hdone (f & Hv & Hst & Hbs & Hbl) Hc.
  apply confirm_block_inv in Hc as (ps' & f' & bs' & f2 & Hp & Hg & _ & _ & Hu & Hf2 & ->).
  assert (ps' = ps) as -> by congruence. apply view_file in Hg. rewrite Hothers, Hv in Hg. injection Hg as <-.
  rewrite Hbl, update_first_placed in Hu; [|done| |].
  - injection Hu as <-. exists f2. rewrite (view_put_file _ f) by (apply view_file; by rewrite Hothers).
    unfold vset. rewrite decide_True by done. split; [done|]. rewrite fmap_app.
    destruct Hf2 as [->| ->]; by destruct f.
  - apply list_elem_of_fmap. exists (placement i). split; [done|]. by eapply list_elem_of_lookup_2, placement_lookup.
  - rewrite <-list_fmap_compose. intros (j & E & Hj)%list_elem_of_fmap. apply Hnin. rewrite Forall_forall in Hdone.
    by rewrite (placement_inj i j Hi (Hdone j Hj) E).
Qed.

Context (blks : list CBlock).
Hypothesis Hsizes : cb_size <$> blks = layout bs (zlen file).
Hypothesis Hshown : Forall2 (λ p b, cb_id b = p.1 ∧ cb_addresses b = p.2) pl blks.
Notation items := (zip blks (_block_starts blks)).

(** Sending one more block. *)
Lemma send_step done i item store0 store c0 c c' z :
  cl_auth c0 ++ view_metadata = md → Forall (λ j, j < length pl)%nat done → i ∉ done → items !! i = Some item →
  sending done store0 store c0 c → send_block view_metadata path file item c = (c', Ok z) →
  ∃ store', sending (done ++ [i]) store0 store' c0 c' ∧ z = zlen (piece i).
Proof.
  intros Hmd Hdone Hnin Hitem [K1 K2 K3 K4 K5 K6 K7].
  intros (c1 & written & Hw & (c2 & op & Hop & (c3 & [] & Hcall & [= <- <-])%bind_ok_inv)%bind_ok_inv)%bind_ok_inv.
  pose proof (upload_item bs file blks i item (block_pos _ _ _ _ _ _ _ Hset) Hsizes Hitem) as (Hb & Hpos & Hz & Hpiece & Hzb & Hfit).
  destruct (Forall2_lookup_r _ _ _ _ _ Hshown Hb) as (p & Hp & Hid & Haddr).
  assert (i < length pl)%nat as Hi by by eapply lookup_lt_Some.
  assert (p = placement i) as -> by (rewrite (placement_lookup i Hi) in Hp; congruence).
  apply (write_step _ _ _ _ _ _ _ Hset _ _ _ _ _ _ store) in Hw as (-> & W1 & W2 & W3 & W4 & W5 & W6); [|done|..].
  2: { rewrite Hid. by apply K6. }
  2: { rewrite Hid. by apply K7. }
  2: { rewrite Haddr. rewrite Forall_forall in Hreplicas. by apply Hreplicas, list_elem_of_lookup_2 with i. }
  2: { pose proof (block_pos _ _ _ _ _ _ _ Hset). nia. }
  2: done.
  2: done.
  rewrite Hpiece, Hid in W1. rewrite Haddr, Hid in W2. cbn [fst snd] in Hcall. rewrite Hpiece, Hid, Hz in Hcall. rewrite Hz.
  eapply new_op_id_step in Hop as (O1 & O2 & O3 & O4 & O5 & O6); [|exact W1].
  assert (keeps_client c1 c2) as Hk12 by by rewrite O6.
  assert (keeps_client c0 c2) as Hk02 by (etrans; [exact K2|]; by etrans).
  pose proof Hk02 as (_ & Hauth & _).
  eapply (call_step _ _ _ _ _ _ _ Hset) in Hcall as (events & C1 & C2 & C3 & C4 & C5 & C6);
    [|by rewrite Hauth|exact O1|by left].
  rewrite (deletes_nothing _ _ _ _ _ _ _ _ _ _ (eq_refl : may_delete (RConfirmBlock _ _ _ _ _) = false) C1 C2) in C3.
  pose proof (handler_advances cfg env ctx (RConfirmBlock op path (placement i).1 (hexdigest (sha256 (piece i))) (zlen (piece i)))
    op (or_introl eq_refl) (w_node (cl_world c2))) as [Htick _]. rewrite C1 in Htick. cbn [fst] in Htick.
  destruct O2 as (j & -> & _). pose proof (ids_own _ _ _ _ _ _ _ Hset j) as Hown.
  apply (ConfirmBlock_run cfg env ctx (ids j)) in C1 as (q & n & t & _ & Hconf); [|done..].
  rewrite O4, W4 in Hconf, Htick. unfold log_at in Hconf.
  apply (confirm_sent done) in Hconf; [|done..].
  exists (<[(placement i).1:=piece i]> store). split; [|done]. constructor.
  - exact C5.
  - by etrans.
  - exact Hconf.
  - etrans; [exact K4|]. apply insert_subseteq. by apply K6.
  - intros k Hk. rewrite C3, O5. apply elem_of_app in Hk as [Hk| ->%list_elem_of_singleton].
    + destruct (K5 k Hk) as [Hs Hc]. rewrite lookup_insert_ne.
      * split; [done|]. intros a Ha. by apply W3, Hc.
      * intros E. rewrite Forall_forall in Hdone. apply (placement_inj i k Hi (Hdone k Hk)) in E as ->. done.
    + rewrite lookup_insert_eq. split; [done|]. exact W2.
  - intros k Hk Hkn. rewrite lookup_insert_ne; [apply K6; [done|set_solver]|].
    intros E%placement_inj; [|done..]. subst. apply Hkn. set_solver.
  - intros k Hk. destruct (K7 k Hk) as (m & Hm & Hlt). exists m. split; [done|]. lia.
Qed.

(** Sending the blocks [order]. *)
Lemma run_sends order done store0 store c0 c c' rs :
  cl_auth c0 ++ view_metadata = md → NoDup (done ++ order) → Forall (λ j, j < length pl)%nat (done ++ order) →
  sending done store0 store c0 c →
  run_transfers (send_block view_metadata path file) items order c = (c', Ok rs) →
  ∃ store', sending (done ++ order) store0 store' c0 c' ∧ rs = (λ i, (i, zlen (piece i))) <$> order.
Proof.
  intros Hmd. revert done store c rs. induction order as [|i order IH]; intros done store c rs Hnd Hlt Hs; cbn [run_transfers].
  { intros [= <- <-]. exists store. by rewrite app_nil_r. }
  pose proof Hlt as [Hdone [Hi Hrest]%Forall_cons]%Forall_app.
  assert (∃ item, items !! i = Some item) as [item Hitem].
  { apply lookup_lt_is_Some. rewrite length_zip. unfold _block_starts. rewrite starts_length.
    rewrite <-(Forall2_length _ _ _ Hshown). lia. }
  rewrite Hitem. intros (c1 & z & Hz & (c2 & rs' & Hrs & [= <- <-])%bind_ok_inv)%bind_ok_inv.
  assert (i ∉ done) as Hnin. { apply NoDup_app in Hnd as (_ & Hnd & _). intros Hin. apply (Hnd i Hin). set_solver. }
  eapply (send_step done i item) in Hz as (store1 & Hs1 & ->); [|done..].
  rewrite cons_middle, app_assoc in Hnd, Hlt. apply (IH (done ++ [i]) store1) in Hrs as (store2 & Hs2 & ->); [|done..].
  exists store2. rewrite cons_middle, app_assoc. split; [done|]. by rewrite fmap_cons.
Qed.

(** All blocks sent: the tree describes them as they are stored. *)
Lemma sent_blocks order store0 store c0 c f :
  order ≡ₚ seq 0 (length pl) → sending order store0 store c0 c → blocks f = placed (confirmation <$> order) <$> pl →
  NoDup (block_id <$> blocks f) ∧
  Forall2 (block_is (w_net (cl_world c)) store) (blocks f) ((λ i, piece i) <$> seq 0 (length pl)).
Proof.
  intros Hord [_ _ _ _ K5 _ _] ->. split.
  - rewrite <-list_fmap_compose. erewrite list_fmap_ext; [exact Hids|]. intros k p _. apply block_id_placed.
  - apply Forall2_same_length_lookup. split; [by rewrite !length_fmap, length_seq|].
    intros i b d Hb Hd. apply list_lookup_fmap_Some in Hb as (p & -> & Hp). apply list_lookup_fmap_Some in Hd as (k & -> & Hk).
    apply lookup_seq in Hk as [-> Hi]. rewrite (placement_lookup i Hi) in Hp. injection Hp as <-. simpl.
    assert (i ∈ order) as Hin by (rewrite Hord; apply elem_of_seq; lia).
    destruct (K5 i Hin) as [Hs Hc].
    assert (placed (confirmation <$> order) (placement i) =
      mkBlock (placement i).1 (placement i).2 (hexdigest (sha256 (piece i))) (zlen (piece i)) true) as ->; [|done].
    unfold TreeUpload.placed. rewrite (dict_elem_get (placement i).1 (hexdigest (sha256 (piece i)), zlen (piece i))); [done| |].
    + unfold dict_ok, dict_keys. rewrite <-list_fmap_compose. apply NoDup_fmap_2_strong; [|rewrite Hord; apply NoDup_seq].
      intros x y Hx Hy E. rewrite Hord in Hx, Hy. apply elem_of_seq in Hx, Hy. by apply placement_inj in E; [|lia..].
    + apply list_elem_of_fmap. by exists i.
Qed.
End upload.

(** * The theorem *)

Lemma on_failure_ok {W A} (m : M (Client W) client_error A) h c c' a : on_failure m h c = (c', Ok a) → m c = (c', Ok a).
Proof.
  unfold on_failure. destruct (m c) as [c1 [x|e]]; [done|]. destruct (caught e); [|done].
  by destruct (h c1) as [c2 [?|?]].
Qed.

Section theorem.
Context `{!Jwt, !JwtLaws, !Aead, !AeadLaws} (cfg : Config) (env : Env) (csize : Z).
Context (denv : nat → DEnv) (ids : nat → string) (peer_name : string) (md view_metadata : list (string * string)).
Context (schedule : nat → list nat).
Notation ctx := (mkCtx md peer_name).
Context (Hset : setting cfg env csize denv ids peer_name md).
#[local] Hint Extern 0 (Cluster _) => exact (world_cluster cfg env csize denv ids peer_name) : typeclass_instances.
Notation world_ok := (world_ok cfg env csize ids peer_name md).
Notation bs := (c_block_size cfg).

Lemma shown_blocks pl (locs : list BlockLocation) :
  Forall2 (shows cfg env ctx) pl locs →
  Forall2 (λ p b, cb_id b = p.1 ∧ cb_addresses b = p.2) pl (block_at <$> locs).
Proof.
  intros Hs. apply Forall2_fmap_r. eapply Forall2_impl; [exact Hs|]. intros p l (Hid & Ha & _). cbn. split; [done|].
  rewrite Ha. unfold _for_client. by rewrite (internal_view _ _ _ _ _ _ _ Hset), bool_decide_true.
Qed.

Lemma upload_file path ps file c c' n store :
  parts_of path = Ok ps → others_keep env ps → (∀ k, schedule k ≡ₚ seq 0 k) →
  cl_auth c ++ view_metadata = md → world_ok (cl_world c) store →
  upload view_metadata schedule (Some file) path c = (c', Ok n) →
  n = zlen file ∧ ∃ store', store ⊆ store' ∧ world_ok (cl_world c') store' ∧
    file_is cfg (cl_world c') store' ps file ∧ keeps_client c c'.
Proof.
  intros Hpath Hoth Hsched Hmd Hok (c1 & op & Hop & (c2 & locs & Hbegin & (c3 & total & Htransfer & (c4 & op2 & Hop2 & (c5 & [] & Hcomplete & [= <- <-])
    %bind_ok_inv)%bind_ok_inv)%bind_ok_inv)%bind_ok_inv)%bind_ok_inv.
  pose proof (block_pos _ _ _ _ _ _ _ Hset) as Hbs.
  eapply new_op_id_step in Hop as (O1 & O2 & O3 & O4 & O5 & O6); [|exact Hok].
  assert (keeps_client c c1) as Hk1 by by rewrite O6.
  eapply (call_step _ _ _ _ _ _ _ Hset _ (RBeginUpload op path (zlen file))) in Hbegin as (events & B1 & B2 & B3 & B4 & B5 & B6);
    [|by destruct Hk1 as (_ & -> & _)|exact O1|by left].
  destruct O2 as (j & -> & _). cbn [serve_rpc] in B1.
  pose proof B1 as Hrun. apply begin_upload_run in Hrun as (p & m & t & s1 & s2 & pl & stale & Hp & Hsize & E1 & Ha1 & Hprop & Hb & Hsizes & Hshows);
    [|apply (ids_own _ _ _ _ _ _ _ Hset)|done|done].
  pose proof (propose_drawn cfg env ctx (ids j) _ _ _ _ Hprop) as (ks & Hks & Hkr & Hknd).
  apply authenticate_inv in Ha1 as Hcaller. pose proof (moves_inv _ _ _ _ _ (advances_auth cfg env ctx (ids j)) Ha1) as [T1 _].
  pose proof (BeginUpload_tick cfg env ctx (ids j) _ _ _ _ _ _ _ _ _ Hbs B1 Ha1 Hprop) as T2.
  assert (NoDup pl.*1) as Hnd by (rewrite Hks; apply NoDup_fmap_2_strong; [intros x y _ _; apply (uuids_distinct _ _ _ _ _ _ _ Hset)|done]).
  assert (∀ i, (i < length pl)%nat → ∃ k, (placement pl i).1 = uuid_at env k ∧ (tick s1 ≤ k < tick s2)%nat) as Hdrawn.
  { intros i Hi. assert ((placement pl i).1 ∈ pl.*1) as Hin
      by (apply list_elem_of_fmap; exists (placement pl i); split; [done|by eapply list_elem_of_lookup_2, placement_lookup]).
    rewrite Hks in Hin. apply list_elem_of_fmap in Hin as (k & Hk & Hin). rewrite Forall_forall in Hkr. eauto. }
  apply propose_spec in Hprop as [Hlen Hprop]; [|apply (nodes_distinct _ _ _ _ _ _ _ Hset)|apply (alive_distinct _ _ _ _ _ _ _ Hset)|apply (replicas_nonneg _ _ _ _ _ _ _ Hset)].
  assert (Forall (λ p, NoDup p.2) pl) as Hrep.
  { eapply Forall_impl; [exact Hprop|]. by intros x [_ (al & _ & _ & ? & _)]. }
  apply shown_blocks in Hshows. set (blks := block_at <$> locs) in *.
  assert (cb_size <$> blks = layout bs (zlen file)) as Hsz by (unfold blks; rewrite <-list_fmap_compose; exact Hsizes).
  apply begin_upload_view in Hb as (ps' & Hps & _ & _ & _ & _ & _ & Hview).
  assert (ps' = ps) as -> by congruence.
  apply on_failure_ok, bind_ok_inv in Htransfer as (c6 & ns & (c7 & rs & Hrs & [= <- <-])%bind_ok_inv & [= <- <-]).
  assert (length (zip blks (_block_starts blks)) = length pl) as Hitems
    by (rewrite length_zip; unfold _block_starts; rewrite starts_length, (Forall2_length _ _ _ Hshows); lia).
  rewrite Hitems in Hrs. set (order := schedule (length pl)) in *.
  assert (order ≡ₚ seq 0 (length pl)) as Hord by apply Hsched.
  assert (keeps_client c c2) as Hk2 by by etrans.
  eapply (run_sends cfg env csize denv ids peer_name md view_metadata Hset path ps file pl Hpath Hoth Hnd Hrep blks Hsz Hshows
    order [] store store c) in Hrs as (store' & Hsent & ->); [|done|by rewrite Hord; apply NoDup_seq| |].
  3: { constructor; try done.
       - eexists. split; [exact Hview|]. split_and!; [done|done|]. apply list_fmap_ext. done.
       - by intros i ?%elem_of_nil.
       - intros i Hi _. destruct (Hdrawn i Hi) as (k & -> & Hk). apply (ok_uuids _ _ _ _ _ _ _ _ O1). lia.
       - intros i Hi. destruct (Hdrawn i Hi) as (k & Hk & Hlt). exists k. split; [done|lia]. }
  2: { apply Forall_forall. intros i. rewrite Hord. intros ?%elem_of_seq. lia. }
  rewrite Hitems, in_order_spec by done. cbn [app] in Hsent.
  assert ((λ i, block_of bs file (Z.of_nat i)) <$> seq 0 (length pl) = blocks_of bs file) as Hpieces.
  { unfold blocks_of, zrange. rewrite <-list_fmap_compose. rewrite Hlen, Z.sub_0_r. by apply list_fmap_ext. }
  split; [rewrite (list_fmap_compose (λ i, block_of bs file (Z.of_nat i)) zlen), Hpieces, sum_zlen; by rewrite blocks_of_concat|].
  pose proof Hsent as [S1 S2 (f & Sf & Sp & Sb & Sbl) S4 _ _ _].
  edestruct sent_blocks as [Hbid Hblocks]; [exact Hnd|exact Hord|exact Hsent|exact Sbl|].
  rewrite Hpieces in Hblocks.
  eapply new_op_id_step in Hop2 as (P1 & P2 & P3 & P4 & P5 & P6); [|exact S1].
  assert (keeps_client c c4) as Hk4 by (etrans; [exact S2|]; by rewrite P6).
  pose proof Hk4 as (_ & Hauth4 & _).
  eapply (call_step _ _ _ _ _ _ _ Hset _ (RCompleteUpload op2 path)) in Hcomplete as (events' & C1 & C2 & C3 & C4 & C5 & C6);
    [|by rewrite Hauth4|exact P1|by left].
  rewrite (deletes_nothing _ _ _ _ _ _ _ _ _ _ (eq_refl : may_delete (RCompleteUpload _ _) = false) C1 C2) in C3.
  destruct P2 as (k & -> & _). apply (CompleteUpload_run cfg env ctx (ids k)) in C1 as (q & n & _ & Hcomp);
    [|apply (ids_own _ _ _ _ _ _ _ Hset)|done].
  apply complete_upload_view in Hcomp as (ps' & f' & Hps' & Hg & _ & _ & _ & Hv').
  assert (ps' = ps) as -> by congruence. unfold log_at in Hg. rewrite P4 in Hg. apply view_file in Hg. rewrite Hoth, Sf in Hg. injection Hg as <-.
  exists store'. split; [done|]. split; [exact C5|]. split; [|by etrans].
  exists (with_state Committed f). rewrite Hv'. unfold vset. rewrite decide_True by done. cbn [with_state f_state f_block_size blocks].
  rewrite Sb, C3, P5. done.
Qed.
End theorem.
