(* ===== verification/ClusterDownload.v ===== *)
(** Downloads and range reads end to end: what they return is the content of the
    file the cluster holds, and they leave it as it was. *)

From Stdlib Require Import QArith.
From S2P Require Import Prelude Exceptions Dict Crypto Bytes Paths BlockToken Addresses Auth BlockStore.
From S2P Require Import Container BlockStoreProps.
From S2P Require Import TreeData Tree TreeFacts TreeView Layout Replicated Servicer Handlers ServicerProps.
From S2P Require Import ServicerErrors.
From S2P Require Import ServicerUpload ServicerDeletes ServicerSteps.
From S2P Require Import DataNode RpcClient ClientData ClientRead ClientWrite ClientTransfer ClientLocks.
From S2P Require Import Session ClusterWorld ClusterFacts ClusterUpload.

Open Scope Z_scope.

Lemma Forall2_compose {A B C} (P : A → B → Prop) (Q : B → C → Prop) (R : A → C → Prop) l k m :
  Forall2 P l k → Forall2 Q k m → (∀ x y z, P x y → Q y z → R x z) → Forall2 R l m.
Proof.
  intros Hp. revert m. induction Hp as [|x y l k Hxy Hp IH]; intros m; [intros ->%Forall2_nil_inv_l; constructor|].
  intros (z & m' & Hyz & Hm & ->)%Forall2_cons_inv_l HR. constructor; eauto.
Qed.

Lemma omap_lookup_seq {A} (l : list A) : omap (λ i, l !! i) (seq 0 (length l)) = l.
Proof.
  induction l as [|x l IH] using rev_ind; [done|]. rewrite length_app, Nat.add_1_r, seq_S, omap_app. cbn [omap list_omap].
  rewrite Nat.add_0_l, lookup_app_r, Nat.sub_diag by lia. cbn. f_equal. rewrite <-IH at 2.
  assert (∀ k, k ⊆ seq 0 (length l) → omap (λ i, (l ++ [x]) !! i) k = omap (λ i, l !! i) k) as H; [|by apply H].
  induction k as [|i k IHk]; intros Hk; [done|]. cbn [omap list_omap].
  rewrite lookup_app_l by (assert (i ∈ seq 0 (length l)) as ?%elem_of_seq by set_solver; lia).
  rewrite IHk by set_solver. done.
Qed.

Lemma fmap_lookup_seq {A} (f : A → Z) (l : list A) : (λ i, from_option f 0 (l !! i)) <$> seq 0 (length l) = f <$> l.
Proof.
  apply list_eq. intros k. rewrite !list_lookup_fmap. destruct (decide (k < length l)%nat) as [Hk|Hk].
  - rewrite lookup_seq_lt by done. destruct (lookup_lt_is_Some_2 l k Hk) as [x Hx]. cbn. by rewrite Hx.
  - rewrite lookup_seq_ge, (lookup_ge_None_2 l) by lia. done.
Qed.

Lemma zip_sizes blocks : (λ item : CBlock * Z, cb_size item.1) <$> zip blocks (_block_starts blocks) = cb_size <$> blocks.
Proof.
  etrans; [apply (list_fmap_compose fst cb_size)|]. rewrite fst_zip; [done|]. unfold _block_starts. by rewrite starts_length.
Qed.

Section steady.
Context `{!Jwt, !JwtLaws, !Aead, !AeadLaws} (cfg : Config) (env : Env) (csize : Z).
Context (denv : nat → DEnv) (ids : nat → string) (peer_name : string) (md view_metadata : list (string * string)).
Notation ctx := (mkCtx md peer_name).
Context (Hset : setting cfg env csize denv ids peer_name md).
#[local] Hint Extern 0 (Cluster _) => exact (world_cluster cfg env csize denv ids peer_name) : typeclass_instances.
Notation world_ok := (world_ok cfg env csize ids peer_name md).
Context (ps : list string) (Hothers : others_keep env ps).

(** The path, the copies on the network and the local files are as they were, and
    what was in order is in order. *)
Definition steady (c c' : Client World) : Prop :=
  cl_auth c' = cl_auth c ∧ cl_files c' = cl_files c ∧
  (cl_auth c ++ view_metadata = md → ∀ store, world_ok (cl_world c) store →
    world_ok (cl_world c') store ∧ w_net (cl_world c') = w_net (cl_world c) ∧
    view (tree (replicated (w_node (cl_world c')))) ps = view (tree (replicated (w_node (cl_world c)))) ps).
#[global] Instance steady_preorder : PreOrder steady.
Proof.
  split; [intros x; unfold steady; split_and!; auto|]. intros x y z (A1 & F1 & S1) (A2 & F2 & S2). split; [congruence|]. split; [congruence|].
  intros Hmd store Hok. destruct (S1 Hmd store Hok) as (W1 & N1 & V1).
  destruct (S2 ltac:(by rewrite A1) store W1) as (W2 & N2 & V2). split_and!; [done|congruence|congruence].
Qed.

Lemma steady_file c c' store data :
  steady c c' → cl_auth c ++ view_metadata = md → world_ok (cl_world c) store → file_is cfg (cl_world c) store ps data →
  world_ok (cl_world c') store ∧ file_is cfg (cl_world c') store ps data.
Proof.
  intros (_ & _ & Hs) Hmd Hok (f & Hf). destruct (Hs Hmd store Hok) as (Hw & Hn & Hv). split; [done|]. exists f. by rewrite Hn, Hv.
Qed.

(** An RPC that leaves the path alone, whatever it answers. *)
Lemma steady_ask r c :
  may_delete r = false → may_send ids (cl_world c) r →
  moves (same (λ s : Node, view (tree (replicated s)) ps)) (serve_rpc cfg env ctx r) →
  steady c (ask view_metadata r c).1.
Proof.
  intros Hdel Hsend Hkeep. unfold ask, steady. cbn [fst snd cl_auth cl_files cl_world].
  split; [done|]. split; [done|]. intros Hmd store Hok. rewrite Hmd.
  destruct (rpc md r (cl_world c)) as [w' out] eqn:Hrpc.
  apply (world_rpc_step _ _ _ _ _ _ _ Hset _ _ _ _ store) in Hrpc as (res & events & Hs & _ & He & Hn & _ & Hw); [|done..].
  cbn [fst]. split; [done|]. split; [rewrite Hn; by eapply deletes_nothing|].
  specialize (Hkeep (w_node (cl_world c))). by rewrite Hs in Hkeep.
Qed.

Lemma steady_new_op_id c : steady c (_new_op_id c).1.
Proof.
  unfold steady. split; [done|]. split; [done|]. intros Hmd store Hok.
  destruct (new_op_id_step cfg env csize denv ids peer_name md c _ _ store Hok eq_refl) as (Hw & _).
  split; [exact Hw|]. done.
Qed.

(** A call under a fresh identifier that leaves the path alone. *)
Lemma steady_fresh {B} (f : string → request) (k : ∀ op, result exn (answer_of (f op)) → M (Client World) client_error B) :
  (∀ op, op_of (f op) = op ∧ may_delete (f op) = false ∧
     moves (same (λ s : Node, view (tree (replicated s)) ps)) (serve_rpc cfg env ctx (f op))) →
  (∀ op a, moves steady (k op a)) →
  moves steady (op ← _new_op_id; a ← ask view_metadata (f op); k op a).
Proof.
  intros Hf Hk c. set (c1 := (_new_op_id c).1). set (op := ids (w_ids (cl_world c))).
  change (steady c ((a ← ask view_metadata (f op); k op a) c1).1).
  destruct (Hf op) as (Hop & Hdel & Hkeep).
  assert (steady c1 (ask view_metadata (f op) c1).1) as Hask.
  { apply steady_ask; [done| |done]. left. rewrite Hop. exists (w_ids (cl_world c)). split; [done|]. cbn. lia. }
  etrans; [apply steady_new_op_id|]. fold c1. unfold mbind, M_bind.
  destruct (ask view_metadata (f op) c1) as [c2 [a|e]] eqn:Ha; [|discriminate]. etrans; [exact Hask|]. apply Hk.
Qed.

Lemma steady_on_locks {A} (m : M Locks exn A) : moves steady (on_locks m).
Proof. intros c. by split_and!. Qed.

Lemma steady_lock path mode : moves steady (lock view_metadata path mode).
Proof.
  unfold lock. case_bool_decide; [|intros c; reflexivity].
  apply (steady_fresh (λ op, RLock op (_canonical_lock_path path) mode)
    (λ _ a, on_locks (ClientLocks.lock path mode a))); [|intros; apply steady_on_locks].
  intros op. split_and!; [done|done|]. by apply Lock_keeps.
Qed.

Lemma steady_release i : moves steady (release view_metadata i).
Proof.
  unfold release. apply moves_bind; [apply _|intros c; reflexivity|intros h].
  destruct (h_released h); [intros c; reflexivity|]. destruct (h_lost h); [apply steady_on_locks|].
  apply (steady_fresh (λ op, RUnlock op (h_path h) (h_id h)) (λ _ a, on_locks (ClientLocks.release i a)));
    [|intros; apply steady_on_locks].
  intros op. split_and!; [done|done|]. by apply Unlock_keeps.
Qed.

Lemma steady_ignoring m : moves steady m → moves steady (ignoring m).
Proof.
  intros Hm c. specialize (Hm c). unfold ignoring. destruct (m c) as [c1 [a|[e|e]]]; try done. by destruct (is_domain e).
Qed.

(** ** What a listing shows *)

Lemma call_state r c c' a : call view_metadata r c = (c', Ok a) → c' = (ask view_metadata r c).1.
Proof.
  unfold call, mbind, M_bind. destruct (ask view_metadata r c) as [c1 [[x|e]|e]]; [|discriminate..]. by intros [= -> _].
Qed.

Lemma listed_blocks path c c' infos store data :
  parts_of path = Ok ps → cl_auth c ++ view_metadata = md → world_ok (cl_world c) store → file_is cfg (cl_world c) store ps data →
  call view_metadata (RListBlocks path) c = (c', Ok infos) →
  let blks := block_in <$> infos in
  steady c c' ∧ sizes_match (stored store) blks ∧ concat (stored store <$> blks) = data
  ∧ faithful (replica_read (cl_world c')) (stored store).
Proof.
  intros Hpath Hmd Hok Hfile Hcall blks.
  assert (steady c c') as Hst.
  { rewrite (call_state _ _ _ _ Hcall). apply steady_ask; [done|by right|]. by apply ListBlocks_keeps. }
  destruct (steady_file _ _ _ _ Hst Hmd Hok Hfile) as [Hok' (f & Hv & _ & Hbs & _ & Hb)].
  eapply (call_step _ _ _ _ _ _ _ Hset _ (RListBlocks path)) in Hcall as (events & C1 & _); [|done|exact Hok|by right].
  apply listing_is_current in C1 as (p & n & ps' & f' & _ & _ & _ & _ & _ & Hps' & Hv' & _ & _ & Hinfos).
  assert (ps' = ps) as -> by congruence. rewrite Hv in Hv'. injection Hv' as <-.
  assert (Forall2 (λ piece b, stored store b = piece ∧ cb_size b = zlen piece) (blocks_of (f_block_size f) data) blks) as Hall.
  { unfold blks. apply Forall2_fmap_r. apply Forall2_flip in Hb. eapply Forall2_compose; [exact Hb|exact Hinfos|].
    intros piece b info (Hs & Hz & _) (Hid & _ & _ & Hsz & _). cbn. unfold stored. cbn. rewrite Hid, Hs, Hsz. done. }
  split; [done|]. split; [|split].
  - apply Forall_forall. intros b [i Hi]%list_elem_of_lookup_1. destruct (Forall2_lookup_r _ _ _ _ _ Hall Hi) as (piece & _ & -> & ->). done.
  - rewrite <-(blocks_of_concat (f_block_size f) data) by lia. f_equal. clear -Hall.
    induction Hall as [|piece b l1 l2 [Hs _] Hl IH]; [done|]. rewrite fmap_cons. by f_equal.
  - apply cluster_faithful; [apply (chunk_pos _ _ _ _ _ _ _ Hset)|apply (chunk_fits _ _ _ _ _ _ _ Hset)|].
    apply (ok_copies _ _ _ _ _ _ _ _ Hok').
Qed.

(** ** Range reads *)

Lemma under_lock_file path offset length c c' fh n store data :
  parts_of path = Ok ps → cl_auth c ++ view_metadata = md → world_ok (cl_world c) store → file_is cfg (cl_world c) store ps data →
  length ≠ Some 0 → read_under_lock view_metadata path offset length (mkPyFile [] 0) c = (c', Ok (fh, n)) →
  steady c c' ∧ f_bytes fh = slice offset (range_end (zlen data) offset length) data ∧ n = zlen (f_bytes fh).
Proof.
  intros Hpath Hmd Hok Hfile Hlen. unfold read_under_lock, translating.
  match goal with |- context [match ?m c with _ => _ end] => destruct (m c) as [c1 [x|e]] eqn:Hrun end; [|discriminate].
  intros [= -> ->].
  apply bind_ok_inv in Hrun as (c2 & infos & Hlist & (c3 & w & [= <- <-] & Hread)%bind_ok_inv).
  apply (listed_blocks _ _ _ _ store data) in Hlist as (Hst & Hsz & Hdata & Hfaith); [|done..].
  destruct (ClientData._read_range _ _ _ _ _) as [fh' [m|e]] eqn:Hr; [|discriminate]. injection Hread as -> <- <-.
  split; [done|].
  pose proof (range_read_bytes _ _ (block_in <$> infos) offset length m Hfaith Hsz Hlen) as Hrange.
  cbn zeta in Hrange. rewrite Hr, Hdata in Hrange. by apply Hrange.
Qed.

Lemma finally_ok {A} (m : M (Client World) client_error A) f c c' a :
  finally m f c = (c', Ok a) → ∃ c1, m c = (c1, Ok a) ∧ c' = (f c1).1.
Proof.
  unfold finally. destruct (m c) as [c1 r]. destruct (f c1) as [c2 [[]|e]] eqn:Hf; [|discriminate].
  intros [= <- ->]. exists c1. by rewrite Hf.
Qed.

Lemma read_range_file path offset length held c c' fh n store data :
  parts_of path = Ok ps → cl_auth c ++ view_metadata = md → world_ok (cl_world c) store → file_is cfg (cl_world c) store ps data →
  length ≠ Some 0 → _read_range view_metadata path offset length (mkPyFile [] 0) held c = (c', Ok (fh, n)) →
  steady c c' ∧ f_bytes fh = slice offset (range_end (zlen data) offset length) data ∧ n = zlen (f_bytes fh).
Proof.
  intros Hpath Hmd Hok Hfile Hlen. unfold _read_range. destruct (_ || _); [discriminate|].
  intros (c0 & mine & [= <- <-] & Hrun)%bind_ok_inv. destruct (match held with Some i => _ | None => _ end) as [i|].
  - by eapply under_lock_file.
  - apply bind_ok_inv in Hrun as (c1 & i & Hl & (c2 & Hr & ->)%finally_ok).
    pose proof (moves_inv _ _ _ _ _ (steady_lock path "r") Hl) as S1.
    destruct (steady_file _ _ _ _ S1 Hmd Hok Hfile) as [Hok1 Hfile1]. pose proof S1 as (A1 & _).
    eapply (under_lock_file path offset length c1) in Hr as (S2 & Hd); [|done|by rewrite A1|exact Hok1|exact Hfile1|done].
    split; [|exact Hd]. etrans; [exact S1|]. etrans; [exact S2|]. apply steady_ignoring, steady_release.
Qed.

(** ** Downloads *)

Lemma run_fetches tmp items order c c' rs bytes :
  cl_files c !! tmp = Some bytes → Forall (λ i, i < length items)%nat order →
  run_transfers (fetch_in tmp) items order c = (c', Ok rs) →
  ∃ out m, fetch_all (replica_read (cl_world c)) bytes (omap (λ i, items !! i) order) = (out, Ok m) ∧
    c' = with_local (<[tmp := out]> (cl_files c)) c ∧
    rs = (λ i, (i, from_option (λ item : CBlock * Z, cb_size item.1) 0 (items !! i))) <$> order.
Proof.
  revert c rs bytes. induction order as [|i order IH]; intros c rs bytes Hb Hlt; cbn [run_transfers omap list_omap].
  { intros [= <- <-]. exists bytes, 0. cbn. split; [done|]. rewrite insert_id by done. by destruct c. }
  apply Forall_cons in Hlt as [Hi Hlt]. destruct (lookup_lt_is_Some_2 items i Hi) as [item Hitem]. rewrite Hitem.
  intros (c1 & z & Hz & (c2 & rs' & Hrs & [= <- <-])%bind_ok_inv)%bind_ok_inv.
  unfold fetch_in in Hz. rewrite Hb in Hz. destruct item as [block start]. cbn [fst snd] in Hz. unfold default, id in Hz. cbn [from_option] in Hz.
  destruct (fetch_block (replica_read (cl_world c)) bytes block start) as [bytes1 [n|e]] eqn:Hf; [|discriminate].
  injection Hz as <- <-. assert (n = cb_size block) as ->.
  { revert Hf. unfold fetch_block. destruct (_read_block_with_failover _ _ _ _ _) as [r [m|e]]; [|discriminate].
    destruct (Z.eqb_spec m (cb_size block)); [|discriminate]. by intros [= <- <-]. }
  eapply (IH _ _ bytes1) in Hrs as (out & m & Ho & -> & ->); [|by apply lookup_insert_eq|done].
  cbn [with_local cl_world cl_files] in Ho. cbn [fetch_all]. rewrite Hf, Ho. eexists out, _. split; [reflexivity|].
  cbn. unfold with_local. cbn. rewrite insert_insert_eq. split; [done|]. by rewrite Hitem.
Qed.

Lemma download_file schedule remote local c c' n store data :
  parts_of remote = Ok ps → (∀ k, schedule k ≡ₚ seq 0 k) → cl_auth c ++ view_metadata = md →
  world_ok (cl_world c) store → file_is cfg (cl_world c) store ps data →
  download view_metadata schedule remote local c = (c', Ok n) →
  n = zlen data ∧ world_ok (cl_world c') store ∧ file_is cfg (cl_world c') store ps data ∧ cl_auth c' = cl_auth c ∧
  ∃ uid, cl_files c' = <[local := data]> (delete (local +:+ ".part-" +:+ uid) (cl_files c)).
Proof.
  intros Hpath Hsched Hmd Hok Hfile (c1 & i & Hl & (c2 & uid & Hu & (c3 & Hbody & ->)%finally_ok)%bind_ok_inv)%bind_ok_inv.
  pose proof (moves_inv _ _ _ _ _ (steady_lock remote "r") Hl) as S1.
  assert (steady c c2) as S2. { etrans; [exact S1|]. pose proof (steady_new_op_id c1) as S. by rewrite Hu in S. }
  destruct (steady_file _ _ _ _ S2 Hmd Hok Hfile) as [Hok2 Hfile2]. pose proof S2 as (A2 & F2 & _).
  set (tmp := local +:+ ".part-" +:+ uid) in *.
  pose proof (steady_ignoring _ (steady_release i)) as S4.
  unfold cleaning, translating in Hbody.
  match type of Hbody with context [match ?m c2 with _ => _ end] => destruct (m c2) as [c4 [x|e]] eqn:Hrun end; [|discriminate].
  injection Hbody as -> ->.
  apply bind_ok_inv in Hrun as (c5 & infos & Hlist & (c6 & [] & Hnew & (c7 & ns & Hpar & (c8 & [] & Hrep & [= <- <-])%bind_ok_inv)%bind_ok_inv)%bind_ok_inv).
  apply (f_equal fst) in Hnew, Hrep. cbn in Hnew, Hrep. subst c6 c8.
  apply (listed_blocks _ _ _ _ store data) in Hlist as (S3 & Hsz & Hdata & Hfaith); [|done|by rewrite A2|done..].
  destruct (steady_file _ _ _ _ S3 ltac:(by rewrite A2) Hok2 Hfile2) as [Hok5 Hfile5]. pose proof S3 as (A3 & F3 & _).
  set (blks := block_in <$> infos) in *. set (items := zip blks (_block_starts blks)) in *.
  assert (length items = length blks) as Hlen by (unfold items; rewrite length_zip; unfold _block_starts; rewrite starts_length; lia).
  apply bind_ok_inv in Hpar as (c9 & rs & Hrs & [= <- <-]).
  assert (schedule (length items) ≡ₚ seq 0 (length items)) as Hord by apply Hsched.
  eapply run_fetches in Hrs as (out & m & Hfetch & -> & ->); [|apply lookup_insert_eq|].
  2: { apply Forall_forall. intros k. rewrite Hord. intros ?%elem_of_seq. lia. }
  assert (Forall (λ b, 0 ≤ cb_size b) blks) as Hnn.
  { eapply Forall_impl; [exact Hsz|]. intros b Hb. cbn in Hb. rewrite <-Hb. apply zlen_nonneg. }
  destruct (download_spec (replica_read (cl_world c5)) (stored store) blks (omap (λ k, items !! k) (schedule (length items))) out m Hfaith Hnn)
    as [-> _]; [by rewrite Hord, omap_lookup_seq|exact Hfetch|]. rewrite Hdata in *.
  match goal with |- context [(ignoring _ ?x).1] => set (c8 := x) end.
  assert (cl_files c8 = <[local := data]> (delete tmp (cl_files c))) as F8.
  { unfold c8. cbn [with_local cl_files]. by rewrite lookup_insert_eq, insert_insert_eq, delete_insert_eq, F3, F2. }
  assert (cl_auth c8 = cl_auth c) as A8 by (change (cl_auth c8) with (cl_auth c5); congruence).
  split; [|split; [|split; [|split]]].
  - rewrite in_order_spec by done. rewrite fmap_lookup_seq. unfold items. rewrite zip_sizes. rewrite (sum_sizes (stored store)) by done. by rewrite Hdata.
  - by eapply (steady_file c8 _ store data); [apply S4|rewrite A8|exact Hok5|exact Hfile5].
  - by eapply (steady_file c8 _ store data); [apply S4|rewrite A8|exact Hok5|exact Hfile5].
  - destruct (S4 c8) as (A & _). congruence.
  - exists uid. destruct (S4 c8) as (_ & F & _). by rewrite F, F8.
Qed.
End steady.
