(* ===== verification/ClusterWrite.v ===== *)
(** A write through a lock end to end: the new blocks the client builds from the old
    ones and streams to the DataNodes, and the version the tree publishes, are the
    file with the written bytes in place. *)

From Stdlib Require Import QArith.
From S2P Require Import Prelude Exceptions Dict Crypto Bytes Paths BlockToken Addresses Auth BlockStore.
From S2P Require Import Container BlockStoreProps.
From S2P Require Import TreeData Tree TreeFacts TreeOps TreeInv TreeView TreeWrite Layout Replicated.
From S2P Require Import Servicer Handlers ServicerProps ServicerErrors.
From S2P Require Import ServicerUpload ServicerDeletes ServicerSteps.
From S2P Require Import DataNode RpcClient ClientData ClientRead ClientWrite ClientTransfer ClientLocks.
From S2P Require Import Session ClusterWorld ClusterFacts ClusterUpload ClusterDownload.

Open Scope Z_scope.

(** The reservations the commands of others bring are not under identifiers this
    servicer draws. *)
Definition others_reserve_elsewhere (env : Env) : Prop :=
  ∀ n r k res, t_writes (tree (apply_log (others_at env n) r)) !! uuid_at env k = Some res →
    t_writes (tree r) !! uuid_at env k = Some res.

Section write.
Context `{!Jwt, !JwtLaws, !Aead, !AeadLaws} (cfg : Config) (env : Env) (csize : Z).
Context (denv : nat → DEnv) (ids : nat → string) (peer_name : string) (md view_metadata : list (string * string)).
Notation ctx := (mkCtx md peer_name).
Context (Hset : setting cfg env csize denv ids peer_name md).
#[local] Hint Extern 0 (Cluster _) => exact (world_cluster cfg env csize denv ids peer_name) : typeclass_instances.
Notation world_ok := (world_ok cfg env csize ids peer_name md).

(** * The new blocks *)

Context (bs off : Z) (data l : list Z).
Hypothesis Hbs : 0 < bs ≤ c_block_size cfg.
Hypothesis Hoff : 0 ≤ off ≤ zlen l.
Hypothesis Hdata : 0 < zlen data.
Notation new := (Z.max (zlen l) (off + zlen data)).
Notation piece i := (block_of bs (splice l off data) i).

(** What a slot of the answer asks of the client, for the block [i]. *)
Record slot_for (store : gmap string (list Z)) (n : nat) (i : Z) (s : WriteSlot) : Prop := {
  sf_planned : off / bs ≤ i < (off + zlen data - 1) / bs + 1;
  sf_describes : describes (stored store) bs l i (block_len bs new i) (slot_of s);
  sf_old : ws_old_id s ≠ "" → is_Some (store !! ws_old_id s);
  sf_fresh : store !! ws_new_id s = None;
  sf_drawn : ∃ k, ws_new_id s = uuid_at env k ∧ (k < n)%nat;
  sf_replicas : NoDup (ws_new_addresses s)
}.

(** The block of a slot is stored. *)
Definition sent_for (w : World) (store : gmap string (list Z)) (i : Z) (s : WriteSlot) : Prop :=
  store !! ws_new_id s = Some (piece i) ∧ ∀ a, a ∈ ws_new_addresses s → has_copy (w_net w) a (ws_new_id s).

Definition confirmation_of (i : Z) (s : WriteSlot) : Confirmed :=
  (ws_index s, ws_new_id s, hexdigest (sha256 (piece i)), zlen (piece i)).

Lemma slot_for_extends store n i s id bytes :
  slot_for store n i s → store !! id = None → id ≠ ws_new_id s → slot_for (<[id := bytes]> store) n i s.
Proof.
  intros [K1 K2 K3 K4 K5 K6] Hid Hne. split; [done| | |by rewrite lookup_insert_ne|done|done].
  - destruct K2 as (D1 & D2 & D3). split; [done|]. split; [done|]. destruct (i <? _); [|done]. destruct D3 as [D3 D4]. split; [done|].
    rewrite <-D4. unfold stored. rewrite lookup_insert_ne; [done|]. intros E. destruct (K3 D3) as [x Hx]. cbn in E. congruence.
  - intros Hold. apply lookup_insert_is_Some'. right. by apply K3.
Qed.

Lemma piece_size i : off / bs ≤ i < (off + zlen data - 1) / bs + 1 → zlen (piece i) = block_len bs new i.
Proof.
  intros Hi. pose proof (planned_bounds bs off data l ltac:(lia) Hoff Hdata i Hi).
  rewrite block_of_length; rewrite ?splice_zlen by done; [done|lia|nia|lia].
Qed.

Lemma write_slot_step store i s c c' cf :
  world_ok (cl_world c) store → slot_for store (tick (w_node (cl_world c))) i s →
  write_slot bs off data s c = (c', Ok cf) →
  cf = confirmation_of i s ∧ world_ok (cl_world c') (<[ws_new_id s := piece i]> store) ∧
  sent_for (cl_world c') (<[ws_new_id s := piece i]> store) i s ∧
  (∀ a b, has_copy (w_net (cl_world c)) a b → has_copy (w_net (cl_world c')) a b) ∧
  w_node (cl_world c') = w_node (cl_world c) ∧ keeps_client c c'.
Proof.
  intros Hok [K1 K2 K3 K4 K5 K6] (c1 & w & [= <- <-] & (c2 & content & Hc & (c3 & written & Hw & [= <- <-])
    %bind_ok_inv)%bind_ok_inv)%bind_ok_inv.
  apply lift_ok_inv in Hc as [Hc ->].
  assert (content = piece i) as ->.
  { eapply (slot_content_spec _ (stored store)); [|exact (proj1 Hbs)|exact Hoff|exact Hdata|exact K1|exact K2|exact Hc].
    apply cluster_faithful; [apply (chunk_pos _ _ _ _ _ _ _ Hset)|apply (chunk_fits _ _ _ _ _ _ _ Hset)|].
    apply (ok_copies _ _ _ _ _ _ _ _ Hok). }
  pose proof (piece_size i K1) as Hz. destruct K2 as (_ & Hnew & _). cbn [slot_of sl_new cb_size] in Hnew.
  pose proof (planned_bounds bs off data l ltac:(lia) Hoff Hdata i K1) as Hpb.
  assert (0 ≤ ws_new_size s ≤ bs) as Hn by (rewrite Hnew; unfold block_len; lia).
  apply (write_step _ _ _ _ _ _ _ Hset _ _ _ _ _ _ store) in Hw as (-> & W1 & W2 & W3 & W4 & W5 & W6); cbn [slot_of sl_new cb_id cb_size cb_addresses] in *;
    [|done|done|done|done|lia|lia|lia].
  assert (slice 0 (0 + ws_new_size s) (piece i) = piece i) as Hp by (rewrite Z.add_0_l, Hnew, <-Hz; apply slice_all).
  rewrite Hp in *. split_and!; try done.
  - unfold confirmation_of. cbn. by rewrite Hz, Hnew.
  - unfold sent_for. by rewrite lookup_insert_eq.
Qed.

Lemma write_all_steps store idx slots c c' cfs :
  world_ok (cl_world c) store → Forall2 (slot_for store (tick (w_node (cl_world c)))) idx slots →
  NoDup (ws_new_id <$> slots) → write_all bs off data slots c = (c', Ok cfs) →
  ∃ store', store ⊆ store' ∧ world_ok (cl_world c') store' ∧ cfs = zip_with confirmation_of idx slots ∧
    Forall2 (sent_for (cl_world c') store') idx slots ∧
    (∀ a b, has_copy (w_net (cl_world c)) a b → has_copy (w_net (cl_world c')) a b) ∧
    w_node (cl_world c') = w_node (cl_world c) ∧ keeps_client c c'.
Proof.
  intros Hok Hall. revert store c cfs Hok Hall. induction idx as [|i idx IH] in slots |- *; intros store c cfs Hok Hall Hnd.
  { apply Forall2_nil_inv_l in Hall as ->. intros [= <- <-]. exists store. split_and!; done. }
  apply Forall2_cons_inv_l in Hall as (s & rest & Hs & Hrest & ->). cbn [write_all].
  apply NoDup_cons in Hnd as [Hnin Hnd].
  intros (c1 & cf & Hcf & (c2 & cfs' & Hcfs & [= <- <-])%bind_ok_inv)%bind_ok_inv.
  pose proof Hs as [_ _ _ Hfresh _ _].
  apply (write_slot_step store i) in Hcf as (-> & W1 & [W2 W2'] & W3 & W4 & W5); [|done..].
  apply (IH rest (<[ws_new_id s := piece i]> store)) in Hcfs as (store' & S1 & S2 & -> & S3 & S4 & S5 & S6); [|done| |done].
  - exists store'. split; [etrans; [|exact S1]; by apply insert_subseteq|]. split; [done|]. split; [done|].
    split; [|split; [intros a b Hab; by apply S4, W3|split; [congruence|by etrans]]].
    constructor; [|done]. split; [eapply lookup_weaken; [exact W2|exact S1]|]. intros a Ha. by apply S4, W2'.
  - rewrite W4. apply Forall2_same_length_lookup. apply Forall2_same_length_lookup in Hrest as [Hl Hrest]. split; [done|].
    intros k j x Hj Hx. apply slot_for_extends; [by eapply Hrest|done|].
    intros E. apply Hnin. rewrite E. apply list_elem_of_fmap. exists x. split; [done|]. by eapply list_elem_of_lookup_2.
Qed.
End write.

(** * The slots of the answer *)

Section described.
Context `{!Jwt, !JwtLaws} (cfg : Config) (env : Env) (ctx : Ctx) (net : Net).
Context (bs off : Z) (data l : list Z) (store : gmap string (list Z)) (n : nat) (B : list BlockRecord).
Hypothesis Hview : c_public_addresses cfg = [].
Hypothesis Hnamed : store !! "" = None.
Hypothesis Hblocks : Forall2 (block_is net store) B (blocks_of bs l).
Notation new := (Z.max (zlen l) (off + zlen data)).
Notation row_of i := (i, block_len bs new i).

Lemma block_at_index i : 0 ≤ i < zlen B → ∃ b, py_get B i = Some b ∧ store !! block_id b = Some (block_of bs l i).
Proof.
  intros Hi. unfold py_get. rewrite py_index_nonneg by done.
  destruct (lookup_lt_is_Some_2 B (Z.to_nat i)) as [b Hb]; [unfold zlen in Hi; lia|]. exists b. split; [done|].
  destruct (Forall2_lookup_l _ _ _ _ _ Hblocks Hb) as (p & Hp & Hs & _). rewrite Hs. f_equal.
  unfold blocks_of in Hp. apply list_lookup_fmap_Some in Hp as (j & -> & Hj). apply zrange_lookup in Hj as [-> _]. f_equal. lia.
Qed.

Lemma blocks_count : zlen B = block_count bs (zlen l) ∨ block_count bs (zlen l) < 0.
Proof.
  unfold zlen at 1. rewrite (Forall2_length _ _ _ Hblocks). unfold blocks_of. rewrite length_fmap, zrange_length. lia.
Qed.

Lemma slots_described idx pr rows ws :
  0 < bs → idx = (λ p : Proposal, p.1.1) <$> pr →
  (∀ i, i ∈ idx → off / bs ≤ i < (off + zlen data - 1) / bs + 1) → 0 ≤ off / bs →
  Forall (λ p : Proposal, store !! p.1.2 = None ∧ (∃ k, p.1.2 = uuid_at env k ∧ (k < n)%nat) ∧ NoDup p.2) pr →
  mapM (describe_slot B) (make_slot <$> zip ((λ i, row_of i) <$> idx) pr) = Ok rows →
  Forall2 (shows_slot cfg ctx) rows ws →
  Forall2 (slot_for env bs off data l store n) idx ws ∧
  Forall2 (λ s w, ws_new_id w = new_block_id s ∧ ws_new_addresses w = new_addresses s)
    (make_slot <$> zip ((λ i, row_of i) <$> idx) pr) ws.
Proof.
  intros Hbs -> Hplan Hoff Hpr. revert rows ws. induction Hpr as [|[[i bid] addrs] pr (Hfresh & Hdrawn & Hnd) Hpr IH]; intros rows ws.
  { intros [= <-] ->%Forall2_nil_inv_l. split; constructor. }
  cbn [fmap list_fmap zip zip_with make_slot fst snd mapM] in *.
  destruct (describe_slot B _) as [row|e] eqn:Hd; cbn [mbind result_bind]; [|discriminate].
  destruct (mapM _ _) as [rows'|e] eqn:Hrows; cbn [mbind result_bind]; [|discriminate]. intros [= <-].
  intros (w & ws' & Hw & Hws & ->)%Forall2_cons_inv_l.
  destruct (IH ltac:(intros j Hj; apply Hplan; by right) rows' ws' eq_refl Hws) as [IH1 IH2].
  specialize (Hplan i ltac:(by left)).
  assert (∀ al internal, _for_client cfg ctx al internal = al) as Hfc by (intros; unfold _for_client; by rewrite Hview, bool_decide_true).
  unfold describe_slot, old_block in Hd. cbn [slot_index new_block_id new_addresses new_size] in Hd.
  pose proof blocks_count as Hcount. pose proof (zlen_nonneg l) as Hl. pose proof (block_count_nonneg bs (zlen l) Hbs Hl) as Hnn.
  destruct (Z.ltb_spec i (zlen B)) as [Hi|Hi].
  - destruct (block_at_index i) as (b & Hb & Hs); [lia|]. rewrite Hb in Hd. injection Hd as <-.
    destruct Hw as (W1 & W2 & W3 & W4 & W5 & W6 & W7). rewrite Hfc in W6. cbn in W2, W5, W6, W7.
    split; constructor; try done. constructor; cbn; rewrite ?W2, ?W5, ?W6; try done.
    unfold describes. cbn. rewrite (proj2 (Z.ltb_lt i (block_count bs (zlen l)))) by lia. rewrite W1, W2, W7.
    split_and!; [done|done|intros E; congruence|]. unfold stored. cbn. by rewrite Hs.
  - injection Hd as <-. destruct Hw as (W1 & W2 & W3 & W4 & W5 & W6 & W7). rewrite Hfc in W6. cbn in W2, W5, W6, W7.
    split; constructor; try done. constructor; cbn; rewrite ?W2, ?W5, ?W6; try done.
    unfold describes. cbn. rewrite (proj2 (Z.ltb_ge i (block_count bs (zlen l)))) by lia. rewrite W1, W2, W7. done.
Qed.
End described.

(** * What the commit publishes *)

(** The new blocks, as the log makes them from the slots and the confirmations. *)
Lemma published_blocks net store (g : Z → list Z) idx sl ws :
  Forall2 (λ s x, ws_new_id x = new_block_id s ∧ ws_new_addresses x = new_addresses s) sl ws →
  Forall2 (λ i x, store !! ws_new_id x = Some (g i) ∧ ∀ a, a ∈ ws_new_addresses x → has_copy net a (ws_new_id x)) idx ws →
  Forall2 (block_is net store)
    (slot_new <$> zip sl (zip_with (λ i x, (ws_index x, ws_new_id x, hexdigest (sha256 (g i)), zlen (g i))) idx ws)) (g <$> idx).
Proof.
  intros Hsl Hidx. revert sl Hsl. induction Hidx as [|i x idx ws [Hst Hc] Hidx IH]; intros sl Hsl.
  { apply Forall2_nil_inv_r in Hsl as ->. constructor. }
  apply Forall2_cons_inv_r in Hsl as (s & sl' & [E1 E2] & Hsl & ->). rewrite E1, E2 in *.
  cbn [zip_with zip fmap list_fmap]. constructor; [done|]. by apply IH.
Qed.

Lemma blocks_kept net net' store B pieces :
  (∀ b a, b ∈ B → has_copy net a (block_id b) → has_copy net' a (block_id b)) →
  Forall2 (block_is net store) B pieces → Forall2 (block_is net' store) B pieces.
Proof.
  intros Hk HB. apply Forall2_same_length_lookup in HB as [Hl HB]. apply Forall2_same_length_lookup. split; [done|].
  intros i b piece Hb Hp. destruct (HB i b piece Hb Hp) as (H1 & H2 & H3). split; [done|]. split; [done|].
  intros a Ha. apply Hk; [by eapply list_elem_of_lookup_2|by apply H3].
Qed.

Lemma blocks_extend net net' store store' B pieces :
  store ⊆ store' → (∀ a b, has_copy net a b → has_copy net' a b) →
  Forall2 (block_is net store) B pieces → Forall2 (block_is net' store') B pieces.
Proof.
  intros Hs Hk HB. eapply Forall2_impl; [exact HB|]. intros b piece (H1 & H2 & H3).
  split; [by eapply lookup_weaken|]. split; [done|]. intros a Ha. by apply Hk, H3.
Qed.

(** Replacing a run of blocks keeps the identifiers distinct, and the ones that
    stay are not those that go. *)
Lemma replaced_apart (B N : list BlockRecord) (a b : nat) :
  (a ≤ b)%nat → NoDup (block_id <$> B) → NoDup (block_id <$> N) → (∀ x, x ∈ N → block_id x ∉ block_id <$> B) →
  NoDup (block_id <$> take a B ++ N ++ drop b B) ∧
  ∀ x y, x ∈ take a B ++ N ++ drop b B → y ∈ take (b - a) (drop a B) → block_id x ≠ block_id y.
Proof.
  intros Hab HB HN Hdisj. rewrite <-(take_drop_range B a b Hab) in HB, Hdisj. set (rep := take (b - a) (drop a B)) in *.
  rewrite !fmap_app in *. apply NoDup_app in HB as (HB1 & HB2 & HB3). apply NoDup_app in HB3 as (HB3 & HB4 & HB5). split.
  - apply NoDup_app. split; [done|]. split.
    + intros x Hx [(n & -> & Hn)%list_elem_of_fmap|Hx']%elem_of_app.
      * apply (Hdisj n Hn). rewrite !elem_of_app. by left.
      * apply (HB2 x Hx). rewrite elem_of_app. by right.
    + apply NoDup_app. split; [done|]. split; [|done].
      intros x (n & -> & Hn)%list_elem_of_fmap Hx. apply (Hdisj n Hn). rewrite !elem_of_app. by right; right.
  - intros x y Hx Hy E. assert (block_id y ∈ block_id <$> rep) as Hid by by apply list_elem_of_fmap_2.
    rewrite !elem_of_app in Hx. destruct Hx as [Hx|[Hx|Hx]].
    + apply (HB2 (block_id x)); [by apply list_elem_of_fmap_2|]. rewrite E, elem_of_app. by left.
    + apply (Hdisj x Hx). rewrite E, !elem_of_app. by right; left.
    + apply (HB4 (block_id y) Hid). rewrite <-E. by apply list_elem_of_fmap_2.
Qed.

Section theorem.
Context `{!Jwt, !JwtLaws, !Aead, !AeadLaws} (cfg : Config) (env : Env) (csize : Z).
Context (denv : nat → DEnv) (ids : nat → string) (peer_name : string) (md view_metadata : list (string * string)).
Notation ctx := (mkCtx md peer_name).
Context (Hset : setting cfg env csize denv ids peer_name md).
#[local] Hint Extern 0 (Cluster _) => exact (world_cluster cfg env csize denv ids peer_name) : typeclass_instances.
Notation world_ok := (world_ok cfg env csize ids peer_name md).

Lemma block_sizes net store B pieces : Forall2 (block_is net store) B pieces → size_bytes <$> B = zlen <$> pieces.
Proof. induction 1 as [|b p B pieces (_ & Hz & _) HB IH]; [done|]. rewrite !fmap_cons. by f_equal. Qed.
Lemma sum_block_sizes net store B bs l :
  0 < bs → Forall2 (block_is net store) B (blocks_of bs l) → sumZ (size_bytes <$> B) = zlen l.
Proof. intros Hbs HB. by rewrite (block_sizes _ _ _ _ HB), sum_zlen, blocks_of_concat. Qed.

(** The reservation of a write, as the client sees it. *)
Record begun (store : gmap string (list Z)) (path id : string) (ps : list string) (off len : Z) (f : FileNode)
    (plan : list (Z * Z)) (pr : list Proposal) (c c' : Client World) (resp : BeginWriteResponse) : Prop := {
  bg_world : world_ok (cl_world c') store;
  bg_client : keeps_client c c';
  bg_net : w_net (cl_world c') = w_net (cl_world c);
  bg_view : view (tree (replicated (w_node (cl_world c')))) ps = Some (EFile f);
  bg_plan : plan_write_slots (size_bytes <$> blocks f) (f_block_size f) off len = Ok plan;
  bg_indices : plan.*1 = (λ p : Proposal, p.1.1) <$> pr;
  bg_reserved : ∃ res, t_writes (tree (replicated (w_node (cl_world c')))) !! bw_write_id resp = Some res ∧
    slots res = make_slot <$> zip plan pr ∧ w_block_size res = f_block_size f;
  bg_write_id : ∃ j, bw_write_id resp = uuid_at env j;
  bg_block_size : bw_block_size resp = f_block_size f;
  bg_rows : ∃ rows, mapM (describe_slot (blocks f)) (make_slot <$> zip plan pr) = Ok rows ∧
    Forall2 (shows_slot cfg ctx) rows (bw_slots resp);
  bg_fresh : NoDup ((λ p : Proposal, p.1.2) <$> pr) ∧
    Forall (λ p : Proposal, store !! p.1.2 = None ∧ (∃ k, p.1.2 = uuid_at env k ∧ (k < tick (w_node (cl_world c')))%nat) ∧ NoDup p.2) pr
}.

Lemma begin_write_step ps path id off len op store f c c' resp :
  parts_of path = Ok ps → others_keep env ps → cl_auth c ++ view_metadata = md →
  world_ok (cl_world c) store → drawn_id ids (cl_world c) op → unused cfg env ctx op (w_node (cl_world c)) →
  view (tree (replicated (w_node (cl_world c)))) ps = Some (EFile f) → 0 < f_block_size f →
  call view_metadata (RBeginWrite op path id off len) c = (c', Ok resp) →
  ∃ plan pr, begun store path id ps off len f plan pr c c' resp.
Proof.
  intros Hpath Hoth Hmd Hok Hdrawn Hun Hv Hbs Hcall.
  eapply (call_step _ _ _ _ _ _ _ Hset _ (RBeginWrite op path id off len)) in Hcall as (events & C1 & C2 & C3 & C4 & C5 & C6);
    [|done|exact Hok|by left].
  rewrite (deletes_nothing _ _ _ _ _ _ _ _ _ _ (eq_refl : may_delete (RBeginWrite _ _ _ _ _) = false) C1 C2) in C3.
  destruct Hdrawn as (j & -> & _). cbn [serve_rpc] in C1.
  apply begin_write_run in C1 as (p & k & n & t & expected & pr & rows & _ & Hb & Hrows & (ks & Hks & Hkr & Hknd) & Hrep & Hwid);
    [|apply (ids_own _ _ _ _ _ _ _ Hset)|apply (nodes_distinct _ _ _ _ _ _ _ Hset)
     |apply (alive_distinct _ _ _ _ _ _ _ Hset)|apply (replicas_nonneg _ _ _ _ _ _ _ Hset)|done].
  apply begin_write_inv in Hb as (ps' & f' & plan & rows' & Hp & Hg & _ & _ & _ & _ & _ & Hplan & Hidx & Hdesc & [= _ Hbz ->] & Ht).
  assert (ps' = ps) as -> by congruence. apply view_file in Hg. rewrite !Hoth, Hv in Hg. injection Hg as <-.
  assert (_block_size_of f (c_block_size cfg) = f_block_size f) as Hbsz.
  { unfold _block_size_of. destruct (Z.eqb_spec (f_block_size f) 0); [lia|done]. }
  rewrite Hbsz in *. exists plan, pr. constructor; try done.
  - rewrite Ht. rewrite view_with_writes, view_with_locks, !Hoth. exact Hv.
  - rewrite Ht. cbn. eexists. rewrite lookup_insert_eq. done.
  - by exists rows'.
  - split; [rewrite Hks; apply NoDup_fmap_2_strong; [intros x y _ _; apply (uuids_distinct _ _ _ _ _ _ _ Hset)|done]|].
    apply Forall_forall. intros x Hx. rewrite Forall_forall in Hrep. destruct (Hrep x Hx) as (al & _ & _ & Hnd & _).
    assert (x.1.2 ∈ uuid_at env <$> ks) as Hin by (rewrite <-Hks; apply list_elem_of_fmap; by exists x).
    apply list_elem_of_fmap in Hin as (m & Hm & Hin). rewrite Forall_forall in Hkr. specialize (Hkr m Hin). split_and!; [| |done].
    + rewrite Hm. apply (ok_uuids _ _ _ _ _ _ _ _ Hok). lia.
    + exists m. split; [done|]. lia.
Qed.

(** The commit: the file is the one with the bytes in place. *)
Lemma commit_step ps path id off data l wid base op store f sl conf c c' v res :
  parts_of path = Ok ps → others_keep env ps → others_reserve_elsewhere env → cl_auth c ++ view_metadata = md →
  world_ok (cl_world c) store → drawn_id ids (cl_world c) op → unused cfg env ctx op (w_node (cl_world c)) →
  view (tree (replicated (w_node (cl_world c)))) ps = Some (EFile f) → 0 < f_block_size f ≤ c_block_size cfg →
  t_writes (tree (replicated (w_node (cl_world c)))) !! wid = Some res → slots res = sl → w_block_size res = f_block_size f →
  (∃ j, wid = uuid_at env j) →
  plan_write_slots (size_bytes <$> blocks f) (f_block_size f) off (zlen data) = Ok ((λ s, (slot_index s, new_size s)) <$> sl) →
  NoDup (block_id <$> blocks f) → NoDup (new_block_id <$> sl) → (∀ s, s ∈ sl → new_block_id s ∉ block_id <$> blocks f) →
  Forall2 (block_is (w_net (cl_world c)) store) (blocks f) (blocks_of (f_block_size f) l) →
  Forall2 (block_is (w_net (cl_world c)) store) (slot_new <$> zip sl conf)
    (block_of (f_block_size f) (splice l off data) <$> zrange (off / f_block_size f) ((off + zlen data - 1) / f_block_size f + 1)) →
  call view_metadata (RCommitWrite op path wid id base conf) c = (c', Ok v) →
  world_ok (cl_world c') store ∧ file_is cfg (cl_world c') store ps (splice l off data) ∧ keeps_client c c'.
Proof.
  intros Hpath Hoth Hres Hmd Hok Hdrawn Hun Hv Hbs Hw Hsl Hbz (j & ->) Hplan HndB HndN Hdisj HB HN Hcall.
  eapply (call_step _ _ _ _ _ _ _ Hset _ (RCommitWrite op path _ id base conf)) in Hcall as (events & C1 & C2 & C3 & C4 & C5 & C6);
    [|done|exact Hok|by left].
  destruct Hdrawn as (k & -> & _). cbn [serve_rpc] in C1.
  apply CommitWrite_run in C1 as (p & n & t & replaced & _ & Hc & events' & Hsent & Hdel); [|apply (ids_own _ _ _ _ _ _ _ Hset)|done].
  assert (events' = events) as -> by (apply (app_inv_head (sent (w_node (cl_world c)))); congruence). clear Hsent.
  apply commit_write_inv in Hc as (ps' & f' & res' & bs & rep & Hp & Hg & Hst & _ & Hlive & _ & _ & _ & _ & _ & Hkey & Hpub & [= _ ->] & Ht).
  assert (ps' = ps) as -> by congruence. apply view_file in Hg. unfold log_at in *. rewrite Hoth, Hv in Hg. injection Hg as <-.
  unfold live_writes in Hlive. rewrite map_lookup_filter_Some in Hlive. destruct Hlive as [Hlive _]. apply Hres in Hlive.
  assert (res' = res) as -> by congruence. rewrite Hsl in *.
  pose proof Hplan as (Hlen & Hoff & _ & Hpl)%plan_write_slots_ok_inv.
  pose proof (sum_block_sizes _ _ _ _ _ (proj1 Hbs) HB) as Hsum. rewrite Hsum in Hoff.
  assert (zlen (blocks f) = block_count (f_block_size f) (zlen l)) as Hcount.
  { unfold zlen at 1. rewrite (Forall2_length _ _ _ HB). unfold blocks_of. rewrite length_fmap, zrange_length.
    pose proof (block_count_nonneg (f_block_size f) (zlen l) (proj1 Hbs)). lia. }
  pose proof (first_in_layout (f_block_size f) (zlen l) off (proj1 Hbs) Hoff) as Hfirst.
  assert (off / f_block_size f ≤ (off + zlen data - 1) / f_block_size f) as Hfl by (apply Z.div_le_mono; lia).
  pose proof (Z.div_pos off (f_block_size f) ltac:(lia) (proj1 Hbs)) as Hpos.
  rewrite (publish_planned _ _ _ off (zlen data) (f_block_size f) Hkey (proj1 Hbs)) in Hpub;
    [|unfold block_len; exact Hpl|done|lia|lia].
  injection Hpub as <- <-. set (first := Z.to_nat (off / f_block_size f)) in *.
  set (last := Z.to_nat ((off + zlen data - 1) / f_block_size f + 1)) in *.
  destruct (matched_plan _ _ Hkey) as (_ & _ & _ & Hids).
  destruct (replaced_apart (blocks f) (slot_new <$> zip sl conf) first last) as [Hnd Hapart]; [lia|done|by rewrite Hids| |].
  { intros x Hx Hin. apply (list_elem_of_fmap_2 block_id) in Hx. rewrite Hids in Hx. apply list_elem_of_fmap in Hx as (s & E & Hs).
    apply (Hdisj s Hs). by rewrite <-E. }
  split; [exact C5|]. split; [|exact C6]. eexists. split.
  - rewrite Ht, view_with_writes. rewrite (view_put_file _ (with_blocks (take first (blocks f) ++ (slot_new <$> zip sl conf) ++ drop last (blocks f)) f))
      by (eapply get_put_file, view_file; rewrite view_with_locks, view_with_writes, Hoth; exact Hv).
    unfold vset. by rewrite decide_True.
  - cbn [with_version with_blocks f_state f_block_size blocks]. rewrite Hbz. split; [exact Hst|]. split; [exact Hbs|]. split; [exact Hnd|].
    rewrite <-(blocks_of_splice (f_block_size f) off data l) by lia. rewrite C3.
    apply (blocks_kept (w_net (cl_world c))).
    + intros b a Hb Hc. apply delivered_keeps; [exact Hc|]. intros m Hm. destruct (Hdel _ _ _ Hm) as (y & Hy & E).
      by apply (Hapart b y Hb Hy).
    + apply Forall2_app; [by apply Forall2_take|]. apply Forall2_app; [exact HN|by apply Forall2_drop].
Qed.

Lemma write_with_lock_file ps i off data c c' n store l :
  parts_of (h_path (handle_at i (cl_locks c))) = Ok ps → others_keep env ps → others_reserve_elsewhere env →
  cl_auth c ++ view_metadata = md → world_ok (cl_world c) store → file_is cfg (cl_world c) store ps l →
  _write_with_lock view_metadata i off data c = (c', Ok n) →
  n = zlen data ∧ 0 ≤ off ≤ zlen l ∧ ∃ store', store ⊆ store' ∧ world_ok (cl_world c') store' ∧
    file_is cfg (cl_world c') store' ps (splice l off data) ∧ keeps_client c c'.
Proof.
  intros Hpath Hoth Hres Hmd Hok (f & Hv & Hst & Hbs & Hnd & HB) (c0 & h & [= <- <-] & Hrun)%bind_ok_inv.
  set (h := handle_at i (cl_locks c)) in *. destruct (may_write h); [|discriminate].
  apply bind_ok_inv in Hrun as (c1 & op & Hop & (c2 & resp & Hbegin & (c3 & [] & Hbody%on_failure_ok & [= <- <-])%bind_ok_inv)%bind_ok_inv).
  eapply new_op_id_step in Hop as (O1 & O2 & O3 & O4 & O5 & O6); [|exact Hok].
  assert (keeps_client c c1) as Hk1 by by rewrite O6.
  rewrite <-O4 in Hv. rewrite <-O5 in HB. assert (cl_auth c1 ++ view_metadata = md) as Hmd1 by (destruct Hk1 as (_ & -> & _); done).
  apply (begin_write_step ps _ _ _ _ _ store f) in Hbegin
    as (plan & pr & [B1 B2 B3 B4 B5 B6 (res & B7 & B8 & B9) B10 B11 (rows & B12 & B13) [B14 B15]]); [|done..|lia].
  rewrite <-B3 in HB. pose proof B5 as (Hlen & Hoff & _ & Hplan)%plan_write_slots_ok_inv.
  rewrite (sum_block_sizes _ _ _ _ _ (proj1 Hbs) HB) in Hoff, Hplan.
  change (plan = (λ i, (i, block_len (f_block_size f) (Z.max (zlen l) (off + zlen data)) i))
    <$> zrange (off / f_block_size f) ((off + zlen data - 1) / f_block_size f + 1)) in Hplan.
  pose proof (make_slots_plan plan pr B6) as Hslots.
  set (idx := zrange (off / f_block_size f) ((off + zlen data - 1) / f_block_size f + 1)) in *.
  assert (idx = (λ p : Proposal, p.1.1) <$> pr) as Hidx.
  { rewrite <-B6, Hplan, <-list_fmap_compose. symmetry. apply list_fmap_id. }
  apply bind_ok_inv in Hbody as (c4 & confirmed & Hall & (c5 & op' & Hop' & (c6 & v & Hcommit & [= <-])%bind_ok_inv)%bind_ok_inv).
  rewrite B11 in Hall.
  destruct (slots_described cfg env ctx (w_net (cl_world c2)) (f_block_size f) off data l store (tick (w_node (cl_world c2))) (blocks f)
    (internal_view _ _ _ _ _ _ _ Hset) (ok_named _ _ _ _ _ _ _ _ B1) HB idx pr rows (bw_slots resp)) as [Hfor Hshown];
    [lia|exact Hidx|by intros j Hj%elem_of_zrange|apply Z.div_pos; lia|exact B15|by rewrite <-Hplan|exact B13|].
  rewrite <-Hplan in Hshown.
  assert (ws_new_id <$> bw_slots resp = new_block_id <$> (make_slot <$> zip plan pr)) as Hnew.
  { clear -Hshown. induction Hshown as [|s x ? ? [E _] ? IH]; [done|]. rewrite !fmap_cons, E. by f_equal. }
  assert (new_block_id <$> (make_slot <$> zip plan pr) = (λ p : Proposal, p.1.2) <$> pr) as Hids.
  { clear -B6. revert pr B6. induction plan as [|[j z] plan IH]; intros [|[[j' b] a] pr]; csimpl; try done. intros [= _ H]. by rewrite IH. }
  apply (write_all_steps cfg env csize denv ids peer_name md Hset (f_block_size f) off data l ltac:(lia) Hoff Hlen store idx) in Hall
    as (store' & S1 & S2 & -> & S3 & S4 & S5 & S6); [|done|done|by rewrite Hnew, Hids].
  eapply new_op_id_step in Hop' as (P1 & P2 & P3 & P4 & P5 & P6); [|exact S2].
  assert (keeps_client c c5) as Hk5 by (etrans; [exact Hk1|]; etrans; [exact B2|]; etrans; [exact S6|]; by rewrite P6).
  split; [done|]. split; [exact Hoff|]. exists store'. split; [exact S1|].
  assert (view (tree (replicated (w_node (cl_world c5)))) ps = Some (EFile f)) as Hv5 by (rewrite P4, S5; exact B4).
  assert (∀ a b, has_copy (w_net (cl_world c2)) a b → has_copy (w_net (cl_world c5)) a b) as Hnet by (rewrite P5; exact S4).
  eapply (commit_step ps _ _ off data l _ _ op' store' f (make_slot <$> zip plan pr) _ c5 c6 v res) in Hcommit as (R1 & R2 & R3).
  { split; [exact R1|]. split; [exact R2|by etrans]. }
  all: try done.
  - destruct Hk5 as (_ & -> & _). done.
  - by rewrite P4, S5.
  - by rewrite Hslots.
  - by rewrite Hids.
  - intros s Hs Hin. assert (new_block_id s ∈ (λ p : Proposal, p.1.2) <$> pr) as (q & E & Hq)%list_elem_of_fmap
      by (rewrite <-Hids; by apply list_elem_of_fmap_2).
    rewrite Forall_forall in B15. destruct (B15 q Hq) as (Hnone & _). apply list_elem_of_fmap in Hin as (b & Eb & Hb).
    apply list_elem_of_lookup_1 in Hb as [k Hb]. destruct (Forall2_lookup_l _ _ _ _ _ HB Hb) as (piece & _ & Hs' & _). congruence.
  - by apply (blocks_extend (w_net (cl_world c2)) _ store).
  - fold idx. apply published_blocks; [done|]. rewrite P5. exact S3.
Qed.

(** ** The lock of a write *)

Lemma parts_of_lock_path path ps : parts_of path = Ok ps → parts_of (_canonical_lock_path path) = Ok ps.
Proof.
  intros Hp. pose proof (parts_of_ok _ _ Hp) as Hok. revert Hp. unfold parts_of at 1, _canonical_lock_path.
  case_decide; [done|]. intros [= ->]. by apply parts_of_path_of.
Qed.

Lemma lock_handle path mode c c' i :
  lock view_metadata path mode c = (c', Ok i) → h_path (handle_at i (cl_locks c')) = _canonical_lock_path path.
Proof.
  unfold lock. case_bool_decide; [|discriminate].
  intros (c1 & op & _ & (c2 & answer & _ & Hl)%bind_ok_inv)%bind_ok_inv. unfold on_locks in Hl.
  destruct (ClientLocks.lock path mode answer (cl_locks c2)) as [s [j|e]] eqn:Hlock; cbn [fst snd] in Hl; [|discriminate].
  injection Hl as <- ->. cbn [with_locks cl_locks].
  apply bind_ok_inv in Hlock as (s1 & [] & [_ ->]%ensure_ok_inv & (s2 & r & [_ ->]%lift_ok_inv & Hlock)%bind_ok_inv).
  injection Hlock as <- <-. unfold handle_at. cbn [heap]. by rewrite list_lookup_middle.
Qed.

Lemma writing_handle_path path s i : writing_handle path s = Some i → h_path (handle_at i s) = _canonical_lock_path path.
Proof.
  unfold writing_handle. intros ([n j] & Hf & [= ->])%bind_Some. by apply list_find_Some in Hf as (_ & (-> & _) & _).
Qed.

Lemma write_file ps path off data c c' n store l :
  parts_of path = Ok ps → others_keep env ps → others_reserve_elsewhere env → cl_auth c ++ view_metadata = md →
  world_ok (cl_world c) store → file_is cfg (cl_world c) store ps l →
  write view_metadata path off data c = (c', Ok n) →
  n = zlen data ∧ 0 ≤ off ≤ zlen l ∧ ∃ store', store ⊆ store' ∧ world_ok (cl_world c') store' ∧
    file_is cfg (cl_world c') store' ps (splice l off data) ∧ cl_auth c' = cl_auth c ∧ cl_files c' = cl_files c.
Proof.
  intros Hpath Hoth Hres Hmd Hok Hfile (c0 & mine & [= <- Hmine] & Hrun)%bind_ok_inv. destruct mine as [i|].
  - apply writing_handle_path in Hmine. apply (write_with_lock_file ps _ _ _ _ _ _ store l) in Hrun
      as (-> & Ho & store' & H4 & H5 & H6 & (_ & H7 & H8)); [|rewrite Hmine; by apply parts_of_lock_path|done..].
    split; [done|]. split; [done|]. by exists store'.
  - apply bind_ok_inv in Hrun as (c1 & i & Hl & (c2 & Hw & ->)%finally_ok).
    pose proof (moves_inv _ _ _ _ _ (steady_lock cfg env csize denv ids peer_name md view_metadata Hset ps Hoth path "w") Hl) as S1.
    destruct (steady_file _ _ _ _ _ _ _ _ _ _ _ _ S1 Hmd Hok Hfile) as [Hok1 Hfile1]. pose proof S1 as (A1 & F1 & _).
    apply lock_handle in Hl. apply (write_with_lock_file ps _ _ _ _ _ _ store l) in Hw
      as (-> & Ho & store' & H4 & H5 & H6 & (_ & H7 & H8)); [|rewrite Hl; by apply parts_of_lock_path|done|done|by rewrite A1|done|done].
    pose proof (steady_ignoring cfg env csize ids peer_name md view_metadata ps _
      (steady_release cfg env csize denv ids peer_name md view_metadata Hset ps Hoth i) c2) as S2.
    destruct (steady_file _ _ _ _ _ _ _ _ _ _ _ _ S2 ltac:(by rewrite H7, A1) H5 H6) as [Hok2 Hfile2]. pose proof S2 as (A2 & F2 & _).
    split; [done|]. split; [done|]. exists store'. split_and!; [done|done|done|etrans; [exact A2|congruence]|etrans; [exact F2|congruence]].
Qed.
End theorem.
