(* ===== verification/ClusterProps.v ===== *)
(** The whole stack under one client: what its operations on a file return is what
    the same operations on a list of bytes return. *)

From Stdlib Require Import QArith DecimalString.
From S2P Require Import Prelude Exceptions Dict Crypto Bytes Paths BlockToken Addresses Auth BlockStore.
From S2P Require Import Container BlockStoreProps.
From S2P Require Import TreeData Tree TreeFacts Layout Replicated Servicer Handlers ServicerProps.
From S2P Require Import ServicerErrors ServicerUpload ServicerSteps.
From S2P Require Import DataNode RpcClient ClientData ClientRead ClientWrite ClientTransfer ClientLocks.
From S2P Require Import Session ClusterWorld ClusterFacts ClusterUpload ClusterDownload ClusterWrite.

Open Scope Z_scope.

(** * Operations on a file *)

Inductive file_op :=
| FUpload (data : list Z)
| FWrite (offset : Z) (data : list Z)
| FRead (offset : Z) (length : option Z)
| FDownload (local : string).

(** What an operation returns; a download also leaves a local file. *)
Inductive outcome :=
| OCount (n : Z)
| OBytes (data : list Z)
| OFile (n : Z) (content : option (list Z)).

Section perform.
Context {W : Type} `{!Cluster W} (view_metadata : list (string * string)) (schedule : nat → list nat).

Definition perform (path : string) (op : file_op) : M (Client W) client_error outcome :=
  match op with
  | FUpload data => n ← upload view_metadata schedule (Some data) path; mret (OCount n)
  | FWrite offset data => n ← write view_metadata path offset data; mret (OCount n)
  | FRead offset length => data ← read view_metadata path offset length; mret (OBytes data)
  | FDownload local =>
      n ← download view_metadata schedule path local;
      content ← gets (λ c, cl_files c !! local);
      mret (OFile n content)
  end.
Fixpoint perform_all (path : string) (ops : list file_op) : M (Client W) client_error (list outcome) :=
  match ops with
  | [] => mret []
  | op :: rest => o ← perform path op; os ← perform_all path rest; mret (o :: os)
  end.
End perform.

(** ** The specification: a list of bytes *)

Definition on_bytes (op : file_op) (l : list Z) : list Z * outcome :=
  match op with
  | FUpload data => (data, OCount (zlen data))
  | FWrite offset data => (splice l offset data, OCount (zlen data))
  | FRead offset length => (l, OBytes (slice offset (range_end (zlen l) offset length) l))
  | FDownload _ => (l, OFile (zlen l) (Some l))
  end.
Fixpoint all_on_bytes (ops : list file_op) (l : list Z) : list Z * list outcome :=
  match ops with
  | [] => (l, [])
  | op :: rest => let out := on_bytes op l in let outs := all_on_bytes rest out.1 in (outs.1, out.2 :: outs.2)
  end.

(** A read of no bytes is left out: it returns the rest of a block. *)
Definition asks_bytes (op : file_op) : Prop := match op with FRead _ length => length ≠ Some 0 | _ => True end.

(** * Refinement *)

Section refinement.
Context `{!Jwt, !JwtLaws, !Aead, !AeadLaws} (cfg : Config) (env : Env) (csize : Z).
Context (denv : nat → DEnv) (ids : nat → string) (peer_name : string) (md view_metadata : list (string * string)).
Context (schedule : nat → list nat) (Hschedule : ∀ k, schedule k ≡ₚ seq 0 k).
Context (Hset : setting cfg env csize denv ids peer_name md).
#[local] Hint Extern 0 (Cluster _) => exact (world_cluster cfg env csize denv ids peer_name) : typeclass_instances.
Context (path : string) (ps : list string).
Hypothesis Hpath : parts_of path = Ok ps.
Hypothesis Hothers : others_keep env ps.
Hypothesis Hreserve : others_reserve_elsewhere env.

(** The client and the cluster, which holds [l] at the path. *)
Record holding (l : list Z) (store : gmap string (list Z)) (c : Client World) : Prop := {
  hd_auth : cl_auth c ++ view_metadata = md;
  hd_world : world_ok cfg env csize ids peer_name md (cl_world c) store;
  hd_file : file_is cfg (cl_world c) store ps l
}.

Lemma upload_step data store c c' o :
  cl_auth c ++ view_metadata = md → world_ok cfg env csize ids peer_name md (cl_world c) store →
  perform view_metadata schedule path (FUpload data) c = (c', Ok o) →
  o = OCount (zlen data) ∧ ∃ store', store ⊆ store' ∧ holding data store' c'.
Proof.
  intros Hmd Hok (c1 & n & Hrun & [= <- <-])%bind_ok_inv.
  apply (upload_file cfg env csize denv ids peer_name md view_metadata schedule Hset path ps data c c1 n store) in Hrun
    as (-> & store' & H4 & H5 & H6 & (_ & H7 & _)); [|done..].
  split; [done|]. exists store'. split; [done|]. split; [by rewrite H7|done|done].
Qed.

Lemma perform_step op l store c c' o :
  asks_bytes op → holding l store c → perform view_metadata schedule path op c = (c', Ok o) →
  o = (on_bytes op l).2 ∧ ∃ store', store ⊆ store' ∧ holding (on_bytes op l).1 store' c'.
Proof.
  intros Hask [Hmd Hok Hfile]. destruct op as [data|off data|off len|local]; cbn [on_bytes fst snd].
  - by apply upload_step.
  - intros (c1 & n & Hrun & [= <- <-])%bind_ok_inv.
    apply (write_file cfg env csize denv ids peer_name md view_metadata Hset ps path off data c c1 n store l) in Hrun
      as (-> & _ & store' & H4 & H5 & H6 & H7 & _); [|done..].
    split; [done|]. exists store'. split; [done|]. split; [by rewrite H7|done|done].
  - intros (c1 & bytes & (c2 & out & Hrun & [= <- <-])%bind_ok_inv & [= <- <-])%bind_ok_inv. destruct out as [fh n].
    apply (read_range_file cfg env csize denv ids peer_name md view_metadata Hset ps Hothers path off len None c c2 fh n store l) in Hrun
      as (Hs & H4 & _); [|done..]. cbn [fst]. rewrite H4. split; [done|]. exists store. split; [done|].
    destruct (steady_file _ _ _ _ _ _ _ _ _ _ _ _ Hs Hmd Hok Hfile) as [H5 H6]. destruct Hs as (H7 & _). split; [by rewrite H7|done|done].
  - intros (c1 & n & Hrun & (c2 & content & [= <- <-] & [= <- <-])%bind_ok_inv)%bind_ok_inv.
    apply (download_file cfg env csize denv ids peer_name md view_metadata Hset ps Hothers schedule path local c c1 n store l) in Hrun
      as (-> & H4 & H5 & H6 & uid & H7); [|done..]. rewrite H7, lookup_insert_eq. split; [done|]. exists store. split; [done|].
    split; [by rewrite H6|done|done].
Qed.

Lemma perform_all_steps ops l store c c' os :
  Forall asks_bytes ops → holding l store c → perform_all view_metadata schedule path ops c = (c', Ok os) →
  os = (all_on_bytes ops l).2 ∧ ∃ store', store ⊆ store' ∧ holding (all_on_bytes ops l).1 store' c'.
Proof.
  intros Hask. revert l store c os. induction Hask as [|op ops Hop Hask IH]; intros l store c os Hh; cbn [perform_all all_on_bytes fst snd].
  { intros [= <- <-]. split; [done|]. by exists store. }
  intros (c1 & o & Ho & (c2 & os' & Hos & [= <- <-])%bind_ok_inv)%bind_ok_inv.
  apply (perform_step _ l store) in Ho as (-> & store1 & S1 & H1'); [|done..].
  apply (IH (on_bytes op l).1 store1) in Hos as (-> & store2 & S2 & H2'); [|done].
  split; [done|]. exists store2. split; [by etrans|done].
Qed.
End refinement.

(** C1. The file system, end to end.  A client uploads a file through the whole
    stack, then writes, reads, downloads and uploads it again in any order: over
    the handlers of the leader, with the replicated log, the tree and the DataNodes
    behind them, with blocks transferred in any order and other clients at work on
    other paths, every operation that returns gives what it gives on a list of
    bytes, and in the end the tree describes that list block by block, with an
    encrypted copy of each block at every replica it names. *)
Theorem session_refines_bytes `{!Jwt, !JwtLaws, !Aead, !AeadLaws} cfg env csize denv ids peer_name md view_metadata
    schedule path ps data ops store c c' os :
  setting cfg env csize denv ids peer_name md → (∀ k, schedule k ≡ₚ seq 0 k) →
  parts_of path = Ok ps → others_keep env ps → others_reserve_elsewhere env → Forall asks_bytes ops →
  cl_auth c ++ view_metadata = md → world_ok cfg env csize ids peer_name md (cl_world c) store →
  perform_all (Cluster0 := world_cluster cfg env csize denv ids peer_name) view_metadata schedule path (FUpload data :: ops) c = (c', Ok os) →
  os = OCount (zlen data) :: (all_on_bytes ops data).2 ∧
  ∃ store', store ⊆ store' ∧ world_ok cfg env csize ids peer_name md (cl_world c') store' ∧
    file_is cfg (cl_world c') store' ps (all_on_bytes ops data).1.
Proof.
  intros Hset Hsched Hpath Hoth Hres Hask Hmd Hok (c1 & o & Ho & (c2 & os' & Hos & [= <- <-])%bind_ok_inv)%bind_ok_inv.
  eapply upload_step in Ho as (-> & store1 & S1 & H1'); [|done..].
  eapply perform_all_steps in Hos as (-> & store2 & S2 & [_ H2' H3']); [|done..].
  split; [done|]. exists store2. split; [by etrans|done].
Qed.

(** ** A cluster of three DataNodes *)

Fixpoint zeros (n : nat) (s : string) : string :=
  match n with O => s | S n => String "0" (zeros n s) end.
(** The number [k] in 32 digits. *)
Definition cluster_uuid (k : nat) : string :=
  let s := str_of_Z (Z.of_nat k) in zeros (32 - String.length s) s.

Lemma N_of_zeros n s : s ≠ "" → N_of_str (zeros n s) = N_of_str s.
Proof.
  intros Hs. induction n as [|n IH]; [done|]. rewrite <-IH. cbn [zeros]. unfold N_of_str.
  destruct (zeros n s) eqn:E; [destruct n; cbn in E; congruence|]. rewrite <-E.
  change (NilEmpty.uint_of_string (String "0" (zeros n s))) with (option_map Decimal.D0 (NilEmpty.uint_of_string (zeros n s))).
  by destruct (NilEmpty.uint_of_string (zeros n s)).
Qed.

Lemma cluster_uuid_inj i j : cluster_uuid i = cluster_uuid j → i = j.
Proof.
  assert (∀ k, N_of_str (cluster_uuid k) = Some (N.of_nat k)) as Hk.
  { intros k. destruct (str_of_Z_char (Z.of_nat k) ltac:(lia)) as [_ E]. unfold cluster_uuid. rewrite N_of_zeros; [by rewrite E; f_equal; lia|].
    intros Hs. by rewrite Hs in E. }
  intros E. apply (f_equal N_of_str) in E. rewrite !Hk in E. injection E as E. lia.
Qed.

Definition full_config : Config :=
  mkConfig ["a:1"; "b:1"; "c:1"] 4 2 1 100 50 None 60 (Some BlockToken.demo_key) 3600 [] true.
Definition full_env : Env :=
  mkEnv (λ _, true) (λ _, []) (λ _, RaftOk) Z.of_nat inject_Z cluster_uuid (λ _, "salt") (λ _, ["a:1"; "b:1"; "c:1"]) (λ _, Ok []).
Definition full_denv (n : nat) : DEnv := mkDEnv 150 5 (λ _, [1; 2; 3; 4; 5; 6; 7; Z.of_nat n]) (λ _, Delivered).
Definition full_node : DNode := mkDNode ∅ (replicate 32 7) (Some BlockToken.demo_key).
Definition full_world : World := mkWorld demo_node {["a:1" := full_node; "b:1" := full_node; "c:1" := full_node]} 0 0.
Definition full_client : Client World := client_init full_world ∅.
Definition full_ops : list file_op :=
  [FWrite 5 [50; 51; 52; 53; 54; 55]; FRead 3 (Some 6); FDownload "copy"; FWrite 0 [90]; FRead 0 None].

Lemma full_distinct : NoDup ["a:1"; "b:1"; "c:1"].
Proof. apply (bool_decide_unpack _). vm_compute. exact I. Qed.

Lemma full_setting : @setting toy_jwt full_config full_env 3 full_denv cluster_uuid "peer" [].
Proof.
  constructor; try (cbn; lia); try done; try (vm_compute; discriminate).
  - apply full_distinct.
  - intros k. apply full_distinct.
  - apply cluster_uuid_inj.
  - apply cluster_uuid_inj.
  - intros k p n _. apply not_elem_of_nil.
Qed.

Lemma full_world_ok : @world_ok toy_jwt toy_aead full_config full_env 3 cluster_uuid "peer" [] full_world ∅.
Proof.
  constructor.
  - intros a node bid file Hn. cbn [full_world w_net] in Hn.
    repeat (apply lookup_insert_Some in Hn as [[<- <-]|[_ Hn]]; [cbn; by rewrite lookup_empty|]).
    apply lookup_singleton_Some in Hn as [<- <-]. cbn. by rewrite lookup_empty.
  - intros k _. apply lookup_empty.
  - intros k _ p _. reflexivity.
  - apply lookup_empty.
Qed.

Definition full_run : Client World * result client_error (list outcome) :=
  @perform_all World (@world_cluster toy_jwt toy_aead full_config full_env 3 full_denv cluster_uuid "peer")
    [] (λ k, rev (seq 0 k)) "/f" (FUpload [1; 2; 3; 4; 5; 6; 7; 8; 9; 10] :: full_ops) full_client.
Definition full_outcomes : list outcome :=
  [OCount 10; OCount 6; OBytes [4; 5; 50; 51; 52; 53]; OFile 11 (Some [1; 2; 3; 4; 5; 50; 51; 52; 53; 54; 55]);
   OCount 1; OBytes [90; 2; 3; 4; 5; 50; 51; 52; 53; 54; 55]].

Lemma session_refines_bytes_witness :
  full_run.2 = Ok full_outcomes ∧ full_outcomes = OCount 10 :: (all_on_bytes full_ops [1; 2; 3; 4; 5; 6; 7; 8; 9; 10]).2.
Proof.
  assert (full_run = (full_run.1, Ok full_outcomes)) as Hrun by (vm_compute; reflexivity).
  split; [rewrite Hrun; reflexivity|]. revert Hrun. generalize full_run.1 as c'. unfold full_run. intros c' Hrun.
  refine (proj1 (@session_refines_bytes toy_jwt toy_laws toy_aead toy_aead_laws full_config full_env 3 full_denv cluster_uuid "peer" [] []
    (λ k, rev (seq 0 k)) "/f" ["f"] [1; 2; 3; 4; 5; 6; 7; 8; 9; 10] full_ops ∅ full_client c' full_outcomes
    full_setting _ eq_refl _ _ _ eq_refl full_world_ok Hrun)).
  - intros k. symmetry. apply Permutation_rev.
  - intros n r. reflexivity.
  - intros n r k res. exact id.
  - repeat constructor; discriminate.
Defined.
