(* ===== verification/SessionProps.v ===== *)
(** The protocols of the client, over any cluster: which RPCs an operation makes and
    in which order, what a write is answered to each, on success and on failure, and what becomes of the local files. *)

From S2P Require Import Prelude Exceptions Dict Bytes Paths TreeData Crypto BlockToken Addresses Auth.
From S2P Require Tree.
From S2P Require Import Handlers DataNode RpcClient ClientData ClientTransfer ClientLocks Session.
From S2P Require Import ClusterWorld ClusterUpload ClusterDownload ClusterProps.
From S2P Require Import BlockStoreProps Servicer ServicerProps.

Open Scope Z_scope.

Section calls.
Context {W : Type} `{!Cluster W} (view_metadata : list (string * string)) (schedule : nat → list nat).
Implicit Types c : Client W.

(** The requests a program adds. *)
Definition sends {A} (m : M (Client W) client_error A) (P : list request → result client_error A → Prop) : Prop :=
  ∀ c, ∃ l, cl_calls (m c).1 = cl_calls c ++ l ∧ P l (m c).2.

Lemma sends_run {A} (m : M (Client W) client_error A) P c c' r :
  sends m P → m c = (c', r) → ∃ l, cl_calls c' = cl_calls c ++ l ∧ P l r.
Proof. intros Hm E. specialize (Hm c). by rewrite E in Hm. Qed.

Lemma sends_silent {A} (m : M (Client W) client_error A) (P : list request → result client_error A → Prop) :
  (∀ c, cl_calls (m c).1 = cl_calls c ∧ P [] (m c).2) → sends m P.
Proof. intros Hm c. destruct (Hm c) as [E HP]. exists []. by rewrite app_nil_r. Qed.

Lemma sends_weaken {A} (m : M (Client W) client_error A) (P Q : list request → result client_error A → Prop) :
  sends m P → (∀ l r, P l r → Q l r) → sends m Q.
Proof. intros Hm HQ c. destruct (Hm c) as (l & E & HP). exists l. auto. Qed.

(** Sequencing. *)
Lemma sends_bind {A B} (m : M (Client W) client_error A) (f : A → M (Client W) client_error B)
    (P : list request → result client_error A → Prop) (Q : A → list request → result client_error B → Prop)
    (R : list request → result client_error B → Prop) :
  sends m P → (∀ a, sends (f a) (Q a)) →
  (∀ l e, P l (Err e) → R l (Err e)) → (∀ l a l' r, P l (Ok a) → Q a l' r → R (l ++ l') r) →
  sends (mbind f m) R.
Proof.
  intros Hm Hf He Ho c. destruct (Hm c) as (l & E & HP). unfold mbind, M_bind. destruct (m c) as [c1 [a|e]]; cbn [fst snd] in *.
  - destruct (Hf a c1) as (l' & E' & HQ). exists (l ++ l'). rewrite E', E, app_assoc. eauto.
  - exists l. auto.
Qed.

(** A step that makes no call, before others. *)
Lemma sends_after {A B} (m : M (Client W) client_error A) (f : A → M (Client W) client_error B) R :
  sends m (λ l _, l = []) → (∀ e, R [] (Err e)) → (∀ a, sends (f a) R) → sends (mbind f m) R.
Proof.
  intros Hm He Hf. eapply sends_bind; [exact Hm|exact Hf| |].
  - by intros l e ->.
  - by intros l a l' r ->.
Qed.

Lemma sends_map {A B} (m : M (Client W) client_error A) (g : A → B) (P : list request → result client_error A → Prop)
    (Q : list request → result client_error B → Prop) :
  sends m P → (∀ l a, P l (Ok a) → Q l (Ok (g a))) → (∀ l e, P l (Err e) → Q l (Err e)) → sends (a ← m; mret (g a)) Q.
Proof.
  intros Hm Ho He c. destruct (Hm c) as (l & E & HP). unfold mbind, M_bind. exists l.
  destruct (m c) as [c1 [a|e]]; (split; [exact E|]); [by apply Ho|by apply He].
Qed.

Lemma sends_call r : sends (call view_metadata r) (λ l _, l = [r]).
Proof.
  intros c. exists [r]. unfold call, ask, mbind, M_bind. cbn [fst snd].
  by destruct (rpc _ _ _).2.
Qed.
(** Drawing an identifier makes no call and does not fail. *)
Lemma sends_fresh {B} (f : string → M (Client W) client_error B) R : (∀ op, sends (f op) R) → sends (mbind f _new_op_id) R.
Proof. intros Hf c. exact (Hf (fresh_id (cl_world c)).2 (with_world (fresh_id (cl_world c)).1 c)). Qed.

(** * Uploads *)

(** One confirmation per block of [bids], in that order. *)
Definition confirms (remote : string) (bids : list string) (l : list request) : Prop :=
  Forall2 (λ bid r, ∃ op k z, r = RConfirmBlock op remote bid k z) bids l.

Lemma sends_send_block remote file item :
  sends (send_block view_metadata remote file item)
    (λ l r, match r with Ok _ => confirms remote [cb_id item.1] l | Err _ => ∃ bids, confirms remote bids l end).
Proof.
  intros c. unfold send_block, mbind, M_bind. unfold _write_block.
  destruct (cb_addresses item.1) as [|a downstream]; [exists []; cbn; rewrite app_nil_r; split; [done|by exists []; constructor]|].
  destruct (replica_write a item.1 _ (cl_world c)) as [w [[k z]|e]]; cbn [fst snd];
    [|exists []; cbn; rewrite app_nil_r; split; [done|by exists []; constructor]].
  cbn [_new_op_id fst snd]. set (op := (fresh_id w).2).
  destruct (sends_call (RConfirmBlock op remote (cb_id item.1) k z) (with_world (fresh_id w).1 (with_world w c))) as (l & E & ->).
  exists [RConfirmBlock op remote (cb_id item.1) k z]. revert E. unfold _new_op_id. cbn [fst snd cl_world with_world]. intros E.
  destruct (call view_metadata _ _) as [c1 [[]|e]]; cbn [fst snd] in *; (split; [exact E|]).
  - constructor; [by exists op, k, z|constructor].
  - exists [cb_id item.1]. constructor; [by exists op, k, z|constructor].
Qed.

Lemma sends_transfers remote file items order :
  sends (run_transfers (send_block view_metadata remote file) items order)
    (λ l r, match r with
            | Ok _ => confirms remote ((λ item : CBlock * Z, cb_id item.1) <$> omap (λ i, items !! i) order) l
            | Err _ => ∃ bids, confirms remote bids l
            end).
Proof.
  induction order as [|i order IH]; cbn [run_transfers omap list_omap].
  { apply sends_silent. intros c. split; [done|constructor]. }
  destruct (items !! i) as [item|] eqn:Hi; [|exact IH].
  eapply sends_bind; [apply sends_send_block|intros z; apply (sends_map _ (λ rs, (i, z) :: rs) _ _ IH (λ _ _ H, H) (λ _ _ H, H))|..].
  - intros l e H. exact H.
  - intros l z l' [rs|e] H H'.
    + rewrite fmap_cons. exact (Forall2_app H H').
    + destruct H' as [bids H']. exists (cb_id item.1 :: bids). exact (Forall2_app H H').
Qed.

Lemma sends_failure {A} (m : M (Client W) client_error A) handler (P : list request → result client_error A → Prop)
    (Q : list request → result client_error () → Prop) :
  sends m P → sends handler Q →
  sends (on_failure m handler) (λ l r,
    P l r ∧ (match r with Ok _ => True | Err e => caught e = false end)
    ∨ ∃ l1 l2 e e' r', l = l1 ++ l2 ∧ r = Err e' ∧ P l1 (Err e) ∧ caught e = true ∧ Q l2 r').
Proof.
  intros Hm Hh c. destruct (Hm c) as (l & E & HP). unfold on_failure. destruct (m c) as [c1 [a|e]]; cbn [fst snd] in *.
  { exists l. split; [done|by left]. }
  destruct (caught e) eqn:He; [|exists l; split; [done|by left]].
  destruct (Hh c1) as (l' & E' & HQ). exists (l ++ l').
  assert (∃ e', match handler c1 with (c'', Ok _) => (c'', Err (translated e)) | (c'', Err e') => (c'', Err e') end
    = ((handler c1).1, Err e' : result client_error A)) as [e' ->] by (destruct (handler c1) as [c2 [[]|e']]; eauto).
  cbn [fst snd]. rewrite E', E, app_assoc. split; [done|]. right. by exists l, l', e, e', (handler c1).2.
Qed.

Lemma sends_ignoring m (P : list request → Prop) : sends m (λ l _, P l) → sends (ignoring m) (λ l _, P l).
Proof.
  intros Hm c. destruct (Hm c) as (l & E & HP). exists l. unfold ignoring.
  destruct (m c) as [c1 [[]|[e|e]]]; cbn [fst snd] in *; [done|done|]. by destruct (is_domain e).
Qed.

End calls.

Section upload.
Context {W : Type} `{!Cluster W} (view_metadata : list (string * string)) (schedule : nat → list nat).

(** The transfers of an upload and its abort, once the upload began. *)
Definition after_begin (remote : string) (bids : list string) (l : list request) (r : result client_error Z) : Prop :=
  (∃ conf op, l = conf ++ [RCompleteUpload op remote] ∧ confirms remote bids conf)
  ∨ (∃ sent conf op e, l = conf ++ [RAbortUpload op remote] ∧ confirms remote sent conf ∧ r = Err e)
  ∨ (∃ sent e, confirms remote sent l ∧ r = Err e ∧ caught e = false).

Lemma sends_body remote file blocks :
  sends
    (total ← on_failure
       (ns ← _in_parallel schedule (send_block view_metadata remote file) (zip blocks (_block_starts blocks)); mret (sumZ ns))
       (ignoring (op' ← _new_op_id; call view_metadata (RAbortUpload op' remote)));
     op'' ← _new_op_id; _ ← call view_metadata (RCompleteUpload op'' remote); mret total)
    (after_begin remote ((λ item : CBlock * Z, cb_id item.1) <$>
       omap (λ i, zip blocks (_block_starts blocks) !! i) (schedule (length (zip blocks (_block_starts blocks)))))).
Proof.
  set (items := zip blocks (_block_starts blocks)). set (ids := _ <$> _).
  assert (sends (ignoring (op' ← _new_op_id; call view_metadata (RAbortUpload op' remote))) (λ l _, ∃ op, l = [RAbortUpload op remote])) as Habort.
  { apply (sends_ignoring _ (λ l, ∃ op, l = [RAbortUpload op remote])), sends_fresh. intros op.
    refine (sends_weaken _ _ _ (sends_call view_metadata (RAbortUpload op remote)) _). intros l r ->. eauto. }
  assert (sends (ns ← _in_parallel schedule (send_block view_metadata remote file) items; mret (sumZ ns))
    (λ l r, match r with Ok _ => confirms remote ids l | Err _ => ∃ bids, confirms remote bids l end)) as Hsend.
  { apply (sends_map _ sumZ (λ l r, match r with Ok _ => confirms remote ids l | Err _ => ∃ bids, confirms remote bids l end));
      [|done..]. exact (sends_map _ (in_order (length items)) _ _ (sends_transfers _ remote file items _) (λ _ _ H, H) (λ _ _ H, H)). }
  eapply sends_bind; [apply (sends_failure _ _ _ _ Hsend Habort)| | |].
  - intros total. apply (sends_fresh _ (λ l r, ∃ op, l = [RCompleteUpload op remote])). intros op.
    apply (sends_map _ (λ _, total) (λ l _, l = [RCompleteUpload op remote])); [apply (sends_call view_metadata (RCompleteUpload op remote))|intros l _ ->; eauto..].
  - intros l e [[[bids H] He]|(l1 & l2 & e0 & e' & r' & -> & [= ->] & [bids H] & He & [op ->])].
    + right. right. eauto.
    + right. left. by exists bids, l1, op, e'.
  - intros l total l' r [[H _]|(l1 & l2 & e0 & e' & r' & _ & [=] & _)] [op ->]. left. by exists l, op.
Qed.

Lemma upload_sends_calls remote file c c' r :
  upload view_metadata schedule (Some file) remote c = (c', r) →
  let op := (fresh_id (cl_world c)).2 in
  let begun := (rpc (cl_auth c ++ view_metadata) (RBeginUpload op remote (zlen file)) (fresh_id (cl_world c)).1).2 in
  ∃ l, cl_calls c' = cl_calls c ++ RBeginUpload op remote (zlen file) :: l ∧
  match begun with
  | Err e => l = [] ∧ r = Err (ByExn e)
  | Ok locs =>
      let items := zip (block_at <$> locs) (_block_starts (block_at <$> locs)) in
      after_begin remote ((λ item : CBlock * Z, cb_id item.1) <$> omap (λ i, items !! i) (schedule (length items))) l r
  end.
Proof.
  intros Hrun op begun. unfold upload in Hrun. unfold mbind at 1, M_bind at 1 in Hrun. cbn [_new_op_id fst snd] in Hrun.
  unfold _new_op_id in Hrun. cbn [fst snd] in Hrun. fold op in Hrun. unfold mbind at 1, M_bind at 1 in Hrun.
  unfold call at 1, ask at 1, mbind at 1, M_bind at 1 in Hrun. cbn [with_world cl_auth cl_world fst snd] in Hrun. fold begun in Hrun.
  destruct begun as [locs|e].
  - cbn [mret M_ret] in Hrun.
    match type of Hrun with ?m ?c0 = _ => set (c1 := c0) in Hrun end.
    apply (sends_run _ _ _ _ _ (sends_body remote file (block_at <$> locs))) in Hrun as (l & E & H). exists l. split; [|exact H].
    rewrite E. unfold c1. cbn [cl_calls with_world]. by rewrite <-app_assoc.
  - injection Hrun as <- <-. by exists [].
Qed.

(** C5. An upload completes only what it confirmed: after BeginUpload it makes one
    confirmation per block of the answer, each once its block was written, then
    either CompleteUpload, with all of them confirmed, or, at the first failure,
    AbortUpload, and then the failure is what the caller sees; only an exception
    the code does not catch (a block without replicas) leaves neither. *)
Theorem upload_protocol remote file c c' r :
  (∀ k, schedule k ≡ₚ seq 0 k) → upload view_metadata schedule (Some file) remote c = (c', r) →
  ∃ op l, cl_calls c' = cl_calls c ++ RBeginUpload op remote (zlen file) :: l ∧
  ((∃ e, l = [] ∧ r = Err (ByExn e))
   ∨ ∃ md w locs bids, (rpc md (RBeginUpload op remote (zlen file)) w).2 = Ok locs ∧
       bids ≡ₚ loc_id <$> locs ∧ after_begin remote bids l r).
Proof.
  intros Hsched (l & E & H)%upload_sends_calls. eexists _, l. split; [exact E|].
  destruct (rpc _ _ _).2 as [locs|e] eqn:Hrpc; [|left; by exists e; destruct H as [-> ->]].
  right. eexists _, _, locs, _. split; [exact Hrpc|]. split; [|exact H].
  set (blocks := block_at <$> locs). set (items := zip blocks (_block_starts blocks)).
  transitivity ((λ item : CBlock * Z, cb_id item.1) <$> items).
  - apply fmap_Permutation. transitivity (omap (λ i, items !! i) (seq 0 (length items))); [by apply omap_Permutation|].
    by rewrite omap_lookup_seq.
  - unfold items. etrans; [exact (reflexive_eq _ _ (list_fmap_compose fst cb_id _))|]. rewrite fst_zip by (unfold _block_starts; rewrite starts_length; lia).
    unfold blocks. by rewrite <-list_fmap_compose.
Qed.
End upload.

(** * Operations under a lock *)

Section locked.
Context {W : Type} `{!Cluster W} (view_metadata : list (string * string)) (schedule : nat → list nat).
Implicit Types c : Client W.
Notation keeps_locks := (moves (same (λ c : Client W, cl_locks c))).
Notation keeps_files := (moves (same (λ c : Client W, cl_files c))).

Lemma call_keeps_locks r : keeps_locks (call view_metadata r).
Proof. intros c. unfold call, ask, mbind, M_bind. cbn [fst snd]. by destruct (rpc _ _ _).2. Qed.
Lemma call_keeps_files r : keeps_files (call view_metadata r).
Proof. intros c. unfold call, ask, mbind, M_bind. cbn [fst snd]. by destruct (rpc _ _ _).2. Qed.

Lemma ignoring_keeps_locks m : keeps_locks m → keeps_locks (ignoring m).
Proof. intros Hm c. specialize (Hm c). unfold ignoring. destruct (m c) as [c1 [[]|[e|e]]]; try done. by destruct (is_domain e). Qed.
Lemma on_failure_keeps_locks {A} (m : M (Client W) client_error A) h : keeps_locks m → keeps_locks h → keeps_locks (on_failure m h).
Proof.
  intros Hm Hh c. specialize (Hm c). unfold on_failure, same in *. destruct (m c) as [c1 [a|e]]; [done|]. destruct (caught e); [|done].
  specialize (Hh c1). destruct (h c1) as [c2 [a|e']]; cbn [fst] in *; congruence.
Qed.

Lemma write_slot_keeps_locks bs offset data s : keeps_locks (write_slot bs offset data s).
Proof.
  unfold write_slot. apply moves_bind; [apply _|intros c; reflexivity|intros w]. apply moves_bind; [apply _| |intros content].
  { intros c. by destruct (_slot_content _ _ _ _ _). }
  apply moves_bind; [apply _| |intros written c; reflexivity]. unfold _write_block. by destruct (cb_addresses _).
Qed.
Lemma write_all_keeps_locks bs offset data slots : keeps_locks (write_all bs offset data slots).
Proof.
  induction slots as [|s slots IH]; cbn [write_all]; [intros c; reflexivity|].
  apply moves_bind; [apply _|apply write_slot_keeps_locks|intros cf]. by apply moves_bind; [apply _| |intros cfs c; reflexivity].
Qed.
Lemma write_with_lock_keeps_locks i offset data : keeps_locks (_write_with_lock view_metadata i offset data).
Proof.
  unfold _write_with_lock. apply moves_bind; [apply _|intros c; reflexivity|intros h]. destruct (may_write h); [|intros c; reflexivity].
  apply moves_bind; [apply _|intros c; reflexivity|intros op]. apply moves_bind; [apply _|apply (call_keeps_locks (RBeginWrite _ _ _ _ _))|intros begun].
  apply moves_bind; [apply _| |intros u c; reflexivity]. apply on_failure_keeps_locks.
  - apply moves_bind; [apply _|apply write_all_keeps_locks|intros cf]. apply moves_bind; [apply _|intros c; reflexivity|intros op'].
    apply moves_bind; [apply _|apply (call_keeps_locks (RCommitWrite _ _ _ _ _ _))|intros v c; reflexivity].
  - apply ignoring_keeps_locks. apply moves_bind; [apply _|intros c; reflexivity|intros op']. apply (call_keeps_locks (RAbortWrite _ _ _ _)).
Qed.

(** Taking a lock: one call, and a handle neither lost nor released when it is granted. *)
Lemma lock_run path mode c c1 r :
  mode = "r" ∨ mode = "w" → lock view_metadata path mode c = (c1, r) →
  ∃ op, cl_calls c1 = cl_calls c ++ [RLock op (_canonical_lock_path path) mode] ∧ cl_files c1 = cl_files c ∧
  match r with
  | Ok i => ∃ id lease, handle_at i (cl_locks c1) = mkHandle (_canonical_lock_path path) mode id lease false false
  | Err _ => True
  end.
Proof.
  intros Hmode. unfold lock. rewrite bool_decide_true by done. unfold mbind, M_bind, _new_op_id, ask. cbn [fst snd with_world cl_calls cl_files].
  set (op := (fresh_id (cl_world c)).2). unfold on_locks. cbn [fst snd cl_locks with_world].
  set (answer := (rpc _ _ _).2). destruct (ClientLocks.lock path mode answer (cl_locks c)) as [s r'] eqn:Hl.
  cbn [fst snd with_locks cl_calls cl_files cl_locks]. intros [= <- <-]. exists op. split; [done|]. split; [done|].
  destruct r' as [i|e]; [|done]. revert Hl. unfold ClientLocks.lock, mbind, M_bind, ensure. rewrite bool_decide_true by done.
  destruct answer as [[id lease]|e]; [|discriminate]. cbn. intros [= <- <-]. exists id, lease.
  unfold handle_at. cbn [heap]. by rewrite list_lookup_middle.
Qed.

(** Giving a live handle back: one call, whatever its answer. *)
Lemma release_run i path mode id lease c :
  handle_at i (cl_locks c) = mkHandle path mode id lease false false →
  ∃ op, cl_calls (ignoring (release view_metadata i) c).1 = cl_calls c ++ [RUnlock op path id] ∧
    cl_files (ignoring (release view_metadata i) c).1 = cl_files c ∧
    (∀ e, (ignoring (release view_metadata i) c).2 = Err e → caught e = false).
Proof.
  intros Hh. exists (fresh_id (cl_world c)).2.
  unfold ignoring, release, mbind, M_bind, the_handle, gets. rewrite Hh. cbn [h_released h_lost h_path h_id].
  unfold _new_op_id, ask. cbn [fst snd with_world cl_calls cl_files cl_world cl_auth]. unfold on_locks. cbn [fst snd cl_locks with_world].
  destruct (ClientLocks.release i _ (cl_locks c)) as [s [[]|e]]; cbn [fst snd with_locks cl_calls cl_files].
  - split_and!; [done|done|discriminate].
  - destruct (is_domain e) eqn:He; cbn [fst snd with_locks cl_calls cl_files]; (split_and!; [done|done|]); [discriminate|].
    intros e' [= <-]. exact He.
Qed.

Lemma finally_run {A} (m : M (Client W) client_error A) f c c' r :
  finally m f c = (c', r) → c' = (f (m c).1).1 ∧ (r = (m c).2 ∨ ∃ e, r = Err e ∧ (f (m c).1).2 = Err e).
Proof.
  unfold finally. destruct (m c) as [c1 r1]. cbn [fst snd]. destruct (f c1) as [c2 [[]|e]]; intros [= <- <-]; eauto.
Qed.

Lemma the_handle_bind {A} i (f : Handle → M (Client W) client_error A) c :
  (h ← the_handle i; f h) c = f (handle_at i (cl_locks c)) c.
Proof. done. Qed.

(** ** Writes *)

(** A call with the answer the cluster gave to it. *)
Definition exchange : Type := { req : request & result exn (answer_of req) }.
Definition answered (req : request) (a : result exn (answer_of req)) : exchange := existT req a.
Notation "req '⇒' a" := (answered req a) (at level 60, no associativity).

(** What the client asked on the way from a state to another, each call answered by
    the cluster as it was when the call was made; everything else (identifiers,
    blocks moved, local files) makes no call. *)
Inductive exchanges : Client W → list exchange → Client W → Prop :=
| ex_done c : exchanges c [] c
| ex_quiet c c1 l c' : cl_calls c1 = cl_calls c → exchanges c1 l c' → exchanges c l c'
| ex_call c req a c1 l c' : ask view_metadata req c = (c1, Ok a) → exchanges c1 l c' → exchanges c ((req ⇒ a) :: l) c'.

Lemma exchanges_calls c l c' : exchanges c l c' → cl_calls c' = cl_calls c ++ (projT1 <$> l).
Proof.
  induction 1 as [c|c c1 l c' E _ IH|c req a c1 l c' E _ IH]; [by rewrite app_nil_r|congruence|].
  rewrite IH. injection E as <- _. cbn. by rewrite <-app_assoc.
Qed.
Lemma exchanges_app c l c1 l' c' : exchanges c l c1 → exchanges c1 l' c' → exchanges c (l ++ l') c'.
Proof. induction 1; [done|intros; eapply ex_quiet; eauto|intros; eapply ex_call; eauto]. Qed.

(** What the slots of a reservation became: each confirmed, in order, under its new block. *)
Definition fills (slots : list WriteSlot) (confirmed : list Tree.Confirmed) : Prop :=
  Forall2 (λ s (cf : Tree.Confirmed), cf.1.1 = (ws_index s, ws_new_id s)) slots confirmed.

(** The error a failed write ends with, from the error that stopped it and the answer
    to its AbortWrite: the first one, unless the second is not a domain error. *)
Definition after_abort (e : client_error) (a : result exn ()) : client_error :=
  match a with
  | Err e' => if is_domain e' then translated e else ByExn e'
  | Ok _ => translated e
  end.

(** The exchanges of a write of [len] bytes under the lock [id]: refused at once, or
    reserved, and then committed with every slot confirmed, or aborted under the
    identifier of the reservation, whether a transfer failed or the commit was
    refused; an exception that is none of [grpc.RpcError], [OSError] and [DFShaError]
    goes through, with nothing said to the cluster. *)
Inductive write_calls (path id : string) (offset len : Z) : list exchange → result client_error Z → Prop :=
| WC_refused op e :
    write_calls path id offset len [RBeginWrite op path id offset len ⇒ Err e] (Err (ByExn e))
| WC_committed op b op' conf v :
    fills (bw_slots b) conf →
    write_calls path id offset len
      [RBeginWrite op path id offset len ⇒ Ok b;
       RCommitWrite op' path (bw_write_id b) id (bw_base_version b) conf ⇒ Ok v] (Ok len)
| WC_aborted op b e op' a :
    caught e = true →
    write_calls path id offset len
      [RBeginWrite op path id offset len ⇒ Ok b;
       RAbortWrite op' path (bw_write_id b) id ⇒ a] (Err (after_abort e a))
| WC_undone op b op' conf e op'' a :
    fills (bw_slots b) conf → is_domain e = true →
    write_calls path id offset len
      [RBeginWrite op path id offset len ⇒ Ok b;
       RCommitWrite op' path (bw_write_id b) id (bw_base_version b) conf ⇒ Err e;
       RAbortWrite op'' path (bw_write_id b) id ⇒ a] (Err (after_abort (ByExn e) a))
| WC_crashed op b e :
    caught e = false →
    write_calls path id offset len [RBeginWrite op path id offset len ⇒ Ok b] (Err e)
| WC_broken op b op' conf e :
    fills (bw_slots b) conf → is_domain e = false →
    write_calls path id offset len
      [RBeginWrite op path id offset len ⇒ Ok b;
       RCommitWrite op' path (bw_write_id b) id (bw_base_version b) conf ⇒ Err e] (Err (ByExn e)).

(** The exchanges a program makes. *)
Definition talks {A} (m : M (Client W) client_error A) (P : list exchange → result client_error A → Prop) : Prop :=
  ∀ c, ∃ l, exchanges c l (m c).1 ∧ P l (m c).2.

Lemma talks_quiet {A} (m : M (Client W) client_error A) (P : list exchange → result client_error A → Prop) :
  (∀ c, cl_calls (m c).1 = cl_calls c ∧ P [] (m c).2) → talks m P.
Proof. intros Hm c. destruct (Hm c) as [E HP]. exists []. split; [|done]. eapply ex_quiet; [exact E|constructor]. Qed.
Lemma talks_bind {A B} (m : M (Client W) client_error A) (f : A → M (Client W) client_error B)
    (P : list exchange → result client_error A → Prop) (Q : A → list exchange → result client_error B → Prop)
    (R : list exchange → result client_error B → Prop) :
  talks m P → (∀ a, talks (f a) (Q a)) →
  (∀ l e, P l (Err e) → R l (Err e)) → (∀ l a l' r, P l (Ok a) → Q a l' r → R (l ++ l') r) →
  talks (mbind f m) R.
Proof.
  intros Hm Hf He Ho c. destruct (Hm c) as (l & E & HP). unfold mbind, M_bind. destruct (m c) as [c1 [a|e]]; cbn [fst snd] in *.
  - destruct (Hf a c1) as (l' & E' & HQ). exists (l ++ l'). split; [by eapply exchanges_app|eauto].
  - exists l. auto.
Qed.
Lemma talks_fresh {B} (f : string → M (Client W) client_error B) R : (∀ op, talks (f op) R) → talks (mbind f _new_op_id) R.
Proof.
  intros Hf c. destruct (Hf (fresh_id (cl_world c)).2 (with_world (fresh_id (cl_world c)).1 c)) as (l & E & HR).
  exists l. split; [|exact HR]. eapply ex_quiet; [|exact E]. done.
Qed.
Lemma talks_call req :
  talks (call view_metadata req)
    (λ l r, ∃ a, l = [req ⇒ a] ∧ r = match a with Ok x => Ok x | Err e => Err (ByExn e) end).
Proof.
  intros c. destruct (ask view_metadata req c) as [c1 out] eqn:E. pose proof E as E0. unfold ask in E0. injection E0 as E1 E2.
  exists [req ⇒ (rpc (cl_auth c ++ view_metadata) req (cl_world c)).2]. unfold call, mbind, M_bind. rewrite E, <-E2. split.
  - eapply ex_call; [by rewrite E, E2|]. destruct (rpc _ _ _).2; constructor.
  - eexists. split; [done|]. by destruct (rpc _ _ _).2.
Qed.
Lemma talks_map {A B} (m : M (Client W) client_error A) (g : A → B) (P : list exchange → result client_error A → Prop)
    (Q : list exchange → result client_error B → Prop) :
  talks m P → (∀ l a, P l (Ok a) → Q l (Ok (g a))) → (∀ l e, P l (Err e) → Q l (Err e)) → talks (a ← m; mret (g a)) Q.
Proof.
  intros Hm Ho He c. destruct (Hm c) as (l & E & HP). unfold mbind, M_bind. exists l.
  destruct (m c) as [c1 [a|e]]; (split; [exact E|]); [by apply Ho|by apply He].
Qed.

(** [except DFShaError: pass] over the answer of a call. *)
Definition forgiven (a : result exn ()) : result client_error () :=
  match a with Err e => if is_domain e then Ok tt else Err (ByExn e) | Ok _ => Ok tt end.
Lemma talks_failure {A} (m : M (Client W) client_error A) (h : M (Client W) client_error ())
    (P : list exchange → result client_error A → Prop) (Q : list exchange → result exn () → Prop)
    (R : list exchange → result client_error A → Prop) :
  talks m P → talks h (λ l r, ∃ a, Q l a ∧ r = forgiven a) →
  (∀ l a, P l (Ok a) → R l (Ok a)) →
  (∀ l e, P l (Err e) → caught e = false → R l (Err e)) →
  (∀ l e l' a, P l (Err e) → caught e = true → Q l' a → R (l ++ l') (Err (after_abort e a))) →
  talks (on_failure m h) R.
Proof.
  intros Hm Hh Ho Hn Hc c. destruct (Hm c) as (l & E & HP). unfold on_failure. destruct (m c) as [c1 [a|e]]; cbn [fst snd] in *.
  { exists l. auto. }
  destruct (caught e) eqn:He; [|exists l; split; [done|by apply Hn]]. destruct (Hh c1) as (l' & E' & a & HQ & Hr). exists (l ++ l').
  pose proof (exchanges_app _ _ _ _ _ E E') as E2. pose proof (Hc _ _ _ _ HP He HQ) as HR.
  destruct (h c1) as [c2 r2]; cbn [fst snd] in *. subst r2. unfold after_abort in HR.
  destruct a as [[]|e']; [|cbn; destruct (is_domain e')]; by split.
Qed.

Lemma talks_abort path wid id :
  talks (ignoring (op' ← _new_op_id; call view_metadata (RAbortWrite op' path wid id)))
    (λ l r, ∃ a : result exn (), (∃ op', l = [RAbortWrite op' path wid id ⇒ a]) ∧ r = forgiven a).
Proof.
  intros c. destruct (talks_fresh (λ op', call view_metadata (RAbortWrite op' path wid id))
    (λ l r, ∃ a : result exn (), (∃ op', l = [RAbortWrite op' path wid id ⇒ a]) ∧ r = match a with Ok x => Ok x | Err e => Err (ByExn e) end))
    with (c := c) as (l & E & a & Hl & Hr).
  { intros op c'. destruct (talks_call (RAbortWrite op path wid id) c') as (l & E & a & -> & Hr). eauto 10. }
  exists l. unfold ignoring. match type of E with exchanges _ _ (fst ?x) => destruct x as [c1 r1] end; cbn [fst snd] in *. subst r1.
  destruct a as [[]|e]; [|destruct (is_domain e) eqn:He]; (split; [exact E|]); eexists; (split; [exact Hl|]); cbn; by rewrite ?He.
Qed.

Lemma write_slot_quiet bs offset data s c :
  cl_calls (write_slot bs offset data s c).1 = cl_calls c ∧
  ∀ cf, (write_slot bs offset data s c).2 = Ok cf → cf.1.1 = (ws_index s, ws_new_id s).
Proof.
  unfold write_slot, mbind, M_bind, gets, lift. cbn [fst snd].
  destruct (_slot_content _ _ _ _ _); [|done]. unfold _write_block. destruct (cb_addresses _); [done|].
  destruct (replica_write _ _ _ _) as [w [k|?]]; (split; [done|]); [by intros cf [= <-]|done].
Qed.
Lemma write_all_quiet bs offset data slots c :
  cl_calls (write_all bs offset data slots c).1 = cl_calls c ∧
  ∀ conf, (write_all bs offset data slots c).2 = Ok conf → fills slots conf.
Proof.
  revert c. induction slots as [|s slots IH]; intros c; cbn [write_all]; [by split; [|intros conf [= <-]; constructor]|].
  destruct (write_slot_quiet bs offset data s c) as [E H]. unfold mbind at 1 3, M_bind at 1 3.
  destruct (write_slot bs offset data s c) as [c1 [cf|e]]; cbn [fst snd] in *; [|done].
  destruct (IH c1) as [E' H']. unfold mbind, M_bind. destruct (write_all bs offset data slots c1) as [c2 [cfs|e]]; cbn [fst snd mret M_ret] in *.
  - split; [congruence|]. intros conf [= <-]. constructor; [by apply H|by apply H'].
  - split; [congruence|done].
Qed.

(** The transfers of a write and its commit. *)
Lemma talks_commit path id offset data b :
  talks
    (confirmed ← write_all (bw_block_size b) offset data (bw_slots b);
     op' ← _new_op_id;
     _ ← call view_metadata (RCommitWrite op' path (bw_write_id b) id (bw_base_version b) confirmed);
     mret tt)
    (λ l r, (∃ op' conf (a : result exn Z), fills (bw_slots b) conf ∧ l = [RCommitWrite op' path (bw_write_id b) id (bw_base_version b) conf ⇒ a] ∧
               r = match a with Ok _ => Ok tt | Err e => Err (ByExn e) end)
            ∨ l = [] ∧ ∃ e, r = Err e).
Proof.
  eapply (talks_bind _ _ (λ l r, l = [] ∧ ∀ conf, r = Ok conf → fills (bw_slots b) conf)
    (λ conf l r, fills (bw_slots b) conf → ∃ op' (a : result exn Z), l = [RCommitWrite op' path (bw_write_id b) id (bw_base_version b) conf ⇒ a] ∧
               r = match a with Ok _ => Ok tt | Err e => Err (ByExn e) end)).
  - apply talks_quiet. intros c. destruct (write_all_quiet (bw_block_size b) offset data (bw_slots b) c) as [E H]. auto.
  - intros conf. apply talks_fresh. intros op' c.
    destruct (talks_call (RCommitWrite op' path (bw_write_id b) id (bw_base_version b) conf) c) as (l & E & a & -> & Hr).
    eexists. unfold mbind, M_bind. destruct (call view_metadata _ c) as [c1 r1]; cbn [fst snd] in *. subst r1.
    destruct a as [v|e]; (split; [exact E|]); intros _; by eexists op', _.
  - intros l e [-> _]. right. eauto.
  - intros l conf l' r [-> H] H'. left. destruct (H' (H _ eq_refl)) as (op' & a & -> & ->). exists op', conf, a. auto.
Qed.

Lemma talks_write_body path id offset data :
  talks
    (op ← _new_op_id;
     begun ← call view_metadata (RBeginWrite op path id offset (zlen data));
     _ ← on_failure
       (confirmed ← write_all (bw_block_size begun) offset data (bw_slots begun);
        op' ← _new_op_id;
        _ ← call view_metadata (RCommitWrite op' path (bw_write_id begun) id (bw_base_version begun) confirmed);
        mret tt)
       (ignoring (op' ← _new_op_id; call view_metadata (RAbortWrite op' path (bw_write_id begun) id)));
     mret (zlen data))
    (write_calls path id offset (zlen data)).
Proof.
  apply talks_fresh. intros op.
  eapply (talks_bind _ _ _ (λ b l r, write_calls path id offset (zlen data) ((RBeginWrite op path id offset (zlen data) ⇒ Ok b) :: l) r));
    [apply (talks_call (RBeginWrite op path id offset (zlen data)))| | |].
  - intros b. apply (talks_map _ (λ _, zlen data)
      (λ l r, write_calls path id offset (zlen data) ((RBeginWrite op path id offset (zlen data) ⇒ Ok b) :: l)
                match r with Ok _ => Ok (zlen data) | Err e => Err e end)); [|by intros l []|done].
    apply (talks_failure _ _ _ (λ l (a : result exn ()), ∃ op', l = [RAbortWrite op' path (bw_write_id b) id ⇒ a]) _
      (talks_commit path id offset data b) (talks_abort path (bw_write_id b) id)).
    + intros l [] [(op' & conf & [v|e] & Hf & -> & [=])|(_ & e & [=])]. by constructor.
    + intros l e [(op' & conf & [v|e'] & Hf & -> & [= ->])|(-> & _)] He; by constructor.
    + intros l e l' a [(op' & conf & [v|e'] & Hf & -> & [= ->])|(-> & _)] He [op'' ->]; by constructor.
  - intros l e (a & -> & Hr). destruct a as [b|e']; [done|]. injection Hr as ->. constructor.
  - intros l b l' r (a & -> & Hr) H. destruct a as [b'|e']; [|done]. by injection Hr as <-.
Qed.

(** ** Downloads *)

Lemma fetches_keep tmp items order c c' r :
  run_transfers (fetch_in tmp) items order c = (c', r) →
  cl_calls c' = cl_calls c ∧ cl_locks c' = cl_locks c ∧ delete tmp (cl_files c') = delete tmp (cl_files c).
Proof.
  revert c c' r. induction order as [|i order IH]; intros c c' r; cbn [run_transfers]; [by intros [= <- <-]|].
  destruct (items !! i) as [item|]; [|apply IH]. unfold mbind, M_bind.
  assert (∀ bytes, let c1 := with_local (<[tmp := bytes]> (cl_files c)) c in
    cl_calls c1 = cl_calls c ∧ cl_locks c1 = cl_locks c ∧
    delete tmp (cl_files c1) = delete tmp (cl_files c)) as Hstep.
  { intros bytes. cbn. split_and!; [done|done|by rewrite delete_insert_eq]. }
  unfold fetch_in at 1. destruct (fetch_block _ _ _ _) as [bytes [z|e]]; cbn [fst snd];
    destruct (Hstep bytes) as (S1 & S2 & S3); [|by intros [= <- <-]].
  destruct (run_transfers _ items order _) as [c2 [rs|e]] eqn:Hrun; apply IH in Hrun as (R1 & R2 & R3);
    intros [= <- <-]; split_and!; congruence || auto.
Qed.

(** What the body of a download leaves of the local files. *)
Definition download_body (remote local tmp : string) : M (Client W) client_error Z :=
  cleaning (translating
    (listed ← call view_metadata (RListBlocks remote);
     let blocks := block_in <$> listed in
     _ ← modify (λ c, with_local (<[tmp := replicate (Z.to_nat (sumZ (cb_size <$> blocks))) 0]> (cl_files c)) c);
     ns ← _in_parallel schedule (fetch_in tmp) (zip blocks (_block_starts blocks));
     _ ← replace tmp local;
     mret (sumZ ns)))
    (discard tmp).

Lemma download_body_run remote local tmp c c' r :
  download_body remote local tmp c = (c', r) →
  cl_calls c' = cl_calls c ++ [RListBlocks remote] ∧ cl_locks c' = cl_locks c ∧
  match r with
  | Ok _ => ∃ content, cl_files c' = <[local := content]> (delete tmp (cl_files c))
  | Err _ => cl_files c' = delete tmp (cl_files c)
  end.
Proof.
  unfold download_body, cleaning, translating. unfold mbind at 1, M_bind at 1.
  pose proof (call_keeps_locks (RListBlocks remote) c) as Hkl. pose proof (call_keeps_files (RListBlocks remote) c) as Hkf.
  destruct (sends_call view_metadata (RListBlocks remote) c) as (l & Hc & ->). unfold same in *.
  destruct (call view_metadata (RListBlocks remote) c) as [c1 [listed|e]]; cbn [fst snd] in *.
  2: { intros [= <- <-]. cbn. by rewrite Hkf. }
  unfold mbind at 1, M_bind at 1, modify. cbv beta iota.
  match goal with |- context [(ns ← _; _) ?x] => set (c2 := x) end.
  unfold mbind at 1, M_bind at 1. unfold _in_parallel, mbind at 1, M_bind at 1.
  destruct (run_transfers _ _ _ c2) as [c3 [rs|e]] eqn:Hrun; apply fetches_keep in Hrun as (R1 & R2 & R3);
    cbn [mret M_ret]; unfold c2 in *; cbn [with_local cl_calls cl_locks cl_files] in *; rewrite delete_insert_eq, Hkf in R3.
  - unfold replace, modify, mbind, M_bind. intros [= <- <-]. cbn [with_local cl_calls cl_locks cl_files].
    split; [congruence|]. split; [congruence|]. eexists. by rewrite R3.
  - intros [= <- <-]. cbn. split_and!; congruence.
Qed.

(** C7. A download is atomic: one bracket of the read lock around one listing, after
    which either the local path has new content and nothing else changed, or the
    call failed and every local file is as it was; the temporary file is gone in
    both cases, and the lock is given back whatever happened. *)
Theorem download_protocol remote local c c' r :
  download view_metadata schedule remote local c = (c', r) →
  let p := _canonical_lock_path remote in
  (∃ op e, cl_calls c' = cl_calls c ++ [RLock op p "r"] ∧ cl_files c' = cl_files c ∧ r = Err e)
  ∨ (∃ op op' id uid r0, cl_calls c' = cl_calls c ++ [RLock op p "r"; RListBlocks remote; RUnlock op' p id] ∧
      match r0 with
      | Ok _ => ∃ content, cl_files c' = <[local := content]> (delete (local +:+ ".part-" +:+ uid) (cl_files c))
      | Err _ => cl_files c' = delete (local +:+ ".part-" +:+ uid) (cl_files c)
      end ∧ (r = r0 ∨ ∃ e, r = Err e ∧ caught e = false)).
Proof.
  intros Hrun p. unfold download in Hrun. unfold mbind at 1, M_bind at 1 in Hrun.
  destruct (lock view_metadata remote "r" c) as [c1 [i|e]] eqn:Hl.
  - apply lock_run in Hl as (op & Hcalls & Hfiles & id & lease & Hh); [|by left]. fold p in Hcalls, Hh. right.
    unfold mbind at 1, M_bind at 1, _new_op_id in Hrun. cbn [fst snd] in Hrun. set (uid := (fresh_id (cl_world c1)).2) in *.
    set (c2 := with_world _ c1) in *. apply finally_run in Hrun as [-> Hr].
    change (cleaning _ _) with (download_body remote local (local +:+ ".part-" +:+ uid)) in *.
    destruct (download_body remote local _ c2) as [c3 r0] eqn:Hbody. apply download_body_run in Hbody as (B1 & B2 & B3).
    cbn [fst snd] in *. rewrite <-B2 in Hh || rewrite <-(B2 : _ = cl_locks c1) in Hh.
    apply release_run in Hh as (op' & E' & F' & Hne). exists op, op', id, uid, r0. rewrite E', F', B1.
    change (cl_calls c2) with (cl_calls c1). change (cl_files c2) with (cl_files c1) in B3. rewrite Hcalls, <-!app_assoc. rewrite Hfiles in B3.
    split; [done|]. split; [exact B3|]. destruct Hr as [->|(e & -> & He)]; [by left|]. right. eauto.
  - apply lock_run in Hl as (op & Hcalls & Hfiles & _); [|by left]. injection Hrun as <- <-. left. eauto.
Qed.

(** C6. A write outside of a lock of the client is one bracket: it takes the write
    lock, reserves, commits once every slot of the reservation has its new block, and
    gives the lock back whatever happened.  A write that returns has its commit
    accepted and did not abort; one that fails was refused its reservation, or
    aborts it, under its identifier, at a transfer that failed as at a commit that
    was refused, and the error is the one that stopped it; only an exception the
    code does not catch (a block without replicas) leaves the reservation alone.
    The answers are those of the cluster when each call was made. *)
Theorem write_protocol path offset data c c' r :
  writing_handle path (cl_locks c) = None → write view_metadata path offset data c = (c', r) →
  let p := _canonical_lock_path path in
  (∃ op e, cl_calls c' = cl_calls c ++ [RLock op p "w"] ∧ r = Err e)
  ∨ (∃ op op' id l r0 c1 c2,
      cl_calls c1 = cl_calls c ++ [RLock op p "w"] ∧ exchanges c1 l c2 ∧ cl_calls c' = cl_calls c2 ++ [RUnlock op' p id] ∧
      write_calls p id offset (zlen data) l r0 ∧ (r = r0 ∨ ∃ e, r = Err e ∧ caught e = false)).
Proof.
  intros Hmine Hrun p. unfold write, mbind at 1, M_bind at 1, gets in Hrun. rewrite Hmine in Hrun.
  unfold mbind, M_bind in Hrun. destruct (lock view_metadata path "w" c) as [c1 [i|e]] eqn:Hl.
  - apply lock_run in Hl as (op & Hcalls & _ & id & lease & Hh); [|by right]. fold p in Hcalls, Hh. right.
    pose proof (write_with_lock_keeps_locks i offset data c1) as Hkeep. unfold same in Hkeep.
    assert (∃ l, exchanges c1 l (_write_with_lock view_metadata i offset data c1).1 ∧
      write_calls p id offset (zlen data) l (_write_with_lock view_metadata i offset data c1).2) as (l & El & Hw).
    { unfold _write_with_lock. rewrite the_handle_bind, Hh. exact (talks_write_body p id offset data c1). }
    apply finally_run in Hrun as [-> Hr]. rewrite <-Hkeep in Hh.
    apply release_run in Hh as (op' & E' & _ & Hne).
    exists op, op', id, l, (_write_with_lock view_metadata i offset data c1).2, c1, (_write_with_lock view_metadata i offset data c1).1.
    split_and!; [done..|]. destruct Hr as [->|(e & -> & He)]; [by left|]. right. exists e. eauto.
  - apply lock_run in Hl as (op & Hcalls & _); [|by right]. injection Hrun as <- <-. left. eauto.
Qed.
End locked.

(** * On the cluster of ClusterProps.v, with a DataNode missing *)

Definition broken_world : World := mkWorld demo_node {["a:1" := full_node; "b:1" := full_node]} 0 0.
Definition broken_client : Client World := client_init broken_world {["copy" := [1]]}.
Definition broken_cluster : Cluster World := @world_cluster toy_jwt toy_aead full_config full_env 3 full_denv cluster_uuid "peer".
Definition broken_upload : Client World * result client_error Z :=
  @upload World broken_cluster [] (λ k, seq 0 k) (Some [1; 2; 3; 4; 5; 6; 7; 8; 9; 10]) "/f" broken_client.
Lemma upload_protocol_witness :
  length (cl_calls broken_upload.1) = 3%nat ∧ ∃ op l, cl_calls broken_upload.1 = RBeginUpload op "/f" 10 :: l.
Proof.
  split; [vm_compute; reflexivity|].
  destruct (@upload_protocol World broken_cluster [] (λ k, seq 0 k) "/f" [1; 2; 3; 4; 5; 6; 7; 8; 9; 10] broken_client
    broken_upload.1 broken_upload.2 (λ k, Permutation_refl _) (surjective_pairing _)) as (op & l & E & _).
  by exists op, l.
Defined.

Definition broken_write : Client World * result client_error Z :=
  @write World broken_cluster [] "/f" 2 [5] full_run.1.
Lemma write_protocol_witness :
  broken_write.2 = Ok 1 ∧ ∃ id op op' wid base conf l,
    cl_calls broken_write.1 = cl_calls full_run.1 ++ l ∧
    [RBeginWrite op (_canonical_lock_path "/f") id 2 1; RCommitWrite op' (_canonical_lock_path "/f") wid id base conf] `sublist_of` l.
Proof.
  assert (broken_write.2 = Ok 1) as E0 by (vm_compute; reflexivity). split; [exact E0|].
  destruct (@write_protocol World broken_cluster [] "/f" 2 [5] full_run.1 broken_write.1 broken_write.2
    ltac:(vm_compute; reflexivity) (surjective_pairing _)) as [(op & e & _ & E)|(op & op' & id & l & r0 & c1 & c2 & E1 & Ex & E2 & Hw & Hr)]; [congruence|].
  apply exchanges_calls in Ex. rewrite Ex, E1, <-!app_assoc in E2.
  assert (r0 = Ok 1) as -> by (destruct Hr as [Hr|(e & Hr & _)]; congruence).
  inversion Hw as [|op1 b op2 conf v Hf Hl| | | |]; subst l.
  exists id, op1, op2, (bw_write_id b), (bw_base_version b), conf. eexists. split; [exact E2|].
  cbn. apply sublist_cons, sublist_skip, sublist_skip, sublist_nil_l.
Defined.

Definition broken_download : Client World * result client_error Z :=
  @download World broken_cluster [] (λ k, seq 0 k) "/f" "copy" broken_client.
Lemma download_protocol_witness :
  cl_files broken_download.1 !! "copy" = Some [1] ∧ ∃ e, broken_download.2 = Err e.
Proof.
  destruct (@download_protocol World broken_cluster [] (λ k, seq 0 k) "/f" "copy" broken_client
    broken_download.1 broken_download.2 (surjective_pairing _)) as [(op & e & _ & _ & Hr)|(op & op' & id & uid & r0 & _ & Hf & Hr)].
  - split; [vm_compute; reflexivity|eauto].
  - split; [vm_compute; reflexivity|]. eexists. vm_compute. reflexivity.
Defined.
