(* ===== verification/HostFs.v ===== *)
(** The file system of a host as the first, non-distributed server and client use
    it through [pathlib] and [os]: POSIX paths, directories and regular files.

    A path is the list of its components from [/]; the file system maps the paths
    that exist to their nodes.  There are no symbolic links, so [Path.resolve] is
    lexical; names with a NUL byte, permissions, full disks and limits of length are
    left aside.  A call of the operating system is a state transformer that raises
    the [OSError] the kernel reports.  The lemmas follow the definitions. *)

From S2P Require Import Prelude Exceptions Paths DataNode Bytes.

Inductive os_error := ENOENT | EEXIST | ENOTDIR | EISDIR | ENOTEMPTY | EBUSY.

#[global] Instance os_error_eq_dec : EqDecision os_error.
Proof. solve_decision. Defined.

Inductive inode := HDir | HFile (content : list Z).

#[global] Instance inode_eq_dec : EqDecision inode.
Proof. solve_decision. Defined.

Notation Path := (list string).
Notation HostFS := (@gmap (list string) (@list_eq_dec string String.eq_dec)
  (@list_countable string String.eq_dec String.countable) inode).

(** What the Python code raises: an [OSError], a [grpc.RpcError] or another exception. *)
Inductive host_error := OSError (e : os_error) | Grpc (e : RpcError) | Exn (e : exn).

Notation F := (M HostFS host_error).

(** * Paths *)

(** [path.parent], [path.name] and [path.parents], the nearest first. *)
Definition parent (p : Path) : Path := init_of p.
Definition name (p : Path) : string := last_str p.
Definition parents (p : Path) : list Path := (λ n, take n p) <$> reverse (seq 0 (length p)).

(** One component met by [os.path.realpath]. *)
Definition enter (p : Path) (c : string) : Path :=
  if decide (c = "" ∨ c = ".") then p else if decide (c = "..") then init_of p else p ++ [c].

(** [(root / relative).resolve()] of a relative path. *)
Definition resolve_under (root : Path) (relative : string) : Path :=
  foldl enter root (split_on slash relative).

(** [root in candidate.parents]. *)
Definition in_parents (root candidate : Path) : bool := bool_decide (root ∈ parents candidate).

(** * Nodes *)

Definition exists_ (p : Path) (fs : HostFS) : bool := bool_decide (is_Some (fs !! p)).
Definition is_dir (p : Path) (fs : HostFS) : bool := bool_decide (fs !! p = Some HDir).
Definition is_file (p : Path) (fs : HostFS) : bool :=
  match fs !! p with Some (HFile _) => true | _ => false end.

(** [st_size]. *)
Definition size_of (n : inode) : Z :=
  match n with HDir => 0 | HFile content => zlen content end.

(** The names and the nodes of a directory, in no particular order. *)
Definition children (p : Path) (fs : HostFS) : list (string * inode) :=
  omap (λ e, if decide (e.1 = p ++ [last_str e.1]) then Some (last_str e.1, e.2) else None) (map_to_list fs).

(** The error of walking to a path: a file on the way, or a directory that is missing. *)
Definition walk_error (p : Path) (fs : HostFS) : os_error :=
  if existsb (λ a, is_file a fs) (parents p) then ENOTDIR else ENOENT.

(** * Calls *)

Definition fail {A} (e : os_error) : F A := raise (OSError e).
Definition put (p : Path) (n : inode) : F unit := modify <[p := n]>.
Definition drop_node (p : Path) : F unit := modify (delete p).

(** [os.mkdir]. *)
Definition os_mkdir (p : Path) : F unit := λ fs,
  if exists_ p fs then fail EEXIST fs
  else if is_dir (parent p) fs then put p HDir fs
  else fail (walk_error p fs) fs.

(** [p.mkdir(exist_ok=...)]: any other error than a missing parent is forgiven when
    there is a directory and [exist_ok]. *)
Definition forgiving (exist_ok : bool) (p : Path) (e : os_error) : F unit := λ fs,
  if exist_ok && is_dir p fs then (fs, Ok tt) else fail e fs.
Definition mkdir_one (p : Path) (exist_ok : bool) : F unit := λ fs,
  match os_mkdir p fs with
  | (fs', Err (OSError ENOENT)) => fail ENOENT fs'
  | (fs', Err (OSError e)) => forgiving exist_ok p e fs'
  | r => r
  end.

(** [p.mkdir(parents=True, exist_ok=...)], on the path reversed. *)
Fixpoint mkdir_parents (rp : Path) (exist_ok : bool) : F unit := λ fs,
  match os_mkdir (rev rp) fs with
  | (fs', Err (OSError ENOENT)) =>
      match rp with
      | [] => fail ENOENT fs'
      | _ :: rp' =>
          match mkdir_parents rp' true fs' with
          | (fs'', Ok _) => mkdir_one (rev rp) exist_ok fs''
          | r => r
          end
      end
  | (fs', Err (OSError e)) => forgiving exist_ok (rev rp) e fs'
  | r => r
  end.
Definition mkdir (p : Path) (exist_ok : bool) : F unit := mkdir_parents (rev p) exist_ok.

(** [os.rmdir]. *)
Definition os_rmdir (p : Path) : F unit := λ fs,
  match fs !! p with
  | None => fail (walk_error p fs) fs
  | Some (HFile _) => fail ENOTDIR fs
  | Some HDir =>
      if decide (p = []) then fail EBUSY fs
      else if bool_decide (children p fs = []) then drop_node p fs
      else fail ENOTEMPTY fs
  end.

(** [os.unlink], and [p.unlink(missing_ok=True)]. *)
Definition os_unlink (p : Path) : F unit := λ fs,
  match fs !! p with
  | None => fail (walk_error p fs) fs
  | Some HDir => fail EISDIR fs
  | Some (HFile _) => drop_node p fs
  end.
Definition unlink_missing_ok (p : Path) : F unit := λ fs,
  match os_unlink p fs with
  | (fs', Err (OSError ENOENT)) => (fs', Ok tt)
  | r => r
  end.

(** [open(p, "wb")]: the file is there, and empty. *)
Definition open_wb (p : Path) : F unit := λ fs,
  match fs !! p with
  | Some HDir => fail EISDIR fs
  | Some (HFile _) => put p (HFile []) fs
  | None => if is_dir (parent p) fs then put p (HFile []) fs else fail (walk_error p fs) fs
  end.
(** [fh.write(data)] at the end of an open file. *)
Definition append_to (p : Path) (data : list Z) : F unit := λ fs,
  match fs !! p with
  | Some (HFile content) => put p (HFile (content ++ data)) fs
  | _ => (fs, Ok tt)
  end.

(** [os.replace] of a file. *)
Definition os_replace (src dst : Path) : F unit := λ fs,
  match fs !! src with
  | Some (HFile content) =>
      match fs !! dst with
      | Some HDir => fail EISDIR fs
      | Some (HFile _) => (<[dst := HFile content]> (delete src fs), Ok tt)
      | None =>
          if is_dir (parent dst) fs then (<[dst := HFile content]> (delete src fs), Ok tt)
          else fail (walk_error dst fs) fs
      end
  | Some HDir => fail ENOTDIR fs
  | None => fail (walk_error src fs) fs
  end.

(** [try: m except BaseException: handler; raise]. *)
Definition cleaning_up {A} (m : F A) (handler : F unit) : F A := λ fs,
  match m fs with
  | (fs', Err e) =>
      match handler fs' with
      | (fs'', Ok _) => (fs'', Err e)
      | (fs'', Err e') => (fs'', Err e')
      end
  | r => r
  end.

(** The chunks [fh.read(chunk_size)] gives until it is empty; [None] when [fuel]
    reads do not reach the end. *)
Fixpoint read_loop (fuel : nat) (chunk_size : nat) (rest : list Z) : option (list (list Z)) :=
  match fuel with
  | O => None
  | S fuel' =>
      match take chunk_size rest with
      | [] => Some []
      | data => cons data <$> read_loop fuel' chunk_size (drop chunk_size rest)
      end
  end.

(** * Well-formed file systems *)

(** The root is a directory and every other node is in one. *)
Record fs_wf (fs : HostFS) : Prop := {
  wf_root : fs !! [] = Some HDir;
  wf_parent p : is_Some (fs !! p) → fs !! parent p = Some HDir
}.

(** Lemmas on the host file system (HostFs.v): paths and prefixes, well-formedness,
    and what each call of the operating system does to a well-formed file system. *)

(** * Paths *)

Lemma parent_snoc p c : parent (p ++ [c]) = p.
Proof. apply init_of_snoc. Qed.
Lemma name_snoc p c : name (p ++ [c]) = c.
Proof. apply last_str_snoc. Qed.
Lemma parent_name p : p ≠ [] → parent p ++ [name p] = p.
Proof. apply init_last_str. Qed.
Lemma snoc_inv (p : Path) : p = [] ∨ ∃ q c, p = q ++ [c].
Proof. destruct p as [|c q _] using rev_ind; eauto. Qed.

(** [a] is an ancestor of [p]: a proper prefix. *)
Definition above (a p : Path) : Prop := a `prefix_of` p ∧ a ≠ p.

Lemma elem_of_parents a p : a ∈ parents p ↔ above a p.
Proof.
  unfold parents, above. rewrite list_elem_of_fmap. split.
  - intros (n & -> & Hn%elem_of_reverse%elem_of_seq). split; [apply prefix_take|].
    intros He%(f_equal length). rewrite length_take in He. lia.
  - intros [[k ->] Hne]. exists (length a). split; [by rewrite take_app_length|].
    apply elem_of_reverse, elem_of_seq. rewrite length_app. destruct k; [|simpl; lia].
    by rewrite app_nil_r in Hne.
Qed.

Lemma above_snoc a p c : above a (p ++ [c]) ↔ a `prefix_of` p.
Proof.
  unfold above. split.
  - intros [[k Hk] Hne]. destruct (snoc_inv k) as [->|(q & d & ->)]; [by rewrite app_nil_r in Hk|].
    rewrite app_assoc in Hk. apply app_inj_tail in Hk as [-> _]. by exists q.
  - intros [k ->]. split; [exists (k ++ [c]); by rewrite app_assoc|].
    intros He%(f_equal length). rewrite !length_app in He. simpl in He. lia.
Qed.

Lemma in_parents_iff root p : in_parents root p = true ↔ above root p.
Proof. unfold in_parents. by rewrite bool_decide_eq_true, elem_of_parents. Qed.

Lemma above_parent p : p ≠ [] → above (parent p) p.
Proof.
  intros Hp. rewrite <-(parent_name p) at 2 by done. apply above_snoc. done.
Qed.

Lemma prefix_parent a p : a `prefix_of` p → a ≠ p → a `prefix_of` parent p.
Proof.
  intros Hpre Hne. destruct (snoc_inv p) as [->|(q & c & ->)].
  - apply prefix_nil_inv in Hpre as ->. done.
  - rewrite parent_snoc. by apply (above_snoc a q c).
Qed.

(** * Well-formedness *)

Lemma is_dir_iff p fs : is_dir p fs = true ↔ fs !! p = Some HDir.
Proof. apply bool_decide_eq_true. Qed.
Lemma is_file_iff p fs : is_file p fs = true ↔ ∃ content, fs !! p = Some (HFile content).
Proof. unfold is_file. destruct (fs !! p) as [[]|]; naive_solver. Qed.
Lemma exists_iff p fs : exists_ p fs = true ↔ is_Some (fs !! p).
Proof. apply bool_decide_eq_true. Qed.

Lemma wf_above fs a p : fs_wf fs → is_Some (fs !! p) → above a p → fs !! a = Some HDir.
Proof.
  intros Hwf. revert a. induction p as [|c p IH] using rev_ind; intros a Hp [Hpre Hne].
  { apply prefix_nil_inv in Hpre as ->. done. }
  pose proof (wf_parent _ Hwf _ Hp) as Hd. rewrite parent_snoc in Hd.
  assert (a `prefix_of` p) as Ha by by apply (above_snoc a p c).
  destruct (decide (a = p)) as [->|]; [done|]. apply IH; [by rewrite Hd|done].
Qed.

(** What is below a directory is in it, through a child. *)
Lemma wf_insert fs p n : fs_wf fs → fs !! parent p = Some HDir →
  (n = HDir ∨ (p ≠ [] ∧ fs !! p ≠ Some HDir)) → fs_wf (<[p := n]> fs).
Proof.
  intros Hwf Hpar Hn.
  assert (∀ q, fs !! q = Some HDir → <[p := n]> fs !! q = Some HDir) as Hk.
  { intros q Hq. destruct (decide (q = p)) as [->|]; [|by rewrite lookup_insert_ne].
    rewrite lookup_insert_eq. destruct Hn as [->|[_ ?]]; done. }
  split; [apply Hk, Hwf|]. intros q Hq. destruct (decide (q = p)) as [->|].
  - by apply Hk.
  - rewrite lookup_insert_ne in Hq by done. by apply Hk, Hwf.
Qed.

Lemma wf_delete fs p : fs_wf fs → p ≠ [] →
  (∀ q, q ≠ [] → parent q = p → fs !! q = None) → fs_wf (delete p fs).
Proof.
  intros Hwf Hp Hno. split; [rewrite lookup_delete_ne by done; apply Hwf|].
  intros q Hq. assert (q ≠ p) as Hqp by (intros ->; rewrite lookup_delete_eq in Hq; by destruct Hq).
  rewrite lookup_delete_ne in Hq by done. rewrite lookup_delete_ne; [by apply Hwf|].
  intros Heq. destruct (decide (q = [])) as [->|Hqn]; [done|].
  rewrite (Hno q) in Hq by done. by destruct Hq.
Qed.

Lemma wf_file_no_child fs p q : fs_wf fs → is_file p fs = true → q ≠ [] → parent q = p → fs !! q = None.
Proof.
  intros Hwf (content & Hp)%is_file_iff Hq Heq. apply eq_None_not_Some. intros Hs.
  apply (wf_parent _ Hwf) in Hs. congruence.
Qed.

Lemma wf_file_not_root fs p : fs_wf fs → is_file p fs = true → p ≠ [].
Proof. intros Hwf (content & Hp)%is_file_iff ->. rewrite (wf_root _ Hwf) in Hp. done. Qed.

Lemma wf_delete_file fs p : fs_wf fs → is_file p fs = true → fs_wf (delete p fs).
Proof.
  intros Hwf Hp. apply wf_delete; [done|by eapply wf_file_not_root|].
  intros q. by apply wf_file_no_child.
Qed.

Lemma elem_of_children fs p c n : (c, n) ∈ children p fs ↔ fs !! (p ++ [c]) = Some n.
Proof.
  unfold children. rewrite list_elem_of_omap. split.
  - intros ([q m] & Hq & He). simpl in He. case_decide as Hd; simplify_eq.
    apply elem_of_map_to_list in Hq. by rewrite <-Hd.
  - intros Hl. exists (p ++ [c], n). split; [by apply elem_of_map_to_list|].
    simpl. by rewrite last_str_snoc, decide_True.
Qed.

Lemma children_nil fs p : children p fs = [] → ∀ q, q ≠ [] → parent q = p → fs !! q = None.
Proof.
  intros Hc q Hq <-. apply eq_None_not_Some. intros [n Hn].
  rewrite <-(parent_name q Hq) in Hn. apply elem_of_children in Hn. rewrite Hc in Hn.
  by apply not_elem_of_nil in Hn.
Qed.

Lemma wf_delete_empty fs p : fs_wf fs → p ≠ [] → children p fs = [] → fs_wf (delete p fs).
Proof. intros. apply wf_delete; [done|done|]. intros q. by apply children_nil. Qed.

(** The names of a directory are distinct. *)
Lemma children_nodup fs p : NoDup (children p fs).*1.
Proof.
  apply NoDup_fmap_2_strong.
  - intros [c n] [d m] H1 H2 Heq. simpl in Heq. subst d.
    apply elem_of_children in H1, H2. congruence.
  - unfold children. pose proof (NoDup_map_to_list fs) as Hnd.
    induction Hnd as [|[q m] l Hq Hnd IH]; [constructor|]. csimpl.
    case_decide as Hd; [|done]. constructor; [|done].
    rewrite list_elem_of_omap. intros ([q' m'] & Hq' & He). simpl in He.
    case_decide as Hd'; [|done]. injection He as He <-. by rewrite Hd, <-He, <-Hd' in Hq.
Qed.

(** * Directories *)

(** The file system with every missing ancestor of [p], and [p], made a directory. *)
Definition with_dirs (p : Path) (fs : HostFS) : HostFS :=
  fs ∪ list_to_map ((λ n, (take n p, HDir)) <$> seq 0 (S (length p))).

Lemma lookup_with_dirs p fs q :
  with_dirs p fs !! q =
    match fs !! q with
    | Some n => Some n
    | None => if decide (q `prefix_of` p) then Some HDir else None
    end.
Proof.
  unfold with_dirs. rewrite lookup_union. set (m := list_to_map _).
  assert (m !! q = if decide (q `prefix_of` p) then Some HDir else None) as ->.
  2: { by destruct (fs !! q), (decide (q `prefix_of` p)). }
  assert (∀ n, m !! q = Some n → n = HDir ∧ q `prefix_of` p) as Hs.
  { intros n Hn%elem_of_list_to_map_2. apply list_elem_of_fmap in Hn as (k & [= -> ->] & _).
    split; [done|apply prefix_take]. }
  case_decide as Hd.
  - destruct (m !! q) as [n|] eqn:Hq; [by destruct (Hs _ eq_refl) as [-> _]|].
    apply not_elem_of_list_to_map in Hq. exfalso. apply Hq.
    rewrite <-list_fmap_compose. apply list_elem_of_fmap. exists (length q). destruct Hd as [k ->].
    split; [simpl; by rewrite take_app_length|]. apply elem_of_seq. rewrite length_app. lia.
  - destruct (m !! q) eqn:Hq; [|done]. by destruct (Hs _ eq_refl).
Qed.

Lemma with_dirs_id p fs : fs_wf fs → fs !! p = Some HDir → with_dirs p fs = fs.
Proof.
  intros Hwf Hp. apply map_eq. intros q. rewrite lookup_with_dirs.
  destruct (fs !! q) eqn:Hq; [done|]. case_decide as Hd; [|done].
  destruct (decide (q = p)) as [->|]; [congruence|].
  rewrite (wf_above fs q p) in Hq; done.
Qed.

Lemma with_dirs_snoc p c fs : fs !! (p ++ [c]) = None →
  with_dirs (p ++ [c]) fs = <[p ++ [c] := HDir]> (with_dirs p fs).
Proof.
  intros Hn. apply map_eq. intros q. rewrite lookup_with_dirs.
  destruct (decide (q = p ++ [c])) as [->|Hne].
  { rewrite lookup_insert_eq, Hn. by rewrite decide_True. }
  rewrite lookup_insert_ne, lookup_with_dirs by done.
  destruct (fs !! q); [done|]. apply decide_ext. pose proof (above_snoc q p c). unfold above in *. naive_solver.
  Unshelve. all: by split.
Qed.

(** No ancestor of [p], nor [p], is a file. *)
Definition clear (p : Path) (fs : HostFS) : Prop := ∀ a, a `prefix_of` p → is_file a fs = false.

Lemma with_dirs_wf p fs : fs_wf fs → clear p fs → fs_wf (with_dirs p fs).
Proof.
  intros Hwf Hc. split; [rewrite lookup_with_dirs; by rewrite (wf_root _ Hwf)|].
  intros q Hq. rewrite lookup_with_dirs in Hq |- *. destruct (fs !! q) as [n|] eqn:Hn.
  - rewrite (wf_parent _ Hwf q); [done|by rewrite Hn].
  - case_decide as Hd; [|by destruct Hq].
    assert (parent q `prefix_of` p) as Hpre.
    { etrans; [|exact Hd]. destruct (snoc_inv q) as [->|(r & c & ->)]; [done|].
      rewrite parent_snoc. by exists [c]. }
    pose proof (Hc _ Hpre) as Hf. unfold is_file in Hf.
    destruct (fs !! parent q) as [[]|]; [done|done|]. by rewrite decide_True.
Qed.

Lemma no_file_existsb p fs : (∀ a, above a p → is_file a fs = false) →
  existsb (λ a, is_file a fs) (parents p) = false.
Proof.
  intros Hf. apply Bool.not_true_iff_false. rewrite existsb_exists.
  intros (a & Ha%list_elem_of_In%elem_of_parents & Hfa). by rewrite Hf in Hfa.
Qed.

Lemma walk_error_clear p fs : (∀ a, above a p → is_file a fs = false) → walk_error p fs = ENOENT.
Proof. intros Hf. unfold walk_error. by rewrite no_file_existsb. Qed.

Lemma clear_missing_or_dir p fs : clear p fs → fs !! p = Some HDir ∨ fs !! p = None.
Proof.
  intros Hc. specialize (Hc p (reflexivity p)). unfold is_file in Hc.
  destruct (fs !! p) as [[]|]; auto; done.
Qed.

Lemma clear_snoc p c fs : clear (p ++ [c]) fs → clear p fs.
Proof. intros Hc a Ha. apply Hc. etrans; [exact Ha|by exists [c]]. Qed.

Lemma exists_true p fs n : fs !! p = Some n → exists_ p fs = true.
Proof. intros Hp. apply exists_iff. eauto. Qed.
Lemma exists_false p fs : fs !! p = None → exists_ p fs = false.
Proof. intros Hp. apply Bool.not_true_iff_false. rewrite exists_iff, Hp. by intros [? ?]. Qed.
Lemma is_dir_true p fs : fs !! p = Some HDir → is_dir p fs = true.
Proof. apply is_dir_iff. Qed.
Lemma is_dir_false p fs : fs !! p ≠ Some HDir → is_dir p fs = false.
Proof. intros Hp. apply Bool.not_true_iff_false. by rewrite is_dir_iff. Qed.

Lemma os_mkdir_dir p exist_ok fs : fs !! p = Some HDir → exist_ok = true ∨ fs !! p = None →
  os_mkdir p fs = (fs, Err (OSError EEXIST)) ∧ forgiving exist_ok p EEXIST fs = (fs, Ok tt).
Proof.
  intros Hp [->|Hn]; [|congruence]. unfold os_mkdir, forgiving.
  by erewrite exists_true, is_dir_true.
Qed.

Lemma os_mkdir_missing p c fs : fs !! (p ++ [c]) = None → fs !! p = Some HDir →
  os_mkdir (p ++ [c]) fs = (<[p ++ [c] := HDir]> fs, Ok tt).
Proof.
  intros Hn Hp. unfold os_mkdir. by rewrite exists_false, parent_snoc, is_dir_true.
Qed.

Lemma mkdir_parents_clear p exist_ok fs : fs_wf fs → clear p fs →
  exist_ok = true ∨ fs !! p = None →
  mkdir_parents (rev p) exist_ok fs = (with_dirs p fs, Ok tt).
Proof.
  intros Hwf. revert exist_ok. induction p as [|c p IH] using rev_ind; intros exist_ok Hc Hex.
  { rewrite with_dirs_id by (done || apply Hwf). simpl.
    by destruct (os_mkdir_dir [] exist_ok fs) as [-> ->]; [apply Hwf| |]. }
  rewrite rev_app_distr. simpl. rewrite rev_involutive.
  destruct (clear_missing_or_dir _ _ Hc) as [Hd|Hn].
  { rewrite with_dirs_id by done.
    by destruct (os_mkdir_dir (p ++ [c]) exist_ok fs) as [-> ->]. }
  apply clear_snoc in Hc as Hc'. rewrite with_dirs_snoc by done.
  destruct (clear_missing_or_dir _ _ Hc') as [Hd|Hm].
  { rewrite (os_mkdir_missing p c) by done. by rewrite with_dirs_id. }
  assert (os_mkdir (p ++ [c]) fs = (fs, Err (OSError ENOENT))) as ->.
  { unfold os_mkdir. rewrite exists_false, parent_snoc, is_dir_false by (done || by rewrite Hm).
    rewrite walk_error_clear; [done|]. intros a [Ha _]. by apply Hc. }
  rewrite (IH true) by auto. unfold mkdir_one.
  rewrite (os_mkdir_missing p c); [done| |].
  - rewrite lookup_with_dirs, Hn, decide_False; [done|].
    intros [k Hk]. apply (f_equal length) in Hk.
    rewrite !length_app in Hk. simpl in Hk. lia.
  - rewrite lookup_with_dirs, Hm. by rewrite decide_True.
Qed.

(** * Checking a concrete file system *)

Definition fs_check (fs : HostFS) : bool :=
  is_dir [] fs && forallb (λ e, is_dir (parent e.1) fs) (map_to_list fs).

Lemma fs_check_ok fs : fs_check fs = true → fs_wf fs.
Proof.
  unfold fs_check. intros [H1 H2]%andb_prop. split; [by apply is_dir_iff|].
  intros p [n Hn]. rewrite forallb_forall in H2. apply elem_of_map_to_list, list_elem_of_In in Hn.
  by apply is_dir_iff, (H2 (p, n)).
Qed.
