(* ===== verification/FileServer.v ===== *)
(** The first, non-distributed server: [dfsha/server/filesystem.py], the operations
    on a directory of the host, and [dfsha/server/servicer.py], its RPCs.

    [root] is the directory the server exports, already resolved.  [uuid4] gives the
    name of a temporary file.  An upload reads a stream of messages that may break;
    a download sends its chunks and then ends.  The closed forms of the operations follow. *)

From S2P Require Import Prelude Exceptions Paths Crypto Bytes DataNode HostFs.

(** * [filesystem.py] *)

Record DirEntryData := mkEntry {
  d_name : string;
  d_is_dir : bool;
  d_size_bytes : Z
}.

Definition resolve_path (root : Path) (virtual_path : string) : result host_error Path :=
  let relative := lstrip slash virtual_path in
  let candidate := resolve_under root relative in
  if bool_decide (candidate ≠ root) && negb (in_parents root candidate)
  then Err (Exn InvalidPathError) else Ok candidate.

Definition _require_directory_parent (target : Path) : F unit := λ fs,
  if existsb (λ ancestor, exists_ ancestor fs && negb (is_dir ancestor fs)) (parents target)
  then raise (Exn NotADirectoryError) fs else (fs, Ok tt).

Definition entry_le (a b : string * inode) : Prop := String.le a.1 b.1.
Definition entry_data (child : string * inode) : DirEntryData :=
  let dir := bool_decide (child.2 = HDir) in
  mkEntry child.1 dir (if dir then 0 else size_of child.2).

Definition list_dir (root : Path) (virtual_path : string) : F (list DirEntryData) :=
  target ← lift (resolve_path root virtual_path);
  there ← gets (exists_ target);
  _ ← ensure there (Exn PathNotFoundError);
  dir ← gets (is_dir target);
  _ ← ensure dir (Exn NotADirectoryError);
  found ← gets (children target);
  mret (entry_data <$> merge_sort entry_le found).

Definition make_dir (root : Path) (virtual_path : string) : F unit :=
  target ← lift (resolve_path root virtual_path);
  _ ← _require_directory_parent target;
  there ← gets (exists_ target);
  _ ← ensure (negb there) (Exn PathExistsError);
  mkdir target false.

(** [try: target.rmdir() except OSError: raise NotEmptyError]. *)
Definition rmdir_or_not_empty (target : Path) : F unit := λ fs,
  match os_rmdir target fs with
  | (fs', Err (OSError _)) => raise (Exn NotEmptyError) fs'
  | r => r
  end.

Definition remove_dir (root : Path) (virtual_path : string) : F unit :=
  target ← lift (resolve_path root virtual_path);
  there ← gets (exists_ target);
  _ ← ensure there (Exn PathNotFoundError);
  dir ← gets (is_dir target);
  _ ← ensure dir (Exn NotADirectoryError);
  rmdir_or_not_empty target.

Definition remove_file (root : Path) (virtual_path : string) : F unit :=
  target ← lift (resolve_path root virtual_path);
  there ← gets (exists_ target);
  _ ← ensure there (Exn PathNotFoundError);
  file ← gets (is_file target);
  _ ← ensure file (Exn NotAFileError);
  os_unlink target.

(** The iterable of an upload: its chunks, and the exception it then raises. *)
Definition Chunks : Type := list (list Z) * option host_error.

(** The loop over [chunks], writing on the temporary file. *)
Fixpoint write_loop (tmp_path : Path) (chunks : list (list Z)) (broken : option host_error)
    (bytes_written : Z) : F Z :=
  match chunks with
  | [] => match broken with None => mret bytes_written | Some e => raise e end
  | chunk :: rest =>
      _ ← append_to tmp_path chunk;
      write_loop tmp_path rest broken (bytes_written + zlen chunk)%Z
  end.

Definition tmp_of (target : Path) (uuid4 : string) : Path :=
  parent target ++ [name target +:+ ".part-" +:+ uuid4].

Definition write_file_chunks (root : Path) (virtual_path : string) (chunks : Chunks) (uuid4 : string) : F Z :=
  target ← lift (resolve_path root virtual_path);
  top ← lift (resolve_path root "/");
  _ ← ensure (bool_decide (target ≠ top)) (Exn InvalidPathError);
  _ ← _require_directory_parent target;
  dir ← gets (is_dir target);
  _ ← ensure (negb dir) (Exn NotAFileError);
  _ ← mkdir (parent target) true;
  let tmp_path := tmp_of target uuid4 in
  cleaning_up
    (_ ← open_wb tmp_path;
     bytes_written ← write_loop tmp_path chunks.1 chunks.2 0%Z;
     _ ← os_replace tmp_path target;
     mret bytes_written)
    (unlink_missing_ok tmp_path).

(** The chunks the generator yields: the file stays open, so what is done to its
    path meanwhile does not show. *)
Definition read_file_chunks (root : Path) (virtual_path : string) (chunk_size : nat) : F (list (list Z)) :=
  target ← lift (resolve_path root virtual_path);
  there ← gets (exists_ target);
  _ ← ensure there (Exn PathNotFoundError);
  file ← gets (is_file target);
  _ ← ensure file (Exn NotAFileError);
  content ← gets (λ fs, match fs !! target with Some (HFile content) => content | _ => [] end);
  lift (of_option (Exn PyError) (read_loop (S (length content)) chunk_size content)).

(** * [servicer.py] *)

Definition CHUNK_SIZE_BYTES : nat := Z.to_nat 1048576.

Definition _ERROR_STATUS_MAP : list (exn * StatusCode) :=
  [(PathNotFoundError, NOT_FOUND); (PathExistsError, ALREADY_EXISTS); (NotEmptyError, FAILED_PRECONDITION);
   (InvalidPathError, PERMISSION_DENIED); (NotAFileError, INVALID_ARGUMENT); (NotADirectoryError, INVALID_ARGUMENT);
   (ConflictError, ABORTED); (AccessDeniedError, PERMISSION_DENIED); (AuthError, UNAUTHENTICATED)].

Definition status_code (e : exn) : StatusCode :=
  default UNKNOWN (list_find (λ p, p.1 = e) _ERROR_STATUS_MAP ≫= λ p, Some p.2.2).

Definition _abort_on_domain_error (e : exn) : RpcError :=
  mkRpcError (status_code e) [("dfsha-error", class_name e)].

(** A handler: an exception outside its [except] reaches the caller as [UNKNOWN]. *)
Notation RpcM := (M HostFS RpcError).
Definition catching {A} (es : list exn) (m : F A) : RpcM A := λ fs,
  match m fs with
  | (fs', Ok a) => (fs', Ok a)
  | (fs', Err (Exn e)) => (fs', Err (if decide (e ∈ es) then _abort_on_domain_error e else raised))
  | (fs', Err _) => (fs', Err raised)
  end.

(** A message of an upload: its [oneof]; what is not set reads as empty. *)
Inductive UploadChunk := UPath (path : string) | UData (data : list Z).
Definition path_field (m : UploadChunk) : string := match m with UPath p => p | UData _ => "" end.
Definition data_field (m : UploadChunk) : list Z := match m with UPath _ => [] | UData d => d end.

Section servicer.
Context (_root : Path).

Definition ListDir (path : string) : RpcM (list DirEntryData) :=
  catching [PathNotFoundError; NotADirectoryError; InvalidPathError] (list_dir _root path).
Definition MakeDir (path : string) : RpcM unit :=
  catching [PathExistsError; NotADirectoryError; InvalidPathError] (make_dir _root path).
Definition RemoveDir (path : string) : RpcM unit :=
  catching [PathNotFoundError; NotADirectoryError; NotEmptyError; InvalidPathError] (remove_dir _root path).
Definition Remove (path : string) : RpcM unit :=
  catching [PathNotFoundError; NotAFileError; InvalidPathError] (remove_file _root path).

(** [broken]: the error the stream of requests ends in, when it does not end normally. *)
Definition Upload (request_iterator : list UploadChunk) (broken : option RpcError) (uuid4 : string) : RpcM Z :=
  match request_iterator with
  | [] => raise raised
  | first :: rest =>
      catching [InvalidPathError; NotAFileError; NotADirectoryError]
        (write_file_chunks _root (path_field first)
           (data_field <$> rest, Grpc <$> broken) uuid4)
  end.

Definition Download (path : string) : RpcM (list (list Z)) :=
  catching [PathNotFoundError; NotAFileError; InvalidPathError]
    (read_file_chunks _root path CHUNK_SIZE_BYTES).
End servicer.

(** What each operation of the non-distributed server (FileServer.v) does to a
    well-formed host, in closed form. *)

Local Open Scope nat_scope.

(** * Resolution *)

Lemma resolve_path_inv root vp t : resolve_path root vp = Ok t →
  t = resolve_under root (lstrip slash vp) ∧ root `prefix_of` t.
Proof.
  unfold resolve_path. set (c := resolve_under _ _).
  destruct (bool_decide (c ≠ root)) eqn:Hr, (in_parents root c) eqn:Hp; simpl; intros [= <-].
  - split; [done|]. by apply in_parents_iff in Hp as [? _].
  - apply bool_decide_eq_false in Hr. apply dec_stable in Hr. split; [done|]. by rewrite <-Hr at 1.
  - apply bool_decide_eq_false in Hr. apply dec_stable in Hr. split; [done|]. by rewrite <-Hr at 1.
Qed.

Lemma resolve_path_err root vp e : resolve_path root vp = Err e → e = Exn InvalidPathError.
Proof. unfold resolve_path. destruct (_ && _); by intros [= <-]. Qed.

Lemma resolve_path_top root : resolve_path root "/" = Ok root.
Proof. unfold resolve_path. by rewrite bool_decide_false by (intros H; by apply H). Qed.

(** * Temporary files *)

Lemma append_ne (s t : string) : t ≠ "" → s +:+ t ≠ s.
Proof.
  intros Ht. induction s as [|a s IH]; [done|]. rewrite append_cons. intros [= H]. done.
Qed.

Lemma tmp_ne t uuid4 : t ≠ [] → tmp_of t uuid4 ≠ t.
Proof.
  intros Ht Heq. rewrite <-(parent_name t Ht) in Heq at 2. unfold tmp_of in Heq.
  apply app_inv_head in Heq. injection Heq as Hn. by eapply append_ne in Hn.
Qed.

Lemma tmp_parent t uuid4 : parent (tmp_of t uuid4) = parent t.
Proof. apply parent_snoc. Qed.

(** * The operations *)

(** A file stands on the way to [t]. *)
Definition blocked (t : Path) (fs : HostFS) : bool := existsb (λ a, is_file a fs) (parents t).

Lemma not_blocked_iff t fs : blocked t fs = false ↔ ∀ a, above a t → is_file a fs = false.
Proof.
  split; [|apply no_file_existsb]. intros Hb a Ha. apply Bool.not_true_iff_false. intros Hf.
  apply Bool.not_true_iff_false in Hb. apply Hb. apply existsb_exists. exists a.
  split; [by apply list_elem_of_In, elem_of_parents|done].
Qed.

Lemma require_parent_eq t fs :
  _require_directory_parent t fs = (fs, if blocked t fs then Err (Exn NotADirectoryError) else Ok tt).
Proof.
  unfold _require_directory_parent, blocked.
  replace (existsb (λ a, exists_ a fs && negb (is_dir a fs)) (parents t)) with (existsb (λ a, is_file a fs) (parents t)).
  - by destruct (existsb _ _).
  - induction (parents t) as [|a l IH]; simpl; [done|]. rewrite IH. f_equal.
    destruct (fs !! a) as [[|content]|] eqn:Ha; unfold is_file; rewrite Ha.
    + by rewrite (is_dir_true _ _ Ha), andb_false_r.
    + by erewrite exists_true, is_dir_false by (done || congruence).
    + by rewrite (exists_false _ _ Ha).
Qed.

Lemma not_blocked_clear t fs : blocked t fs = false → exists_ t fs = false → clear t fs.
Proof.
  intros Hb He a Ha. destruct (decide (a = t)) as [->|]; [|by eapply not_blocked_iff].
  apply Bool.not_true_iff_false. intros (c & Hc)%is_file_iff. by erewrite exists_true in He.
Qed.

Lemma not_blocked_parent t fs : blocked t fs = false → t ≠ [] → clear (parent t) fs.
Proof.
  intros Hb Ht a Ha. eapply not_blocked_iff; [done|].
  rewrite <-(parent_name t Ht). by apply above_snoc.
Qed.

Section operations.
Context (root : Path) (vp : string) (fs : HostFS) (t : Path).
Hypothesis (wf : fs_wf fs) (resolved : resolve_path root vp = Ok t).

Lemma list_dir_eq : list_dir root vp fs =
  (fs, match fs !! t with
       | None => Err (Exn PathNotFoundError)
       | Some (HFile _) => Err (Exn NotADirectoryError)
       | Some HDir => Ok (entry_data <$> merge_sort entry_le (children t fs))
       end).
Proof.
  unfold list_dir. rewrite resolved. unfold lift, gets, ensure, mbind, M_bind, mret, M_ret, raise.
  destruct (fs !! t) as [[|c]|] eqn:Ht.
  - by erewrite exists_true, is_dir_true.
  - by erewrite exists_true, is_dir_false by (done || congruence).
  - by rewrite exists_false.
Qed.

Lemma make_dir_eq : make_dir root vp fs =
  if blocked t fs then (fs, Err (Exn NotADirectoryError))
  else if exists_ t fs then (fs, Err (Exn PathExistsError))
  else (with_dirs t fs, Ok tt).
Proof.
  unfold make_dir. rewrite resolved. unfold lift, mbind, M_bind. rewrite require_parent_eq.
  destruct (blocked t fs) eqn:Hb; [done|]. unfold gets. destruct (exists_ t fs) eqn:He; [done|].
  simpl. unfold mret, M_ret, mkdir. apply mkdir_parents_clear; [done|by apply not_blocked_clear|].
  right. apply eq_None_not_Some. intros [n Hn]. by erewrite exists_true in He.
Qed.

Lemma remove_dir_eq : remove_dir root vp fs =
  match fs !! t with
  | None => (fs, Err (Exn PathNotFoundError))
  | Some (HFile _) => (fs, Err (Exn NotADirectoryError))
  | Some HDir =>
      if decide (t ≠ [] ∧ children t fs = []) then (delete t fs, Ok tt)
      else (fs, Err (Exn NotEmptyError))
  end.
Proof.
  unfold remove_dir. rewrite resolved. unfold lift, gets, ensure, mbind, M_bind, mret, M_ret, raise.
  destruct (fs !! t) as [[|c]|] eqn:Ht.
  - erewrite exists_true, is_dir_true by done. unfold rmdir_or_not_empty, os_rmdir. rewrite Ht.
    destruct (decide (t = [])) as [->|Hne]; [by rewrite decide_False by naive_solver|].
    case_bool_decide; [by rewrite decide_True|by rewrite decide_False by naive_solver].
  - by erewrite exists_true, is_dir_false by (done || congruence).
  - by rewrite exists_false.
Qed.

Lemma remove_file_eq : remove_file root vp fs =
  match fs !! t with
  | None => (fs, Err (Exn PathNotFoundError))
  | Some HDir => (fs, Err (Exn NotAFileError))
  | Some (HFile _) => (delete t fs, Ok tt)
  end.
Proof.
  unfold remove_file. rewrite resolved. unfold lift, gets, ensure, mbind, M_bind, mret, M_ret, raise.
  destruct (fs !! t) as [[|c]|] eqn:Ht.
  - erewrite exists_true by done. unfold is_file. by rewrite Ht.
  - erewrite exists_true by done. unfold is_file at 1. rewrite Ht. unfold os_unlink. by rewrite Ht.
  - by rewrite exists_false.
Qed.
End operations.

(** * Contents *)

Lemma write_loop_eq tmp chunks broken n fs c : fs !! tmp = Some (HFile c) →
  write_loop tmp chunks broken n fs =
    (<[tmp := HFile (c ++ concat chunks)]> fs,
     match broken with None => Ok (n + zlen (concat chunks))%Z | Some e => Err e end).
Proof.
  revert n fs c. induction chunks as [|d chunks IH]; intros n fs c Hc.
  - simpl. rewrite app_nil_r, insert_id by done. unfold zlen. simpl.
    destruct broken; [done|]. by rewrite Z.add_0_r.
  - simpl. unfold mbind at 1, M_bind at 1, append_to. rewrite Hc. simpl.
    rewrite (IH _ _ (c ++ d)) by apply lookup_insert_eq.
    rewrite insert_insert_eq, app_assoc. rewrite zlen_app. f_equal.
    destruct broken; [done|]. f_equal. lia.
Qed.

Lemma write_chunks_result tmp t chunks fs : is_dir tmp fs = false → is_dir t fs = false →
  fs !! parent t = Some HDir → parent tmp = parent t → tmp ≠ t → parent t ≠ tmp → ∀ broken,
  (_ ← open_wb tmp; n ← write_loop tmp chunks broken 0%Z; _ ← os_replace tmp t; mret n) fs =
    match broken with
    | None => (<[t := HFile (concat chunks)]> (delete tmp fs), Ok (zlen (concat chunks)))
    | Some e => (<[tmp := HFile (concat chunks)]> fs, Err e)
    end.
Proof.
  intros Htmp Ht Hp Hpar Hne Hpt broken.
  assert (open_wb tmp fs = (<[tmp := HFile []]> fs, Ok tt)) as Hopen.
  { unfold open_wb. destruct (fs !! tmp) as [[|]|] eqn:Hl; [|done|].
    - by rewrite (is_dir_true _ _ Hl) in Htmp.
    - by rewrite Hpar, is_dir_true. }
  unfold mbind at 1, M_bind at 1. rewrite Hopen.
  unfold mbind at 1, M_bind at 1. erewrite write_loop_eq by apply lookup_insert_eq. simpl.
  rewrite insert_insert_eq. destruct broken as [e|]; [done|].
  unfold mbind, M_bind, os_replace. rewrite lookup_insert_eq, lookup_insert_ne by done.
  rewrite delete_insert_eq. destruct (fs !! t) as [[|]|] eqn:Hl; [|done|].
  - by rewrite (is_dir_true _ _ Hl) in Ht.
  - rewrite is_dir_true; [done|]. by rewrite lookup_insert_ne.
Qed.

(** An upload: what it does when nothing is in its way. *)
Lemma write_file_chunks_eq root vp fs t chunks broken uuid4 :
  fs_wf fs → resolve_path root vp = Ok t →
  let fs1 := with_dirs (parent t) fs in
  let tmp := tmp_of t uuid4 in
  write_file_chunks root vp (chunks, broken) uuid4 fs =
    if bool_decide (t = root) then (fs, Err (Exn InvalidPathError))
    else if blocked t fs then (fs, Err (Exn NotADirectoryError))
    else if is_dir t fs then (fs, Err (Exn NotAFileError))
    else if is_dir tmp fs1 then (fs1, Err (OSError EISDIR))
    else match broken with
         | None => (<[t := HFile (concat chunks)]> (delete tmp fs1), Ok (zlen (concat chunks)))
         | Some e => (delete tmp fs1, Err e)
         end.
Proof.
  intros Hwf Hr fs1 tmp. unfold write_file_chunks. rewrite Hr, resolve_path_top.
  unfold lift, mbind at 1, M_bind at 1, mbind at 1, M_bind at 1. unfold ensure.
  destruct (decide (t = root)) as [->|Hne].
  { rewrite bool_decide_false by naive_solver. by rewrite bool_decide_true. }
  rewrite bool_decide_true, bool_decide_false by done.
  unfold mbind at 1, M_bind at 1, mret at 1, M_ret at 1. unfold mbind at 1, M_bind at 1. rewrite require_parent_eq.
  destruct (blocked t fs) eqn:Hb; [done|].
  unfold mbind at 1, M_bind at 1, gets at 1. destruct (is_dir t fs) eqn:Hd; [done|]. simpl negb. cbv iota.
  unfold mbind at 1, M_bind at 1, mret at 1, M_ret at 1.
  apply resolve_path_inv in Hr as [_ Hpre].
  assert (t ≠ []) as Ht. { intros ->. apply prefix_nil_inv in Hpre. done. }
  assert (clear (parent t) fs) as Hc by by apply not_blocked_parent.
  unfold mbind at 1, M_bind at 1, mkdir. rewrite mkdir_parents_clear by auto. fold fs1.
  assert (fs1 !! parent t = Some HDir) as Hp.
  { unfold fs1. rewrite lookup_with_dirs. destruct (clear_missing_or_dir _ _ Hc) as [->| ->]; [done|].
    by rewrite decide_True. }
  assert (is_dir t fs1 = false) as Hd1.
  { apply is_dir_false. unfold fs1. rewrite lookup_with_dirs.
    destruct (fs !! t) as [[|]|] eqn:Hl; [by rewrite (is_dir_true _ _ Hl) in Hd|done|].
    rewrite decide_False; [done|]. intros Hpt. apply above_parent in Ht as [Hle Hn].
    apply Hn. by apply (anti_symm prefix). }
  assert (parent t ≠ tmp) as Hpt.
  { intros Heq. unfold tmp, tmp_of in Heq. apply (f_equal length) in Heq. rewrite length_app in Heq. simpl in Heq. lia. }
  unfold cleaning_up. fold tmp. destruct (is_dir tmp fs1) eqn:Htd.
  - apply is_dir_iff in Htd. unfold mbind, M_bind, open_wb, unlink_missing_ok, os_unlink. rewrite Htd. simpl.
    by rewrite Htd.
  - simpl. rewrite (write_chunks_result tmp t) by (done || apply tmp_parent || by apply tmp_ne).
    destruct broken as [e|]; [|done].
    unfold unlink_missing_ok, os_unlink. rewrite lookup_insert_eq. simpl.
    by rewrite delete_insert_eq.
Qed.

Lemma read_loop_concat fuel chunk_size l : 0 < chunk_size → length l < fuel →
  ∃ chunks, read_loop fuel chunk_size l = Some chunks ∧ concat chunks = l
    ∧ Forall (λ c, c ≠ [] ∧ length c ≤ chunk_size) chunks.
Proof.
  intros Hs. revert l. induction fuel as [|fuel IH]; intros l Hl; [lia|]. simpl.
  destruct (take chunk_size l) as [|x d] eqn:Ht.
  - exists []. split_and!; [done| |done]. destruct l; [done|]. destruct chunk_size; [lia|done].
  - destruct (IH (drop chunk_size l)) as (cs & -> & Hc & Hall).
    { rewrite length_drop. destruct l; [by rewrite take_nil in Ht|]. simpl in *. lia. }
    exists ((x :: d) :: cs). split_and!; [done| |].
    + simpl. rewrite Hc, app_comm_cons, <-Ht. apply take_drop.
    + constructor; [|done]. split; [done|]. rewrite <-Ht, length_take. lia.
Qed.

Lemma chunk_size_pos : 0 < FileServer.CHUNK_SIZE_BYTES.
Proof. unfold FileServer.CHUNK_SIZE_BYTES. lia. Qed.

Definition chunks_of (chunk_size : nat) (content : list Z) : list (list Z) :=
  default [] (read_loop (S (length content)) chunk_size content).

Lemma chunks_of_concat chunk_size content : 0 < chunk_size → concat (chunks_of chunk_size content) = content.
Proof.
  intros Hs. unfold chunks_of.
  destruct (read_loop_concat (S (length content)) chunk_size content) as (cs & -> & Hc & _); [done|lia|done].
Qed.

Lemma read_file_chunks_eq root vp fs t chunk_size : resolve_path root vp = Ok t → 0 < chunk_size →
  read_file_chunks root vp chunk_size fs =
  (fs, match fs !! t with
       | None => Err (Exn PathNotFoundError)
       | Some HDir => Err (Exn NotAFileError)
       | Some (HFile content) => Ok (chunks_of chunk_size content)
       end).
Proof.
  intros Hr Hs. unfold read_file_chunks. rewrite Hr. unfold lift, gets, ensure, mbind, M_bind, mret, M_ret, raise.
  destruct (fs !! t) as [[|c]|] eqn:Ht.
  - erewrite exists_true by done. unfold is_file. by rewrite Ht.
  - erewrite exists_true by done. unfold is_file at 1. rewrite Ht. cbv beta iota.
    unfold of_option, chunks_of. rewrite Ht.
    by destruct (read_loop_concat (S (length c)) chunk_size c) as (cs & -> & _ & _); [done|lia|].
  - by rewrite exists_false.
Qed.
