(* ===== verification/FileClient.v ===== *)
(** The client of the non-distributed server: [DFShaClient]
    (dfsha/client/dfsha_client.py).

    Its state is the pair of the two hosts, the server's and its own.  Each call says
    how the network treats it: [Delivered], [Refused] before the server sees it or
    [Lost] once the server is done; a stream may also be [cut] after some messages.
    A local path is the resolved path of the file on the client's host. *)

From S2P Require Import Prelude Exceptions Paths Crypto Bytes DataNode HostFs FileServer.

Definition _STATUS_ERROR_MAP : list (StatusCode * exn) :=
  [(NOT_FOUND, PathNotFoundError); (ALREADY_EXISTS, PathExistsError); (FAILED_PRECONDITION, NotEmptyError);
   (PERMISSION_DENIED, InvalidPathError); (INVALID_ARGUMENT, NotAFileError)].

Definition _translate (rpc_error : RpcError) : exn :=
  default DFShaError (list_find (λ p, p.1 = rpc_code rpc_error) _STATUS_ERROR_MAP ≫= λ p, Some p.2.2).

Record Hosts := mkHosts {
  server : HostFS;
  local : HostFS
}.

Notation D := (M Hosts host_error).

Inductive link := Whole (h : hop) | Cut (messages : nat) (code : StatusCode).

(** [try: call except grpc.RpcError: raise _translate(exc)]. *)
Definition rpc_call {A} (h : hop) (handler : RpcM A) : D A := λ w,
  match h with
  | Refused code => (w, Err (Exn (_translate (aborted code))))
  | Lost code => (mkHosts (handler (server w)).1 (local w), Err (Exn (_translate (aborted code))))
  | Delivered =>
      match handler (server w) with
      | (fs, Ok a) => (mkHosts fs (local w), Ok a)
      | (fs, Err e) => (mkHosts fs (local w), Err (Exn (_translate e)))
      end
  end.

Section client.
Context (_root : Path).

Definition list_dir (h : hop) (path : string) : D (list DirEntryData) := rpc_call h (ListDir _root path).
Definition make_dir (h : hop) (path : string) : D unit := rpc_call h (MakeDir _root path).
Definition remove_dir (h : hop) (path : string) : D unit := rpc_call h (RemoveDir _root path).
Definition remove (h : hop) (path : string) : D unit := rpc_call h (Remove _root path).

(** [request_iterator]: the path, then the local file in chunks. *)
Definition request_iterator (content : list Z) (remote_path : string) : list UploadChunk :=
  UPath remote_path :: (UData <$> default [] (read_loop (S (length content)) CHUNK_SIZE_BYTES content)).

Definition upload_rpc (l : link) (messages : list UploadChunk) (uuid4 : string) : D Z :=
  match l with
  | Whole h => rpc_call h (Upload _root messages None uuid4)
  | Cut n code => rpc_call (Lost code) (Upload _root (take n messages) (Some (aborted code)) uuid4)
  end.

Definition upload (l : link) (local_path : Path) (remote_path : string) (uuid4 : string) : D Z := λ w,
  match local w !! local_path with
  | Some (HFile content) => upload_rpc l (request_iterator content remote_path) uuid4 w
  | _ => raise (Exn NotAFileError) w
  end.

(** What the client receives of the stream of a download: its chunks, and the
    [grpc.RpcError] that ends it. *)
Definition download_stream (l : link) (remote_path : string) (fs : HostFS) : list (list Z) * option RpcError :=
  match l, (Download _root remote_path fs).2 with
  | Whole (Refused code), _ | Whole (Lost code), _ => ([], Some (aborted code))
  | Whole Delivered, Ok chunks => (chunks, None)
  | Whole Delivered, Err e => ([], Some e)
  | Cut n code, Ok chunks => (take n chunks, Some (aborted code))
  | Cut _ code, Err e => ([], Some e)
  end.

(** [except grpc.RpcError: tmp_path.unlink(missing_ok=True); raise _translate(exc)]. *)
Definition discarding {A} (tmp_path : Path) (m : F A) : F A := λ fs,
  match m fs with
  | (fs', Err (Grpc e)) =>
      match unlink_missing_ok tmp_path fs' with
      | (fs'', Ok _) => (fs'', Err (Exn (_translate e)))
      | (fs'', Err e') => (fs'', Err e')
      end
  | r => r
  end.

Definition download (l : link) (remote_path : string) (local_path : Path) (uuid4 : string) : D Z := λ w,
  let stream := download_stream l remote_path (server w) in
  let tmp_path := tmp_of local_path uuid4 in
  let out := discarding tmp_path
    (_ ← open_wb tmp_path;
     bytes_written ← write_loop tmp_path stream.1 (Grpc <$> stream.2) 0%Z;
     _ ← os_replace tmp_path local_path;
     mret bytes_written) (local w) in
  (mkHosts (server w) out.1, out.2).
End client.
