(* ===== verification/FileServerProps.v ===== *)
(** Properties of the non-distributed server and its client: calls stay inside the
    exported directory, failures are domain errors, and what is uploaded is what is
    downloaded until somebody touches that very path. *)

From S2P Require Import Prelude Exceptions Paths Crypto Bytes DataNode HostFs FileServer.

Local Open Scope nat_scope.
#[local] Opaque FileServer.CHUNK_SIZE_BYTES.

(** * Calls *)

Inductive fs_call :=
| CListDir (path : string)
| CMakeDir (path : string)
| CRemoveDir (path : string)
| CRemove (path : string)
| CUpload (messages : list UploadChunk) (broken : option RpcError) (uuid4 : string)
| CDownload (path : string).

Inductive fs_answer := AEntries (entries : list DirEntryData) | ADone | AWritten (n : Z) | AChunks (chunks : list (list Z)).

Definition answering {A} (f : A → fs_answer) (m : RpcM A) : RpcM fs_answer := a ← m; mret (f a).

Definition serve (root : Path) (c : fs_call) : RpcM fs_answer :=
  match c with
  | CListDir path => answering AEntries (ListDir root path)
  | CMakeDir path => answering (λ _, ADone) (MakeDir root path)
  | CRemoveDir path => answering (λ _, ADone) (RemoveDir root path)
  | CRemove path => answering (λ _, ADone) (Remove root path)
  | CUpload messages broken uuid4 => answering AWritten (Upload root messages broken uuid4)
  | CDownload path => answering AChunks (Download root path)
  end.

Definition serve_all (root : Path) (calls : list fs_call) (fs : HostFS) : HostFS :=
  foldl (λ fs c, (serve root c fs).1) fs calls.

(** * The sandbox *)

(** The host is well formed and the directory above the exported one is there. *)
Definition anchored (root : Path) (fs : HostFS) : Prop := fs_wf fs ∧ fs !! parent root = Some HDir.

(** Nothing outside [root] changes. *)
Definition confined (root : Path) : relation HostFS := λ fs fs',
  anchored root fs → anchored root fs' ∧ ∀ p, ¬ root `prefix_of` p → fs' !! p = fs !! p.

#[global] Instance confined_preorder root : PreOrder (confined root).
Proof.
  split; [by intros fs|]. intros f g h Hfg Hgh Hf. destruct (Hfg Hf) as [Hg H1].
  destruct (Hgh Hg) as [Hh H2]. split; [done|]. intros p Hp. by rewrite H2, H1.
Qed.

Lemma confined_refl root fs : confined root fs fs.
Proof. reflexivity. Qed.
#[local] Hint Resolve confined_refl : core.

Lemma confined_of root fs fs' : (anchored root fs → fs_wf fs') →
  (∀ p, ¬ root `prefix_of` p → anchored root fs → fs' !! p = fs !! p) → confined root fs fs'.
Proof.
  intros Hwf Hout Ha. split; [|auto]. split; [auto|].
  destruct (decide (root = [])) as [->|Hr]; [by apply Hwf|].
  rewrite Hout; [by apply Ha| |done]. intros Hp. apply above_parent in Hr as [Hq Hn].
  apply Hn. by apply (anti_symm prefix).
Qed.

Lemma confined_with_dirs root t fs : root `prefix_of` t → clear t fs → confined root fs (with_dirs t fs).
Proof.
  intros Hpre Hc. apply confined_of; [intros [Hwf _]; by apply with_dirs_wf|].
  intros p Hp [Hwf Hroot]. rewrite lookup_with_dirs. destruct (fs !! p) eqn:Hl; [done|].
  rewrite decide_False; [done|]. intros Hpt.
  destruct (prefix_weak_total p root t Hpt Hpre) as [Hpr|]; [|done].
  assert (p ≠ root) as Hne by (by intros ->).
  assert (fs !! p = Some HDir) as Hd; [|congruence].
  destruct (decide (p = parent root)) as [->|]; [done|]. eapply wf_above; [done|by rewrite Hroot|].
  split; [by apply prefix_parent|done].
Qed.

Lemma confined_delete root p fs : root `prefix_of` p → (fs_wf fs → fs_wf (delete p fs)) → confined root fs (delete p fs).
Proof.
  intros Hpre Hwf. apply confined_of; [intros [? _]; auto|]. intros q Hq _.
  rewrite lookup_delete_ne; [done|]. by intros ->.
Qed.

Lemma confined_delete_nondir root p fs : root `prefix_of` p → is_dir p fs = false → confined root fs (delete p fs).
Proof.
  intros Hpre Hd. apply confined_delete; [done|]. intros Hwf.
  destruct (fs !! p) as [[|c]|] eqn:Hl; [by rewrite (is_dir_true _ _ Hl) in Hd| |].
  - apply wf_delete_file; [done|]. apply is_file_iff. eauto.
  - by rewrite delete_id.
Qed.

Lemma confined_insert root p c fs : root `prefix_of` p → p ≠ [] → is_dir p fs = false →
  fs !! parent p = Some HDir → confined root fs (<[p := HFile c]> fs).
Proof.
  intros Hpre Hne Hd Hpar. apply confined_of.
  - intros [Hwf _]. apply wf_insert; [done|done|]. right. split; [done|]. intros Hl.
    by rewrite (is_dir_true _ _ Hl) in Hd.
  - intros q Hq _. rewrite lookup_insert_ne; [done|]. by intros ->.
Qed.

Lemma moves_catching (root : Path) {A} (es : list exn) (m : F A) : moves (confined root) m → moves (confined root) (catching es m).
Proof.
  intros Hm fs. specialize (Hm fs). unfold catching. destruct (m fs) as [fs' [a|[e|e|e]]]; done.
Qed.
Lemma moves_answering (root : Path) {A} (f : A → fs_answer) (m : RpcM A) :
  moves (confined root) m → moves (confined root) (answering f m).
Proof.
  intros Hm. unfold answering. apply moves_bind; [apply _|done|]. intros a. apply moves_ret, _.
Qed.

(** [confined] looks only at well-formed hosts. *)
Lemma moves_anchored (root : Path) {A} (m : F A) : (∀ fs, fs_wf fs → confined root fs (m fs).1) → moves (confined root) m.
Proof. intros H fs Ha. exact (H fs (proj1 Ha) Ha). Qed.

Lemma moves_list_dir root vp : moves (confined root) (list_dir root vp).
Proof.
  apply moves_anchored. intros fs Hwf. destruct (resolve_path root vp) as [t|e] eqn:Hr.
  - by rewrite (list_dir_eq _ _ _ _ Hr).
  - unfold list_dir. rewrite Hr. done.
Qed.

Lemma moves_make_dir root vp : moves (confined root) (make_dir root vp).
Proof.
  apply moves_anchored. intros fs Hwf. destruct (resolve_path root vp) as [t|e] eqn:Hr.
  - rewrite (make_dir_eq _ _ _ _ Hwf Hr). apply resolve_path_inv in Hr as [_ Hpre].
    destruct (blocked t fs) eqn:Hb; [done|]. destruct (exists_ t fs) eqn:He; [done|].
    apply confined_with_dirs; [done|by apply not_blocked_clear].
  - unfold make_dir. by rewrite Hr.
Qed.

Lemma moves_remove_dir root vp : moves (confined root) (remove_dir root vp).
Proof.
  apply moves_anchored. intros fs Hwf. destruct (resolve_path root vp) as [t|e] eqn:Hr.
  - rewrite (remove_dir_eq _ _ _ _ Hr). apply resolve_path_inv in Hr as [_ Hpre].
    destruct (fs !! t) as [[|]|]; [|done|done]. case_decide as Hd; [|done]. destruct Hd.
    apply confined_delete; [done|]. intros _. by apply wf_delete_empty.
  - unfold remove_dir. by rewrite Hr.
Qed.

Lemma moves_remove_file root vp : moves (confined root) (remove_file root vp).
Proof.
  apply moves_anchored. intros fs Hwf. destruct (resolve_path root vp) as [t|e] eqn:Hr.
  - rewrite (remove_file_eq _ _ _ _ Hr). apply resolve_path_inv in Hr as [_ Hpre].
    destruct (fs !! t) as [[|c]|] eqn:Hl; [done| |done].
    apply confined_delete_nondir; [done|]. apply is_dir_false. by rewrite Hl.
  - unfold remove_file. by rewrite Hr.
Qed.

(** What is known of the place of an upload that starts. *)
Record placed (root t : Path) (uuid4 : string) (fs : HostFS) : Prop := {
  pl_below : above root t;
  pl_clear : clear (parent t) fs;
  pl_dir : with_dirs (parent t) fs !! parent t = Some HDir;
  pl_target : is_dir t (with_dirs (parent t) fs) = false;
  pl_root : root `prefix_of` parent t
}.

Lemma upload_placed root vp t uuid4 fs : resolve_path root vp = Ok t → t ≠ root →
  blocked t fs = false → is_dir t fs = false → placed root t uuid4 fs.
Proof.
  intros Hr Hne Hb Hd. apply resolve_path_inv in Hr as [_ Hpre].
  assert (t ≠ []) as Ht. { intros ->. by apply prefix_nil_inv in Hpre. }
  assert (clear (parent t) fs) as Hc by by apply not_blocked_parent.
  pose proof (above_parent t Ht) as [Hle Hn].
  split; [done|done| | |by apply prefix_parent].
  - rewrite lookup_with_dirs. destruct (clear_missing_or_dir _ _ Hc) as [->| ->]; [done|]. by rewrite decide_True.
  - apply is_dir_false. rewrite lookup_with_dirs.
    destruct (fs !! t) as [[|]|] eqn:Hl; [by rewrite (is_dir_true _ _ Hl) in Hd|done|].
    rewrite decide_False; [done|]. intros Hpt. apply Hn. by apply (anti_symm prefix).
Qed.

Lemma moves_write_file_chunks root vp chunks uuid4 : moves (confined root) (write_file_chunks root vp chunks uuid4).
Proof.
  apply moves_anchored. intros fs Hwf. destruct chunks as [cs broken].
  destruct (resolve_path root vp) as [t|e] eqn:Hr; [|unfold write_file_chunks; by rewrite Hr].
  rewrite (write_file_chunks_eq _ _ _ _ _ _ _ Hwf Hr). case_bool_decide as Hne; [done|].
  destruct (blocked t fs) eqn:Hb; [done|]. destruct (is_dir t fs) eqn:Hd; [done|].
  destruct (upload_placed _ _ _ uuid4 _ Hr Hne Hb Hd) as [[Hpre _] Hc Hp Ht Hroot].
  set (fs1 := with_dirs (parent t) fs) in *.
  assert (confined root fs fs1) as H1 by by apply confined_with_dirs.
  destruct (is_dir (tmp_of t uuid4) fs1) eqn:Htd; [done|].
  assert (confined root fs1 (delete (tmp_of t uuid4) fs1)) as H2.
  { apply confined_delete_nondir; [|done]. unfold tmp_of. by apply prefix_app_r. }
  destruct broken as [e|]; simpl; [by etrans|]. etrans; [exact H1|]. etrans; [exact H2|].
  assert (t ≠ []) as Hnil. { intros ->. apply prefix_nil_inv in Hpre. by subst. }
  apply confined_insert; [done|done| |].
  - apply is_dir_false. rewrite lookup_delete_ne by (by apply tmp_ne). intros Hl.
    by rewrite (is_dir_true _ _ Hl) in Ht.
  - rewrite lookup_delete_ne; [done|]. intros Heq. unfold tmp_of in Heq.
    apply (f_equal length) in Heq. rewrite length_app in Heq. simpl in Heq. lia.
Qed.

Lemma moves_read_file_chunks root vp n : moves (confined root) (read_file_chunks root vp n).
Proof.
  unfold read_file_chunks.
  repeat (apply moves_bind; [apply _| |intros ?]); auto with dfs typeclass_instances.
Qed.

Lemma serve_confined root c : moves (confined root) (serve root c).
Proof.
  destruct c; simpl; apply moves_answering; try apply moves_catching.
  - apply moves_list_dir.
  - apply moves_make_dir.
  - apply moves_remove_dir.
  - apply moves_remove_file.
  - unfold Upload. destruct messages; [apply moves_raise, _|]. apply moves_catching, moves_write_file_chunks.
  - apply moves_read_file_chunks.
Qed.

Lemma serve_all_confined root calls fs : confined root fs (serve_all root calls fs).
Proof.
  revert fs. induction calls as [|c calls IH]; intros fs; [done|].
  simpl. etrans; [apply (serve_confined root c)|apply IH].
Qed.

(** C27. Whatever the clients of the server ask, with whatever paths, nothing outside the
    exported directory changes, and the host stays well formed. *)
Theorem calls_stay_inside root calls fs : fs_wf fs → fs !! parent root = Some HDir →
  let fs' := serve_all root calls fs in
  fs_wf fs' ∧ ∀ p, ¬ root `prefix_of` p → fs' !! p = fs !! p.
Proof.
  intros Hwf Hp fs'. by destruct (serve_all_confined root calls fs (conj Hwf Hp)) as [[? _] ?].
Qed.

(** * Failures *)

(** The operation of [filesystem.py] behind a call. *)
Definition operation (root : Path) (c : fs_call) : F fs_answer :=
  match c with
  | CListDir path => a ← list_dir root path; mret (AEntries a)
  | CMakeDir path => _ ← make_dir root path; mret ADone
  | CRemoveDir path => _ ← remove_dir root path; mret ADone
  | CRemove path => _ ← remove_file root path; mret ADone
  | CUpload messages broken uuid4 =>
      match messages with
      | [] => raise (Exn PyError)
      | first :: rest =>
          n ← write_file_chunks root (path_field first) (data_field <$> rest, Grpc <$> broken) uuid4;
          mret (AWritten n)
      end
  | CDownload path => a ← read_file_chunks root path CHUNK_SIZE_BYTES; mret (AChunks a)
  end.

(** An upload that sends its path, reaches its end, and gets a temporary name that
    no directory has. *)
Definition well_sent (root : Path) (fs : HostFS) (c : fs_call) : Prop :=
  match c with
  | CUpload messages broken uuid4 =>
      broken = None ∧ messages ≠ [] ∧
      ∀ first rest t, messages = first :: rest → resolve_path root (path_field first) = Ok t →
        fs !! tmp_of t uuid4 ≠ Some HDir
  | _ => True
  end.

Lemma tmp_is_dir t uuid4 fs : is_dir (tmp_of t uuid4) (with_dirs (parent t) fs) = is_dir (tmp_of t uuid4) fs.
Proof.
  apply Bool.eq_iff_eq_true. rewrite !is_dir_iff, lookup_with_dirs.
  destruct (fs !! tmp_of t uuid4); [done|]. rewrite decide_False; [done|].
  intros [k Hk]. apply (f_equal length) in Hk. unfold tmp_of in Hk. rewrite !length_app in Hk. simpl in Hk. lia.
Qed.

(** The errors of an operation: what its handler catches, on the host as it was. *)
Definition raises_only (es : list exn) {A} (m : F A) (fs : HostFS) : Prop :=
  ∀ fs' e, m fs = (fs', Err e) → fs' = fs ∧ ∃ x, e = Exn x ∧ x ∈ es.

Section errors.
Context (root : Path) (fs : HostFS) (wf : fs_wf fs).

Lemma raises_resolved {A} (es : list exn) (m : F A) vp : InvalidPathError ∈ es →
  (∀ e, resolve_path root vp = Err e → m fs = (fs, Err e)) →
  (∀ t, resolve_path root vp = Ok t → raises_only es m fs) → raises_only es m fs.
Proof.
  intros Hin He H. destruct (resolve_path root vp) as [t|e] eqn:Hr; [by eapply H|].
  intros fs' e'. rewrite (He e) by done. intros [= <- <-]. split; [done|].
  apply resolve_path_err in Hr as ->. eauto.
Qed.

Lemma raises_list_dir vp : raises_only [PathNotFoundError; NotADirectoryError; InvalidPathError] (list_dir root vp) fs.
Proof.
  apply raises_resolved with vp; [set_solver|intros e Hr; unfold list_dir; by rewrite Hr|]. intros t Hr fs' e H.
  rewrite (list_dir_eq _ _ _ _ Hr) in H. destruct (fs !! t) as [[]|]; simplify_eq; set_solver.
Qed.

Lemma raises_make_dir vp : raises_only [PathExistsError; NotADirectoryError; InvalidPathError] (make_dir root vp) fs.
Proof.
  apply raises_resolved with vp; [set_solver|intros e Hr; unfold make_dir; by rewrite Hr|]. intros t Hr fs' e H.
  rewrite (make_dir_eq _ _ _ _ wf Hr) in H.
  destruct (blocked t fs), (exists_ t fs); simplify_eq; set_solver.
Qed.

Lemma raises_remove_dir vp :
  raises_only [PathNotFoundError; NotADirectoryError; NotEmptyError; InvalidPathError] (remove_dir root vp) fs.
Proof.
  apply raises_resolved with vp; [set_solver|intros e Hr; unfold remove_dir; by rewrite Hr|]. intros t Hr fs' e H.
  rewrite (remove_dir_eq _ _ _ _ Hr) in H.
  destruct (fs !! t) as [[]|]; [case_decide|..]; simplify_eq; set_solver.
Qed.

Lemma raises_remove_file vp : raises_only [PathNotFoundError; NotAFileError; InvalidPathError] (remove_file root vp) fs.
Proof.
  apply raises_resolved with vp; [set_solver|intros e Hr; unfold remove_file; by rewrite Hr|]. intros t Hr fs' e H.
  rewrite (remove_file_eq _ _ _ _ Hr) in H. destruct (fs !! t) as [[]|]; simplify_eq; set_solver.
Qed.

Lemma raises_read vp :
  raises_only [PathNotFoundError; NotAFileError; InvalidPathError] (read_file_chunks root vp CHUNK_SIZE_BYTES) fs.
Proof.
  apply raises_resolved with vp; [set_solver|intros e Hr; unfold read_file_chunks; by rewrite Hr|].
  intros t Hr fs' e H.
  rewrite (read_file_chunks_eq _ _ _ _ _ Hr) in H by apply chunk_size_pos.
  destruct (fs !! t) as [[]|]; simplify_eq; set_solver.
Qed.

Lemma raises_write vp chunks uuid4 :
  (∀ t, resolve_path root vp = Ok t → fs !! tmp_of t uuid4 ≠ Some HDir) →
  raises_only [InvalidPathError; NotAFileError; NotADirectoryError]
    (write_file_chunks root vp (chunks, None) uuid4) fs.
Proof.
  intros Htmp. apply raises_resolved with vp; [set_solver|intros e Hr; unfold write_file_chunks; by rewrite Hr|].
  intros t Hr fs' e H.
  rewrite (write_file_chunks_eq _ _ _ _ _ _ _ wf Hr) in H.
  rewrite tmp_is_dir, (is_dir_false _ _ (Htmp _ Hr)) in H.
  destruct (bool_decide _), (blocked t fs), (is_dir t fs); simplify_eq; set_solver.
Qed.
End errors.

(** The outcome of an operation as its caller sees it. *)
Definition reported {A} (out : HostFS * result host_error A) : HostFS * result RpcError A :=
  (out.1, match out.2 with
          | Ok a => Ok a
          | Err (Exn x) => Err (_abort_on_domain_error x)
          | Err _ => Err raised
          end).

(** The errors the operations raise. *)
Definition served_errors : list exn :=
  [PathNotFoundError; PathExistsError; NotEmptyError; InvalidPathError; NotAFileError; NotADirectoryError].

Lemma raises_only_bind {A B} (es : list exn) (m : F A) (f : A → B) fs :
  raises_only es m fs → raises_only es (a ← m; mret (f a)) fs.
Proof.
  intros Hm fs' e. unfold mbind, M_bind. destruct (m fs) as [fs1 [a|e1]] eqn:H; [done|].
  intros [= <- <-]. by eapply Hm.
Qed.
Lemma raises_only_sub {A} (es es' : list exn) (m : F A) fs :
  es ⊆ es' → raises_only es m fs → raises_only es' m fs.
Proof. intros Hs Hm fs' e H. destruct (Hm _ _ H) as [-> (x & -> & Hx)]. eauto. Qed.

Lemma catching_reported {A} (es : list exn) (m : F A) (f : A → fs_answer) fs :
  raises_only es m fs → answering f (catching es m) fs = reported ((a ← m; mret (f a)) fs).
Proof.
  intros Hm. unfold answering, catching, reported, mbind, M_bind.
  destruct (m fs) as [fs1 [a|e]] eqn:H; [done|].
  destruct (Hm _ _ H) as [-> (x & -> & Hx)]. by rewrite decide_True.
Qed.

Lemma serve_reported root fs c : fs_wf fs → well_sent root fs c →
  serve root c fs = reported (operation root c fs) ∧ raises_only served_errors (operation root c) fs.
Proof.
  intros Hwf Hc.
  assert (∀ A (es : list exn) (m : F A) f, es ⊆ served_errors → raises_only es m fs →
    answering f (catching es m) fs = reported ((a ← m; mret (f a)) fs)
    ∧ raises_only served_errors (a ← m; mret (f a)) fs) as H.
  { intros A es m f Hs Hm. split; [by apply catching_reported|].
    eapply raises_only_sub, raises_only_bind; done. }
  destruct c as [p|p|p|p|[|first rest] broken uuid4|p]; simpl in Hc.
  - apply (H _ _ (list_dir root p) AEntries); [set_solver|by apply raises_list_dir].
  - apply (H _ _ (make_dir root p) (λ _, ADone)); [set_solver|by apply raises_make_dir].
  - apply (H _ _ (remove_dir root p) (λ _, ADone)); [set_solver|by apply raises_remove_dir].
  - apply (H _ _ (remove_file root p) (λ _, ADone)); [set_solver|by apply raises_remove_file].
  - by destruct Hc as (_ & ? & _).
  - destruct Hc as (-> & _ & Htmp).
    apply (H _ _ (write_file_chunks root (path_field first) (data_field <$> rest, None) uuid4) AWritten);
      [set_solver|apply raises_write; [done|]]. intros t Ht. by eapply Htmp.
  - apply (H _ _ (read_file_chunks root p CHUNK_SIZE_BYTES) AChunks); [set_solver|by apply raises_read].
Qed.

(** A call that is refused changes nothing, and its caller gets the status and the
    name of the domain error the operation raised: never [UNKNOWN]. *)
Theorem failures_are_domain_errors root fs c fs' e : fs_wf fs → well_sent root fs c →
  serve root c fs = (fs', Err e) →
  fs' = fs ∧ ∃ x, operation root c fs = (fs, Err (Exn x)) ∧ x ∈ served_errors
    ∧ e = _abort_on_domain_error x ∧ rpc_code e ≠ UNKNOWN.
Proof.
  intros Hwf Hc Hs. destruct (serve_reported root fs c Hwf Hc) as [Heq Hr]. rewrite Heq in Hs.
  unfold reported in Hs. destruct (operation root c fs) as [fs1 [a|e1]] eqn:Ho; [done|].
  destruct (Hr _ _ Ho) as [-> (x & -> & Hx)]. simplify_eq/=. split; [done|].
  exists x. split_and!; [done|done|done|]. simpl.
  repeat (apply elem_of_cons in Hx as [->|Hx]; [done|]). by apply not_elem_of_nil in Hx.
Qed.

(** * Contents *)

Lemma fresh_tmp t uuid4 fs : fs !! tmp_of t uuid4 = None →
  is_dir (tmp_of t uuid4) (with_dirs (parent t) fs) = false
  ∧ delete (tmp_of t uuid4) (with_dirs (parent t) fs) = with_dirs (parent t) fs.
Proof.
  intros Hn. assert (with_dirs (parent t) fs !! tmp_of t uuid4 = None) as Hd.
  { rewrite lookup_with_dirs, Hn, decide_False; [done|]. intros [k Hk]. apply (f_equal length) in Hk.
    unfold tmp_of in Hk. rewrite !length_app in Hk. simpl in Hk. lia. }
  split; [by apply is_dir_false; rewrite Hd|by apply delete_id].
Qed.

(** What an upload under a fresh temporary name does. *)
Lemma upload_eq root fs t first rest broken uuid4 : fs_wf fs →
  resolve_path root (path_field first) = Ok t → fs !! tmp_of t uuid4 = None →
  Upload root (first :: rest) broken uuid4 fs =
    if bool_decide (t = root) then (fs, Err (_abort_on_domain_error InvalidPathError))
    else if blocked t fs then (fs, Err (_abort_on_domain_error NotADirectoryError))
    else if is_dir t fs then (fs, Err (_abort_on_domain_error NotAFileError))
    else match broken with
         | None => (<[t := HFile (concat (data_field <$> rest))]> (with_dirs (parent t) fs),
                    Ok (zlen (concat (data_field <$> rest))))
         | Some _ => (with_dirs (parent t) fs, Err raised)
         end.
Proof.
  intros Hwf Hr Hn. unfold Upload, catching. rewrite (write_file_chunks_eq _ _ _ _ _ _ _ Hwf Hr).
  destruct (fresh_tmp _ _ _ Hn) as [-> ->]. case_bool_decide; [done|].
  destruct (blocked t fs), (is_dir t fs); [done..|]. by destruct broken.
Qed.

(** An upload publishes the whole of what was sent, or leaves every node of the host as
    it was and adds at most empty directories above its target, whatever the stream of
    requests does. *)
Theorem upload_is_atomic root fs first rest broken uuid4 t : fs_wf fs →
  resolve_path root (path_field first) = Ok t → fs !! tmp_of t uuid4 = None →
  match Upload root (first :: rest) broken uuid4 fs with
  | (fs', Ok n) =>
      broken = None ∧ n = zlen (concat (data_field <$> rest))
      ∧ fs' !! t = Some (HFile (concat (data_field <$> rest)))
      ∧ ∀ p, p ≠ t → fs' !! p = with_dirs (parent t) fs !! p
  | (fs', Err _) =>
      ∀ p, fs' !! p = fs !! p ∨ (fs !! p = None ∧ above p t ∧ fs' !! p = Some HDir)
  end.
Proof.
  intros Hwf Hr Hn. rewrite (upload_eq _ _ _ _ _ _ _ Hwf Hr Hn).
  case_bool_decide as Hroot; [by left|]. destruct (blocked t fs); [by left|].
  destruct (is_dir t fs); [by left|]. destruct broken as [e|].
  - intros p. rewrite lookup_with_dirs. destruct (fs !! p); [by left|].
    case_decide as Hd; [|by left]. right. split_and!; [done| |done].
    apply resolve_path_inv in Hr as [_ Hpre].
    rewrite <-(parent_name t); [by apply above_snoc|]. intros ->. by apply prefix_nil_inv in Hpre.
  - split_and!; [done|done|apply lookup_insert_eq|]. intros p Hp. by rewrite lookup_insert_ne.
Qed.

(** The calls that may change the file at [p]. *)
Definition touches (root p : Path) (c : fs_call) : Prop :=
  match c with
  | CRemove path => resolve_path root path = Ok p
  | CUpload (first :: _) _ uuid4 =>
      ∃ t, resolve_path root (path_field first) = Ok t ∧ (p = t ∨ p = tmp_of t uuid4)
  | _ => False
  end.

Lemma serve_state root c fs : (serve root c fs).1 = (operation root c fs).1.
Proof.
  assert (∀ A (es : list exn) (m : F A) f, (answering f (catching es m) fs).1 = ((a ← m; mret (f a)) fs).1) as H.
  { intros A es m f. unfold answering, catching, mbind, M_bind. by destruct (m fs) as [fs1 [a|[]]]. }
  destruct c as [p|p|p|p|[|first rest] broken uuid4|p]; simpl; try apply H. done.
Qed.

Lemma bind_ret_state {A B} (m : F A) (f : A → B) fs : ((a ← m; mret (f a)) fs).1 = (m fs).1.
Proof. unfold mbind, M_bind. by destruct (m fs) as [? []]. Qed.

Lemma read_state root vp n fs : (read_file_chunks root vp n fs).1 = fs.
Proof.
  unfold read_file_chunks, mbind, M_bind, lift, gets, ensure, mret, M_ret, raise.
  destruct (resolve_path root vp) as [t|]; [|done]. by destruct (exists_ t fs), (is_file t fs).
Qed.

Lemma serve_keeps_file root c fs p content : fs_wf fs → ¬ touches root p c →
  fs !! p = Some (HFile content) → (serve root c fs).1 !! p = Some (HFile content).
Proof.
  intros Hwf Ht Hp. rewrite serve_state.
  destruct c as [vp|vp|vp|vp|[|first rest] broken uuid4|vp]; simpl; rewrite ?bind_ret_state; [| | | |done| |].
  - destruct (resolve_path root vp) as [t|] eqn:Hr; [by rewrite (list_dir_eq _ _ _ _ Hr)|].
    unfold list_dir. by rewrite Hr.
  - destruct (resolve_path root vp) as [t|] eqn:Hr; [|unfold make_dir; by rewrite Hr].
    rewrite (make_dir_eq _ _ _ _ Hwf Hr). destruct (blocked t fs), (exists_ t fs); [done..|].
    simpl. by rewrite lookup_with_dirs, Hp.
  - destruct (resolve_path root vp) as [t|] eqn:Hr; [|unfold remove_dir; by rewrite Hr].
    rewrite (remove_dir_eq _ _ _ _ Hr). destruct (fs !! t) as [[]|] eqn:Hl; [case_decide|..]; [|done..].
    simpl. rewrite lookup_delete_ne; [done|]. intros ->. congruence.
  - destruct (resolve_path root vp) as [t|] eqn:Hr; [|unfold remove_file; by rewrite Hr].
    rewrite (remove_file_eq _ _ _ _ Hr). destruct (fs !! t) as [[]|] eqn:Hl; [done| |done].
    simpl. rewrite lookup_delete_ne; [done|]. intros ->. by apply Ht.
  - destruct (resolve_path root (path_field first)) as [t|] eqn:Hr; [|unfold write_file_chunks; by rewrite Hr].
    assert (p ≠ t ∧ p ≠ tmp_of t uuid4) as [H1 H2] by (simpl in Ht; naive_solver).
    assert (with_dirs (parent t) fs !! p = Some (HFile content)) as Hd by by rewrite lookup_with_dirs, Hp.
    rewrite (write_file_chunks_eq _ _ _ _ _ _ _ Hwf Hr). case_bool_decide; [done|].
    destruct (blocked t fs), (is_dir t fs), (is_dir (tmp_of t uuid4) (with_dirs (parent t) fs)); [done..|].
    destruct broken; simpl; rewrite ?lookup_insert_ne, lookup_delete_ne by done; done.
  - by rewrite read_state.
Qed.

(** A file stays until a call touches it. *)
Lemma serve_all_keeps_file root calls fs p content : anchored root fs → Forall (λ c, ¬ touches root p c) calls →
  fs !! p = Some (HFile content) → serve_all root calls fs !! p = Some (HFile content).
Proof.
  intros Ha Hall. revert fs Ha. induction Hall as [|c calls Hc Hall IH]; intros fs Ha Hp; [done|].
  simpl. apply IH; [by apply (serve_confined root c)|]. apply serve_keeps_file; [apply Ha|done|done].
Qed.

(** * A concrete server *)

Definition demo_root : Path := ["srv"].
Definition demo_host : HostFS :=
  list_to_map [([], HDir); (["srv"], HDir); (["etc"], HDir); (["etc"; "passwd"], HFile [1%Z; 2%Z])].
Definition demo_calls : list fs_call :=
  [CMakeDir "a/b"; CUpload [UPath "../etc/passwd"; UData [0%Z]] None "u0"; CRemove "/../etc/passwd";
   CUpload [UPath "/a/b/../f"; UData [7%Z]; UData [8%Z; 9%Z]] None "u1"; CRemoveDir "/a/b"; CRemoveDir "/a/.."].

Lemma calls_stay_inside_witness :
  let fs' := serve_all demo_root demo_calls demo_host in
  fs' !! ["srv"; "a"; "f"] = Some (HFile [7%Z; 8%Z; 9%Z]) ∧ fs' !! ["srv"; "a"; "b"] = None
  ∧ fs_wf fs' ∧ fs' !! ["etc"; "passwd"] = Some (HFile [1%Z; 2%Z]).
Proof.
  destruct (calls_stay_inside demo_root demo_calls demo_host) as [Hwf Hout].
  - apply fs_check_ok. vm_compute. reflexivity.
  - vm_compute. reflexivity.
  - split; [vm_compute; reflexivity|]. split; [vm_compute; reflexivity|]. split; [exact Hwf|].
    etrans; [apply Hout; intros [k Hk]; discriminate Hk|]. vm_compute. reflexivity.
Defined.

Lemma failures_are_domain_errors_witness :
  (serve demo_root (CMakeDir "/../etc") demo_host).1 = demo_host
  ∧ ∃ x, operation demo_root (CMakeDir "/../etc") demo_host = (demo_host, Err (Exn x)) ∧ x ∈ served_errors.
Proof.
  assert ((serve demo_root (CMakeDir "/../etc") demo_host).2 = Err (_abort_on_domain_error InvalidPathError)) as E
    by (vm_compute; reflexivity).
  destruct (failures_are_domain_errors demo_root demo_host (CMakeDir "/../etc")
    (serve demo_root (CMakeDir "/../etc") demo_host).1
    (_abort_on_domain_error InvalidPathError)) as [Hs (x & Hx & Hin & _)].
  - apply fs_check_ok. vm_compute. reflexivity.
  - exact I.
  - rewrite <-E. apply surjective_pairing.
  - split; [exact Hs|]. exists x. split; [exact Hx|exact Hin].
Defined.
