(* ===== verification/FileClientProps.v ===== *)
(** Properties of the client of the non-distributed server (FileClient.v), through the
    handlers of FileServer.v: its calls refine the operations, its downloads replace a
    local file or leave it, and a download gives what an upload stored. *)

From S2P Require Import Prelude Exceptions Paths Crypto Bytes DataNode HostFs FileServer FileClient FileServerProps.

Local Open Scope nat_scope.
#[local] Opaque FileServer.CHUNK_SIZE_BYTES.

(** * Errors *)

(** The class the client raises for an error of the server: [INVALID_ARGUMENT] covers
    two of them. *)
Definition shown (x : exn) : exn :=
  match x with NotADirectoryError => NotAFileError | _ => x end.

Lemma translate_abort x : x ∈ served_errors → _translate (FileServer._abort_on_domain_error x) = shown x.
Proof.
  intros Hx. repeat (apply elem_of_cons in Hx as [->|Hx]; [done|]). by apply not_elem_of_nil in Hx.
Qed.

(** The calls of the client that change no local file. *)
Inductive remote_call :=
| RcListDir (path : string)
| RcMakeDir (path : string)
| RcRemoveDir (path : string)
| RcRemove (path : string)
| RcUpload (local_path : Path) (remote_path : string) (uuid4 : string).

Definition client_answer {A} (f : A → fs_answer) (m : D A) : D fs_answer := a ← m; mret (f a).

Definition run_call (root : Path) (c : remote_call) : D fs_answer :=
  match c with
  | RcListDir path => client_answer AEntries (list_dir root Delivered path)
  | RcMakeDir path => client_answer (λ _, ADone) (make_dir root Delivered path)
  | RcRemoveDir path => client_answer (λ _, ADone) (remove_dir root Delivered path)
  | RcRemove path => client_answer (λ _, ADone) (remove root Delivered path)
  | RcUpload local_path remote_path uuid4 =>
      client_answer AWritten (upload root (Whole Delivered) local_path remote_path uuid4)
  end.

(** What the client asks the server for; [None] when it does not ask. *)
Definition asked (w : Hosts) (c : remote_call) : option fs_call :=
  match c with
  | RcListDir path => Some (CListDir path)
  | RcMakeDir path => Some (CMakeDir path)
  | RcRemoveDir path => Some (CRemoveDir path)
  | RcRemove path => Some (CRemove path)
  | RcUpload local_path remote_path uuid4 =>
      match local w !! local_path with
      | Some (HFile content) => Some (CUpload (request_iterator content remote_path) None uuid4)
      | _ => None
      end
  end.

(** The result of an operation, with its error as the client raises it. *)
Definition shown_result {A} (r : result host_error A) : result host_error A :=
  match r with Ok a => Ok a | Err (Exn x) => Err (Exn (shown x)) | Err e => Err e end.

Lemma rpc_call_delivered {A} (handler : RpcM A) (f : A → fs_answer) w :
  client_answer f (rpc_call Delivered handler) w =
  (mkHosts (answering f handler (server w)).1 (local w),
   match (answering f handler (server w)).2 with Ok a => Ok a | Err e => Err (Exn (_translate e)) end).
Proof.
  unfold client_answer, answering, rpc_call, mbind, M_bind. by destruct (handler (server w)) as [fs [a|e]].
Qed.

Lemma run_call_serve root c w call : asked w c = Some call →
  run_call root c w = (mkHosts (serve root call (server w)).1 (local w),
    match (serve root call (server w)).2 with Ok a => Ok a | Err e => Err (Exn (_translate e)) end).
Proof.
  destruct c as [p|p|p|p|lp rp uuid4]; cbn [asked run_call]; [intros [= <-]; apply rpc_call_delivered..|].
  destruct (local w !! lp) as [[|content]|] eqn:Hl; [done| |done]. intros [= <-]. cbn [serve].
  rewrite <-(rpc_call_delivered (Upload root (request_iterator content rp) None uuid4) AWritten).
  unfold client_answer, mbind, M_bind, upload. by rewrite Hl.
Qed.

(** C28. A call of the client does to the server, and returns, what the operation of
    [filesystem.py] does and returns on the exported directory; it raises the error of
    the operation, through the handler, the status code and the translation, with the
    one difference that a [NotADirectoryError] comes as a [NotAFileError]. *)
Theorem client_refines_operations root c w call : fs_wf (server w) →
  asked w c = Some call → well_sent root (server w) call →
  let out := operation root call (server w) in
  run_call root c w = (mkHosts out.1 (local w), shown_result out.2).
Proof.
  intros Hwf Ha Hs out. rewrite (run_call_serve _ _ _ _ Ha).
  destruct (serve_reported _ _ _ Hwf Hs) as [-> Hr]. unfold out.
  destruct (operation root call (server w)) as [fs [a|e]] eqn:Ho; [done|].
  destruct (Hr _ _ Ho) as [-> (x & -> & Hx)]. simpl. by rewrite translate_abort.
Qed.

(** * Downloads *)

(** Where a download can put its file: in a directory that is there, under a fresh
    temporary name. *)
Record receivable (lp : Path) (uuid4 : string) (fs : HostFS) : Prop := {
  rc_path : lp ≠ [];
  rc_parent : fs !! parent lp = Some HDir;
  rc_tmp : fs !! tmp_of lp uuid4 = None
}.

Lemma parent_ne_tmp lp uuid4 : parent lp ≠ tmp_of lp uuid4.
Proof.
  intros Heq. unfold tmp_of in Heq. apply (f_equal length) in Heq. rewrite length_app in Heq. simpl in Heq. lia.
Qed.

Lemma open_wb_fresh lp uuid4 fs : receivable lp uuid4 fs →
  open_wb (tmp_of lp uuid4) fs = (<[tmp_of lp uuid4 := HFile []]> fs, Ok tt).
Proof.
  intros [_ Hp Hn]. unfold open_wb. rewrite Hn, tmp_parent. by rewrite is_dir_true.
Qed.

Lemma receive_eq lp uuid4 fs chunks broken : receivable lp uuid4 fs →
  discarding (tmp_of lp uuid4)
    (_ ← open_wb (tmp_of lp uuid4);
     n ← write_loop (tmp_of lp uuid4) chunks (Grpc <$> broken) 0%Z;
     _ ← os_replace (tmp_of lp uuid4) lp; mret n) fs =
    match broken with
    | Some e => (fs, Err (Exn (_translate e)))
    | None =>
        if is_dir lp fs then (<[tmp_of lp uuid4 := HFile (concat chunks)]> fs, Err (OSError EISDIR))
        else (<[lp := HFile (concat chunks)]> fs, Ok (zlen (concat chunks)))
    end.
Proof.
  intros Hrc. destruct (Hrc) as [Hne Hp Hn]. pose proof (open_wb_fresh _ _ _ Hrc) as Hopen.
  set (tmp := tmp_of lp uuid4) in *.
  unfold discarding. destruct (is_dir lp fs) eqn:Hd.
  - unfold mbind at 1, M_bind at 1. rewrite Hopen.
    unfold mbind at 1, M_bind at 1. erewrite write_loop_eq by apply lookup_insert_eq.
    rewrite insert_insert_eq. destruct broken as [e|]; simpl.
    + unfold unlink_missing_ok, os_unlink. rewrite lookup_insert_eq. simpl.
      by rewrite delete_insert_eq, delete_id.
    + unfold mbind, M_bind, os_replace. rewrite lookup_insert_eq, lookup_insert_ne by (by apply tmp_ne).
      apply is_dir_iff in Hd. by rewrite Hd.
  - rewrite (write_chunks_result tmp lp) by (done || (by apply is_dir_false; rewrite Hn) || apply tmp_parent
      || (by apply tmp_ne) || apply parent_ne_tmp).
    destruct broken as [e|]; simpl; [|by rewrite delete_id].
    unfold unlink_missing_ok, os_unlink. rewrite lookup_insert_eq. simpl. by rewrite delete_insert_eq, delete_id.
Qed.

(** A download never changes the server; a stream that ends in an error leaves every
    local file as it was and raises the error; a whole one puts its bytes in place,
    unless the local path is a directory: then the temporary file stays behind. *)
Theorem download_outcome root l remote lp uuid4 w : receivable lp uuid4 (local w) →
  let stream := download_stream root l remote (server w) in
  download root l remote lp uuid4 w =
    match stream.2 with
    | Some e => (w, Err (Exn (_translate e)))
    | None =>
        if is_dir lp (local w)
        then (mkHosts (server w) (<[tmp_of lp uuid4 := HFile (concat stream.1)]> (local w)), Err (OSError EISDIR))
        else (mkHosts (server w) (<[lp := HFile (concat stream.1)]> (local w)), Ok (zlen (concat stream.1)))
    end.
Proof.
  intros Hrc stream. unfold download. rewrite receive_eq by done. fold stream.
  destruct (stream.2); [by destruct w|]. by destruct (is_dir lp (local w)).
Qed.

(** * Round trip *)

Lemma requests_data content remote :
  concat (data_field <$> tail (request_iterator content remote)) = content.
Proof.
  unfold request_iterator. simpl tail. rewrite <-list_fmap_compose.
  rewrite (list_fmap_ext _ id) by done. rewrite list_fmap_id.
  apply (chunks_of_concat CHUNK_SIZE_BYTES content). apply chunk_size_pos.
Qed.

Lemma download_whole root remote t content fs : resolve_path root remote = Ok t →
  fs !! t = Some (HFile content) →
  ∃ chunks, download_stream root (Whole Delivered) remote fs = (chunks, None) ∧ concat chunks = content.
Proof.
  intros Hr Ht. unfold download_stream, Download, catching.
  rewrite (read_file_chunks_eq _ _ _ _ _ Hr) by apply chunk_size_pos. rewrite Ht.
  eexists. split; [done|]. apply chunks_of_concat. apply chunk_size_pos.
Qed.

Lemma upload_stores root lp remote uuid4 content w w1 n t : fs_wf (server w) →
  local w !! lp = Some (HFile content) → resolve_path root remote = Ok t →
  server w !! tmp_of t uuid4 = None →
  upload root (Whole Delivered) lp remote uuid4 w = (w1, Ok n) →
  n = zlen content ∧ server w1 = <[t := HFile content]> (with_dirs (parent t) (server w)) ∧ local w1 = local w.
Proof.
  intros Hwf Hl Hr Hn. unfold upload. rewrite Hl. unfold upload_rpc, rpc_call.
  pose proof (requests_data content remote) as Hd.
  destruct (request_iterator content remote) as [|first rest] eqn:Hq; [done|].
  assert (path_field first = remote) as Hpath by (unfold request_iterator in Hq; by simplify_eq).
  rewrite <-Hpath in Hr. rewrite (upload_eq _ _ _ _ _ _ _ Hwf Hr Hn). simpl in Hd. rewrite Hd.
  case_bool_decide; [done|]. destruct (blocked t _); [done|]. destruct (is_dir t _); [done|].
  by intros [= <- <-].
Qed.

(** What a client uploads is what any client later downloads, whatever calls the server
    serves in between, as long as none of them uploads to that path or removes it. *)
Theorem upload_then_download root w lp remote u1 content t w1 n calls lp2 u2 :
  anchored root (server w) → local w !! lp = Some (HFile content) →
  resolve_path root remote = Ok t → server w !! tmp_of t u1 = None →
  upload root (Whole Delivered) lp remote u1 w = (w1, Ok n) →
  Forall (λ c, ¬ touches root t c) calls →
  receivable lp2 u2 (local w) → is_dir lp2 (local w) = false →
  let w2 := mkHosts (serve_all root calls (server w1)) (local w1) in
  n = zlen content ∧
  download root (Whole Delivered) remote lp2 u2 w2 =
    (mkHosts (server w2) (<[lp2 := HFile content]> (local w)), Ok (zlen content)).
Proof.
  intros Ha Hl Hr Hn Hup Hall Hrc Hd w2.
  destruct (upload_stores _ _ _ _ _ _ _ _ _ (proj1 Ha) Hl Hr Hn Hup) as (-> & Hs & Hloc). split; [done|].
  assert (anchored root (server w1)) as Ha1.
  { pose proof (serve_confined root (CUpload (request_iterator content remote) None u1) (server w) Ha) as [H _].
    replace (server w1) with (serve root (CUpload (request_iterator content remote) None u1) (server w)).1; [done|].
    unfold upload in Hup. rewrite Hl in Hup. unfold upload_rpc, rpc_call in Hup. cbn [serve].
    unfold answering, mbind, M_bind. destruct (Upload _ _ _ _ _) as [? [|]]; by simplify_eq/=. }
  assert (server w1 !! t = Some (HFile content)) as Ht by (rewrite Hs; apply lookup_insert_eq).
  pose proof (serve_all_keeps_file root calls _ t content Ha1 Hall Ht) as Hk.
  destruct (download_whole root remote t content _ Hr Hk) as (chunks & Hst & Hc).
  unfold download. rewrite receive_eq by (unfold w2; simpl; by rewrite Hloc).
  unfold w2. cbn [server local]. rewrite Hst. cbn [fst snd]. by rewrite Hloc, Hd, Hc.
Qed.

(** * A concrete session *)

Definition demo_local : HostFS := list_to_map [([], HDir); (["home"], HDir); (["home"; "f"], HFile [5%Z; 6%Z])].
Definition demo_hosts : Hosts := mkHosts demo_host demo_local.

Lemma client_refines_operations_witness :
  (run_call demo_root (RcRemoveDir "/missing") demo_hosts).2 = Err (Exn PathNotFoundError)
  ∧ (run_call demo_root (RcListDir "../etc") demo_hosts).2 = Err (Exn InvalidPathError).
Proof.
  split.
  - rewrite (client_refines_operations demo_root (RcRemoveDir "/missing") demo_hosts (CRemoveDir "/missing")).
    + vm_compute. reflexivity.
    + apply fs_check_ok. vm_compute. reflexivity.
    + reflexivity.
    + exact I.
  - rewrite (client_refines_operations demo_root (RcListDir "../etc") demo_hosts (CListDir "../etc")).
    + vm_compute. reflexivity.
    + apply fs_check_ok. vm_compute. reflexivity.
    + reflexivity.
    + exact I.
Defined.

Lemma demo_receivable name uuid4 : name = "g" ∨ name = "d" → uuid4 = "u2" →
  receivable ["home"; name] uuid4 demo_local.
Proof. by intros [-> | ->] ->. Qed.

(** A download over a local directory leaves its temporary file. *)
Definition demo_local_dir : HostFS := <[["home"; "d"] := HDir]> demo_local.

Lemma download_outcome_witness :
  let served := mkHosts (<[["srv"; "f"] := HFile [9%Z]]> demo_host) demo_local_dir in
  let out := download demo_root (Whole Delivered) "f" ["home"; "d"] "u2" served in
  out.2 = Err (OSError EISDIR)
  ∧ local out.1 = <[["home"; "d.part-u2"] := HFile [9%Z]]> demo_local_dir.
Proof.
  intros served out. unfold out.
  rewrite (download_outcome demo_root (Whole Delivered) "f" ["home"; "d"] "u2" served).
  - assert (download_stream demo_root (Whole Delivered) "f" (server served) = ([[9%Z]], None)) as ->
      by (vm_compute; reflexivity).
    assert (is_dir ["home"; "d"] (local served) = true) as -> by (vm_compute; reflexivity).
    split; reflexivity.
  - split; [done|vm_compute; reflexivity|vm_compute; reflexivity].
Defined.

Lemma upload_then_download_witness :
  let up := upload demo_root (Whole Delivered) ["home"; "f"] "a/x" "u1" demo_hosts in
  let later := [CMakeDir "b"; CUpload [UPath "b/x"; UData [1%Z]] None "u1"; CRemove "b/x"; CRemoveDir "a"] in
  let w2 := mkHosts (serve_all demo_root later (server up.1)) (local up.1) in
  (download demo_root (Whole Delivered) "a/x" ["home"; "g"] "u2" w2).2 = Ok 2%Z.
Proof.
  intros up later w2.
  assert (up.2 = Ok 2%Z) as Hok by (vm_compute; reflexivity).
  destruct (upload_then_download demo_root demo_hosts ["home"; "f"] "a/x" "u1" [5%Z; 6%Z] ["srv"; "a"; "x"]
    up.1 2%Z later ["home"; "g"] "u2") as [_ Hd].
  - split; [apply fs_check_ok; vm_compute; reflexivity|vm_compute; reflexivity].
  - vm_compute. reflexivity.
  - vm_compute. reflexivity.
  - vm_compute. reflexivity.
  - unfold up. rewrite <-Hok. apply surjective_pairing.
  - unfold later. repeat (apply Forall_cons; split); [| | | |constructor].
    + intros [].
    + cbn [touches path_field]. intros (t & Ht & [He|He]); vm_compute in Ht; injection Ht as <-; discriminate He.
    + cbn [touches]. intros H. vm_compute in H. discriminate H.
    + intros [].
  - split; [done|vm_compute; reflexivity|vm_compute; reflexivity].
  - vm_compute. reflexivity.
  - unfold w2. rewrite Hd. reflexivity.
Defined.
