(* ===== verification/FileUploads.v ===== *)
(** Concurrent uploads to the non-distributed server: [write_file_chunks] cut at its
    calls of the operating system, interleaved with the uploads and the calls of other
    clients.

    gRPC serves every call on a thread of its own, and an upload lasts as long as its
    stream.  A job is one upload; a step of a job is one call of the host (the checks
    that only read count as one, and so do the directories it makes).  A schedule says
    who moves next.  Every file of the server is at all times what it was at the start
    or the whole of what one job was sent. *)

From S2P Require Import Prelude Exceptions Paths Crypto Bytes DataNode HostFs FileServer FileServerProps.

Local Open Scope nat_scope.
#[local] Opaque FileServer.CHUNK_SIZE_BYTES.

Record Job := mkJob {
  j_path : string;
  j_chunks : list (list Z);
  j_broken : option host_error;
  j_uuid4 : string
}.

Inductive phase :=
| Checking
| Making (target : Path)
| Opening (target : Path)
| Writing (target : Path) (rest : list (list Z)) (bytes_written : Z)
| Replacing (target : Path) (bytes_written : Z)
| Cleaning (target : Path) (e : host_error)
| Done (r : result host_error Z).

Section uploads.
Context (root : Path).

(** The checks of [write_file_chunks] before it touches the host. *)
Definition checks (path : string) : F Path :=
  target ← lift (resolve_path root path);
  top ← lift (resolve_path root "/");
  _ ← ensure (bool_decide (target ≠ top)) (Exn InvalidPathError);
  _ ← _require_directory_parent target;
  dir ← gets (is_dir target);
  _ ← ensure (negb dir) (Exn NotAFileError);
  mret target.

(** One step of a job. *)
Definition job_step (j : Job) (ph : phase) (fs : HostFS) : HostFS * phase :=
  match ph with
  | Checking =>
      match checks (j_path j) fs with
      | (fs', Ok target) => (fs', Making target)
      | (fs', Err e) => (fs', Done (Err e))
      end
  | Making target =>
      match mkdir (parent target) true fs with
      | (fs', Ok _) => (fs', Opening target)
      | (fs', Err e) => (fs', Done (Err e))
      end
  | Opening target =>
      match open_wb (tmp_of target (j_uuid4 j)) fs with
      | (fs', Ok _) => (fs', Writing target (j_chunks j) 0%Z)
      | (fs', Err e) => (fs', Cleaning target e)
      end
  | Writing target (chunk :: rest) n =>
      match append_to (tmp_of target (j_uuid4 j)) chunk fs with
      | (fs', Ok _) => (fs', Writing target rest (n + zlen chunk)%Z)
      | (fs', Err e) => (fs', Cleaning target e)
      end
  | Writing target [] n =>
      match j_broken j with
      | None => (fs, Replacing target n)
      | Some e => (fs, Cleaning target e)
      end
  | Replacing target n =>
      match os_replace (tmp_of target (j_uuid4 j)) target fs with
      | (fs', Ok _) => (fs', Done (Ok n))
      | (fs', Err e) => (fs', Cleaning target e)
      end
  | Cleaning target e =>
      match unlink_missing_ok (tmp_of target (j_uuid4 j)) fs with
      | (fs', Ok _) => (fs', Done (Err e))
      | (fs', Err e') => (fs', Done (Err e'))
      end
  | Done r => (fs, Done r)
  end.

(** The host and the phase of every job. *)
Definition uploads : Type := HostFS * list phase.

Inductive move := MJob (i : nat) | MCall (c : fs_call).

Definition upload_move (jobs : list Job) (s : uploads) (m : move) : uploads :=
  match m with
  | MJob i =>
      match jobs !! i, s.2 !! i with
      | Some j, Some ph => let out := job_step j ph s.1 in (out.1, <[i := out.2]> s.2)
      | _, _ => s
      end
  | MCall c => ((serve root c s.1).1, s.2)
  end.

Definition run_uploads (jobs : list Job) (schedule : list move) (fs : HostFS) : uploads :=
  foldl (upload_move jobs) (fs, (λ _, Checking) <$> jobs) schedule.

(** A job that is left alone, to its end. *)
Fixpoint alone (fuel : nat) (j : Job) (ph : phase) (fs : HostFS) : HostFS * phase :=
  match fuel with
  | O => (fs, ph)
  | S fuel' => let out := job_step j ph fs in alone fuel' j out.2 out.1
  end.
End uploads.

(** The steps are those of [write_file_chunks]: a job left alone does what it does. *)
Lemma alone_done root fuel j r fs : alone root fuel j (Done r) fs = (fs, Done r).
Proof. by induction fuel as [|fuel IH]. Qed.

Lemma alone_write root fuel j t rest n fs : alone root (length rest + fuel) j (Writing t rest n) fs =
  alone root fuel j
    (Writing t [] (n + zlen (concat rest))%Z)
    (foldl (λ fs chunk, (append_to (tmp_of t (j_uuid4 j)) chunk fs).1) fs rest).
Proof.
  revert n fs. induction rest as [|chunk rest IH]; intros n fs; simpl.
  { unfold zlen. simpl. by rewrite Z.add_0_r. }
  destruct (append_to (tmp_of t (j_uuid4 j)) chunk fs) as [fs' [u|e]] eqn:Ha; simpl.
  - rewrite IH, zlen_app. by rewrite Z.add_assoc.
  - exfalso. unfold append_to in Ha. by destruct (fs !! tmp_of t (j_uuid4 j)) as [[]|].
Qed.

Lemma write_loop_split tmp rest broken n fs :
  write_loop tmp rest broken n fs =
    (foldl (λ fs chunk, (append_to tmp chunk fs).1) fs rest,
     match broken with None => Ok (n + zlen (concat rest))%Z | Some e => Err e end).
Proof.
  revert n fs. induction rest as [|chunk rest IH]; intros n fs; simpl.
  { unfold zlen. simpl. rewrite Z.add_0_r. by destruct broken. }
  unfold mbind at 1, M_bind at 1. destruct (append_to tmp chunk fs) as [fs' [u|e]] eqn:Ha; simpl.
  - rewrite IH, zlen_app. by rewrite Z.add_assoc.
  - exfalso. unfold append_to in Ha. by destruct (fs !! tmp) as [[]|].
Qed.

Lemma checks_write root path chunks uuid4 fs :
  write_file_chunks root path chunks uuid4 fs =
    match checks root path fs with
    | (fs', Ok t) =>
        (_ ← mkdir (parent t) true;
         cleaning_up
           (_ ← open_wb (tmp_of t uuid4);
            n ← write_loop (tmp_of t uuid4) chunks.1 chunks.2 0%Z;
            _ ← os_replace (tmp_of t uuid4) t;
            mret n)
           (unlink_missing_ok (tmp_of t uuid4))) fs'
    | (fs', Err e) => (fs', Err e)
    end.
Proof.
  unfold write_file_chunks, checks, mbind, M_bind, lift.
  destruct (resolve_path root path) as [t|]; [|done]. rewrite resolve_path_top.
  destruct (ensure _ _ _) as [? [|]]; [|done].
  destruct (_require_directory_parent _ _) as [? [|]]; [|done]. unfold gets.
  by destruct (ensure _ _ _) as [? [|]].
Qed.

Theorem job_alone root j fs :
  let out := write_file_chunks root (j_path j) (j_chunks j, j_broken j) (j_uuid4 j) fs in
  alone root (length (j_chunks j) + 6) j Checking fs = (out.1, Done out.2).
Proof.
  intros out. unfold out. rewrite checks_write. rewrite Nat.add_comm.
  change (alone root (6 + length (j_chunks j)) j Checking fs) with
    (let o := job_step root j Checking fs in alone root (5 + length (j_chunks j)) j o.2 o.1).
  cbn [job_step]. destruct (checks root (j_path j) fs) as [fs1 [t|e]]; [|apply alone_done].
  cbv zeta. simpl fst. simpl snd. set (tmp := tmp_of t (j_uuid4 j)).
  change (alone root (5 + length (j_chunks j)) j (Making t) fs1) with
    (let o := job_step root j (Making t) fs1 in alone root (4 + length (j_chunks j)) j o.2 o.1).
  cbn [job_step].
  destruct (mkdir (parent t) true fs1) as [fs2 [u|e]] eqn:Hm;
    [rewrite (bind_ok _ _ _ _ _ Hm)|rewrite (bind_err _ _ _ _ _ Hm); apply alone_done].
  cbv zeta. simpl fst. simpl snd.
  change (alone root (4 + length (j_chunks j)) j (Opening t) fs2) with
    (let o := job_step root j (Opening t) fs2 in alone root (3 + length (j_chunks j)) j o.2 o.1).
  cbn [job_step]. fold tmp. unfold cleaning_up.
  destruct (open_wb tmp fs2) as [fs3 [u'|e]] eqn:Ho;
    [rewrite (bind_ok _ _ _ _ _ Ho)|rewrite (bind_err _ _ _ _ _ Ho)].
  - simpl fst. simpl snd. cbv zeta. rewrite Nat.add_comm, alone_write. fold tmp.
    pose proof (write_loop_split tmp (j_chunks j) (j_broken j) 0%Z fs3) as Hw.
    set (fs4 := foldl _ fs3 (j_chunks j)) in *.
    destruct (j_broken j) as [e|] eqn:Hb;
      [rewrite (bind_err _ _ _ _ _ Hw)|rewrite (bind_ok _ _ _ _ _ Hw)]; simpl; rewrite Hb; simpl; fold tmp.
    + by destruct (unlink_missing_ok tmp fs4) as [fs5 [|]].
    + destruct (os_replace tmp t fs4) as [fs5 [|]] eqn:Hr;
        [rewrite (bind_ok _ _ _ _ _ Hr)|rewrite (bind_err _ _ _ _ _ Hr)]; simpl; fold tmp; [done|].
      by destruct (unlink_missing_ok tmp fs5) as [fs6 [|]].
  - cbv zeta. simpl. fold tmp. destruct (unlink_missing_ok tmp fs3) as [fs4 [|]]; simpl; apply alone_done.
Qed.

(** * What a step may change *)

(** The host stays well formed and no directory goes. *)
Definition kept : relation HostFS := λ fs fs',
  (fs_wf fs → fs_wf fs') ∧ (∀ q, fs !! q = Some HDir → fs' !! q = Some HDir).

#[global] Instance kept_preorder : PreOrder kept.
Proof. split; unfold kept; [done|]. intros f g h [H1 H2] [H3 H4]. split; auto. Qed.

(** Only directories at or above [p] appear. *)
Definition grown (p : Path) : relation HostFS := λ fs fs',
  kept fs fs' ∧ ∀ q, fs' !! q = fs !! q ∨ (fs !! q = None ∧ q `prefix_of` p ∧ fs' !! q = Some HDir).

#[global] Instance grown_preorder p : PreOrder (grown p).
Proof.
  split; [intros fs; split; [done|by left]|]. intros f g h [H1 H2] [H3 H4].
  split; [by etrans|]. intros q. destruct (H2 q), (H4 q); naive_solver congruence.
Qed.

Lemma grown_mono p p' fs fs' : p `prefix_of` p' → grown p fs fs' → grown p' fs fs'.
Proof.
  intros Hp [H1 H2]. split; [done|]. intros q. destruct (H2 q) as [|(? & ? & ?)]; [by left|].
  right. split_and!; [done|by etrans|done].
Qed.

Lemma grown_os_mkdir p : moves (grown p) (os_mkdir p).
Proof.
  intros fs. unfold os_mkdir. destruct (exists_ p fs) eqn:He; [done|].
  destruct (is_dir (parent p) fs) eqn:Hd; [|done]. apply is_dir_iff in Hd.
  assert (fs !! p = None) as Hn.
  { apply eq_None_not_Some. intros [n Hn]. by erewrite exists_true in He. }
  simpl. split; [split|].
  - intros Hwf. apply wf_insert; [done|done|by left].
  - intros q Hq. destruct (decide (q = p)) as [->|]; [congruence|by rewrite lookup_insert_ne].
  - intros q. destruct (decide (q = p)) as [->|]; [|left; by rewrite lookup_insert_ne].
    right. rewrite lookup_insert_eq. done.
Qed.

Lemma forgiving_state exist_ok p e fs : (forgiving exist_ok p e fs).1 = fs.
Proof. unfold forgiving. by destruct (_ && _). Qed.

Lemma grown_mkdir p exist_ok : moves (grown p) (mkdir p exist_ok).
Proof.
  unfold mkdir. revert exist_ok. induction p as [|c p IH] using rev_ind; intros exist_ok fs.
  { simpl. pose proof (grown_os_mkdir [] fs) as H.
    destruct (os_mkdir [] fs) as [fs1 [u|[[]|e|e]]]; simpl in *; rewrite ?forgiving_state; done. }
  rewrite rev_app_distr. simpl. rewrite rev_involutive.
  pose proof (grown_os_mkdir (p ++ [c]) fs) as H.
  destruct (os_mkdir (p ++ [c]) fs) as [fs1 [u|[[]|e|e]]]; simpl in *; rewrite ?forgiving_state; try done.
  specialize (IH true fs1). destruct (mkdir_parents (rev p) true fs1) as [fs2 [u|e]]; simpl in *.
  2: { etrans; [exact H|]. eapply grown_mono; [|exact IH]. by apply prefix_app_r. }
  etrans; [exact H|]. etrans; [eapply grown_mono; [|exact IH]; by apply prefix_app_r|].
  unfold mkdir_one. pose proof (grown_os_mkdir (p ++ [c]) fs2) as H2.
  destruct (os_mkdir (p ++ [c]) fs2) as [fs3 [u'|[[]|e|e]]]; simpl in *; rewrite ?forgiving_state; done.
Qed.

Lemma kept_put_file p content fs : p ≠ [] → fs !! p ≠ Some HDir → fs !! parent p = Some HDir →
  kept fs (<[p := HFile content]> fs).
Proof.
  intros Hne Hp Hpar. split; [intros Hwf; apply wf_insert; auto|].
  intros q Hq. rewrite lookup_insert_ne; [done|]. congruence.
Qed.

Lemma kept_delete_nondir p fs : fs !! p ≠ Some HDir → kept fs (delete p fs).
Proof.
  intros Hp. split.
  - intros Hwf. destruct (fs !! p) as [[|c]|] eqn:Hl; [done| |by rewrite delete_id].
    apply wf_delete_file; [done|]. apply is_file_iff. eauto.
  - intros q Hq. rewrite lookup_delete_ne; [done|]. congruence.
Qed.

Lemma open_wb_result p fs : p ≠ [] →
  open_wb p fs = (fs, (open_wb p fs).2) ∧ (∀ u, (open_wb p fs).2 ≠ Ok u)
  ∨ open_wb p fs = (<[p := HFile []]> fs, Ok tt) ∧ (fs_wf fs → kept fs (<[p := HFile []]> fs)).
Proof.
  intros Hne. unfold open_wb. destruct (fs !! p) as [[|c]|] eqn:Hl.
  - left. done.
  - right. split; [done|]. intros Hwf. apply kept_put_file; [done|congruence|].
    apply (wf_parent _ Hwf). eauto.
  - destruct (is_dir (parent p) fs) eqn:Hd; [|by left]. right. split; [done|]. intros _.
    apply kept_put_file; [done|congruence|by apply is_dir_iff].
Qed.

(** What is at the temporary path of a job, phase by phase. *)
Definition tmp_ok (j : Job) (t : Path) (ph : phase) (at_tmp : option inode) : Prop :=
  match ph with
  | Checking => at_tmp = None
  | Making t' | Opening t' => t' = t ∧ at_tmp = None
  | Writing t' rest n =>
      t' = t ∧ ∃ sent, j_chunks j = sent ++ rest ∧ at_tmp = Some (HFile (concat sent)) ∧ n = zlen (concat sent)
  | Replacing t' n =>
      t' = t ∧ j_broken j = None ∧ at_tmp = Some (HFile (concat (j_chunks j))) ∧ n = zlen (concat (j_chunks j))
  | Cleaning t' _ => t' = t ∧ at_tmp ≠ Some HDir
  | Done r => at_tmp = None ∧ ∀ n, r = Ok n → j_broken j = None ∧ n = zlen (concat (j_chunks j))
  end.

(** The change a step of a job for [t] may make away from its temporary path. *)
Definition job_change (j : Job) (t : Path) (ph' : phase) (fs fs' : HostFS) (q : Path) : Prop :=
  fs' !! q = fs !! q
  ∨ (fs !! q = None ∧ q `prefix_of` t ∧ fs' !! q = Some HDir)
  ∨ (q = t ∧ (∃ n, ph' = Done (Ok n)) ∧ j_broken j = None ∧ fs' !! q = Some (HFile (concat (j_chunks j)))).

Lemma checks_ok root path fs : (checks root path fs).1 = fs ∧
  (∀ t, (checks root path fs).2 = Ok t → resolve_path root path = Ok t).
Proof.
  unfold checks, mbind, M_bind, lift. destruct (resolve_path root path) as [t|]; [|done].
  rewrite resolve_path_top. unfold ensure. destruct (bool_decide (t ≠ root)); [|done].
  simpl. rewrite require_parent_eq. destruct (blocked t fs); [done|]. unfold gets.
  destruct (is_dir t fs); [done|]. simpl. split; [done|]. by intros t' [= ->].
Qed.

Section step.
Context (root : Path) (j : Job) (t : Path) (fs : HostFS).
Let tmp := tmp_of t (j_uuid4 j).
Context (wf : fs_wf fs) (resolved : resolve_path root (j_path j) = Ok t) (apart : ¬ tmp `prefix_of` t).

Definition step_good (out : HostFS * phase) : Prop :=
  kept fs out.1 ∧ tmp_ok j t out.2 (out.1 !! tmp) ∧ ∀ q, q ≠ tmp → job_change j t out.2 fs out.1 q.

Lemma step_same ph : tmp_ok j t ph (fs !! tmp) → step_good (fs, ph).
Proof. intros H. split_and!; [done|done|]. by left. Qed.

Lemma step_tmp ph fs' : kept fs fs' → tmp_ok j t ph (fs' !! tmp) → (∀ q, q ≠ tmp → fs' !! q = fs !! q) →
  step_good (fs', ph).
Proof. intros Hk Ht Hq. split_and!; [done|done|]. intros q Hne. left. by apply Hq. Qed.

Lemma tmp_not_nil : tmp ≠ [].
Proof. unfold tmp, tmp_of. by destruct (parent t). Qed.

Lemma step_checking : fs !! tmp = None → step_good (job_step root j Checking fs).
Proof.
  intros Hn. cbn [job_step]. destruct (checks_ok root (j_path j) fs) as [H1 H2].
  destruct (checks root (j_path j) fs) as [fs' [t'|e]]; simpl in *; subst fs'; apply step_same; simpl.
  - specialize (H2 _ eq_refl). split; [congruence|done].
  - split; [done|]. by intros n.
Qed.

Lemma step_making : fs !! tmp = None → step_good (job_step root j (Making t) fs).
Proof.
  intros Hn. cbn [job_step]. pose proof (grown_mkdir (parent t) true fs) as [Hk Hg].
  assert (parent t `prefix_of` t) as Hpre by (unfold parent, init_of; apply prefix_take).
  assert ((mkdir (parent t) true fs).1 !! tmp = None) as Hn'.
  { destruct (Hg tmp) as [->|(_ & Hp & _)]; [done|]. destruct apart. by etrans. }
  assert (∀ q ph', q ≠ tmp → job_change j t ph' fs (mkdir (parent t) true fs).1 q) as Hc.
  { intros q ph' _. destruct (Hg q) as [|(? & ? & ?)]; [by left|]. right. left. split_and!; [done|by etrans|done]. }
  destruct (mkdir (parent t) true fs) as [fs' [u|e]]; simpl in *; split_and!; simpl; try done.
  all: intros q Hq; by apply Hc.
Qed.

Lemma step_opening : fs !! tmp = None → step_good (job_step root j (Opening t) fs).
Proof.
  intros Hn. cbn [job_step]. fold tmp. destruct (open_wb_result tmp fs tmp_not_nil) as [[Ho He]|[Ho Hk]]; rewrite Ho.
  - destruct (open_wb tmp fs).2 as [u|e]; [by destruct (He u)|]. apply step_same. simpl. by rewrite Hn.
  - apply step_tmp; [by apply Hk| |intros q Hq; by rewrite lookup_insert_ne].
    rewrite lookup_insert_eq. simpl. split; [done|]. by exists [].
Qed.

Lemma step_writing rest n : tmp_ok j t (Writing t rest n) (fs !! tmp) →
  step_good (job_step root j (Writing t rest n) fs).
Proof.
  intros (_ & sent & Hs & Ht & ->). destruct rest as [|chunk rest]; cbn [job_step].
  - rewrite app_nil_r in Hs. destruct (j_broken j) eqn:Hb; apply step_same; simpl; rewrite Ht; [done|].
    by rewrite Hs.
  - fold tmp. unfold append_to. rewrite Ht. apply step_tmp.
    + apply kept_put_file; [apply tmp_not_nil|congruence|]. apply (wf_parent _ wf). eauto.
    + rewrite lookup_insert_eq. simpl. split; [done|]. exists (sent ++ [chunk]).
      rewrite concat_app. simpl. rewrite app_nil_r, zlen_app, <-app_assoc. done.
    + intros q Hq. by rewrite lookup_insert_ne.
Qed.

Lemma step_replacing n : tmp_ok j t (Replacing t n) (fs !! tmp) → step_good (job_step root j (Replacing t n) fs).
Proof.
  intros (_ & Hb & Ht & ->). cbn [job_step]. fold tmp.
  assert (tmp ≠ t) as Hne by (intros Heq; apply apart; by rewrite Heq).
  unfold os_replace. rewrite Ht.
  assert (fs !! t ≠ Some HDir → fs !! parent t = Some HDir →
    step_good (<[t := HFile (concat (j_chunks j))]> (delete tmp fs), Done (Ok (zlen (concat (j_chunks j)))))) as Hgood.
  { intros Hd Hp. split_and!; simpl.
    - etrans; [apply (kept_delete_nondir tmp); congruence|]. apply kept_put_file.
      + intros ->. by rewrite (wf_root _ wf) in Hd.
      + by rewrite lookup_delete_ne.
      + rewrite lookup_delete_ne; [done|]. congruence.
    - rewrite lookup_insert_ne, lookup_delete_eq by done. split; [done|]. by intros n [= <-].
    - intros q Hq. destruct (decide (q = t)) as [->|].
      + right. right. rewrite lookup_insert_eq. eauto.
      + left. by rewrite lookup_insert_ne, lookup_delete_ne. }
  destruct (fs !! t) as [[|c]|] eqn:Hl.
  - apply step_same. simpl. by rewrite Ht.
  - apply Hgood; [done|]. apply (wf_parent _ wf). eauto.
  - destruct (is_dir (parent t) fs) eqn:Hd; [apply Hgood; [done|by apply is_dir_iff]|].
    apply step_same. simpl. by rewrite Ht.
Qed.

Lemma step_cleaning e : fs !! tmp ≠ Some HDir → step_good (job_step root j (Cleaning t e) fs).
Proof.
  intros Hd. cbn [job_step]. fold tmp. unfold unlink_missing_ok, os_unlink.
  destruct (fs !! tmp) as [[|c]|] eqn:Hl; [done| |].
  - simpl. apply step_tmp; [apply kept_delete_nondir; congruence| |intros q Hq; by rewrite lookup_delete_ne].
    rewrite lookup_delete_eq. by split.
  - unfold fail, raise. destruct (walk_error tmp fs); apply step_same; simpl; by rewrite Hl.
Qed.

Lemma job_step_good ph : tmp_ok j t ph (fs !! tmp) → step_good (job_step root j ph fs).
Proof.
  destruct ph as [|t'|t'|t' rest n|t' n|t' e|r]; intros H.
  - by apply step_checking.
  - destruct H as [-> H]. by apply step_making.
  - destruct H as [-> H]. by apply step_opening.
  - pose proof H as [-> _]. by apply step_writing.
  - pose proof H as [-> _]. by apply step_replacing.
  - destruct H as [-> H]. by apply step_cleaning.
  - by apply step_same.
Qed.
End step.

(** * Other calls *)

(** The virtual path a call that is no upload is about. *)
Definition call_path (c : fs_call) : option string :=
  match c with
  | CListDir path | CMakeDir path | CRemoveDir path | CRemove path | CDownload path => Some path
  | CUpload _ _ _ => None
  end.

Lemma call_effect root c fs path : fs_wf fs → call_path c = Some path →
  (serve root c fs).1 = fs ∨
  ∃ t, resolve_path root path = Ok t ∧ ∀ q,
    (serve root c fs).1 !! q = fs !! q
    ∨ (q = t ∧ (serve root c fs).1 !! q = None)
    ∨ (fs !! q = None ∧ q `prefix_of` t ∧ (serve root c fs).1 !! q = Some HDir).
Proof.
  intros Hwf. rewrite serve_state.
  destruct c as [vp|vp|vp|vp|? ? ?|vp]; simpl; rewrite ?bind_ret_state; intros [= <-].
  - left. destruct (resolve_path root vp) as [t|] eqn:Hr; [by rewrite (list_dir_eq _ _ _ _ Hr)|].
    unfold list_dir. by rewrite Hr.
  - destruct (resolve_path root vp) as [t|] eqn:Hr; [|left; unfold make_dir; by rewrite Hr].
    rewrite (make_dir_eq _ _ _ _ Hwf Hr). destruct (blocked t fs), (exists_ t fs); [by left..|].
    right. exists t. split; [done|]. intros q. simpl. rewrite lookup_with_dirs.
    destruct (fs !! q); [by left|]. case_decide; [right; by right|by left].
  - destruct (resolve_path root vp) as [t|] eqn:Hr; [|left; unfold remove_dir; by rewrite Hr].
    rewrite (remove_dir_eq _ _ _ _ Hr). destruct (fs !! t) as [[]|] eqn:Hl; [case_decide|..]; [|by left..].
    right. exists t. split; [done|]. intros q. simpl. destruct (decide (q = t)) as [->|].
    + right. left. split; [done|apply lookup_delete_eq].
    + left. by rewrite lookup_delete_ne.
  - destruct (resolve_path root vp) as [t|] eqn:Hr; [|left; unfold remove_file; by rewrite Hr].
    rewrite (remove_file_eq _ _ _ _ Hr). destruct (fs !! t) as [[]|] eqn:Hl; [by left| |by left].
    right. exists t. split; [done|]. intros q. simpl. destruct (decide (q = t)) as [->|].
    + right. left. split; [done|apply lookup_delete_eq].
    + left. by rewrite lookup_delete_ne.
  - left. by rewrite read_state.
Qed.

(** * Interleavings *)

Section interleaving.
Context (root : Path) (jobs : list Job) (fs0 : HostFS).

(** The target and the temporary path of the job [i]. *)
Definition target_of (i : nat) (t : Path) : Prop :=
  ∃ j, jobs !! i = Some j ∧ resolve_path root (j_path j) = Ok t.
Definition tmp_of_job (i : nat) (p : Path) : Prop :=
  ∃ j t, jobs !! i = Some j ∧ resolve_path root (j_path j) = Ok t ∧ p = tmp_of t (j_uuid4 j).

(** [uuid4] makes names nobody has: at the start, among the jobs, and in what the
    clients ask for. *)
Record fresh_names (schedule : list move) : Prop := {
  fn_initial i p : tmp_of_job i p → fs0 !! p = None;
  fn_distinct i i' p : tmp_of_job i p → tmp_of_job i' p → i = i';
  fn_targets i i' p t : tmp_of_job i p → target_of i' t → ¬ p `prefix_of` t;
  fn_calls c : MCall c ∈ schedule →
    ∃ path, call_path c = Some path ∧
      ∀ i p t, tmp_of_job i p → resolve_path root path = Ok t → ¬ p `prefix_of` t
}.

Definition job_ok (j : Job) (ph : phase) (fs : HostFS) : Prop :=
  match resolve_path root (j_path j) with
  | Ok t => tmp_ok j t ph (fs !! tmp_of t (j_uuid4 j))
  | Err _ => ph = Checking ∨ ∃ e, ph = Done (Err e)
  end.

(** A job that finished, and published its content at [p]. *)
Definition published (phases : list phase) (p : Path) (content : list Z) : Prop :=
  ∃ i j n, jobs !! i = Some j ∧ phases !! i = Some (Done (Ok n)) ∧ resolve_path root (j_path j) = Ok p
    ∧ j_broken j = None ∧ content = concat (j_chunks j).

Record uploads_ok (s : uploads) : Prop := {
  uo_anchored : anchored root s.1;
  uo_jobs i j ph : jobs !! i = Some j → s.2 !! i = Some ph → job_ok j ph s.1;
  uo_files p content : (∀ i, ¬ tmp_of_job i p) → s.1 !! p = Some (HFile content) →
    fs0 !! p = Some (HFile content) ∨ published s.2 p content
}.

Lemma tmp_of_job_intro i j t : jobs !! i = Some j → resolve_path root (j_path j) = Ok t →
  tmp_of_job i (tmp_of t (j_uuid4 j)).
Proof. intros Hj Hr. by exists j, t. Qed.

Lemma step_done j ph fs r : ph = Done r → job_step root j ph fs = (fs, Done r).
Proof. by intros ->. Qed.

Lemma job_step_unresolved j ph fs e : resolve_path root (j_path j) = Err e →
  ph = Checking ∨ (∃ e', ph = Done (Err e')) → (job_step root j ph fs).1 = fs ∧ ∃ e', (job_step root j ph fs).2 = Done (Err e').
Proof.
  intros Hr [->|[e' ->]]; [|eauto]. cbn [job_step]. unfold checks, mbind, M_bind, lift. rewrite Hr. eauto.
Qed.

Lemma anchored_kept fs fs' : anchored root fs → kept fs fs' → anchored root fs'.
Proof. intros [H1 H2] [H3 H4]. split; auto. Qed.

(** Publications stay when a job moves: a job that is done stays done. *)
Lemma published_insert phases i j ph fs p content :
  jobs !! i = Some j → phases !! i = Some ph →
  published phases p content → published (<[i := (job_step root j ph fs).2]> phases) p content.
Proof.
  intros Hj Hph (k & j' & n & Hk & Hp & Hrest). exists k, j', n. split; [done|]. split; [|done].
  destruct (decide (k = i)) as [->|].
  - rewrite Hp in Hph. injection Hph as <-. rewrite list_lookup_insert_eq; [done|]. by eapply lookup_lt_Some.
  - by rewrite list_lookup_insert_ne.
Qed.

Lemma job_move_ok schedule s i : fresh_names schedule → uploads_ok s → uploads_ok (upload_move root jobs s (MJob i)).
Proof.
  intros Hf [Ha Hj Hp]. simpl. destruct (jobs !! i) as [j|] eqn:Hi; [|done].
  destruct (s.2 !! i) as [ph|] eqn:Hph; [|done].
  pose proof (Hj _ _ _ Hi Hph) as Hok. unfold job_ok in Hok.
  assert (i < length s.2) as Hlt by by eapply lookup_lt_Some.
  destruct (resolve_path root (j_path j)) as [t|e] eqn:Hr.
  2: { destruct (job_step_unresolved j ph s.1 e Hr Hok) as [H1 [e' H2]]. split; simpl; rewrite ?H1; [done| |].
       - intros k j' ph' Hk Hph'. destruct (decide (k = i)) as [->|].
         + rewrite list_lookup_insert_eq in Hph' by done. simplify_eq. unfold job_ok. rewrite Hr. eauto.
         + rewrite list_lookup_insert_ne in Hph' by done. by eapply Hj.
       - intros p content Hnt Hc. destruct (Hp _ _ Hnt Hc); [by left|right]. by apply published_insert. }
  pose proof (tmp_of_job_intro _ _ _ Hi Hr) as Htj.
  assert (¬ tmp_of t (j_uuid4 j) `prefix_of` t) as Hap by (eapply fn_targets; [done|done|by exists j]).
  destruct (job_step_good root j t s.1 (proj1 Ha) Hr Hap ph Hok) as (Hk & Ht & Hc).
  split; simpl.
  - by eapply anchored_kept.
  - intros k j' ph' Hk' Hph'. destruct (decide (k = i)) as [->|Hne].
    + rewrite list_lookup_insert_eq in Hph' by done. simplify_eq. unfold job_ok. by rewrite Hr.
    + rewrite list_lookup_insert_ne in Hph' by done. specialize (Hj _ _ _ Hk' Hph'). unfold job_ok in *.
      destruct (resolve_path root (j_path j')) as [t'|] eqn:Hr'; [|done].
      pose proof (tmp_of_job_intro _ _ _ Hk' Hr') as Htj'.
      assert (tmp_of t' (j_uuid4 j') ≠ tmp_of t (j_uuid4 j)) as Hne'.
      { intros Heq. rewrite Heq in Htj'. apply Hne. by eapply fn_distinct. }
      assert (¬ tmp_of t' (j_uuid4 j') `prefix_of` t) as Hap' by (eapply fn_targets; [done|done|by exists j]).
      destruct (Hc _ Hne') as [->|[(_ & ? & _)|(Heq & _)]]; [done|done|]. destruct Hap'. by rewrite Heq.
  - intros p content Hnt Hpc. assert (p ≠ tmp_of t (j_uuid4 j)) as Hne by (intros ->; by eapply Hnt).
    destruct (Hc _ Hne) as [Heq|[(_ & _ & Heq)|(-> & [n Hd] & Hb & Heq)]]; [|congruence|].
    + rewrite Heq in Hpc. destruct (Hp _ _ Hnt Hpc); [by left|right]. by apply published_insert.
    + right. exists i, j, n. rewrite list_lookup_insert_eq, Hd by done. split_and!; congruence.
Qed.

Lemma call_move_ok schedule s c : fresh_names schedule → MCall c ∈ schedule → uploads_ok s →
  uploads_ok (upload_move root jobs s (MCall c)).
Proof.
  intros Hf Hin [Ha Hj Hp]. simpl.
  assert (anchored root (serve root c s.1).1) as Ha' by by apply (serve_confined root c).
  destruct (fn_calls _ Hf c Hin) as (path & Hcp & Hap).
  pose proof (call_effect root c s.1 path (proj1 Ha) Hcp) as He.
  assert (∀ i p, tmp_of_job i p → (serve root c s.1).1 !! p = s.1 !! p) as Htmp.
  { intros i p Hi. destruct He as [->|(t & Hr & He)]; [done|].
    specialize (Hap i p t Hi Hr).
    destruct (He p) as [->|[(-> & _)|(_ & Hpre & _)]]; [done|by destruct Hap|done]. }
  split; simpl; [done| |].
  - intros i j ph Hi Hph. specialize (Hj _ _ _ Hi Hph). unfold job_ok in *.
    destruct (resolve_path root (j_path j)) as [t|] eqn:Hr; [|done].
    by rewrite (Htmp i) by by apply tmp_of_job_intro.
  - intros p content Hnt Hpc. apply Hp; [done|].
    destruct He as [He|(t & Hr & He)]; [by rewrite He in Hpc|].
    destruct (He p) as [<-|[(_ & Hn)|(_ & _ & Hn)]]; [done|congruence..].
Qed.

Lemma run_uploads_ok schedule : anchored root fs0 → fresh_names schedule →
  uploads_ok (run_uploads root jobs schedule fs0).
Proof.
  intros Ha Hf. assert (uploads_ok (fs0, (λ _, Checking) <$> jobs)) as H0.
  { split; simpl; [done| |by left]. intros i j ph Hi Hph.
    rewrite list_lookup_fmap, Hi in Hph. injection Hph as <-. unfold job_ok.
    destruct (resolve_path root (j_path j)) eqn:Hr; [|by left].
    eapply fn_initial; [done|by apply tmp_of_job_intro]. }
  unfold run_uploads. clear Ha. revert H0. generalize (fs0, (λ _ : Job, Checking) <$> jobs) as s.
  assert (∀ ms s, (∀ m, m ∈ ms → m ∈ schedule) → uploads_ok s → uploads_ok (foldl (upload_move root jobs) s ms)) as H.
  { intros ms. induction ms as [|m ms IH]; intros s Hsub H0; [done|]. simpl. apply IH; [set_solver|].
    destruct m as [i|c]; [by eapply job_move_ok|]. eapply call_move_ok; [done| |done]. apply Hsub. left. }
  intros s. by apply H.
Qed.

(** C29. However the uploads and the other calls interleave, every file of the host is at all
    times what it was at the start, or exactly the content of one upload that finished for
    that path without error; an upload that is done has no temporary file, and one that
    returned reports the length of what it was sent. *)
Theorem uploads_never_mix schedule : fs_wf fs0 → fs0 !! parent root = Some HDir → fresh_names schedule →
  let s := run_uploads root jobs schedule fs0 in
  (∀ p content, (∀ i, ¬ tmp_of_job i p) → s.1 !! p = Some (HFile content) →
     fs0 !! p = Some (HFile content) ∨ published s.2 p content)
  ∧ (∀ i j r p, jobs !! i = Some j → s.2 !! i = Some (Done r) → tmp_of_job i p → s.1 !! p = None
       ∧ ∀ n, r = Ok n → n = zlen (concat (j_chunks j))).
Proof.
  intros Hwf Hp Hf s. destruct (run_uploads_ok schedule (conj Hwf Hp) Hf) as [_ Hj Hfiles]. fold s in Hj, Hfiles.
  split; [done|]. intros i j r p Hi Hd (j' & t & Hi' & Hr & ->). simplify_eq.
  specialize (Hj _ _ _ Hi Hd). unfold job_ok in Hj. rewrite Hr in Hj. destruct Hj as [Ht Hn].
  split; [done|]. intros n ->. by apply Hn.
Qed.
End interleaving.

(** * A concrete race: two uploads to one path, one of them broken at the end, and a
    removal in between. *)

Definition race_jobs : list Job :=
  [mkJob "/f" [[1%Z]; [2%Z]] None "u0"; mkJob "/a/../f" [[3%Z]; [4%Z]] None "u1"; mkJob "f" [[5%Z]] (Some (Exn PyError)) "u2"].
Definition race_schedule : list move :=
  [MJob 0; MJob 1; MJob 0; MJob 1; MJob 2; MJob 2; MJob 0; MJob 1; MJob 2; MJob 0; MJob 1; MJob 2; MJob 0; MJob 1;
   MJob 2; MJob 0; MJob 1; MJob 0; MCall (CRemove "f"); MJob 1; MJob 2].

Lemma race_targets i j t : race_jobs !! i = Some j → resolve_path demo_root (j_path j) = Ok t → t = ["srv"; "f"].
Proof.
  intros Hi Hr. destruct i as [|[|[|i]]]; simplify_eq/=; vm_compute in Hr; congruence.
Qed.

Lemma race_fresh : fresh_names demo_root race_jobs demo_host race_schedule.
Proof.
  assert (∀ i p, tmp_of_job demo_root race_jobs i p → ∃ j, race_jobs !! i = Some j ∧ p = ["srv"; "f.part-" +:+ j_uuid4 j]) as Htmp.
  { intros i p (j & t & Hi & Hr & ->). rewrite (race_targets i j t Hi Hr). eauto. }
  assert (∀ p x, p = ["srv"; "f.part-" +:+ x] → ¬ p `prefix_of` ["srv"; "f"]) as Hapart.
  { intros p x -> [k Hk]. discriminate Hk. }
  split.
  - intros i p (j & Hi & ->)%Htmp. destruct i as [|[|[|i]]]; simplify_eq/=; vm_compute; reflexivity.
  - intros i i' p (j & Hi & ->)%Htmp (j' & Hi' & Heq)%Htmp.
    destruct i as [|[|[|i]]], i' as [|[|[|i']]]; simplify_eq/=; reflexivity.
  - intros i i' p t (j & Hi & Hp)%Htmp (j' & Hj & Hr). rewrite (race_targets i' j' t Hj Hr). by eapply Hapart.
  - intros c Hc. assert (c = CRemove "f") as ->.
    { unfold race_schedule in Hc. repeat (apply elem_of_cons in Hc as [Hc|Hc]; [congruence|]).
      by apply not_elem_of_nil in Hc. }
    exists "f". split; [done|]. intros i p t (j & Hi & Hp)%Htmp Hr. vm_compute in Hr. injection Hr as <-.
    by eapply Hapart.
Qed.

Lemma uploads_never_mix_witness :
  let s := run_uploads demo_root race_jobs race_schedule demo_host in
  s.1 !! ["srv"; "f"] = Some (HFile [3%Z; 4%Z])
  ∧ published demo_root race_jobs s.2 ["srv"; "f"] [3%Z; 4%Z].
Proof.
  intros s. assert (s.1 !! ["srv"; "f"] = Some (HFile [3%Z; 4%Z])) as Hf by (vm_compute; reflexivity).
  destruct (uploads_never_mix demo_root race_jobs demo_host race_schedule) as [Hfiles _].
  - apply fs_check_ok. vm_compute. reflexivity.
  - vm_compute. reflexivity.
  - exact race_fresh.
  - split; [exact Hf|]. destruct (Hfiles ["srv"; "f"] [3%Z; 4%Z]) as [H|H].
    + intros i (j & t & Hi & Hr & He). rewrite (race_targets i j t Hi Hr) in He. discriminate He.
    + exact Hf.
    + vm_compute in H. discriminate H.
    + exact H.
Defined.
