(* ===== verification/ShellWords.v ===== *)
(** The words of the shell (dfsha/client/shell.py): how a file is shown as text, how a
    line splits into words, how a path resolves, and the numbers and columns of the
    commands. *)

From S2P Require Import Prelude Exceptions Crypto Bytes Paths BlockToken Addresses.

(** [bytes.decode("utf-8", errors="replace")] on bytes, as the shell prints the content
    of a file: a byte sequence that is no UTF-8 becomes U+FFFD, one for each maximal
    part that could have begun a character.  The result is again UTF-8 bytes. *)
Open Scope Z_scope.

(** U+FFFD. *)
Definition replacement : list Z := [239; 191; 189].

(** What a first byte announces: how many bytes follow, and the range of the next one. *)
Definition lead (b : Z) : option (nat * Z * Z) :=
  if (0 <=? b) && (b <=? 127) then Some (0%nat, 0, 0)
  else if (194 <=? b) && (b <=? 223) then Some (1%nat, 128, 191)
  else if b =? 224 then Some (2%nat, 160, 191)
  else if b =? 237 then Some (2%nat, 128, 159)
  else if (225 <=? b) && (b <=? 239) then Some (2%nat, 128, 191)
  else if b =? 240 then Some (3%nat, 144, 191)
  else if (241 <=? b) && (b <=? 243) then Some (3%nat, 128, 191)
  else if b =? 244 then Some (3%nat, 128, 143)
  else None.

(** [pending]: the bytes of the character being read; [need] more are to come, the next
    one between [lo] and [hi]. *)
Fixpoint decode_from (pending : list Z) (need : nat) (lo hi : Z) (l : list Z) : list Z :=
  match l with
  | [] => match need with O => [] | S _ => replacement end
  | b :: l' =>
      match need with
      | S need' =>
          if (lo <=? b) && (b <=? hi) then
            match need' with
            | O => pending ++ b :: decode_from [] 0 0 0 l'
            | S _ => decode_from (pending ++ [b]) need' 128 191 l'
            end
          else replacement ++
            match lead b with
            | Some (O, _, _) => b :: decode_from [] 0 0 0 l'
            | Some (n, lo', hi') => decode_from [b] n lo' hi' l'
            | None => replacement ++ decode_from [] 0 0 0 l'
            end
      | O =>
          match lead b with
          | Some (O, _, _) => b :: decode_from [] 0 0 0 l'
          | Some (n, lo', hi') => decode_from [b] n lo' hi' l'
          | None => replacement ++ decode_from [] 0 0 0 l'
          end
      end
  end.

Definition decode_replace (l : list Z) : list Z := decode_from [] 0 0 0 l.

(** Well-formed UTF-8. *)
Fixpoint valid_from (need : nat) (lo hi : Z) (l : list Z) : bool :=
  match l with
  | [] => match need with O => true | S _ => false end
  | b :: l' =>
      match need with
      | S need' => (lo <=? b) && (b <=? hi) && valid_from need' 128 191 l'
      | O => match lead b with
             | Some (n, lo', hi') => valid_from n lo' hi' l'
             | None => false
             end
      end
  end.
Definition valid_utf8 (l : list Z) : bool := valid_from 0 0 0 l.

Lemma valid_done lo hi l : valid_from 0 lo hi l = valid_from 0 0 0 l.
Proof. by destruct l. Qed.

(** A text comes out as it is. *)
Lemma decode_valid_from pending need lo hi l : (need = 0%nat → pending = []) → valid_from need lo hi l = true →
  decode_from pending need lo hi l = pending ++ l.
Proof.
  revert pending need lo hi. induction l as [|b l IH]; intros pending need lo hi Hp Hv; simpl in *.
  { destruct need; [|done]. by rewrite Hp. }
  destruct need as [|need].
  - rewrite Hp by done. destruct (lead b) as [[[n lo'] hi']|]; [|done].
    destruct n as [|n]; [|by rewrite IH]. rewrite valid_done in Hv. by rewrite IH.
  - apply andb_prop in Hv as [-> Hv]. destruct need as [|need].
    + rewrite valid_done in Hv. by rewrite IH.
    + rewrite IH by done. by rewrite <-app_assoc.
Qed.

Lemma decode_valid l : valid_utf8 l = true → decode_replace l = l.
Proof. apply decode_valid_from. done. Qed.

(** What comes out is a text. *)
Definition prefix_valid (need : nat) (lo hi : Z) (pending : list Z) : Prop :=
  ∀ l, valid_from need lo hi l = true → valid_utf8 (pending ++ l) = true.

Lemma valid_replacement l : valid_utf8 (replacement ++ l) = valid_utf8 l.
Proof. exact (valid_done 128 191 l). Qed.

Lemma nothing_pending lo hi : prefix_valid 0 lo hi [].
Proof. intros l. by rewrite valid_done. Qed.

Lemma decode_from_valid pending need lo hi l : prefix_valid need lo hi pending → (need = 0%nat → pending = []) →
  valid_utf8 (decode_from pending need lo hi l) = true.
Proof.
  revert pending need lo hi. induction l as [|b l IH]; intros pending need lo hi Hv Hp; simpl.
  { by destruct need. }
  assert (valid_utf8 (decode_from [] 0 0 0 l) = true) as Hrest by (apply IH; [apply nothing_pending|done]).
  assert (∀ n lo' hi', lead b = Some (n, lo', hi') → n ≠ 0%nat → prefix_valid n lo' hi' [b]) as Hlead.
  { intros n lo' hi' Hl _ l' Hl'. unfold valid_utf8. simpl. by rewrite Hl. }
  assert (valid_utf8 (match lead b with
    | Some (O, _, _) => b :: decode_from [] 0 0 0 l
    | Some (n, lo', hi') => decode_from [b] n lo' hi' l
    | None => replacement ++ decode_from [] 0 0 0 l end) = true) as Hstart.
  { destruct (lead b) as [[[n lo'] hi']|] eqn:Hb; [|by rewrite valid_replacement].
    destruct n as [|n]; [|apply IH; [by apply Hlead|done]].
    unfold valid_utf8. simpl. by rewrite Hb, valid_done. }
  destruct need as [|need]; [done|].
  destruct ((lo <=? b) && (b <=? hi)) eqn:Hr; [|exact (eq_trans (valid_replacement _) Hstart)].
  destruct need as [|need].
  - apply Hv. simpl. rewrite Hr. simpl. by rewrite valid_done.
  - apply IH; [|done]. intros l' Hl'. rewrite <-app_assoc. apply Hv. simpl. by rewrite Hr.
Qed.

Lemma decode_is_valid l : valid_utf8 (decode_replace l) = true.
Proof. apply decode_from_valid; [apply nothing_pending|done]. Qed.

(** The text of the shell (dfsha/client/shell.py): words of a command line, virtual and
    local paths, numbers and columns, with the functions of [shlex], [posixpath],
    [pathlib] and [str] they use.

    Strings are UTF-8 bytes; the whitespace and the digits of the other planes of Unicode,
    which [int] and [str.strip] also accept, are not modelled. *)

Local Open Scope nat_scope.

(** * Words of a command line *)

Definition dquote : ascii := "034"%char.
Definition squote : ascii := "'"%char.
(** [shlex.whitespace] and [shlex.quotes]. *)
Definition shlex_space (a : ascii) : bool :=
  Ascii.eqb a " " || Ascii.eqb a "009" || Ascii.eqb a "013" || Ascii.eqb a "010".
Definition shlex_quote (a : ascii) : bool := Ascii.eqb a squote || Ascii.eqb a dquote.

(** The state of [shlex.read_token]: between tokens, inside quotes, or in a word. *)
Inductive lex_state := Blank | Quoted (by_ : ascii) | InWord.

(** The tokens of the rest of a line, for [shlex.shlex(line, posix=True)] with
    [whitespace_split], no escapes and no comments; [token] is the token so far and
    [quoted] tells that part of it was between quotes.  A token is emitted when it is
    not empty or was quoted. *)
Definition emit (token : string) (quoted : bool) (tokens : list string) : list string :=
  if bool_decide (token ≠ "") || quoted then token :: tokens else tokens.

Fixpoint read_tokens (state : lex_state) (token : string) (quoted : bool) (s : string)
    : result string (list string) :=
  match s with
  | EmptyString =>
      match state with
      | Quoted _ => Err "No closing quotation"
      | _ => Ok (emit token quoted [])
      end
  | String c s' =>
      match state with
      | Blank =>
          if shlex_space c then read_tokens Blank token quoted s'
          else if shlex_quote c then read_tokens (Quoted c) token quoted s'
          else read_tokens InWord (token +:+ String c "") quoted s'
      | Quoted q =>
          if Ascii.eqb c q then read_tokens InWord token true s'
          else read_tokens (Quoted q) (token +:+ String c "") true s'
      | InWord =>
          if shlex_space c then
            if bool_decide (token ≠ "") || quoted then cons token <$> read_tokens Blank "" false s'
            else read_tokens Blank token quoted s'
          else if shlex_quote c then read_tokens (Quoted c) token quoted s'
          else read_tokens InWord (token +:+ String c "") quoted s'
      end
  end.

Definition split_command (line : string) : result string (list string) := read_tokens Blank "" false line.

(** * Paths *)

Fixpoint starts_with (p s : string) : bool :=
  match p, s with
  | EmptyString, _ => true
  | String a p', String b s' => Ascii.eqb a b && starts_with p' s'
  | _, _ => false
  end.
Fixpoint ends_with (c : ascii) (s : string) : bool :=
  match s with
  | EmptyString => false
  | String a EmptyString => Ascii.eqb a c
  | String _ s' => ends_with c s'
  end.

(** [posixpath.join(a, b)] for a [b] that is not absolute. *)
Definition posix_join (a b : string) : string :=
  if bool_decide (a = "") || ends_with slash a then a +:+ b else a +:+ "/" +:+ b.

(** The loop of [posixpath.normpath] over the components. *)
Definition norm_comp (initial : bool) (new_comps : list string) (comp : string) : list string :=
  if decide (comp = "" ∨ comp = ".") then new_comps
  else if bool_decide (comp ≠ "..") || (negb initial && bool_decide (new_comps = []))
          || (bool_decide (new_comps ≠ []) && bool_decide (last_str new_comps = ".."))
  then new_comps ++ [comp]
  else init_of new_comps.

Definition initial_slashes (path : string) : nat :=
  if starts_with "/" path then
    if starts_with "//" path && negb (starts_with "///" path) then 2 else 1
  else 0.

Fixpoint repeat_str (n : nat) (s : string) : string :=
  match n with O => "" | S n' => s +:+ repeat_str n' s end.

Definition normpath (path : string) : string :=
  if decide (path = "") then "."
  else
    let initial := initial_slashes path in
    let comps := foldl (norm_comp (bool_decide (initial ≠ 0))) [] (split_on slash path) in
    let path' := repeat_str initial "/" +:+ join "/" comps in
    if decide (path' = "") then "." else path'.

Definition resolve_relative (current_dir target : string) : string :=
  let joined := if starts_with "/" target then target else posix_join current_dir target in
  let normalized := normpath joined in
  if decide (normalized = ".") then "/" else normalized.

(** [str(Path(s))] of a POSIX path. *)
Definition path_str (s : string) : string :=
  let comps := filter (λ c, c ≠ "" ∧ c ≠ ".") (split_on slash s) in
  let text := repeat_str (initial_slashes s) "/" +:+ join "/" comps in
  if decide (text = "") then "." else text.

(** * Numbers *)

Definition digit_of (c : ascii) : option Z :=
  let n := Z.of_N (N_of_ascii c) in
  if (48 <=? n)%Z && (n <=? 57)%Z then Some (n - 48)%Z else None.

(** The digits of [int], an underscore allowed between two of them: their value and
    how many there are. *)
Fixpoint digits (s : string) (after_digit : bool) (acc : Z) (count : nat) : option (Z * nat) :=
  match s with
  | EmptyString => if after_digit then Some (acc, count) else None
  | String c s' =>
      match digit_of c with
      | Some d => digits s' true (acc * 10 + d)%Z (S count)
      | None => if Ascii.eqb c "_" && after_digit then digits s' false acc count else None
      end
  end.

(** [sys.get_int_max_str_digits()]. *)
Definition MAX_STR_DIGITS : Z := 4300.

(** [int(s)]; [None] is [ValueError]. *)
Definition py_int (s : string) : option Z :=
  let text := str_strip s in
  let unsigned := match text with
                  | String c rest => if Ascii.eqb c "-" || Ascii.eqb c "+" then rest else text
                  | EmptyString => text
                  end in
  n ← digits unsigned false 0%Z 0;
  if (Z.of_nat n.2 <=? MAX_STR_DIGITS)%Z then Some (if starts_with "-" text then (- n.1)%Z else n.1) else None.

Fixpoint all_ints (values : list string) : option (list Z) :=
  match values with
  | [] => Some []
  | v :: rest => n ← py_int v; ns ← all_ints rest; Some (n :: ns)
  end.

Definition _parse_range (values : list string) : option (Z * option Z) :=
  numbers ← all_ints values;
  Some (default 0%Z (numbers !! 0), numbers !! 1).

(** [_OCTAL_MODE_RE.fullmatch], and [int(s, 8)] of what it accepts. *)
Definition octal_digit (c : ascii) : option Z :=
  d ← digit_of c; if (d <=? 7)%Z then Some d else None.
Fixpoint octal (s : string) (acc : Z) : option Z :=
  match s with
  | EmptyString => Some acc
  | String c s' => d ← octal_digit c; octal s' (acc * 8 + d)%Z
  end.
Definition octal_mode (s : string) : option Z :=
  if (1 <=? String.length s) && (String.length s <=? 3) then octal s 0%Z else None.

(** * Columns *)

(** [len(s)]: the bytes that begin a character. *)
Fixpoint char_count (s : string) : nat :=
  match s with
  | EmptyString => 0
  | String c s' =>
      let n := N_of_ascii c in
      if ((128 <=? n) && (n <=? 191))%N then char_count s' else S (char_count s')
  end.
(** [f"{s:<width}"] and [f"{s:>width}"]. *)
Definition pad_right (width : nat) (s : string) : string := s +:+ repeat_str (width - char_count s) " ".
Definition pad_left (width : nat) (s : string) : string := repeat_str (width - char_count s) " " +:+ s.

Definition _mode_string (is_dir : bool) (mode : Z) : string :=
  (if is_dir then "d" else "-") +:+
  join "" ((λ e, if Z.testbit mode (8 - Z.of_nat e.1) then e.2 else "-")
           <$> imap pair ["r"; "w"; "x"; "r"; "w"; "x"; "r"; "w"; "x"]).
