(* ===== verification/ShellFacts.v ===== *)
(** Lemmas on the text of the shell (ShellWords.v): what a command line spells, and where
    a relative path leads. *)

From S2P Require Import Prelude Exceptions Paths BlockToken Addresses ShellWords.
From S2P Require HostFs.

Local Open Scope nat_scope.

(** * What a line spells *)

Definition plain (c : ascii) : bool := negb (shlex_space c) && negb (shlex_quote c).

(** A piece of a word, and what it stands for: a plain character, or a text between
    quotes that holds no quote of the same kind.  A backslash is a plain character. *)
Inductive piece : string → string → Prop :=
| piece_plain c : plain c = true → piece (String c "") (String c "")
| piece_quoted q w : shlex_quote q = true → has_char q w = false → piece (String q (w +:+ String q "")) w.

(** A word: pieces side by side. *)
Inductive pieces_of : string → string → Prop :=
| pieces_nil : pieces_of "" ""
| pieces_cons t w text word : piece t w → pieces_of text word → pieces_of (t +:+ text) (w +:+ word).

Definition ends_word (line : string) : Prop :=
  match line with EmptyString => True | String c _ => shlex_space c = true end.

(** A line: words, and whitespace around them. *)
Inductive spells : string → list string → Prop :=
| spells_nil : spells "" []
| spells_space c line ws : shlex_space c = true → spells line ws → spells (String c line) ws
| spells_word text w line ws :
    text ≠ "" → pieces_of text w → ends_word line → spells line ws → spells (text +:+ line) (w :: ws).

Lemma quote_not_space q : shlex_quote q = true → shlex_space q = false.
Proof.
  unfold shlex_quote, squote, dquote. intros [H|H]%orb_prop; apply Ascii.eqb_eq in H as ->; reflexivity.
Qed.

Lemma snoc_append (s : string) c t : (s +:+ String c "") +:+ t = s +:+ String c t.
Proof. by rewrite append_assoc. Qed.

Lemma append_not_nil (s : string) c : s +:+ String c "" ≠ "".
Proof. by destruct s. Qed.

(** Inside quotes, up to the closing one. *)
Lemma read_quoted q tok b w rest : has_char q w = false →
  read_tokens (Quoted q) tok b (w +:+ String q rest) = read_tokens InWord (tok +:+ w) true rest.
Proof.
  revert tok b. induction w as [|c w IH]; intros tok b Hq.
  - rewrite append_nil_l, append_nil_r. simpl. by rewrite Ascii.eqb_refl.
  - simpl in Hq. apply orb_false_iff in Hq as [Hc Hq]. rewrite append_cons. simpl. rewrite Hc.
    rewrite IH by done. by rewrite snoc_append.
Qed.

(** The token so far, and whether it counts. *)
Definition begun (tok : string) (quoted : bool) : bool := bool_decide (tok ≠ "") || quoted.

Lemma read_piece state tok b t w rest : state = Blank ∨ state = InWord → piece t w →
  ∃ b', read_tokens state tok b (t +:+ rest) = read_tokens InWord (tok +:+ w) b' rest
    ∧ begun (tok +:+ w) b' = true.
Proof.
  intros Hs [c Hc|q u Hq Hu].
  - unfold plain in Hc. apply andb_prop in Hc as [H1%negb_true_iff H2%negb_true_iff]. exists b. split.
    + rewrite append_cons, append_nil_l. destruct Hs as [-> | ->]; simpl; by rewrite H1, H2.
    + unfold begun. rewrite bool_decide_true; [done|apply append_not_nil].
  - exists true. split; [|apply orb_true_r]. rewrite append_cons, append_assoc, append_cons, append_nil_l.
    pose proof (quote_not_space _ Hq) as Hns.
    destruct Hs as [-> | ->]; simpl; rewrite Hns, Hq; by apply read_quoted.
Qed.

Lemma read_pieces state tok b text w rest : state = Blank ∨ state = InWord → pieces_of text w → text ≠ "" →
  ∃ b', read_tokens state tok b (text +:+ rest) = read_tokens InWord (tok +:+ w) b' rest
    ∧ begun (tok +:+ w) b' = true.
Proof.
  intros Hs Hp. revert state tok b Hs. induction Hp as [|t u text w Ht Hp IH]; intros state tok b Hs Hne; [done|].
  rewrite !append_assoc. destruct (read_piece state tok b t u (text +:+ rest) Hs Ht) as (b1 & -> & Hb).
  destruct (decide (text = "")) as [->|Hnil].
  - inversion Hp as [|t' ? ? ? Ht' ? Heq]; subst; [|by destruct Ht'].
    rewrite append_nil_l, append_nil_r. eauto.
  - destruct (IH InWord (tok +:+ u) b1 (or_intror eq_refl) Hnil) as (b2 & -> & Hb2).
    rewrite append_assoc in Hb2 |- *. eauto.
Qed.

Lemma read_end tok b : begun tok b = true → read_tokens InWord tok b "" = Ok [tok].
Proof. intros H. simpl. unfold emit. fold (begun tok b). by rewrite H. Qed.

Lemma read_space tok b c rest : begun tok b = true → shlex_space c = true →
  read_tokens InWord tok b (String c rest) = cons tok <$> read_tokens Blank "" false rest.
Proof. intros H Hc. simpl. rewrite Hc. fold (begun tok b). by rewrite H. Qed.

Lemma split_spelled line ws : spells line ws → split_command line = Ok ws.
Proof.
  unfold split_command. induction 1 as [|c line ws Hc _ IH|text w line ws Hne Hp He _ IH]; [done| |].
  - simpl. by rewrite Hc.
  - destruct (read_pieces Blank "" false text w line (or_introl eq_refl) Hp Hne) as (b & -> & Hb).
    rewrite append_nil_l in Hb |- *. destruct line as [|c line].
    + rewrite read_end by done. simpl in IH. by injection IH as <-.
    + rewrite read_space by done. simpl in IH. rewrite He in IH. by rewrite IH.
Qed.

(** * The other way: what the lexer reads is spelled *)

Lemma quoted_inv q tok b s ws : read_tokens (Quoted q) tok b s = Ok ws →
  ∃ u rest, s = u +:+ String q rest ∧ has_char q u = false ∧ read_tokens InWord (tok +:+ u) true rest = Ok ws.
Proof.
  revert tok b. induction s as [|c s IH]; intros tok b H; [done|]. simpl in H.
  destruct (Ascii.eqb c q) eqn:Hc.
  - apply Ascii.eqb_eq in Hc as ->. exists "", s. rewrite append_nil_r. done.
  - destruct (IH _ _ H) as (u & rest & -> & Hu & Hr). exists (String c u), rest.
    rewrite append_cons. split_and!; [done| |by rewrite <-snoc_append].
    simpl. by rewrite Hc, Hu.
Qed.

Lemma length_quoted u q rest : String.length rest < String.length (u +:+ String q rest).
Proof. induction u as [|c u IH]; [simpl; lia|]. rewrite append_cons. simpl. lia. Qed.

(** The rest of a word, and of the line after it. *)
Definition word_rest (tok s : string) (ws : list string) : Prop :=
  ∃ text w rest ws', s = text +:+ rest ∧ pieces_of text w ∧ ends_word rest ∧ spells rest ws' ∧ ws = (tok +:+ w) :: ws'.

Lemma word_rest_piece tok t u s ws : piece t u → word_rest (tok +:+ u) s ws → word_rest tok (t +:+ s) ws.
Proof.
  intros Ht (text & w & rest & ws' & -> & Hp & He & Hs & ->).
  exists (t +:+ text), (u +:+ w), rest, ws'. rewrite !append_assoc. split_and!; try done. by constructor.
Qed.

Lemma spells_word_rest t u s ws : t ≠ "" → piece t u → word_rest u s ws → spells (t +:+ s) ws.
Proof.
  intros Hne Ht (text & w & rest & ws' & -> & Hp & He & Hs & ->). rewrite <-append_assoc.
  apply spells_word; [by destruct t| |done|done]. by constructor.
Qed.

Lemma piece_text_ne t u : piece t u → t ≠ "".
Proof. by intros []. Qed.

Lemma quoted_text u c rest : String c (u +:+ String c rest) = String c (u +:+ String c "") +:+ rest.
Proof. by rewrite append_cons, append_assoc, append_cons, append_nil_l. Qed.

(** The states of the lexer at once, on a string of at most [n] characters. *)
Lemma read_inv n s : String.length s ≤ n →
  (∀ ws, read_tokens Blank "" false s = Ok ws → spells s ws)
  ∧ (∀ tok b ws, begun tok b = true → read_tokens InWord tok b s = Ok ws → word_rest tok s ws).
Proof.
  revert s. induction n as [|n IH]; intros [|c s] Hn; try (simpl in Hn; lia).
  1, 2: split; [intros ws [= <-]; constructor|].
  1, 2: intros tok b ws Hb; rewrite read_end by done; intros [= <-].
  1, 2: exists "", "", "", []; rewrite (append_nil_r tok); split_and!; done || constructor.
  simpl in Hn. destruct (IH s ltac:(lia)) as [IHb IHw].
  assert (∀ tok b ws, plain c = true → read_tokens InWord (tok +:+ String c "") b s = Ok ws →
    word_rest (tok +:+ String c "") s ws) as Hplain.
  { intros tok b ws _ H. eapply IHw; [|done]. unfold begun. rewrite bool_decide_true; [done|apply append_not_nil]. }
  assert (∀ tok b ws, shlex_quote c = true → read_tokens (Quoted c) tok b s = Ok ws →
    ∃ t u rest, String c s = t +:+ rest ∧ piece t u ∧ word_rest (tok +:+ u) rest ws) as Hquote.
  { intros tok b ws Hq (u & rest & -> & Hu & Hr)%quoted_inv.
    pose proof (length_quoted u c rest) as Hl. destruct (IH rest ltac:(lia)) as [_ IHw'].
    exists (String c (u +:+ String c "")), u, rest. split_and!; [apply quoted_text|by constructor|].
    eapply IHw'; [|done]. apply orb_true_r. }
  split.
  - intros ws H. simpl in H. destruct (shlex_space c) eqn:Hs; [by apply spells_space, IHb|].
    destruct (shlex_quote c) eqn:Hq.
    + destruct (Hquote _ _ _ eq_refl H) as (t & u & rest & -> & Hp & Hw).
      eapply spells_word_rest; [by eapply piece_text_ne|done|done].
    + assert (plain c = true) as Hc by (unfold plain; by rewrite Hs, Hq).
      rewrite append_nil_l in H. apply (spells_word_rest (String c "") (String c "") s); [done|by constructor|].
      by apply (Hplain "" false).
  - intros tok b ws Hb H. destruct (shlex_space c) eqn:Hs.
    + rewrite read_space in H by done.
      destruct (read_tokens Blank "" false s) as [ws'|] eqn:Hr; [|done]. injection H as <-.
      exists "", "", (String c s), ws'. rewrite (append_nil_r tok). split_and!; try done; [constructor|].
      by apply spells_space, IHb.
    + simpl in H. rewrite Hs in H. destruct (shlex_quote c) eqn:Hq.
      * destruct (Hquote _ _ _ eq_refl H) as (t & u & rest & -> & Hp & Hw). by eapply word_rest_piece.
      * assert (plain c = true) as Hc by (unfold plain; by rewrite Hs, Hq).
        apply (word_rest_piece tok (String c "") (String c "") s); [by constructor|]. by apply (Hplain tok b).
Qed.

Lemma spelled_split line ws : split_command line = Ok ws → spells line ws.
Proof. by destruct (read_inv (String.length line) line) as [H _]; [|apply H]. Qed.

(** Every list of words can be typed. *)
Fixpoint quote_chars (w : string) : string :=
  match w with
  | EmptyString => ""
  | String c w' =>
      let q := if Ascii.eqb c dquote then squote else dquote in
      String q (String c (String q "")) +:+ quote_chars w'
  end.
Definition quote_word (w : string) : string := String dquote (String dquote (quote_chars w)).
Definition quote_line (ws : list string) : string := join " " (quote_word <$> ws).

Lemma quote_word_pieces w : pieces_of (quote_word w) w.
Proof.
  apply (pieces_cons (String dquote (String dquote "")) "" (quote_chars w) w); [by apply (piece_quoted dquote "")|].
  induction w as [|c w IH]; [constructor|]. cbn [quote_chars].
  apply (pieces_cons _ (String c "") _ w); [|done].
  apply (piece_quoted _ (String c "")); [by destruct (Ascii.eqb c dquote)|].
  simpl. rewrite orb_false_r. destruct (Ascii.eqb c dquote) eqn:Hc; [|done].
  by apply Ascii.eqb_eq in Hc as ->.
Qed.

Lemma quote_line_spells ws : spells (quote_line ws) ws.
Proof.
  unfold quote_line. induction ws as [|w ws IH]; [constructor|].
  destruct ws as [|w' ws].
  - rewrite <-(append_nil_r (join " " _)). apply spells_word; [done|apply quote_word_pieces|done|constructor].
  - change (join " " (quote_word <$> w :: w' :: ws)) with
      (quote_word w +:+ String " " (join " " (quote_word <$> w' :: ws))).
    apply spells_word; [done|apply quote_word_pieces|done|]. by apply spells_space.
Qed.

(** * Where a path leads *)

(** A proper component, and a directory as the shell writes it: one slash, or two, and
    proper components. *)
Definition proper (c : string) : Prop := c ≠ "" ∧ c ≠ "." ∧ c ≠ ".." ∧ has_char slash c = false.
Definition dir_text (k : nat) (ps : list string) : string := repeat_str k "/" +:+ join "/" ps.
Definition shell_dir (k : nat) (ps : list string) : Prop := (k = 1 ∨ k = 2) ∧ Forall proper ps.

(** Walking from a directory, component by component. *)
Definition destination (ps : list string) (target : string) : list string :=
  foldl HostFs.enter (if starts_with "/" target then [] else ps) (split_on slash target).

Lemma proper_comp_ok ps : Forall proper ps → Forall comp_ok ps.
Proof. intros Hp. eapply Forall_impl; [done|]. unfold proper, comp_ok. naive_solver. Qed.

Lemma enter_proper ps c : Forall proper ps → has_char slash c = false → Forall proper (HostFs.enter ps c).
Proof.
  intros Hp Hc. unfold HostFs.enter. case_decide as H1; [done|]. case_decide as H2; [by apply Forall_init|].
  apply Forall_app. split; [done|]. constructor; [|done]. unfold proper. naive_solver.
Qed.

Lemma enter_all_proper ps cs : Forall proper ps → Forall (λ c, has_char slash c = false) cs →
  Forall proper (foldl HostFs.enter ps cs).
Proof.
  intros Hp Hcs. revert ps Hp. induction Hcs as [|c cs Hc Hcs IH]; intros ps Hp; [done|].
  simpl. by apply IH, enter_proper.
Qed.

Lemma destination_proper ps target : Forall proper ps → Forall proper (destination ps target).
Proof.
  intros Hp. unfold destination. apply enter_all_proper; [by destruct (starts_with _ _)|apply split_on_no_sep].
Qed.

Lemma last_proper ps : Forall proper ps → last_str ps ≠ "..".
Proof.
  destruct (decide (ps = [])) as [->|Hne]; [done|]. intros Hp.
  by destruct (last_str_ok proper ps Hne Hp) as (_ & _ & ? & _).
Qed.

(** The loop of [normpath] on an absolute path is that walk. *)
Lemma norm_comp_enter ps c : Forall proper ps → norm_comp true ps c = HostFs.enter ps c.
Proof.
  intros Hp. unfold norm_comp, HostFs.enter. case_decide; [done|]. simpl.
  rewrite (bool_decide_false (last_str ps = "..")) by by apply last_proper.
  rewrite andb_false_r, !orb_false_r. case_decide as Hd.
  - by rewrite bool_decide_false by naive_solver.
  - by rewrite bool_decide_true.
Qed.

Lemma norm_comps_enter ps cs : Forall proper ps → Forall (λ c, has_char slash c = false) cs →
  foldl (norm_comp true) ps cs = foldl HostFs.enter ps cs.
Proof.
  intros Hp Hcs. revert ps Hp. induction Hcs as [|c cs Hc Hcs IH]; intros ps Hp; [done|].
  simpl. rewrite norm_comp_enter by done. apply IH. by apply enter_proper.
Qed.

(** The components of a directory bring back to it. *)
Lemma enter_own ps qs : Forall proper qs → foldl HostFs.enter ps qs = ps ++ qs.
Proof.
  intros Hq. revert ps. induction Hq as [|c qs (H1 & H2 & H3 & _) Hq IH]; intros ps; [by rewrite app_nil_r|].
  simpl. unfold HostFs.enter at 2. rewrite !decide_False by naive_solver. by rewrite IH, <-app_assoc.
Qed.

Lemma enter_nil ps : HostFs.enter ps "" = ps.
Proof. unfold HostFs.enter. by rewrite decide_True by (by left). Qed.

Lemma split_slash s : split_on slash ("/" +:+ s) = "" :: split_on slash s.
Proof. done. Qed.

Lemma split_dir_text k ps : Forall proper ps →
  foldl HostFs.enter [] (split_on slash (dir_text k ps)) = ps.
Proof.
  intros Hp. unfold dir_text. induction k as [|k IH].
  - simpl. rewrite append_nil_l. destruct (decide (ps = [])) as [->|Hne]; [done|].
    rewrite split_join by (done || by apply proper_comp_ok). by rewrite enter_own.
  - cbn [repeat_str]. rewrite append_assoc, split_slash. cbn [foldl]. by rewrite enter_nil.
Qed.

Lemma ends_with_app c (p s : string) : s ≠ "" → ends_with c (p +:+ s) = ends_with c s.
Proof.
  intros Hs. induction p as [|a p IH]; [done|]. rewrite append_cons. simpl.
  destruct (p +:+ s) eqn:He; [|done]. by destruct p, s.
Qed.

Lemma join_no_end ps : Forall proper ps → ps ≠ [] → ends_with slash (join "/" ps) = false ∧ join "/" ps ≠ "".
Proof.
  intros Hp. assert (∀ s : string, has_char slash s = false → ends_with slash s = false) as Hno.
  { intros s. induction s as [|a s IH]; [done|]. simpl. intros [Ha Hs]%orb_false_iff.
    destruct s; [done|]. by apply IH. }
  induction Hp as [|p ps (H1 & _ & _ & H2) Hp IH]; [done|]. intros _.
  destruct ps as [|q ps]; [split; [by apply Hno|done]|].
  destruct IH as [Hn He]; [done|].
  change (join "/" (p :: q :: ps)) with (p +:+ "/" +:+ join "/" (q :: ps)).
  split; [|by destruct p]. by rewrite !ends_with_app.
Qed.

(** The joined path of [resolve_relative]. *)
Lemma joined_walk k ps target : shell_dir k ps → starts_with "/" target = false →
  let joined := posix_join (dir_text k ps) target in
  foldl HostFs.enter [] (split_on slash joined) = foldl HostFs.enter ps (split_on slash target)
  ∧ starts_with "/" joined = true.
Proof.
  intros [Hk Hp] Ht joined. assert (dir_text k ps ≠ "" ∧ starts_with "/" (dir_text k ps) = true) as [Hne Hst].
  { destruct Hk as [-> | ->]; done. }
  assert (∀ s t : string, s ≠ "" → starts_with "/" (s +:+ t) = starts_with "/" s) as Hstart.
  { intros s t Hs. by destruct s. }
  unfold joined, posix_join. rewrite bool_decide_false by done. cbn [orb].
  destruct (ends_with slash (dir_text k ps)) eqn:He.
  - split; [|by rewrite Hstart]. assert (ps = []) as ->.
    { apply dec_stable. intros Hps. destruct (join_no_end ps Hp Hps) as [Hn1 Hn2].
      unfold dir_text in He. rewrite ends_with_app in He by done. congruence. }
    destruct Hk as [-> | ->]; unfold dir_text; cbn [repeat_str join];
      rewrite ?append_nil_r, ?append_assoc, ?split_slash; cbn [foldl]; by rewrite !enter_nil.
  - split; [|by rewrite Hstart].
    change (dir_text k ps +:+ "/" +:+ target) with (dir_text k ps +:+ String slash target).
    by rewrite split_on_app, foldl_app, split_dir_text.
Qed.

Lemma initial_slashes_cases s : starts_with "/" s = true → initial_slashes s = 1 ∨ initial_slashes s = 2.
Proof. unfold initial_slashes. intros ->. destruct (_ && _); auto. Qed.

Lemma normpath_absolute s : starts_with "/" s = true →
  ∃ k, (k = 1 ∨ k = 2) ∧ normpath s = dir_text k (foldl HostFs.enter [] (split_on slash s)).
Proof.
  intros Hs. exists (initial_slashes s). pose proof (initial_slashes_cases s Hs) as Hk. split; [done|].
  unfold normpath. rewrite decide_False by by intros ->.
  rewrite bool_decide_true by (destruct Hk as [-> | ->]; done).
  rewrite norm_comps_enter by (constructor || apply split_on_no_sep). fold (dir_text (initial_slashes s)).
  rewrite decide_False; [done|]. destruct Hk as [-> | ->]; done.
Qed.

Lemma resolve_relative_walk k ps target : shell_dir k ps →
  ∃ k', shell_dir k' (destination ps target) ∧ resolve_relative (dir_text k ps) target = dir_text k' (destination ps target).
Proof.
  intros Hd. unfold resolve_relative.
  assert (∃ k', (k' = 1 ∨ k' = 2) ∧
    normpath (if starts_with "/" target then target else posix_join (dir_text k ps) target)
      = dir_text k' (destination ps target)) as (k' & Hk & ->).
  { unfold destination. destruct (starts_with "/" target) eqn:Ht; [by apply normpath_absolute|].
    destruct (joined_walk k ps target Hd Ht) as [<- Hs]. by apply normpath_absolute. }
  exists k'. split; [split; [done|]; apply destination_proper, Hd|].
  rewrite decide_False; [done|]. destruct Hk as [-> | ->]; done.
Qed.

(** The tree reads such a path as its components. *)
Lemma parts_of_dir_text k ps : shell_dir k ps → parts_of (dir_text k ps) = Ok ps.
Proof.
  intros [Hk Hp]. pose proof (parts_of_path_of ps (proper_comp_ok _ Hp)) as Hone.
  destruct Hk as [-> | ->]; [exact Hone|]. apply parts_of_spec. apply parts_of_spec in Hone as [H1 H2].
  unfold path_of in *. change (dir_text 2 ps) with ("/" +:+ ("/" +:+ join "/" ps)).
  rewrite split_slash. split; [set_solver|]. rewrite filter_cons_False by naive_solver. done.
Qed.

(** * Ranges *)

Lemma parse_range_one a : _parse_range [a] = (x ← py_int a; Some (x, None)).
Proof. unfold _parse_range. simpl. by destruct (py_int a). Qed.
Lemma parse_range_two a b : _parse_range [a; b] = (x ← py_int a; y ← py_int b; Some (x, Some y)).
Proof. unfold _parse_range. simpl. destruct (py_int a); [simpl|done]. by destruct (py_int b). Qed.
