(* ===== verification/Shell.v ===== *)
(** The shell (dfsha/client/shell.py): [handle_command], one definition per command, and
    [run_repl], over the interface [ShellClient] of the client it drives.

    The shell is shared by the distributed client and by the first, monolithic one, which
    lacks most methods: [hasattr] says which.  An exception carries its text, which the
    shell prints.  The terminal is the list of answers to the password prompts still to
    come ([None]: end of file) and the prompts shown.  What a client does with the local
    disk is part of the client, the bytes the shell itself reads included. *)

From stdpp Require Import pretty.
From S2P Require Import Prelude Exceptions Paths Crypto Addresses ShellWords.

Local Open Scope nat_scope.

(** What a call raises: a domain error, an [OSError], an [EOFError] or anything else. *)
Inductive shell_exn :=
| ExDomain (e : exn) (text : string)
| ExOS (text : string)
| ExEOF (text : string)
| ExOther.

Record Entry := mkShellEntry {
  en_name : string;
  en_is_dir : bool;
  en_size : Z;
  en_perms : option (Z * string * string)
}.
Record HeldLock := mkHeld { held_path : string; held_mode : string; held_id : string }.

Class ShellClient (C : Type) := {
  hasattr : string → bool;
  username : C → option string;
  groups : C → list string;
  is_admin : C → bool;
  c_list_dir : string → M C shell_exn (list Entry);
  c_make_dir : string → M C shell_exn unit;
  c_remove_dir : string → M C shell_exn unit;
  c_remove : string → M C shell_exn unit;
  c_upload : string → string → M C shell_exn Z;
  c_download : string → string → M C shell_exn Z;
  c_read : string → Z → option Z → M C shell_exn (list Z);
  c_read_to_file : string → Z → option Z → string → M C shell_exn Z;
  c_write : string → Z → list Z → M C shell_exn Z;
  c_open : string → string → M C shell_exn HeldLock;
  c_lock : string → string → M C shell_exn HeldLock;
  c_unlock : string → M C shell_exn unit;
  c_locks : M C shell_exn (list HeldLock);
  c_login : string → string → M C shell_exn unit;
  c_create_user : string → string → list string → bool → M C shell_exn unit;
  c_change_password : string → string → string → M C shell_exn unit;
  c_chmod : string → Z → M C shell_exn unit;
  c_chown : string → string → string → M C shell_exn unit;
  c_close : M C shell_exn unit;
  local_bytes : string → M C shell_exn (list Z)
}.

Record Console := mkConsole {
  answers : list (option string);
  shown : list string
}.

(** * Constants *)

Definition newline : string := String "010" "".
Definition quoted (s : string) : string := String dquote (s +:+ String dquote "").

Definition _HELP_TEXT : string := join newline [
  "Comandos disponibles:";
  "  ls [ruta]                  lista un directorio (por defecto, el actual)";
  "  cd <ruta>                  cambia el directorio actual";
  "  pwd                        muestra el directorio actual";
  "  mkdir <ruta>                crea un directorio";
  "  rmdir <ruta>                elimina un directorio vacío";
  "  rm <ruta>                   elimina un archivo";
  "  send <local> <remota>       sube un archivo local al DFS";
  "  receive <remota> <local>    descarga un archivo del DFS";
  "  cat <ruta> [offset] [largo] muestra el archivo, o un rango de bytes, como texto";
  "  read <ruta> <offset> <largo> <local>";
  "                              guarda un rango de bytes del archivo en un archivo local";
  "  write <ruta> <offset> <local>";
  "                              escribe el contenido de un archivo local desde un offset";
  "  open <ruta> r|w             abre un handle (toma el lock); close <ruta> lo cierra";
  "  lock <ruta> r|w             toma un lock con lease";
  "  unlock <ruta>               libera un lock propio de la ruta";
  "  locks                       lista los locks propios";
  "  login <usuario>             inicia sesión (pide la contraseña aparte)";
  "  whoami                      muestra el usuario de la sesión, sus grupos y si es admin";
  "  adduser <usuario> [--admin] [grupo ...]";
  "                              crea un usuario (solo admin; pide su contraseña dos veces)";
  "  passwd [usuario]            cambia la contraseña propia, o la de otro si eres admin";
  "  ls -l [ruta]                lista con modo, dueño, grupo y tamaño";
  "  chmod <modo> <ruta>         cambia el modo, en octal (640); solo el dueño o un admin";
  "  chown <usuario>[:<grupo>] <ruta>";
  "                              cambia el dueño (solo admin) o el grupo (chown :<grupo> <ruta>)";
  "  help                        muestra esta ayuda";
  "  exit / quit                 termina la sesión";
  "";
  "Las rutas con espacios van entre comillas: send " +:+ quoted "C:\mis docs\a.pdf" +:+ " a.pdf"].

Definition _RF3_COMMANDS : list (string * string) :=
  [("cat", "read"); ("read", "read_to_file"); ("write", "write"); ("open", "open"); ("close", "unlock");
   ("lock", "lock"); ("unlock", "unlock"); ("locks", "locks")].
Definition _SESSION_COMMANDS : list (string * string) :=
  [("login", "login"); ("whoami", "login"); ("adduser", "create_user"); ("passwd", "change_password")].
Definition _PERMISSION_COMMANDS : list (string * string) := [("chmod", "chmod"); ("chown", "chown")].

Definition _CHMOD_USAGE : string :=
  "chmod: uso: chmod <modo octal> <ruta>   (por ejemplo: chmod 640 notas.txt)".
Definition _CHOWN_USAGE : string :=
  "chown: uso: chown <usuario>[:<grupo>] <ruta>   (o chown :<grupo> <ruta>)".

Section shell.
Context {C : Type} `{!ShellClient C}.

Notation Sh := (M (C * Console) shell_exn).

Definition client {A} (m : M C shell_exn A) : Sh A := λ s,
  let out := m s.1 in ((out.1, s.2), out.2).

(** [prompt_password(text)]. *)
Definition prompt_password (text : string) : Sh string := λ s,
  let shown' := shown s.2 ++ [text] in
  match answers s.2 with
  | Some a :: rest => ((s.1, mkConsole rest shown'), Ok a)
  | None :: rest => ((s.1, mkConsole rest shown'), Err (ExEOF ""))
  | [] => ((s.1, mkConsole [] shown'), Err (ExEOF ""))
  end.

Definition _ask_new_password (whose : string) : Sh (option string) :=
  first ← prompt_password ("Contraseña nueva de " +:+ whose +:+ ": ");
  again ← prompt_password "Repítela: ";
  mret (if bool_decide (again = first) then Some first else None).

(** [cmd in table and not hasattr(client, table[cmd])]. *)
Definition lacks (table : list (string * string)) (cmd : string) : bool :=
  existsb (λ e, String.eqb e.1 cmd && negb (hasattr e.2)) table.

(** * The commands *)

Definition ls_line (e : Entry) : string :=
  (if en_is_dir e then "d" else "-") +:+ " " +:+ pad_left 10 (pretty (en_size e)) +:+ "  " +:+ en_name e.
Definition ls_long_line (e : Entry) (p : Z * string * string) : string :=
  _mode_string (en_is_dir e) p.1.1 +:+ " " +:+ pad_right 8 p.1.2 +:+ " " +:+ pad_right 8 p.2 +:+ " "
  +:+ pad_left 10 (pretty (en_size e)) +:+ "  " +:+ en_name e.

(** The lines of [ls -l], when every entry has permissions. *)
Fixpoint long_lines (entries : list Entry) : option (list string) :=
  match entries with
  | [] => Some []
  | e :: rest => p ← en_perms e; lines ← long_lines rest; Some (ls_long_line e p :: lines)
  end.

Section commands.
Context (current_dir : string).

Definition say (output : string) : Sh (string * string) := mret (current_dir, output).
Definition target_dir (args : list string) : string :=
  match args with
  | path :: _ => resolve_relative current_dir path
  | [] => current_dir
  end.

Definition do_ls_long (args : list string) : Sh (string * string) :=
  entries ← client (c_list_dir (target_dir (filter (λ a, a ≠ "-l") args)));
  match long_lines entries with
  | Some lines => say (join newline lines)
  | None => say "ls: -l no disponible con este cliente (los permisos requieren el cliente distribuido)"
  end.
Definition do_ls (args : list string) : Sh (string * string) :=
  entries ← client (c_list_dir (target_dir args));
  say (join newline (ls_line <$> entries)).

Definition do_cd (args : list string) : Sh (string * string) :=
  match args with
  | [] => say "cd: falta la ruta"
  | path :: _ =>
      let new_dir := resolve_relative current_dir path in
      _ ← client (c_list_dir new_dir);
      mret (new_dir, "")
  end.

(** [mkdir], [rmdir] and [rm]. *)
Definition do_path (cmd : string) (m : string → M C shell_exn unit) (args : list string) : Sh (string * string) :=
  match args with
  | [] => say (cmd +:+ ": falta la ruta")
  | path :: _ => _ ← client (m (resolve_relative current_dir path)); say ""
  end.

Definition do_send (args : list string) : Sh (string * string) :=
  match args with
  | local :: remote :: _ =>
      let remote_path := resolve_relative current_dir remote in
      bytes_written ← client (c_upload local remote_path);
      say (pretty bytes_written +:+ " bytes enviados a " +:+ remote_path)
  | _ => say "send: uso: send <local> <remota>"
  end.
Definition do_receive (args : list string) : Sh (string * string) :=
  match args with
  | remote :: local :: _ =>
      bytes_written ← client (c_download (resolve_relative current_dir remote) local);
      say (pretty bytes_written +:+ " bytes recibidos en " +:+ path_str local)
  | _ => say "receive: uso: receive <remota> <local>"
  end.

Definition do_cat (args : list string) : Sh (string * string) :=
  match args, (if (1 <=? length args) && (length args <=? 3) then _parse_range (tail args) else None) with
  | path :: _, Some (offset, len) =>
      data ← client (c_read (resolve_relative current_dir path) offset len);
      say (string_of (decode_replace data))
  | _, _ => say "cat: uso: cat <ruta> [offset] [largo]"
  end.
Definition do_read (args : list string) : Sh (string * string) :=
  match args with
  | [path; off; len; local] =>
      match _parse_range [off; len] with
      | Some (offset, length) =>
          bytes_read ← client (c_read_to_file (resolve_relative current_dir path) offset length local);
          say (pretty bytes_read +:+ " bytes leídos en " +:+ path_str local)
      | None => say "read: uso: read <ruta> <offset> <largo> <local>"
      end
  | _ => say "read: uso: read <ruta> <offset> <largo> <local>"
  end.
Definition do_write (args : list string) : Sh (string * string) :=
  match args with
  | [path; off; local] =>
      match _parse_range [off] with
      | Some (offset, _) =>
          data ← client (local_bytes local);
          let remote_path := resolve_relative current_dir path in
          bytes_written ← client (c_write remote_path offset data);
          say (pretty bytes_written +:+ " bytes escritos en " +:+ remote_path +:+ " desde el byte " +:+ pretty offset)
      | None => say "write: uso: write <ruta> <offset> <local>"
      end
  | _ => say "write: uso: write <ruta> <offset> <local>"
  end.

Definition lock_mode (mode : string) : bool := bool_decide (mode = "r" ∨ mode = "w").
Definition do_open (args : list string) : Sh (string * string) :=
  match args with
  | [path; mode] =>
      if lock_mode mode then
        handle ← client (c_open (resolve_relative current_dir path) mode);
        say ("abierto " +:+ held_path handle +:+ " (" +:+ held_mode handle +:+ "), lock " +:+ held_id handle)
      else say "open: uso: open <ruta> r|w"
  | _ => say "open: uso: open <ruta> r|w"
  end.
Definition do_lock (args : list string) : Sh (string * string) :=
  match args with
  | [path; mode] =>
      if lock_mode mode then
        held ← client (c_lock (resolve_relative current_dir path) mode);
        say ("lock " +:+ held_id held +:+ " tomado para " +:+ held_path held +:+ " (" +:+ held_mode held +:+ ")")
      else say "lock: uso: lock <ruta> r|w"
  | _ => say "lock: uso: lock <ruta> r|w"
  end.
(** [close] and [unlock]. *)
Definition do_unlock (cmd : string) (args : list string) : Sh (string * string) :=
  match args with
  | [path] => _ ← client (c_unlock (resolve_relative current_dir path)); say ""
  | _ => say (cmd +:+ ": uso: " +:+ cmd +:+ " <ruta>")
  end.
Definition do_locks : Sh (string * string) :=
  held ← client c_locks;
  say (join newline ((λ h, held_mode h +:+ " " +:+ held_path h +:+ " " +:+ held_id h) <$> held)).

Definition do_login (args : list string) : Sh (string * string) :=
  match args with
  | [user] =>
      password ← prompt_password ("Contraseña de " +:+ user +:+ ": ");
      _ ← client (c_login user password);
      name ← gets (λ s, username s.1);
      say ("sesión iniciada como " +:+ default "None" name)
  | _ => say "login: uso: login <usuario>   (la contraseña se pide aparte)"
  end.

(** [if not client.username]. *)
Definition logged_in (name : option string) : option string :=
  match name with Some u => if decide (u = "") then None else Some u | None => None end.

Definition do_whoami : Sh (string * string) :=
  name ← gets (λ s, logged_in (username s.1));
  match name with
  | None => say "sin sesión: inicia sesión con login <usuario>"
  | Some u =>
      mine ← gets (λ s, join ", " (groups s.1));
      admin ← gets (λ s, is_admin s.1);
      say (u +:+ "  grupos: " +:+ (if decide (mine = "") then "-" else mine) +:+ "  admin: " +:+
           (if (admin : bool) then "sí" else "no"))
  end.

Definition do_adduser (args : list string) : Sh (string * string) :=
  let admin := bool_decide ("--admin" ∈ args) in
  let names := filter (λ a, a ≠ "--admin") args in
  match names with
  | [] => say "adduser: uso: adduser <usuario> [--admin] [grupo ...]"
  | user :: mine =>
      if existsb (starts_with "-") names then say "adduser: uso: adduser <usuario> [--admin] [grupo ...]"
      else
        password ← _ask_new_password user;
        match password with
        | None => say "adduser: las contraseñas no coinciden; no se creó nada"
        | Some password =>
            _ ← client (c_create_user user password mine admin);
            say ("usuario " +:+ user +:+ " creado")
        end
  end.

Definition do_passwd (args : list string) : Sh (string * string) :=
  match args with
  | _ :: _ :: _ => say "passwd: uso: passwd [usuario]"
  | _ =>
      me ← gets (λ s, username s.1);
      let other := match args with
                   | u :: _ => if decide (Some u = me) then "" else u
                   | [] => ""
                   end in
      current ← (if decide (other = "") then prompt_password "Contraseña actual: " else mret "");
      password ← _ask_new_password (if decide (other = "") then default "tu usuario" (logged_in me) else other);
      match password with
      | None => say "passwd: las contraseñas no coinciden; no se cambió nada"
      | Some password =>
          _ ← client (c_change_password password current other);
          say "contraseña cambiada"
      end
  end.

Definition do_chmod (args : list string) : Sh (string * string) :=
  match args with
  | [mode; path] =>
      match octal_mode mode with
      | Some m => _ ← client (c_chmod (resolve_relative current_dir path) m); say ""
      | None => say _CHMOD_USAGE
      end
  | _ => say _CHMOD_USAGE
  end.
Definition do_chown (args : list string) : Sh (string * string) :=
  match args with
  | [who; path] =>
      let owner_group := default (who, "") (partition ":"%char who) in
      if decide (owner_group = ("", "")) then say _CHOWN_USAGE
      else _ ← client (c_chown (resolve_relative current_dir path) owner_group.1 owner_group.2); say ""
  | _ => say _CHOWN_USAGE
  end.

(** * [handle_command] *)

(** The tests of [handle_command], in its order. *)
Definition dispatch (cmd : string) (args : list string) : Sh (string * string) :=
  let the c := String.eqb cmd c in
  if the "pwd" then say current_dir
  else if the "ls" && bool_decide ("-l" ∈ args) then do_ls_long args
  else if the "ls" then do_ls args
  else if the "cd" then do_cd args
  else if the "mkdir" then do_path "mkdir" c_make_dir args
  else if the "rmdir" then do_path "rmdir" c_remove_dir args
  else if the "rm" then do_path "rm" c_remove args
  else if the "send" then do_send args
  else if the "receive" then do_receive args
  else if lacks _RF3_COMMANDS cmd then
    say (cmd +:+ ": no disponible con este cliente (RF3 requiere el cliente distribuido)")
  else if the "cat" then do_cat args
  else if the "read" then do_read args
  else if the "write" then do_write args
  else if the "open" then do_open args
  else if the "close" then do_unlock "close" args
  else if the "lock" then do_lock args
  else if the "unlock" then do_unlock "unlock" args
  else if the "locks" then do_locks
  else if lacks _SESSION_COMMANDS cmd then
    say (cmd +:+ ": no disponible con este cliente (los usuarios requieren el cliente distribuido)")
  else if the "login" then do_login args
  else if the "whoami" then do_whoami
  else if the "adduser" then do_adduser args
  else if the "passwd" then do_passwd args
  else if lacks _PERMISSION_COMMANDS cmd then
    say (cmd +:+ ": no disponible con este cliente (los permisos requieren el cliente distribuido)")
  else if the "chmod" then do_chmod args
  else if the "chown" then do_chown args
  else if the "help" then say _HELP_TEXT
  else say ("comando no reconocido: " +:+ cmd).

(** The [except AuthError] of [handle_command]: without a session it suggests to log in,
    with one it asks for the password again and the user repeats the command. *)
Definition auth_failed (cmd text : string) : Sh (string * string) :=
  name ← gets (λ s, logged_in (username s.1));
  if String.eqb cmd "login" then say ("login: " +:+ text)
  else match name with
  | None => say (cmd +:+ ": " +:+ text +:+ ". Inicia sesión con: login <usuario>")
  | Some u => λ s,
      match (password ← prompt_password ("La sesión venció. Contraseña de " +:+ u +:+ ": ");
             client (c_login u password)) s with
      | (s', Ok _) => say (cmd +:+ ": la sesión había vencido y ya se renovó; repite el comando") s'
      | (s', Err (ExDomain e t)) =>
          if is_domain e then
            say (cmd +:+ ": " +:+ text +:+ "; no se pudo renovar la sesión: " +:+ (if decide (t = "") then "cancelado" else t)) s'
          else raise (ExDomain e t) s'
      | (s', Err (ExOS t)) | (s', Err (ExEOF t)) =>
          say (cmd +:+ ": " +:+ text +:+ "; no se pudo renovar la sesión: " +:+ (if decide (t = "") then "cancelado" else t)) s'
      | (s', Err ExOther) => raise ExOther s'
      end
  end.

Definition handling (cmd : string) (m : Sh (string * string)) : Sh (string * string) := λ s,
  match m s with
  | (s', Ok out) => (s', Ok out)
  | (s', Err (ExDomain AuthError text)) => auth_failed cmd text s'
  | (s', Err (ExDomain e text)) =>
      if is_domain e then say (cmd +:+ ": " +:+ text) s' else raise (ExDomain e text) s'
  | (s', Err (ExOS text)) => say (cmd +:+ ": " +:+ text) s'
  | (s', Err (ExEOF _)) => say (cmd +:+ ": cancelado") s'
  | (s', Err ExOther) => raise ExOther s'
  end.

(** The directory after the command, and what is printed. *)
Definition handle_command (line : string) : Sh (string * string) :=
  match split_command line with
  | Err text => say ("error de sintaxis: " +:+ text)
  | Ok [] => say ""
  | Ok (cmd :: args) => handling cmd (dispatch cmd args)
  end.
End commands.

(** * [run_repl] *)

Definition banner : string := "DFSha shell — 'help' para ver comandos, 'exit' para salir.".

(** The loop over the lines of the terminal, until its end or [exit]: what it prints. *)
Fixpoint repl_loop (current_dir : string) (lines : list string) (printed : list string) : Sh (list string) :=
  match lines with
  | [] => mret printed
  | line :: rest =>
      if decide (str_strip line = "exit" ∨ str_strip line = "quit") then mret printed
      else
        out ← handle_command current_dir line;
        repl_loop out.1 rest (if decide (out.2 = "") then printed else printed ++ [out.2])
  end.

Definition run_repl (lines : list string) : Sh (list string) :=
  printed ← repl_loop "/" lines [banner];
  _ ← client c_close;
  mret printed.
End shell.
