(* ===== verification/ShellProps.v ===== *)
(** Properties of the shell (Shell.v): what a line spells, where paths lead, which command
    changes the directory, that a command never ends the session, that it makes one call,
    and that passwords are never printed. *)

From S2P Require Import Prelude Exceptions Paths Crypto BlockToken Addresses ShellWords ShellFacts Shell.
From S2P Require HostFs.

Local Open Scope nat_scope.

(** C32. [split_command] reads a line as the words it spells, and refuses a line that spells
    none: quotes group, a backslash is a character, and every list of words can be
    typed. *)
Theorem split_command_spells line ws :
  (split_command line = Ok ws ↔ spells line ws) ∧ split_command (quote_line ws) = Ok ws.
Proof.
  split; [split; [apply spelled_split|apply split_spelled]|].
  apply split_spelled, quote_line_spells.
Qed.

(** From a directory of the shell, [resolve_relative] is the walk along the components
    of its argument, with [..] going up and stopping at the root; it gives a directory of
    the shell again, and the tree of the ControlNode reads it as the same walk. *)
Theorem resolve_relative_walks k ps target : shell_dir k ps →
  ∃ k', shell_dir k' (destination ps target)
    ∧ resolve_relative (dir_text k ps) target = dir_text k' (destination ps target)
    ∧ parts_of (resolve_relative (dir_text k ps) target) = Ok (destination ps target).
Proof.
  intros Hd. destruct (resolve_relative_walk k ps target Hd) as (k' & Hk & ->).
  exists k'. split_and!; [done|done|by apply parts_of_dir_text].
Qed.

Lemma resolve_relative_walks_witness :
  dir_text 1 ["a"; "b"] = "/a/b" ∧ parts_of (resolve_relative "/a/b" "../../../c//./d") = Ok ["c"; "d"].
Proof.
  split; [reflexivity|]. assert (shell_dir 1 ["a"; "b"]) as Hd by (split; [left; reflexivity|repeat constructor; discriminate]).
  destruct (resolve_relative_walks 1 ["a"; "b"] "../../../c//./d" Hd) as (k' & _ & _ & H).
  etrans; [exact H|]. vm_compute. reflexivity.
Defined.

(** * No command ends the session *)

(** What [handle_command] catches. *)
Definition catchable (x : shell_exn) : bool :=
  match x with ExDomain e _ => is_domain e | ExOS _ | ExEOF _ => true | ExOther => false end.
Definition tame {S A} (m : M S shell_exn A) : Prop := ∀ s s' x, m s = (s', Err x) → catchable x = true.

Section tame_lemmas.
Context {S : Type}.
Lemma tame_ret {A} (a : A) : tame (S := S) (mret a).
Proof. by intros s s' x. Qed.
Lemma tame_gets {A} (f : S → A) : tame (gets f).
Proof. by intros s s' x. Qed.
Lemma tame_bind {A B} (m : M S shell_exn A) (f : A → M S shell_exn B) :
  tame m → (∀ a, tame (f a)) → tame (mbind f m).
Proof.
  intros Hm Hf s s' x [H|(s1 & a & _ & H)]%bind_err_inv; [by eapply Hm|by eapply Hf].
Qed.
End tame_lemmas.
#[local] Hint Resolve tame_ret tame_gets tame_bind : shell.

(** A client that raises nothing else, in the methods it has. *)
Class TameClient (C : Type) `{!ShellClient C} : Prop := {
  tame_list_dir p : tame (c_list_dir p);
  tame_make_dir p : tame (c_make_dir p);
  tame_remove_dir p : tame (c_remove_dir p);
  tame_remove p : tame (c_remove p);
  tame_upload l r : tame (c_upload l r);
  tame_download r l : tame (c_download r l);
  tame_read p o n : hasattr "read" = true → tame (c_read p o n);
  tame_read_to_file p o n l : hasattr "read_to_file" = true → tame (c_read_to_file p o n l);
  tame_write p o d : hasattr "write" = true → tame (c_write p o d);
  tame_open p m : hasattr "open" = true → tame (c_open p m);
  tame_lock p m : hasattr "lock" = true → tame (c_lock p m);
  tame_unlock p : hasattr "unlock" = true → tame (c_unlock p);
  tame_locks : hasattr "locks" = true → tame c_locks;
  tame_login u p : hasattr "login" = true → tame (c_login u p);
  tame_create_user u p g a : hasattr "create_user" = true → tame (c_create_user u p g a);
  tame_change_password n c u : hasattr "change_password" = true → tame (c_change_password n c u);
  tame_chmod p m : hasattr "chmod" = true → tame (c_chmod p m);
  tame_chown p o g : hasattr "chown" = true → tame (c_chown p o g);
  tame_close : tame c_close;
  tame_local_bytes p : tame (local_bytes p);
  tame_session c u : logged_in (username c) = Some u → hasattr "login" = true
}.
#[local] Hint Resolve tame_list_dir tame_make_dir tame_remove_dir tame_remove tame_upload tame_download tame_read
  tame_read_to_file tame_write tame_open tame_lock tame_unlock tame_locks tame_login tame_create_user
  tame_change_password tame_chmod tame_chown tame_close tame_local_bytes : shell.

Section survives.
Context {C : Type} {SC : ShellClient C} {TC : TameClient C}.

Lemma tame_client {A} (m : M C shell_exn A) : tame m → tame (client m).
Proof. intros Hm s s' x [= <- Hx]. eapply (Hm s.1 (m s.1).1). rewrite <-Hx. apply surjective_pairing. Qed.
Lemma tame_prompt text : tame (prompt_password (C := C) text).
Proof.
  intros s s' x. unfold prompt_password. destruct (answers s.2) as [|[a|] rest]; by intros [= <- <-].
Qed.

(** A command: cases on its arguments, then its calls and prompts in order. *)
Ltac tame_step :=
  lazymatch goal with
  | |- tame (mbind _ _) => apply tame_bind; [|intros ?]
  | |- tame (client _) => apply tame_client; auto with shell
  | |- tame (prompt_password _) => apply tame_prompt
  | |- tame (say _ _) => apply tame_ret
  | |- tame (mret _) => apply tame_ret
  | |- tame (gets _) => apply tame_gets
  | |- tame (match ?x with _ => _ end) => destruct x
  end.

(** A method the shell uses after its check is there. *)
Lemma lacks_false table cmd m : lacks (C := C) table cmd = false → (cmd, m) ∈ table → hasattr m = true.
Proof.
  unfold lacks. intros Hl Hin. apply Bool.not_false_iff_true. intros Hm.
  apply Bool.not_true_iff_false in Hl. apply Hl, existsb_exists. exists (cmd, m).
  split; [by apply list_elem_of_In|]. simpl. by rewrite String.eqb_refl, Hm.
Qed.

(** The next test of [dispatch]: the command is [c] and has the method [m], or not. *)
Ltac gated c m :=
  match goal with
  | HL : lacks _ ?cmd = false |- context [String.eqb ?cmd c] =>
      let Hc := fresh "Hc" in let Hm := fresh "Hm" in
      destruct (String.eqb cmd c) eqn:Hc;
      [apply String.eqb_eq in Hc; subst cmd;
       pose proof (lacks_false _ _ m HL ltac:(by repeat first [left|right])) as Hm; repeat tame_step|]
  end.

Lemma tame_dispatch cd cmd args : tame (dispatch (C := C) cd cmd args).
Proof.
  unfold dispatch, do_ls_long, do_ls, do_cd, do_path, do_send, do_receive, do_cat, do_read, do_write, do_open,
    do_unlock, do_lock, do_locks, do_login, do_whoami, do_adduser, do_passwd, do_chmod, do_chown, _ask_new_password.
  cbv zeta. do 9 (match goal with |- tame (if ?b then _ else _) => destruct b; [repeat tame_step|] end).
  destruct (lacks _RF3_COMMANDS cmd) eqn:HL; [repeat tame_step|].
  gated "cat" "read". gated "read" "read_to_file". gated "write" "write". gated "open" "open".
  gated "close" "unlock". gated "lock" "lock". gated "unlock" "unlock". gated "locks" "locks". clear HL.
  destruct (lacks _SESSION_COMMANDS cmd) eqn:HL; [repeat tame_step|].
  gated "login" "login". gated "whoami" "login". gated "adduser" "create_user". gated "passwd" "change_password".
  clear HL. destruct (lacks _PERMISSION_COMMANDS cmd) eqn:HL; [repeat tame_step|].
  gated "chmod" "chmod". gated "chown" "chown". repeat tame_step.
Qed.

(** An exception that leaves a handler is one nothing catches. *)
Lemma auth_failed_ok cd cmd text s : ∃ s' out, auth_failed (C := C) cd cmd text s = (s', Ok out).
Proof.
  unfold auth_failed. unfold mbind at 1, M_bind at 1, gets.
  destruct (String.eqb cmd "login"); [unfold say, mret, M_ret; eauto|].
  destruct (logged_in (username s.1)) as [u|] eqn:Hu; [|unfold say, mret, M_ret; eauto].
  apply tame_session in Hu. set (m := mbind _ _). assert (tame m) as Hm by (unfold m; repeat tame_step).
  destruct (m s) as [s' [a|x]] eqn:H; [unfold say, mret, M_ret; eauto|]. specialize (Hm _ _ _ H).
  destruct x as [e t|t|t|]; simpl in Hm; rewrite ?Hm; unfold say, mret, M_ret; eauto; done.
Qed.

Lemma handle_command_ok cd line s : ∃ s' out, handle_command (C := C) cd line s = (s', Ok out).
Proof.
  unfold handle_command. destruct (split_command line) as [[|cmd args]|text];
    [unfold say, mret, M_ret; by eauto| |unfold say, mret, M_ret; by eauto].
  unfold handling. destruct (dispatch cd cmd args s) as [s' [out|x]] eqn:H; [eauto|].
  pose proof (tame_dispatch cd cmd args _ _ _ H) as Hx.
  destruct x as [e t|t|t|]; simpl in Hx; [|unfold say, mret, M_ret; eauto..|done].
  destruct e; try (rewrite Hx; unfold say, mret, M_ret; eauto).
  apply auth_failed_ok.
Qed.

Lemma repl_loop_ok cd lines printed s : ∃ s' out, repl_loop (C := C) cd lines printed s = (s', Ok out).
Proof.
  revert cd printed s. induction lines as [|line lines IH]; intros cd printed s; simpl; [unfold mret, M_ret; eauto|].
  case_decide as Hexit; [unfold mret, M_ret; eauto|].
  destruct (handle_command_ok cd line s) as (s' & out & H). rewrite (bind_ok _ _ _ _ _ H). apply IH.
Qed.

(** C30. With a client that raises domain errors, [OSError] and [EOFError] in the methods it
    has, whatever is typed and whatever the calls answer, the session goes on to its end
    and closes the client: a method the client lacks is never called. *)
Theorem session_survives lines (s : C * Console) :
  ∃ s1 printed, repl_loop "/" lines [banner] s = (s1, Ok printed)
    ∧ run_repl lines s = ((c_close s1.1).1, s1.2, match (c_close s1.1).2 with Ok _ => Ok printed | Err x => Err x end).
Proof.
  destruct (repl_loop_ok "/" lines [banner] s) as (s1 & printed & H). exists s1, printed. split; [exact H|].
  unfold run_repl. rewrite (bind_ok _ _ _ _ _ H). unfold mbind, M_bind, client.
  by destruct (c_close s1.1) as [c [u|x]].
Qed.
End survives.

(** * The current directory *)

Section directory.
Context {C : Type} {SC : ShellClient C}.
Notation Sh := (M (C * Console) shell_exn).

(** A command that answers in the directory it was given in. *)
Definition stays (cd : string) (m : Sh (string * string)) : Prop :=
  ∀ s s' out, m s = (s', Ok out) → out.1 = cd.

Lemma stays_say cd text : stays cd (say cd text).
Proof. by intros s s' out [= _ <-]. Qed.
Lemma stays_bind {A} cd (m : Sh A) f : (∀ a, stays cd (f a)) → stays cd (mbind f m).
Proof. intros Hf s s' out (s1 & a & _ & H)%bind_ok_inv. by eapply Hf. Qed.

Ltac stays_step :=
  lazymatch goal with
  | |- stays _ (mbind _ _) => apply stays_bind; intros ?
  | |- stays _ (say _ _) => apply stays_say
  | |- stays _ (match ?x with _ => _ end) => destruct x
  end.

Lemma stays_dispatch cd cmd args : cmd ≠ "cd" → stays cd (dispatch cd cmd args).
Proof.
  intros Hcd. unfold dispatch. cbv zeta.
  rewrite (proj2 (String.eqb_neq cmd "cd") Hcd).
  unfold do_ls_long, do_ls, do_path, do_send, do_receive, do_cat, do_read, do_write, do_open,
    do_unlock, do_lock, do_locks, do_login, do_whoami, do_adduser, do_passwd, do_chmod, do_chown.
  cbv zeta. repeat stays_step.
Qed.

Lemma stays_auth cd cmd text : stays cd (auth_failed cd cmd text).
Proof.
  unfold auth_failed. apply stays_bind. intros name. destruct (String.eqb cmd "login"); [apply stays_say|].
  destruct name as [u|]; [|apply stays_say]. intros s s' out H.
  cbv beta in H. repeat case_in H; try done; by injection H as _ <-.
Qed.

Lemma stays_handling cd cmd (m : Sh (string * string)) : stays cd m → stays cd (handling cd cmd m).
Proof.
  intros Hm s s' out. unfold handling. destruct (m s) as [s1 [o|x]] eqn:H.
  - intros [= _ <-]. by eapply Hm.
  - destruct x as [e t|t|t|]; try (by intros [= _ <-]).
    destruct e; try (apply stays_auth); destruct (is_domain _); by intros [= _ <-].
Qed.

(** A directory the shell moves to was listed by the client just before, and is where
    the argument of [cd] leads from the current one; no other command moves. *)
Theorem directory_follows_cd k ps line (s s' : C * Console) dir out : shell_dir k ps →
  handle_command (dir_text k ps) line s = (s', Ok (dir, out)) →
  dir = dir_text k ps ∨
  ∃ path rest entries k', split_command line = Ok ("cd" :: path :: rest) ∧ shell_dir k' (destination ps path)
    ∧ dir = dir_text k' (destination ps path) ∧ c_list_dir dir s.1 = (s'.1, Ok entries) ∧ out = "".
Proof.
  intros Hd. unfold handle_command.
  destruct (split_command line) as [[|cmd args]|text]; [by intros [= _ <-]; left| |by intros [= _ <-]; left].
  destruct (decide (cmd = "cd")) as [->|Hne].
  2: { intros H. left. apply (stays_handling _ _ _ (stays_dispatch _ _ args Hne) _ _ _ H). }
  destruct args as [|path rest].
  { intros H. left. apply (stays_handling _ "cd" (say _ "cd: falta la ruta") (stays_say _ _) _ _ _ H). }
  intros H. unfold handling, dispatch in H. simpl in H. unfold do_cd in H.
  destruct (resolve_relative_walk k ps path Hd) as (k' & Hk & Heq). rewrite Heq in H.
  unfold mbind, M_bind, client in H. simpl in H.
  destruct (c_list_dir (dir_text k' (destination ps path)) s.1) as [c1 [entries|x]] eqn:Hl; simpl in H.
  - injection H as <- <- <-. right. exists path, rest, entries, k'. done.
  - left. destruct x as [e t|t|t|]; try (by injection H as _ <- _); [|done].
    destruct e; try (by simpl in H; injection H as _ <- _); [|done].
    apply (stays_auth _ _ _ _ _ _ H).
Qed.
End directory.

(** * Passwords *)

(** Two terminals that differ in what is typed at the password prompts: the same prompts
    are answered, and a repetition matches in both or in neither. *)
Inductive alike : list (option string) → list (option string) → Prop :=
| alike_nil : alike [] []
| alike_eof l1 l2 : alike l1 l2 → alike (None :: l1) (None :: l2)
| alike_typed a b l1 l2 :
    (∀ a' r1 b' r2, l1 = Some a' :: r1 → l2 = Some b' :: r2 → (a' = a ↔ b' = b)) →
    alike l1 l2 → alike (Some a :: l1) (Some b :: l2).

(** A client that answers alike whatever the passwords are. *)
Class BlindClient (C : Type) {SC : ShellClient C} : Prop := {
  blind_login u p q : c_login u p = c_login u q;
  blind_create_user u p q g a : c_create_user u p g a = c_create_user u q g a;
  blind_change_password n n' c c' u : c_change_password n c u = c_change_password n' c' u
}.

Section passwords.
Context {C : Type} {SC : ShellClient C} {BC : BlindClient C}.
Notation Sh := (M (C * Console) shell_exn).

Definition look_alike (s1 s2 : C * Console) : Prop :=
  s1.1 = s2.1 ∧ shown s1.2 = shown s2.2 ∧ alike (answers s1.2) (answers s2.2).

Definition same_result {A} (R : A → A → Prop) (r1 r2 : result shell_exn A) : Prop :=
  match r1, r2 with
  | Ok a, Ok b => R a b
  | Err x, Err y => x = y
  | _, _ => False
  end.

(** The two computations cannot be told apart from two terminals that look alike. *)
Definition indistinct {A} (R : A → A → Prop) (m1 m2 : Sh A) : Prop :=
  ∀ s1 s2, look_alike s1 s2 → look_alike (m1 s1).1 (m2 s2).1 ∧ same_result R (m1 s1).2 (m2 s2).2.

Lemma indistinct_bind {A B} (R : A → A → Prop) (Q : B → B → Prop) (m1 m2 : Sh A) f1 f2 :
  indistinct R m1 m2 → (∀ a b, R a b → indistinct Q (f1 a) (f2 b)) →
  indistinct Q (mbind f1 m1) (mbind f2 m2).
Proof.
  intros Hm Hf s1 s2 Hs. destruct (Hm s1 s2 Hs) as [H1 H2]. unfold mbind, M_bind.
  destruct (m1 s1) as [t1 [a|x]], (m2 s2) as [t2 [b|y]]; simpl in *; try done. by apply Hf.
Qed.
Lemma indistinct_ret {A} (R : A → A → Prop) a b : R a b → indistinct R (mret a) (mret b).
Proof. by intros HR s1 s2 Hs. Qed.
Lemma indistinct_gets {A} (f : C * Console → A) : (∀ s1 s2, s1.1 = s2.1 → f s1 = f s2) → indistinct eq (gets f) (gets f).
Proof. intros Hf s1 s2 Hs. split; [done|]. apply Hf, Hs. Qed.
Lemma indistinct_client {A} (m1 m2 : M C shell_exn A) : m1 = m2 → indistinct eq (client m1) (client m2).
Proof.
  intros -> [c1 k1] [c2 k2] (H1 & H2 & H3). simpl in *. subst c2. unfold client. simpl.
  destruct (m2 c1) as [c [a|x]]; done.
Qed.
Lemma indistinct_prompt text : indistinct (λ _ _, True) (prompt_password text) (prompt_password text).
Proof.
  intros [c1 [a1 k1]] [c2 [a2 k2]] (H1 & H2 & H3). simpl in *. subst c2 k2. unfold prompt_password. simpl.
  destruct H3; unfold look_alike; simpl; split_and!; done || by constructor.
Qed.

Lemma indistinct_ask whose :
  indistinct (λ o1 o2, is_Some o1 ↔ is_Some o2) (_ask_new_password whose) (_ask_new_password whose).
Proof.
  intros [c1 [a1 k1]] [c2 [a2 k2]] (H1 & H2 & H3). simpl in *. subst c2 k2.
  unfold _ask_new_password, mbind, M_bind, prompt_password. simpl.
  unfold look_alike.
  destruct H3 as [|l1 l2 Hl|a b l1 l2 Hab Hl]; simpl; [split_and!; done || constructor..|].
  destruct Hl as [|r1 r2 Hr|a' b' r1 r2 Hab' Hr]; simpl; [split_and!; done || constructor..|]. split; [done|].
  destruct (Hab a' r1 b' r2 eq_refl eq_refl). unfold mret, M_ret. simpl.
  do 2 case_bool_decide; split; intros [? ?]; eauto; naive_solver.
Qed.

Ltac indistinct_step :=
  lazymatch goal with
  | |- indistinct _ (mbind _ _) _ =>
      eapply indistinct_bind
  | |- ∀ _ _, _ → indistinct _ _ _ =>
      let a := fresh "a" in let b := fresh "b" in let H := fresh "Hab" in
      intros a b H; try (is_var a; subst a)
  | |- indistinct _ (client _) _ => apply indistinct_client
  | |- indistinct _ (prompt_password _) _ => apply indistinct_prompt
  | |- indistinct _ (_ask_new_password _) _ => apply indistinct_ask
  | |- indistinct _ (gets _) _ => apply indistinct_gets; intros ? ? E; by rewrite E
  | |- indistinct _ (say _ _) _ => by apply indistinct_ret
  | |- indistinct _ (mret _) _ => by apply indistinct_ret
  | |- indistinct _ (match ?x with _ => _ end) (match ?x with _ => _ end) => destruct x
  end.

Lemma indistinct_confirmed {A} (o1 o2 : option string) (f1 f2 : string → Sh A) (m : Sh A) :
  (is_Some o1 ↔ is_Some o2) → (∀ p q, indistinct eq (f1 p) (f2 q)) → indistinct eq m m →
  indistinct eq (match o1 with Some p => f1 p | None => m end) (match o2 with Some q => f2 q | None => m end).
Proof.
  intros Ho Hf Hm. destruct o1, o2; [apply Hf| | |done]; exfalso.
  - by destruct (proj1 Ho (mk_is_Some _ _ eq_refl)).
  - by destruct (proj2 Ho (mk_is_Some _ _ eq_refl)).
Qed.

Lemma indistinct_dispatch cd cmd args : indistinct eq (dispatch cd cmd args) (dispatch cd cmd args).
Proof.
  unfold dispatch, do_ls_long, do_ls, do_cd, do_path, do_send, do_receive, do_cat, do_read, do_write, do_open,
    do_unlock, do_lock, do_locks, do_login, do_whoami, do_adduser, do_passwd, do_chmod, do_chown.
  cbv zeta. repeat indistinct_step; try done.
  - apply blind_login.
  - apply indistinct_confirmed; [done|intros p q|repeat indistinct_step].
    eapply indistinct_bind; [apply indistinct_client, blind_create_user|]. intros ? ? ?. repeat indistinct_step.
  - apply indistinct_confirmed; [done|intros p q|repeat indistinct_step].
    eapply indistinct_bind; [apply indistinct_client, blind_change_password|]. intros ? ? ?. repeat indistinct_step.
  - apply indistinct_confirmed; [done|intros p q|repeat indistinct_step].
    eapply indistinct_bind; [apply indistinct_client, blind_change_password|]. intros ? ? ?. repeat indistinct_step.
Qed.

Lemma indistinct_auth cd cmd text : indistinct eq (auth_failed cd cmd text) (auth_failed cd cmd text).
Proof.
  unfold auth_failed. eapply indistinct_bind; [apply indistinct_gets; intros ? ? E; by rewrite E|].
  intros a b <-. destruct (String.eqb cmd "login"); [repeat indistinct_step|].
  destruct a as [u|]; [|repeat indistinct_step].
  assert (∀ text, indistinct eq (password ← prompt_password text; client (c_login u password))
                   (password ← prompt_password text; client (c_login u password))) as Hm.
  { intros t. eapply indistinct_bind; [apply indistinct_prompt|]. intros p q _.
    apply indistinct_client, blind_login. }
  intros s1 s2 Hs. specialize (Hm ("La sesión venció. Contraseña de " +:+ u +:+ ": ") s1 s2 Hs).
  cbv beta. destruct (mbind _ (prompt_password _) s1) as [t1 r1], (mbind _ (prompt_password _) s2) as [t2 r2].
  simpl in Hm. destruct Hm as [Ht Hr], r1 as [a1|x1], r2 as [a2|x2]; simpl in Hr; try done; subst.
  destruct x2 as [e t|t|t|]; try done. by destruct (is_domain e).
Qed.

Lemma indistinct_command cd line : indistinct eq (handle_command cd line) (handle_command cd line).
Proof.
  unfold handle_command. destruct (split_command line) as [[|cmd args]|text]; [by apply indistinct_ret| |by apply indistinct_ret].
  intros s1 s2 Hs. destruct (indistinct_dispatch cd cmd args s1 s2 Hs) as [Ht Hr]. unfold handling.
  destruct (dispatch cd cmd args s1) as [t1 [o1|x1]], (dispatch cd cmd args s2) as [t2 [o2|x2]]; simpl in Hr; try done.
  subst x2. destruct x1 as [e t|t|t|]; try done.
  destruct e; try (by destruct (is_domain _)). by apply indistinct_auth.
Qed.

(** C31. What the shell prints and asks does not depend on the passwords typed: two terminals
    that look alike see the same session, for the same answers of the client. *)
Theorem passwords_never_printed cd lines printed (s1 s2 : C * Console) : look_alike s1 s2 →
  let out1 := repl_loop cd lines printed s1 in
  let out2 := repl_loop cd lines printed s2 in
  same_result eq out1.2 out2.2 ∧ shown out1.1.2 = shown out2.1.2 ∧ out1.1.1 = out2.1.1.
Proof.
  intros Hs out1 out2. assert (indistinct eq (repl_loop cd lines printed) (repl_loop cd lines printed)) as H.
  { clear s1 s2 Hs out1 out2. revert cd printed. induction lines as [|line lines IH]; intros cd printed; simpl; [by apply indistinct_ret|].
    case_decide; [by apply indistinct_ret|].
    eapply indistinct_bind; [apply indistinct_command|]. intros a b <-. apply IH. }
  destruct (H s1 s2 Hs) as [(H1 & H2 & _) H3]. done.
Qed.
End passwords.

Lemma same_result_eq {A} (r1 r2 : result shell_exn A) : same_result eq r1 r2 → r1 = r2.
Proof. by destruct r1, r2; simpl; intros H; subst. Qed.

(** A client that answers from a script, whatever it is asked: its calls return, or raise
    the next exception of the script. *)
Definition next_answer {A} (a : A) : M (list (option shell_exn)) shell_exn A := λ script,
  match script with
  | Some x :: rest => (rest, Err x)
  | None :: rest => (rest, Ok a)
  | [] => ([], Ok a)
  end.
Definition scripted : ShellClient (list (option shell_exn)) := {|
  hasattr _ := true;
  username _ := Some "ana";
  groups _ := ["staff"];
  is_admin _ := true;
  c_list_dir _ := next_answer [];
  c_make_dir _ := next_answer tt;
  c_remove_dir _ := next_answer tt;
  c_remove _ := next_answer tt;
  c_upload _ _ := next_answer 0%Z;
  c_download _ _ := next_answer 0%Z;
  c_read _ _ _ := next_answer [];
  c_read_to_file _ _ _ _ := next_answer 0%Z;
  c_write _ _ _ := next_answer 0%Z;
  c_open p m := next_answer (mkHeld p m "1");
  c_lock p m := next_answer (mkHeld p m "1");
  c_unlock _ := next_answer tt;
  c_locks := next_answer [];
  c_login _ _ := next_answer tt;
  c_create_user _ _ _ _ := next_answer tt;
  c_change_password _ _ _ := next_answer tt;
  c_chmod _ _ := next_answer tt;
  c_chown _ _ _ := next_answer tt;
  c_close := next_answer tt;
  local_bytes _ := next_answer []
|}.
Lemma scripted_blind : @BlindClient _ scripted.
Proof. by split. Qed.

Definition secret_lines : list string := ["adduser bob staff"; "rm /f"; "passwd"; "login ana"].
Definition secret_script : list (option shell_exn) := [None; Some (ExDomain AuthError "token vencido"); None; None; None].
Definition secret_typing (p q : string) : list (option string) :=
  [Some p; Some p; Some q; Some q; Some p; Some p; None].

Lemma passwords_never_printed_witness :
  let run p q := @repl_loop _ scripted "/" secret_lines [] (secret_script, mkConsole (secret_typing p q) []) in
  (run "alpha" "beta").2 = (run "uno" "dos").2 ∧ shown (run "alpha" "beta").1.2 = shown (run "uno" "dos").1.2.
Proof.
  intros run. unfold run.
  destruct (@passwords_never_printed _ scripted scripted_blind "/" secret_lines []
    (secret_script, mkConsole (secret_typing "alpha" "beta") []) (secret_script, mkConsole (secret_typing "uno" "dos") []))
    as (H1 & H2 & _).
  - split; [reflexivity|]. split; [reflexivity|]. cbn [secret_typing answers snd].
    repeat constructor; congruence.
  - split; [exact (same_result_eq _ _ H1)|exact H2].
Defined.

Lemma directory_follows_cd_witness :
  let start := ([] : list (option shell_exn), mkConsole [] []) in
  (@handle_command _ scripted "/a" "cd '../b c'" start).2 = Ok ("/b c", "") ∧
  ∃ path rest entries k', split_command "cd '../b c'" = Ok ("cd" :: path :: rest)
    ∧ shell_dir k' (destination ["a"] path) ∧ @c_list_dir _ scripted "/b c" start.1 = ([], Ok entries).
Proof.
  intros start. split; [vm_compute; reflexivity|].
  destruct (@directory_follows_cd _ scripted 1 ["a"] "cd '../b c'" start start "/b c" "")
    as [H|(path & rest & entries & k' & H1 & H2 & _ & H3 & _)].
  - split; [left; reflexivity|repeat constructor; discriminate].
  - vm_compute. reflexivity.
  - discriminate H.
  - exists path, rest, entries, k'. split; [exact H1|]. split; [exact H2|exact H3].
Defined.

(** * Calls *)

(** The calls a command makes to its client, as data. *)
Inductive shell_call :=
| KListDir (path : string) | KMakeDir (path : string) | KRemoveDir (path : string) | KRemove (path : string)
| KUpload (local remote : string) | KDownload (remote local : string)
| KRead (path : string) (offset : Z) (length : option Z)
| KReadToFile (path : string) (offset : Z) (length : option Z) (local : string)
| KWrite (path : string) (offset : Z) (data : list Z)
| KOpen (path mode : string) | KLock (path mode : string) | KUnlock (path : string) | KLocks
| KLogin (user password : string)
| KCreateUser (user password : string) (groups : list string) (admin : bool)
| KChangePassword (new current user : string)
| KChmod (path : string) (mode : Z) | KChown (path owner group : string) | KClose.

(** Any client, with the log of the calls it was asked for. *)
Definition Logged (C : Type) : Type := C * list shell_call.
Definition logging {C A} (k : list shell_call) (m : M C shell_exn A) : M (Logged C) shell_exn A := λ s,
  let out := m s.1 in ((out.1, s.2 ++ k), out.2).

#[export] Instance logged_client {C} {SC : ShellClient C} : ShellClient (Logged C) := {|
  hasattr := hasattr;
  username c := username c.1;
  groups c := groups c.1;
  is_admin c := is_admin c.1;
  c_list_dir p := logging [KListDir p] (c_list_dir p);
  c_make_dir p := logging [KMakeDir p] (c_make_dir p);
  c_remove_dir p := logging [KRemoveDir p] (c_remove_dir p);
  c_remove p := logging [KRemove p] (c_remove p);
  c_upload l r := logging [KUpload l r] (c_upload l r);
  c_download r l := logging [KDownload r l] (c_download r l);
  c_read p o n := logging [KRead p o n] (c_read p o n);
  c_read_to_file p o n l := logging [KReadToFile p o n l] (c_read_to_file p o n l);
  c_write p o d := logging [KWrite p o d] (c_write p o d);
  c_open p m := logging [KOpen p m] (c_open p m);
  c_lock p m := logging [KLock p m] (c_lock p m);
  c_unlock p := logging [KUnlock p] (c_unlock p);
  c_locks := logging [KLocks] c_locks;
  c_login u p := logging [KLogin u p] (c_login u p);
  c_create_user u p g a := logging [KCreateUser u p g a] (c_create_user u p g a);
  c_change_password n c u := logging [KChangePassword n c u] (c_change_password n c u);
  c_chmod p m := logging [KChmod p m] (c_chmod p m);
  c_chown p o g := logging [KChown p o g] (c_chown p o g);
  c_close := logging [KClose] c_close;
  local_bytes p := logging [] (local_bytes p)
|}.

Section calls.
Context {C : Type} {SC : ShellClient C}.
Notation Sh := (M (Logged C * Console) shell_exn).

Definition log_of (s : Logged C * Console) : list shell_call := s.1.2.

Definition at_most (n : nat) {A} (m : Sh A) : Prop :=
  ∀ s, ∃ calls, length calls ≤ n ∧ log_of (m s).1 = log_of s ++ calls.

Lemma at_most_0 {A} (m : Sh A) : (∀ s, (m s).1.1 = s.1) → ∀ n, at_most n m.
Proof. intros H n s. exists []. unfold log_of. rewrite H, app_nil_r. split; [simpl; lia|done]. Qed.
Lemma at_most_say cd text n : at_most n (say cd text).
Proof. by apply at_most_0. Qed.
Lemma at_most_prompt text n : at_most n (prompt_password text).
Proof. apply at_most_0. intros s. unfold prompt_password. by destruct (answers s.2) as [|[]]. Qed.
Lemma at_most_ask whose n : at_most n (_ask_new_password whose).
Proof.
  apply at_most_0. intros s. unfold _ask_new_password, mbind, M_bind, prompt_password.
  destruct (answers s.2) as [|[|] [|[|]]]; done.
Qed.
Lemma at_most_client {A} k (m : M C shell_exn A) : length k ≤ 1 → at_most (length k) (client (logging k m)).
Proof. intros Hk s. by exists k. Qed.

Lemma at_most_bind {A B} a b (m : Sh A) (f : A → Sh B) :
  at_most a m → (∀ x, at_most b (f x)) → at_most (a + b) (mbind f m).
Proof.
  intros Hm Hf s. destruct (Hm s) as (c1 & H1 & E1). unfold mbind, M_bind.
  destruct (m s) as [s1 [x|e]]; simpl in E1.
  - destruct (Hf x s1) as (c2 & H2 & E2). exists (c1 ++ c2). rewrite E2, E1, length_app, app_assoc. split; [lia|done].
  - exists c1. split; [lia|done].
Qed.

(** The calls come last in a command: what precedes the call makes none. *)
Ltac calls_step :=
  lazymatch goal with
  | |- at_most _ (say _ _) => apply at_most_say
  | |- at_most _ (mret _) => by apply at_most_0
  | |- at_most _ (match ?x with _ => _ end) => destruct x
  | |- at_most 1 (mbind _ (client (local_bytes _))) => apply (at_most_bind 0 1); [apply (at_most_client []); simpl; lia|intros ?]
  | |- at_most 1 (mbind _ (client _)) => apply (at_most_bind 1 0); [by apply (at_most_client [_])|intros ?]
  | |- at_most ?n (mbind _ (gets _)) => apply (at_most_bind 0 n); [by apply at_most_0|intros ?]
  | |- at_most ?n (mbind _ (prompt_password _)) => apply (at_most_bind 0 n); [apply at_most_prompt|intros ?]
  | |- at_most ?n (mbind _ (_ask_new_password _)) => apply (at_most_bind 0 n); [apply at_most_ask|intros ?]
  | |- at_most ?n (mbind _ (match ?x with _ => _ end)) => destruct x
  | |- at_most ?n (mbind _ (mret _)) => apply (at_most_bind 0 n); [by apply at_most_0|intros ?]
  end.

Lemma dispatch_calls cd cmd args : at_most 1 (dispatch cd cmd args).
Proof.
  unfold dispatch, do_ls_long, do_ls, do_cd, do_path, do_send, do_receive, do_cat, do_read, do_write, do_open,
    do_unlock, do_lock, do_locks, do_login, do_whoami, do_adduser, do_passwd, do_chmod, do_chown.
  cbv zeta. repeat calls_step.
Qed.

(** The renewal of a session: one login, for the user it had. *)
Lemma renewal_calls cd cmd text s : cmd ≠ "login" →
  let out := auth_failed cd cmd text s in
  log_of out.1 = log_of s ∨
  ∃ u p, logged_in (username s.1) = Some u ∧ log_of out.1 = log_of s ++ [KLogin u p].
Proof.
  intros Hcmd. remember (auth_failed cd cmd text s) as out eqn:H. intros out'. subst out'.
  unfold auth_failed, mbind at 1, M_bind at 1, gets in H.
  rewrite (proj2 (String.eqb_neq cmd "login") Hcmd) in H.
  destruct (logged_in (username s.1)) as [u|]; [|by subst out; left].
  unfold mbind, M_bind, prompt_password in H.
  destruct (answers s.2) as [|[a|] rest]; simpl in H; [by subst out; left| |by subst out; left].
  right. exists u, a. split; [done|].
  destruct (c_login u a s.1.1) as [c [r|[e t|t|t|]]]; simpl in H; try destruct (is_domain e); by subst out.
Qed.

(** A command makes at most one call.  Only when that call is refused for its
    credentials, and there was a session, does the shell log in again as the same user,
    and it never repeats the call. *)
Theorem one_call_per_command cd line s :
  let out := handle_command cd line s in
  ∃ calls renewal, log_of out.1 = log_of s ++ calls ++ renewal ∧ length calls ≤ 1 ∧
    (renewal = [] ∨
     ∃ cmd args text u p, split_command line = Ok (cmd :: args) ∧ cmd ≠ "login"
       ∧ (dispatch cd cmd args s).2 = Err (ExDomain AuthError text)
       ∧ logged_in (username (dispatch cd cmd args s).1.1) = Some u ∧ renewal = [KLogin u p]).
Proof.
  intros out. unfold out, handle_command.
  destruct (split_command line) as [[|cmd args]|text];
    [exists [], []; rewrite !app_nil_r; split_and!; simpl; (lia || auto)| |
     exists [], []; rewrite !app_nil_r; split_and!; simpl; (lia || auto)].
  destruct (dispatch_calls cd cmd args s) as (calls & Hl & Hc). exists calls.
  assert (∀ m : Logged C * Console * result shell_exn (string * string), log_of m.1 = log_of (dispatch cd cmd args s).1 →
    ∃ renewal, log_of m.1 = log_of s ++ calls ++ renewal ∧ length calls ≤ 1 ∧ (renewal = [] ∨
     ∃ cmd0 args0 text u p, Ok (E := string) (cmd :: args) = Ok (cmd0 :: args0) ∧ cmd0 ≠ "login"
       ∧ (dispatch cd cmd0 args0 s).2 = Err (ExDomain AuthError text)
       ∧ logged_in (username (dispatch cd cmd0 args0 s).1.1) = Some u ∧ renewal = [KLogin u p])) as Hquiet.
  { intros m Hm. exists []. rewrite Hm, Hc, app_nil_r. auto. }
  unfold handling. destruct (dispatch cd cmd args s) as [s' [o|x]] eqn:Hd; [by apply Hquiet|].
  destruct x as [e t|t|t|]; try by apply Hquiet.
  destruct e; try (destruct (is_domain _); by apply Hquiet).
  destruct (decide (cmd = "login")) as [->|Hne]; [by apply Hquiet|].
  destruct (renewal_calls cd cmd t s' Hne) as [H|(u & p & Hu & H)]; [by apply Hquiet|].
  exists [KLogin u p]. rewrite H. simpl in Hc. rewrite Hc, <-app_assoc. split_and!; [done|done|].
  right. exists cmd, args, t, u, p. rewrite Hd. done.
Qed.
End calls.
