(* ===== verification/ShellCluster.v ===== *)
(** The clients the shell drives: the distributed one, as the programs of Session.v over a
    cluster, and the first, monolithic one (FileClient.v).  With the first, a session typed
    at the shell is a session on a list of bytes: what is sent, written and received is
    what [cat] prints.

    The text of an exception is an argument: the model has its class only. *)

From Stdlib Require Import QArith.
From stdpp Require Import pretty.
From S2P Require Import Prelude Exceptions Dict Crypto Bytes Paths BlockToken Addresses Auth BlockStore.
From S2P Require Import Container BlockStoreProps.
From S2P Require Import TreeData Tree TreeFacts Layout Replicated Servicer Handlers ServicerProps.
From S2P Require Import ServicerErrors ServicerUpload ServicerSteps DataNode RpcClient ClientData ClientRead.
From S2P Require Import ClientWrite ClientTransfer ClientLocks.
From S2P Require Session FileServer FileClient HostFs FileServerProps FileClientProps.
From S2P Require Import ClusterWorld ClusterFacts ClusterUpload ClusterDownload ClusterWrite.
From S2P Require ClusterProps.
From S2P Require Import ShellWords ShellFacts Shell ShellProps.

Open Scope Z_scope.

(** * The distributed client *)

Section distributed.
Context {W : Type} {CW : Session.Cluster W} (view_metadata : list (string * string)) (schedule : nat → list nat).
Context (text_of : client_error → string).

Definition shell_error (e : client_error) : shell_exn :=
  match e with ByExn x => ExDomain x (text_of e) | ByRpc _ => ExOther end.
Definition as_shell {A} (m : M (Session.Client W) client_error A) : M (Session.Client W) shell_exn A := λ c,
  let out := m c in (out.1, match out.2 with Ok a => Ok a | Err e => Err (shell_error e) end).

Definition shell_entry (e : DirEntryData) : Entry :=
  mkShellEntry (e_name e) (e_is_dir e) (e_size_bytes e) (Some (e_mode e, e_owner e, e_group e)).
Definition held_lock (c : Session.Client W) (i : nat) : HeldLock :=
  let h := handle_at i (Session.cl_locks c) in mkHeld (h_path h) (h_mode h) (h_id h).
Definition taking (m : M (Session.Client W) client_error nat) : M (Session.Client W) shell_exn HeldLock :=
  i ← as_shell m; gets (λ c, held_lock c i).

Definition distributed_shell : ShellClient (Session.Client W) := {|
  hasattr _ := true;
  username c := Session.id_username (Session.cl_identity c);
  groups c := Session.id_groups (Session.cl_identity c);
  is_admin c := Session.id_admin (Session.cl_identity c);
  c_list_dir p := entries ← as_shell (Session.list_dir view_metadata p); mret (shell_entry <$> entries);
  c_make_dir p := as_shell (Session.make_dir view_metadata p);
  c_remove_dir p := as_shell (Session.remove_dir view_metadata p);
  c_remove p := as_shell (Session.remove view_metadata p);
  c_upload local remote := λ c,
    as_shell (Session.upload view_metadata schedule (Session.cl_files c !! path_str local) remote) c;
  c_download remote local := as_shell (Session.download view_metadata schedule remote (path_str local));
  c_read p offset length := as_shell (Session.read view_metadata p offset length);
  c_read_to_file p offset length local := as_shell (Session.read_to_file view_metadata p offset length (path_str local));
  c_write p offset data := as_shell (Session.write view_metadata p offset data);
  c_open p mode := taking (Session.open view_metadata p mode);
  c_lock p mode := taking (Session.lock view_metadata p mode);
  c_unlock p := as_shell (Session.unlock view_metadata p);
  c_locks := gets (λ c, held_lock c <$> ClientLocks.locks (Session.cl_locks c));
  c_login user password := as_shell (Session.login view_metadata user password);
  c_create_user user password mine admin := as_shell (Session.create_user view_metadata user password (Some mine) admin);
  c_change_password new current user := as_shell (Session.change_password view_metadata new current user);
  c_chmod p mode := as_shell (Session.chmod view_metadata p mode);
  c_chown p owner group := as_shell (Session.chown view_metadata p owner group);
  c_close := as_shell (Session.close view_metadata);
  local_bytes local := λ c,
    (c, match Session.cl_files c !! path_str local with Some data => Ok data | None => Err (ExOS "") end)
|}.
End distributed.

(** * The monolithic client *)

Section monolithic.
Context (root base : HostFs.Path) (link_at : nat → FileClient.link) (uuid_at : nat → string).
Context (text_of : HostFs.host_error → string).

(** The two hosts and the number of calls made, which says how the network treats the
    next one and what its temporary file is called. *)
Notation Mono := (FileClient.Hosts * nat)%type.

Definition mono_error (e : HostFs.host_error) : shell_exn :=
  match e with
  | HostFs.OSError _ => ExOS (text_of e)
  | HostFs.Exn x => ExDomain x (text_of e)
  | HostFs.Grpc _ => ExOther
  end.
Definition as_mono {A} (m : nat → M FileClient.Hosts HostFs.host_error A) : M Mono shell_exn A := λ c,
  let out := m c.2 c.1 in
  ((out.1, S c.2), match out.2 with Ok a => Ok a | Err e => Err (mono_error e) end).
Definition hop_of (n : nat) : hop :=
  match link_at n with FileClient.Whole h => h | FileClient.Cut _ code => Lost code end.

(** A local path, from the working directory. *)
Definition local_path (s : string) : HostFs.Path :=
  HostFs.resolve_under (if starts_with "/" s then [] else base) s.

Definition mono_entry (e : FileServer.DirEntryData) : Entry :=
  mkShellEntry (FileServer.d_name e) (FileServer.d_is_dir e) (FileServer.d_size_bytes e) None.

(** The methods of [DFShaClient]; the others raise [AttributeError]. *)
Definition absent {A} : M Mono shell_exn A := raise ExOther.
Definition monolithic_shell : ShellClient Mono := {|
  hasattr m := bool_decide (m ∈ ["close"; "list_dir"; "make_dir"; "remove_dir"; "remove"; "upload"; "download"]);
  username _ := None;
  groups _ := [];
  is_admin _ := false;
  c_list_dir p := entries ← as_mono (λ n, FileClient.list_dir root (hop_of n) p); mret (mono_entry <$> entries);
  c_make_dir p := as_mono (λ n, FileClient.make_dir root (hop_of n) p);
  c_remove_dir p := as_mono (λ n, FileClient.remove_dir root (hop_of n) p);
  c_remove p := as_mono (λ n, FileClient.remove root (hop_of n) p);
  c_upload local remote := as_mono (λ n, FileClient.upload root (link_at n) (local_path local) remote (uuid_at n));
  c_download remote local := as_mono (λ n, FileClient.download root (link_at n) remote (local_path local) (uuid_at n));
  c_read _ _ _ := absent;
  c_read_to_file _ _ _ _ := absent;
  c_write _ _ _ := absent;
  c_open _ _ := absent;
  c_lock _ _ := absent;
  c_unlock _ := absent;
  c_locks := absent;
  c_login _ _ := absent;
  c_create_user _ _ _ _ := absent;
  c_change_password _ _ _ := absent;
  c_chmod _ _ := absent;
  c_chown _ _ _ := absent;
  c_close := mret tt;
  local_bytes local := λ c,
    (c, match FileClient.local c.1 !! local_path local with
        | Some (HostFs.HFile content) => Ok content
        | _ => Err (ExOS "")
        end)
|}.

(** It raises domain errors and [OSError] only. *)
Definition plain_error (e : HostFs.host_error) : bool :=
  match e with HostFs.OSError _ => true | HostFs.Grpc _ => false | HostFs.Exn x => is_domain x end.
Definition plain {S A} (m : M S HostFs.host_error A) : Prop := ∀ s s' e, m s = (s', Err e) → plain_error e = true.

Lemma translated_domain e : is_domain (FileClient._translate e) = true.
Proof. unfold FileClient._translate. destruct e as [code md]. destruct code; reflexivity. Qed.

Lemma plain_rpc {A} h (handler : M HostFs.HostFS RpcError A) : plain (FileClient.rpc_call h handler).
Proof.
  intros w w' e. unfold FileClient.rpc_call. destruct h; [|intros [= _ <-]; apply translated_domain..].
  destruct (handler (FileClient.server w)) as [fs [a|e0]]; [done|]. intros [= _ <-]. apply translated_domain.
Qed.

Lemma plain_upload l local remote uuid4 : plain (FileClient.upload root l local remote uuid4).
Proof.
  intros w w' e. unfold FileClient.upload.
  destruct (FileClient.local w !! local) as [[|content]|]; [by intros [= _ <-]| |by intros [= _ <-]].
  destruct l; apply plain_rpc.
Qed.

(** The calls on the local host raise [OSError], or the error that ends the stream. *)
Definition os_only {A} (m : M HostFs.HostFS HostFs.host_error A) : Prop :=
  ∀ fs fs' e, m fs = (fs', Err e) → match e with HostFs.Exn _ => False | _ => True end.

Lemma os_open_wb p : os_only (HostFs.open_wb p).
Proof. intros fs fs' e. unfold HostFs.open_wb. repeat case_match; try done; by intros [= _ <-]. Qed.
Lemma os_os_replace p q : os_only (HostFs.os_replace p q).
Proof. intros fs fs' e. unfold HostFs.os_replace. repeat case_match; try done; by intros [= _ <-]. Qed.
Lemma os_write_loop tmp chunks broken n : os_only (FileServer.write_loop tmp chunks (HostFs.Grpc <$> broken) n).
Proof.
  revert n. induction chunks as [|c chunks IH]; intros n fs fs' e; simpl.
  - destruct broken; [by intros [= _ <-]|done].
  - intros [H|(fs1 & u & _ & H)]%bind_err_inv; [|by eapply IH].
    unfold HostFs.append_to in H. repeat case_match; done.
Qed.
Lemma os_bind {A B} (m : M HostFs.HostFS HostFs.host_error A) (f : A → M HostFs.HostFS HostFs.host_error B) :
  os_only m → (∀ a, os_only (f a)) → os_only (mbind f m).
Proof. intros Hm Hf fs fs' e [H|(fs1 & a & _ & H)]%bind_err_inv; [by eapply Hm|by eapply Hf]. Qed.

Lemma plain_download l remote local uuid4 : plain (FileClient.download root l remote local uuid4).
Proof.
  intros w w' e. unfold FileClient.download. intros [= _ He]. unfold FileClient.discarding in He.
  match type of He with context [match ?m ?fs with _ => _ end] =>
    assert (os_only m) as Hos; [|destruct (m fs) as [fs1 [a|x]] eqn:Hm] end.
  - apply os_bind; [apply os_open_wb|intros _]. apply os_bind; [apply os_write_loop|intros n].
    apply os_bind; [apply os_os_replace|intros _]. by intros fs fs' x.
  - done.
  - specialize (Hos _ _ _ Hm). destruct x as [o|g|x]; [by simplify_eq/=| |done].
    unfold HostFs.unlink_missing_ok, HostFs.os_unlink in He. repeat case_match; simplify_eq/=; try done; apply translated_domain.
Qed.

Lemma tame_as_mono {A} (m : nat → M FileClient.Hosts HostFs.host_error A) : (∀ n, plain (m n)) → tame (as_mono m).
Proof.
  intros Hm c c' x [= _ Hx]. destruct (m c.2 c.1) as [w [a|e]] eqn:He; [done|]. simpl in Hx. injection Hx as <-.
  specialize (Hm _ _ _ _ He). by destruct e.
Qed.

Lemma monolithic_tame : @TameClient Mono monolithic_shell.
Proof.
  split; try (intros; match goal with H : _ = true |- _ => discriminate H end); try (intros c u H; discriminate H).
  - intros p. apply tame_bind; [|intros a; apply tame_ret]. apply tame_as_mono. intros n. apply plain_rpc.
  - intros p. apply tame_as_mono. intros n. apply plain_rpc.
  - intros p. apply tame_as_mono. intros n. apply plain_rpc.
  - intros p. apply tame_as_mono. intros n. apply plain_rpc.
  - intros l r. apply tame_as_mono. intros n. apply plain_upload.
  - intros r l. apply tame_as_mono. intros n. apply plain_download.
  - apply tame_ret.
  - intros p c c' x. cbn. destruct (FileClient.local c.1 !! local_path p) as [[]|]; by intros [= _ <-].
Qed.
End monolithic.

(** A session over the monolithic client, with a method it lacks and a call that fails. *)
Definition mono_shell : ShellClient (FileClient.Hosts * nat) :=
  monolithic_shell FileServerProps.demo_root ["home"] (λ n, FileClient.Whole (if decide (n = 3%nat) then Refused UNAVAILABLE else Delivered))
    (λ _, "u") (λ _, "error").
Definition mono_start : FileClient.Hosts * nat * Console := (FileClientProps.demo_hosts, 0%nat, mkConsole [] []).
Definition mono_lines : list string :=
  ["mkdir a"; "cd a"; "send f x"; "ls"; "ls"; "cat x"; "cd .."; "rmdir a"; "receive /a/x g"; "login ana"; " exit "; "rm x"].
Definition mono_printed : list string :=
  [banner; "2 bytes enviados a /a/x"; "ls: error"; "-          2  x";
   "cat: no disponible con este cliente (RF3 requiere el cliente distribuido)"; "rmdir: error";
   "2 bytes recibidos en g";
   "login: no disponible con este cliente (los usuarios requieren el cliente distribuido)"].

Lemma session_survives_witness :
  ∃ s1 printed, @repl_loop _ mono_shell "/" mono_lines [banner] mono_start = (s1, Ok printed)
    ∧ printed = mono_printed ∧ @run_repl _ mono_shell mono_lines mono_start = (s1, Ok printed).
Proof.
  destruct (@session_survives _ mono_shell (monolithic_tame _ _ _ _ _) mono_lines mono_start) as (s1 & printed & Hl & Hr).
  exists s1, printed. split; [exact Hl|].
  assert (printed = mono_printed) as Hp.
  { assert ((@repl_loop _ mono_shell "/" mono_lines [banner] mono_start).2 = Ok mono_printed) as E by (vm_compute; reflexivity).
    rewrite Hl in E. injection E as E. exact E. }
  split; [exact Hp|]. rewrite Hr. destruct s1 as [c k]. reflexivity.
Defined.

(** * A session typed at the shell *)

(** Commands about one remote file. *)
Inductive typed :=
| TSend (local : string)
| TCat
| TCatRange (offset length : string)
| TWrite (offset local : string)
| TReceive (local : string).

Definition typed_words (target : string) (t : typed) : list string :=
  match t with
  | TSend local => ["send"; local; target]
  | TCat => ["cat"; target]
  | TCatRange offset length => ["cat"; target; offset; length]
  | TWrite offset local => ["write"; target; offset; local]
  | TReceive local => ["receive"; target; local]
  end.

(** The local files and the bytes of the remote one, and what is printed. *)
Record Desk := mkDesk { d_files : gmap string (list Z); d_bytes : list Z }.

Definition on_desk (path : string) (t : typed) (d : Desk) : option (Desk * string) :=
  match t with
  | TSend local =>
      data ← d_files d !! path_str local;
      Some (mkDesk (d_files d) data, pretty (zlen data) +:+ " bytes enviados a " +:+ path)
  | TCat => Some (d, string_of (decode_replace (d_bytes d)))
  | TCatRange offset length =>
      match py_int offset, py_int length with
      | Some off, Some len =>
          Some (d, string_of (decode_replace (slice off (range_end (zlen (d_bytes d)) off (Some len)) (d_bytes d))))
      | _, _ => Some (d, "cat: uso: cat <ruta> [offset] [largo]")
      end
  | TWrite offset local =>
      match py_int offset with
      | Some off =>
          data ← d_files d !! path_str local;
          Some (mkDesk (d_files d) (splice (d_bytes d) off data),
                pretty (zlen data) +:+ " bytes escritos en " +:+ path +:+ " desde el byte " +:+ pretty off)
      | None => Some (d, "write: uso: write <ruta> <offset> <local>")
      end
  | TReceive local =>
      Some (mkDesk (<[path_str local := d_bytes d]> (d_files d)) (d_bytes d),
            pretty (zlen (d_bytes d)) +:+ " bytes recibidos en " +:+ path_str local)
  end.
Fixpoint all_on_desk (path : string) (ts : list typed) (d : Desk) : option (Desk * list string) :=
  match ts with
  | [] => Some (d, [])
  | t :: rest =>
      o ← on_desk path t d; os ← all_on_desk path rest o.1; Some (os.1, o.2 :: os.2)
  end.

(** A name no temporary file has, and a range that asks for bytes. *)
Definition ordinary (f : string) : Prop := ∀ local uid, f ≠ local +:+ ".part-" +:+ uid.
Definition typed_ok (t : typed) : Prop :=
  match t with
  | TSend local | TWrite _ local | TReceive local => ordinary (path_str local)
  | TCatRange _ length => py_int length ≠ Some 0
  | TCat => True
  end.

Section typed_session.
Context `{!Jwt, !JwtLaws, !Aead, !AeadLaws} (cfg : Config) (env : Env) (csize : Z).
Context (denv : nat → DEnv) (ids : nat → string) (peer_name : string) (md view_metadata : list (string * string)).
Context (schedule : nat → list nat) (Hschedule : ∀ k, schedule k ≡ₚ seq 0 k) (text_of : client_error → string).
Context (Hset : setting cfg env csize denv ids peer_name md).
#[local] Hint Extern 0 (Session.Cluster _) => exact (world_cluster cfg env csize denv ids peer_name) : typeclass_instances.
#[local] Hint Extern 0 (ShellClient _) => exact (distributed_shell view_metadata schedule text_of) : typeclass_instances.
Context (cd target path : string) (ps : list string).
Hypothesis Htarget : resolve_relative cd target = path.
Hypothesis Hpath : parts_of path = Ok ps.
Hypothesis Hothers : others_keep env ps.
Hypothesis Hreserve : others_reserve_elsewhere env.

Notation Cl := (Session.Client World).

(** The command was not refused. *)
Definition answered (line : string) (s : Cl * Console) : Prop :=
  match split_command line with
  | Ok (cmd :: args) => is_ok (dispatch cd cmd args s).2 = true
  | _ => True
  end.

(** A session whose commands are all answered, and what it prints. *)
Inductive typing : Cl * Console → list typed → list string → Cl * Console → Prop :=
| typing_nil s : typing s [] [] s
| typing_cons s t rest s1 dir out outs s2 :
    handle_command cd (quote_line (typed_words target t)) s = (s1, Ok (dir, out)) →
    answered (quote_line (typed_words target t)) s →
    typing s1 rest outs s2 → typing s (t :: rest) (out :: outs) s2.

(** The client, the cluster and the local files, as the desk has them. *)
Record at_desk (d : Desk) (store : gmap string (list Z)) (c : Cl) : Prop := {
  ad_auth : Session.cl_auth c ++ view_metadata = md;
  ad_world : world_ok cfg env csize ids peer_name md (Session.cl_world c) store;
  ad_files f : ordinary f → Session.cl_files c !! f = d_files d !! f
}.
Definition holds_file (d : Desk) (store : gmap string (list Z)) (c : Cl) : Prop :=
  at_desk d store c ∧ file_is cfg (Session.cl_world c) store ps (d_bytes d).

Lemma command_answered t s s1 dir out :
  handle_command cd (quote_line (typed_words target t)) s = (s1, Ok (dir, out)) →
  answered (quote_line (typed_words target t)) s →
  ∃ cmd args, typed_words target t = cmd :: args ∧ dispatch cd cmd args s = (s1, Ok (dir, out)).
Proof.
  unfold handle_command, answered. rewrite (split_spelled _ _ (quote_line_spells (typed_words target t))).
  destruct (typed_words target t) as [|cmd args] eqn:Ht; [by destruct t|].
  unfold handling. intros H Ha. destruct (dispatch cd cmd args s) as [s' [o|x]] eqn:Hd; [|done].
  injection H as <- ->. eauto.
Qed.

Lemma call_answered {A} (m : M Cl client_error A) (f : A → string) s s1 dir out :
  (x ← client (as_shell text_of m); say cd (f x)) s = (s1, Ok (dir, out)) →
  ∃ x, m s.1 = (s1.1, Ok x) ∧ out = f x ∧ s1.2 = s.2.
Proof.
  unfold mbind, M_bind, client, as_shell. destruct (m s.1) as [c [x|e]]; simpl; intros H; [|done].
  injection H as <- _ <-. eauto.
Qed.
Lemma say_answered text (s s1 : Cl * Console) dir out : say cd text s = (s1, Ok (dir, out)) → s1 = s ∧ out = text.
Proof. by intros [= <- _ <-]. Qed.

(** What a command that is answered asks of the client. *)
Lemma typed_call t s s1 dir out :
  handle_command cd (quote_line (typed_words target t)) s = (s1, Ok (dir, out)) →
  answered (quote_line (typed_words target t)) s →
  match t with
  | TSend local => ∃ n, Session.upload view_metadata schedule (Session.cl_files s.1 !! path_str local) path s.1 = (s1.1, Ok n)
      ∧ out = pretty n +:+ " bytes enviados a " +:+ path
  | TCat => ∃ data, Session.read view_metadata path 0 None s.1 = (s1.1, Ok data) ∧ out = string_of (decode_replace data)
  | TCatRange offset length =>
      match py_int offset, py_int length with
      | Some off, Some len => ∃ data, Session.read view_metadata path off (Some len) s.1 = (s1.1, Ok data)
          ∧ out = string_of (decode_replace data)
      | _, _ => s1 = s ∧ out = "cat: uso: cat <ruta> [offset] [largo]"
      end
  | TWrite offset local =>
      match py_int offset with
      | Some off => ∃ data n, Session.cl_files s.1 !! path_str local = Some data
          ∧ Session.write view_metadata path off data s.1 = (s1.1, Ok n)
          ∧ out = pretty n +:+ " bytes escritos en " +:+ path +:+ " desde el byte " +:+ pretty off
      | None => s1 = s ∧ out = "write: uso: write <ruta> <offset> <local>"
      end
  | TReceive local => ∃ n, Session.download view_metadata schedule path (path_str local) s.1 = (s1.1, Ok n)
      ∧ out = pretty n +:+ " bytes recibidos en " +:+ path_str local
  end.
Proof.
  intros H Ha. destruct (command_answered t s s1 dir out H Ha) as (cmd & args & Hw & Hd). clear H Ha.
  destruct t as [local| |offset len|offset local|local]; cbn [typed_words] in Hw; injection Hw as <- <-.
  - change (do_send cd [local; target] s = (s1, Ok (dir, out))) in Hd. unfold do_send in Hd. rewrite Htarget in Hd.
    apply (call_answered (λ c, Session.upload view_metadata schedule (Session.cl_files c !! path_str local) path c)
      (λ n, pretty n +:+ " bytes enviados a " +:+ path)) in Hd as (n & Hn & -> & _). eauto.
  - change (do_cat cd [target] s = (s1, Ok (dir, out))) in Hd. unfold do_cat in Hd. rewrite Htarget in Hd.
    apply (call_answered (Session.read view_metadata path 0 None) (λ data, string_of (decode_replace data)))
      in Hd as (data & Hr & -> & _). eauto.
  - change (do_cat cd [target; offset; len] s = (s1, Ok (dir, out))) in Hd. unfold do_cat in Hd. rewrite Htarget in Hd.
    cbn [Datatypes.length Nat.leb andb tail] in Hd. rewrite parse_range_two in Hd.
    destruct (py_int offset) as [off|]; [|by apply say_answered in Hd].
    destruct (py_int len) as [l|]; [|by apply say_answered in Hd].
    apply (call_answered (Session.read view_metadata path off (Some l)) (λ data, string_of (decode_replace data)))
      in Hd as (data & Hr & -> & _). eauto.
  - change (do_write cd [target; offset; local] s = (s1, Ok (dir, out))) in Hd. unfold do_write in Hd.
    rewrite parse_range_one in Hd. destruct (py_int offset) as [off|]; [|by apply say_answered in Hd].
    cbn in Hd. unfold mbind at 1, M_bind at 1, client at 1 in Hd. cbn in Hd.
    destruct (Session.cl_files s.1 !! path_str local) as [data|] eqn:Hl; [|done]. cbn in Hd.
    rewrite Htarget in Hd.
    apply (call_answered (Session.write view_metadata path off data)
      (λ n, pretty n +:+ " bytes escritos en " +:+ path +:+ " desde el byte " +:+ pretty off)) in Hd as (n & Hr & -> & _).
    eauto.
  - change (do_receive cd [target; local] s = (s1, Ok (dir, out))) in Hd. unfold do_receive in Hd. rewrite Htarget in Hd.
    apply (call_answered (Session.download view_metadata schedule path (path_str local))
      (λ n, pretty n +:+ " bytes recibidos en " +:+ path_str local)) in Hd as (n & Hn & -> & _). eauto.
Qed.

Lemma send_typed local d store (c c' : Cl) n : ordinary (path_str local) → at_desk d store c →
  Session.upload view_metadata schedule (Session.cl_files c !! path_str local) path c = (c', Ok n) →
  ∃ data store', d_files d !! path_str local = Some data ∧ n = zlen data ∧ store ⊆ store'
    ∧ holds_file (mkDesk (d_files d) data) store' c'.
Proof.
  intros Hord [Hmd Hok Hf] Hrun. rewrite Hf in Hrun by done.
  destruct (d_files d !! path_str local) as [data|] eqn:Hl; [|done].
  apply (upload_file cfg env csize denv ids peer_name md view_metadata schedule Hset path ps data c c' n store) in Hrun
    as (-> & store' & H4 & H5 & H6 & (_ & H7 & H8)); [|done..].
  exists data, store'. split_and!; [done|done|done|]. split; [|done].
  split; [by rewrite H7|done|]. intros f Hof. cbn [d_files]. rewrite <-Hf by done. congruence.
Qed.

Lemma read_step off len d store (c c' : Cl) data : len ≠ Some 0 → holds_file d store c →
  Session.read view_metadata path off len c = (c', Ok data) →
  data = slice off (range_end (zlen (d_bytes d)) off len) (d_bytes d) ∧ holds_file d store c'.
Proof.
  intros Hlen [[Hmd Hok Hf] Hfile] (c1 & out & Hrun & [= <- <-])%bind_ok_inv. destruct out as [fh n].
  apply (read_range_file cfg env csize denv ids peer_name md view_metadata Hset ps Hothers path off len None c c1 fh n store (d_bytes d)) in Hrun
    as (Hs & H4 & _); [|done..]. cbn [fst]. split; [done|].
  destruct (steady_file _ _ _ _ _ _ _ _ _ _ _ _ Hs Hmd Hok Hfile) as [H5 H6]. destruct Hs as (H7 & H8 & _).
  split; [|done]. split; [by rewrite H7|done|]. intros f Hof. rewrite H8. by apply Hf.
Qed.

Lemma slice_whole (l : list Z) : slice 0 (range_end (zlen l) 0 None) l = l.
Proof. apply slice_all. Qed.

Lemma desk_step t d store s s1 dir out : typed_ok t → holds_file d store s.1 →
  handle_command cd (quote_line (typed_words target t)) s = (s1, Ok (dir, out)) →
  answered (quote_line (typed_words target t)) s →
  ∃ d' store', on_desk path t d = Some (d', out) ∧ store ⊆ store' ∧ holds_file d' store' s1.1.
Proof.
  intros Hty Hh H Ha. pose proof (typed_call t s s1 dir out H Ha) as Hc. clear H Ha. pose proof Hh as [[Hmd Hok Hf] Hfile].
  destruct t as [local| |offset len|offset local|local]; cbn [on_desk typed_ok] in *.
  - destruct Hc as (n & Hrun & ->). apply (send_typed local d store) in Hrun as (data & store' & -> & -> & Hs & Hh'); [|done..].
    exists (mkDesk (d_files d) data), store'. done.
  - destruct Hc as (data & Hrun & ->). apply (read_step 0 None d store) in Hrun as [-> Hh']; [|done..].
    rewrite slice_whole. exists d, store. done.
  - destruct (py_int offset) as [off|]; [|destruct Hc as [-> ->]; by exists d, store].
    destruct (py_int len) as [l|]; [|destruct Hc as [-> ->]; by exists d, store].
    destruct Hc as (data & Hrun & ->). apply (read_step off (Some l) d store) in Hrun as [-> Hh']; [|done..].
    exists d, store. done.
  - destruct (py_int offset) as [off|]; [|destruct Hc as [-> ->]; by exists d, store].
    destruct Hc as (data & n & Hl & Hrun & ->). rewrite <-Hf, Hl by done. cbn.
    apply (write_file cfg env csize denv ids peer_name md view_metadata Hset ps path off data s.1 s1.1 n store (d_bytes d)) in Hrun
      as (-> & _ & store' & H4 & H5 & H6 & H7 & H8); [|done..].
    exists (mkDesk (d_files d) (splice (d_bytes d) off data)), store'. split_and!; [done|done|].
    split; [|done]. split; [by rewrite H7|done|]. intros f Hof. rewrite H8. by apply Hf.
  - destruct Hc as (n & Hrun & ->).
    apply (download_file cfg env csize denv ids peer_name md view_metadata Hset ps Hothers schedule path (path_str local)
      s.1 s1.1 n store (d_bytes d)) in Hrun as (-> & H4 & H5 & H6 & uid & H7); [|done..].
    exists (mkDesk (<[path_str local := d_bytes d]> (d_files d)) (d_bytes d)), store. split_and!; [done|done|].
    split; [|done]. split; [by rewrite H6|done|]. intros f Hof. rewrite H7. cbn [d_files].
    destruct (decide (f = path_str local)) as [->|Hne]; [by rewrite !lookup_insert_eq|].
    rewrite !lookup_insert_ne, lookup_delete_ne by (done || (intros Heq; by apply (Hof (path_str local) uid))).
    by apply Hf.
Qed.

Lemma desk_steps ts d store s outs s2 : Forall typed_ok ts → holds_file d store s.1 → typing s ts outs s2 →
  ∃ d' store', all_on_desk path ts d = Some (d', outs) ∧ store ⊆ store' ∧ holds_file d' store' s2.1.
Proof.
  intros Hty Hh Ht. revert d store Hty Hh. induction Ht as [s|s t rest s1 dir out outs s2 H Ha Ht IH]; intros d store Hty Hh.
  { by exists d, store. }
  apply Forall_cons in Hty as [Ht1 Hty]. destruct (desk_step t d store s s1 dir out Ht1 Hh H Ha) as (d1 & store1 & E1 & S1 & Hh1).
  destruct (IH d1 store1 Hty Hh1) as (d2 & store2 & E2 & S2 & Hh2). exists d2, store2.
  cbn [all_on_desk]. rewrite E1. cbn. rewrite E2. cbn. split_and!; [done|by etrans|done].
Qed.
End typed_session.

(** C2. What is typed at the shell and answered, through the client, the leader, the
    replicated tree and the DataNodes, prints and leaves on the local disk what the same
    commands on a list of bytes do: after a file is sent to a path, [cat] prints its
    bytes as text, [write] changes them in place, and [receive] stores them. *)
Theorem typed_session_refines `{!Jwt, !JwtLaws, !Aead, !AeadLaws} cfg env csize denv ids peer_name md view_metadata
    schedule text_of cd target ps local ts d store s outs s2 :
  setting cfg env csize denv ids peer_name md → (∀ k, schedule k ≡ₚ seq 0 k) →
  parts_of (resolve_relative cd target) = Ok ps → others_keep env ps → others_reserve_elsewhere env →
  Forall typed_ok (TSend local :: ts) → at_desk cfg env csize ids peer_name md view_metadata d store s.1 →
  typing cfg env csize denv ids peer_name view_metadata schedule text_of cd target s (TSend local :: ts) outs s2 →
  ∃ d', all_on_desk (resolve_relative cd target) (TSend local :: ts) d = Some (d', outs)
    ∧ ∀ f, ordinary f → Session.cl_files s2.1 !! f = d_files d' !! f.
Proof.
  intros Hset Hsched Hpath Hoth Hres Hty Hd Ht. apply Forall_cons in Hty as [Ht1 Hty].
  inversion Ht as [|? ? ? s1 dir out outs' ? H Ha Hrest]; subst.
  pose proof (typed_call cfg env csize denv ids peer_name view_metadata schedule text_of cd target _ eq_refl (TSend local) s s1 dir out H Ha) as (n & Hrun & ->).
  eapply send_typed in Hrun as (data & store1 & Hl & -> & _ & Hh1); [|done..].
  eapply desk_steps in Hrest as (d2 & store2 & E2 & _ & [[_ _ Hf] _]); [|done..].
  exists d2. split; [|done]. cbn [all_on_desk on_desk]. rewrite Hl. cbn. cbn in E2. by rewrite E2.
Qed.

(** ** A session on three DataNodes *)

Lemma has_char_append c s t : has_char c (s +:+ t) = has_char c s || has_char c t.
Proof. induction s as [|a s IH]; [done|]. rewrite append_cons. simpl. by rewrite IH, orb_assoc. Qed.

Lemma ordinary_no_dash f : has_char "-" f = false → ordinary f.
Proof. intros Hf local uid ->. by rewrite !has_char_append, orb_true_r in Hf. Qed.

(** A typed session, computed. *)
Section computed.
Context {C : Type} {SC : ShellClient C} (cd target : string).
Fixpoint type_all (ts : list typed) (s : C * Console) : option (list string * (C * Console)) :=
  match ts with
  | [] => Some ([], s)
  | t :: rest =>
      let line := quote_line (typed_words target t) in
      match split_command line, handle_command cd line s with
      | Ok (cmd :: args), (s1, Ok (_, out)) =>
          if is_ok (dispatch cd cmd args s).2 then
            r ← type_all rest s1; Some (out :: r.1, r.2)
          else None
      | _, _ => None
      end
  end.
End computed.

Definition full_shell : ShellClient (Session.Client World) :=
  @distributed_shell World (@world_cluster toy_jwt toy_aead ClusterProps.full_config ClusterProps.full_env 3
    ClusterProps.full_denv ClusterProps.cluster_uuid "peer") [] (λ k, rev (seq 0 k)) (λ _, "error").

Lemma type_all_typing cd target ts s outs s2 :
  @type_all _ full_shell cd target ts s = Some (outs, s2) →
  @typing toy_jwt toy_aead ClusterProps.full_config ClusterProps.full_env 3 ClusterProps.full_denv
    ClusterProps.cluster_uuid "peer" [] (λ k, rev (seq 0 k)) (λ _, "error") cd target s ts outs s2.
Proof.
  revert s outs. induction ts as [|t ts IH]; intros s outs; cbn [type_all].
  { intros [= <- <-]. constructor. }
  destruct (split_command _) as [[|cmd args]|] eqn:Hs; [done| |done].
  destruct (handle_command _ _ _) as [s1 [[dir out]|]] eqn:Hh; [|done].
  destruct (is_ok _) eqn:Ha; [|done]. destruct (type_all cd target ts s1) as [[outs' s3]|] eqn:Hr; [|done].
  intros [= <- <-]. econstructor; [exact Hh| |by apply IH]. unfold answered. by rewrite Hs.
Qed.

Definition desk_files : gmap string (list Z) :=
  {["hola.txt" := bytes_of "hola, mundo"; "parche" := bytes_of "MUNDO!"]}.
Definition desk_client : Session.Client World * Console :=
  (Session.client_init ClusterProps.full_world desk_files, mkConsole [] []).
Definition desk_typed : list typed := [TCat; TWrite " 6 " "./parche"; TCatRange "4" "5"; TReceive "copia"; TCat].
Definition desk_printed : list string :=
  ["11 bytes enviados a /f"; "hola, mundo"; "6 bytes escritos en /f desde el byte 6"; "," +:+ " MUN";
   "12 bytes recibidos en copia"; "hola, MUNDO!"].

Lemma typed_session_refines_witness :
  ∃ s2 d', @type_all _ full_shell "/a" "../f" (TSend "hola.txt" :: desk_typed) desk_client = Some (desk_printed, s2)
    ∧ all_on_desk "/f" (TSend "hola.txt" :: desk_typed) (mkDesk desk_files []) = Some (d', desk_printed)
    ∧ Session.cl_files s2.1 !! "copia" = d_files d' !! "copia".
Proof.
  assert (fst <$> @type_all _ full_shell "/a" "../f" (TSend "hola.txt" :: desk_typed) desk_client = Some desk_printed) as Hrun
    by (vm_compute; reflexivity).
  destruct (@type_all _ full_shell "/a" "../f" (TSend "hola.txt" :: desk_typed) desk_client) as [[outs s2]|] eqn:Ht; [|discriminate].
  assert (outs = desk_printed) as -> by (injection Hrun as E; exact E). clear Hrun.
  exists s2. apply type_all_typing in Ht as Hty.
  destruct (@typed_session_refines toy_jwt toy_laws toy_aead toy_aead_laws ClusterProps.full_config ClusterProps.full_env 3
    ClusterProps.full_denv ClusterProps.cluster_uuid "peer" [] [] (λ k, rev (seq 0 k)) (λ _, "error") "/a" "../f" ["f"]
    "hola.txt" desk_typed (mkDesk desk_files []) ∅ desk_client desk_printed s2) as (d' & Hd & Hf).
  - exact ClusterProps.full_setting.
  - intros k. symmetry. apply Permutation_rev.
  - vm_compute. reflexivity.
  - intros n r. reflexivity.
  - intros n r k res. exact id.
  - repeat constructor; cbn [typed_ok]; try (apply ordinary_no_dash; vm_compute; reflexivity); vm_compute; discriminate.
  - split; [reflexivity|exact ClusterProps.full_world_ok|]. intros f _. reflexivity.
  - exact Hty.
  - exists d'. split; [reflexivity|]. split; [exact Hd|]. apply Hf. apply ordinary_no_dash. vm_compute. reflexivity.
Defined.
