(* ===== verification/Tls.v ===== *)
(** TLS of the gRPC links (dfsha/common/tls.py): the material a process loads from its
    arguments, the channels it dials and the port it opens.

    The credentials of gRPC are what they are built from: a channel or a port is a value
    that says whether it is in clear and, when it is not, which certificate it trusts or
    shows.  [read_bytes] is the disk: what a file holds, or [None] for an [OSError].  The
    last part generates certificates, over the functions of the cryptography package. *)

From S2P Require Import Prelude.

(** How a start fails: [SystemExit], or an exception nobody catches. *)
Inductive start_error := Exits | Raises.

(** The parts of a process that run, or hold something open, until they are stopped. *)
Inductive Component :=
| RaftNode | GrpcServer | MonitorThread | RereplicatorThread | CollectorThread | BootstrapThread.
#[global] Instance component_eq_dec : EqDecision Component.
Proof. solve_decision. Defined.

Record RaftConf := mkRaftConf {
  useFork : bool;
  password : option string;
  journalFile : option string;
  fullDumpFile : option string
}.

(** What a process does on its way up and down; [EvClose] closes the servicer. *)
Inductive event :=
| EvPrint (text : string)
| EvReady (bound_port : Z)
| EvMkdir (path : string)
| EvRaft (self : string) (peers : list string) (conf : RaftConf)
| EvStart (c : Component)
| EvStop (c : Component)
| EvClose.

Notation Start := (M (list event) start_error).

Definition log_event (e : event) : Start unit := modify (λ tr, tr ++ [e]).
Definition print (text : string) : Start unit := log_event (EvPrint text).

(** [if not check: raise]. *)
Definition exits_unless (b : bool) : Start unit := ensure b Exits.
Definition raises_unless (b : bool) : Start unit := ensure b Raises.
(** A value whose absence ends the process with [SystemExit], or with the exception. *)
Definition or_exit {E A} (r : result E A) : Start A :=
  match r with Ok a => mret a | Err _ => raise Exits end.
Definition or_raise {E A} (r : result E A) : Start A :=
  match r with Ok a => mret a | Err _ => raise Raises end.
Definition get_or {A} (e : start_error) (o : option A) : Start A :=
  match o with Some a => mret a | None => raise e end.

(** An option of the command line that may be missing, as Python tests it. *)
Definition truthy (o : option string) : bool := negb (bool_decide (default "" o = "")).

Definition NODE_TLS_NAME : string := "dfsha-node".

Record TlsConfig := mkTls {
  ca_cert : string;
  cert_chain : option string;
  private_key : option string
}.
Definition is_server (tls : TlsConfig) : bool :=
  bool_decide (cert_chain tls ≠ None) && bool_decide (private_key tls ≠ None).

Record TlsArgs := mkTlsArgs {
  tls_ca_file : option string;
  tls_cert_file : option string;
  tls_key_file : option string
}.

Inductive Channel :=
| InsecureChannel (address : string)
| SecureChannel (address root_certificates target_name : string).
Inductive Port :=
| InsecurePort (address : string)
| SecurePort (address key chain : string).

Definition no_tls_warning : string := "AVISO: sin TLS, los canales gRPC van en claro (solo para desarrollo)".

Section tls.
Context (read_bytes : string → option string).

(** A missing path is not read. *)
Definition read_if (file : option string) : Start (option string) :=
  match file with
  | Some f => content ← get_or Raises (read_bytes f); mret (Some content)
  | None => mret None
  end.

Definition load_tls (ca_file : string) (cert_file key_file : option string) : Start TlsConfig :=
  _ ← raises_unless (Bool.eqb (bool_decide (cert_file = None)) (bool_decide (key_file = None)));
  ca ← get_or Raises (read_bytes ca_file);
  chain ← read_if cert_file;
  key ← read_if key_file;
  mret (mkTls ca chain key).

Definition tls_files (args : TlsArgs) (server : bool) : list (option string) :=
  tls_ca_file args :: (if server then [tls_cert_file args; tls_key_file args] else []).

Definition tls_from_args (args : TlsArgs) (server : bool) : Start (option TlsConfig) :=
  if negb (existsb truthy (tls_files args server)) then _ ← print no_tls_warning; mret None
  else
    _ ← exits_unless (forallb truthy (tls_files args server));
    tls ← (if server then load_tls (default "" (tls_ca_file args)) (tls_cert_file args) (tls_key_file args)
           else load_tls (default "" (tls_ca_file args)) None None);
    mret (Some tls).
End tls.

Definition channel_factory (tls : option TlsConfig) (address : string) : Channel :=
  match tls with
  | None => InsecureChannel address
  | Some tls => SecureChannel address (ca_cert tls) NODE_TLS_NAME
  end.

(** [add_port]: the port gRPC is asked for, before it is bound. *)
Definition add_port (address : string) (tls : option TlsConfig) : Start Port :=
  match tls with
  | None => mret (InsecurePort address)
  | Some tls =>
      match cert_chain tls, private_key tls with
      | Some chain, Some key => mret (SecurePort address key chain)
      | _, _ => raise Raises
      end
  end.

(** * Generation *)

(** A certificate: the fields the two builders set, and the key it is signed with. *)
Record Cert := mkCert {
  subject_name : string;
  issuer_name : string;
  cert_public_key : string;
  serial_number : Z;
  not_valid_before : Z;
  not_valid_after : Z;
  basic_ca : bool;
  path_length : option Z;
  dns_names : list string;
  server_auth : bool;
  key_cert_sign : bool;
  signed_with : string
}.

(** The cryptography package: the [n]-th key and serial number it draws, the public part
    of a private key, and the PEM texts of keys and certificates. *)
Class X509 := {
  ec_key : nat → string;
  serial_at : nat → Z;
  public_key : string → string;
  pem_key : string → string;
  load_pem_private_key : string → option string;
  pem_cert : Cert → string;
  load_pem_x509_certificate : string → option Cert
}.

(** Documented behaviour: what is written in PEM is read back, and two keys drawn apart
    have different public parts. *)
Class X509Laws `{!X509} : Prop := {
  key_roundtrip : ∀ k, load_pem_private_key (pem_key k) = Some k;
  cert_roundtrip : ∀ c, load_pem_x509_certificate (pem_cert c) = Some c;
  keys_differ : ∀ i j, public_key (ec_key i) = public_key (ec_key j) → i = j
}.

Section generation.
Context {XC : X509}.

Definition _CA_VALIDITY : Z := 3650 * 86400.
Definition _NODE_VALIDITY : Z := 1825 * 86400.
Definition CA_NAME : string := "DFSha CA".

(** [now] in seconds; [n] the draw of the key and of the serial number. *)
Definition generate_ca (n : nat) (now : Z) : string * string :=
  let key := ec_key n in
  (pem_cert (mkCert CA_NAME CA_NAME (public_key key) (serial_at n) (now - 300) (now + _CA_VALIDITY) true (Some 0%Z)
     [] false true key), pem_key key).

(** [None] for the [ValueError] of a text that is no PEM. *)
Definition issue_node_cert (ca_cert_pem ca_key_pem : string) (n : nat) (now : Z) : option (string * string) :=
  ca_cert ← load_pem_x509_certificate ca_cert_pem;
  ca_key ← load_pem_private_key ca_key_pem;
  let key := ec_key n in
  Some (pem_cert (mkCert NODE_TLS_NAME (subject_name ca_cert) (public_key key) (serial_at n) (now - 300)
          (now + _NODE_VALIDITY) false None [NODE_TLS_NAME] true false ca_key), pem_key key).

(** A client that trusts [ca] accepts a server that shows [cert], by the fixed name. *)
Definition accepts (ca cert : Cert) : Prop :=
  basic_ca ca = true ∧ key_cert_sign ca = true ∧ issuer_name cert = subject_name ca
  ∧ public_key (signed_with cert) = cert_public_key ca ∧ NODE_TLS_NAME ∈ dns_names cert ∧ server_auth cert = true.

Lemma issued_is_accepted `{!X509Laws} k now n now' cert key :
  issue_node_cert (generate_ca k now).1 (generate_ca k now).2 n now' = Some (cert, key) →
  ∃ ca c, load_pem_x509_certificate (generate_ca k now).1 = Some ca ∧ load_pem_x509_certificate cert = Some c
    ∧ accepts ca c ∧ load_pem_private_key key = Some (ec_key n) ∧ cert_public_key c = public_key (ec_key n).
Proof.
  unfold issue_node_cert, generate_ca. cbn [fst snd]. rewrite cert_roundtrip, key_roundtrip. cbn. intros [= <- <-].
  eexists _, _. rewrite !cert_roundtrip, key_roundtrip. split_and!; try done. repeat split. cbn. by left.
Qed.
End generation.

(** * What a start settles *)

(** What a process does about TLS. *)
Inductive tls_choice (read_bytes : string → option string) (args : TlsArgs) (server : bool) : option TlsConfig → Prop :=
| TlsOff : Forall (λ f, truthy f = false) (tls_files args server) → tls_choice read_bytes args server None
| TlsNode ca cert key ca' cert' key' :
    server = true → args = mkTlsArgs (Some ca) (Some cert) (Some key) →
    read_bytes ca = Some ca' → read_bytes cert = Some cert' → read_bytes key = Some key' →
    tls_choice read_bytes args server (Some (mkTls ca' (Some cert') (Some key')))
| TlsClient ca ca' :
    server = false → tls_ca_file args = Some ca → read_bytes ca = Some ca' →
    tls_choice read_bytes args server (Some (mkTls ca' None None)).

Lemma truthy_some o : truthy o = true → ∃ s, o = Some s ∧ s ≠ "".
Proof. unfold truthy. destruct o as [s|]; simpl; [|done]. intros H%negb_true_iff%bool_decide_eq_false. eauto. Qed.

Lemma get_or_ok {A} e (o : option A) s s' a : get_or e o s = (s', Ok a) → o = Some a ∧ s' = s.
Proof. destruct o; simpl; unfold mret, M_ret, raise; naive_solver. Qed.

(** TLS is all or nothing: with every file of the role, or with none and a warning. *)
Lemma tls_from_args_ok read_bytes args server s s' tls :
  tls_from_args read_bytes args server s = (s', Ok tls) →
  tls_choice read_bytes args server tls ∧ s' = s ++ (if tls then [] else [EvPrint no_tls_warning]).
Proof.
  unfold tls_from_args, exits_unless. destruct (existsb truthy (tls_files args server)) eqn:Hany; simpl.
  - intros H. minv H. destruct args as [ca cert key], server; simpl in *; rewrite ?andb_true_r in *.
    + repeat match goal with H : _ && _ = true |- _ => apply andb_true_iff in H as [? ?] end.
      repeat match goal with H : truthy _ = true |- _ => apply truthy_some in H as (? & -> & _) end.
      unfold load_tls, raises_unless in *. simpl in *.
      match goal with H : _ = (_, Ok _) |- _ => minv H end.
      repeat match goal with H : get_or _ _ _ = _ |- _ => apply get_or_ok in H as [? ->] end.
      unfold mret, M_ret in *. simplify_eq.
      split; [by eapply TlsNode|by rewrite app_nil_r].
    + match goal with H : truthy _ = true |- _ => apply truthy_some in H as (? & -> & _) end.
      unfold load_tls, raises_unless in *. simpl in *.
      match goal with H : _ = (_, Ok _) |- _ => minv H end.
      repeat match goal with H : get_or _ _ _ = _ |- _ => apply get_or_ok in H as [? ->] end.
      split; [by eapply TlsClient|by rewrite app_nil_r].
  - unfold print, log_event. intros H. minv H. split; [|done]. apply TlsOff.
    apply Forall_forall. intros f Hf. apply not_true_iff_false. intros Ht.
    assert (existsb truthy (tls_files args server) = true); [|congruence].
    apply existsb_exists. exists f. split; [by apply list_elem_of_In|done].
Qed.
