(* ===== verification/NodeMain.v ===== *)
(** The entry points of the two kinds of node (dfsha/control_node/main.py,
    dfsha/data_node/main.py): from the arguments of the command line to the running parts,
    and down again.

    The arguments are what argparse gives; an absent option is [None].  A duration is a
    whole number of seconds, except the two lifetimes the program checks for being finite.
    [read_bytes] is the disk, [mkdir] says whether a directory can be made, [bind] is what
    gRPC answers for a port: the number it listens on, or [None] when it raises.  Raft
    itself (pysyncobj) starts with the configuration it is given.  A text is the bytes of
    its UTF-8 encoding. *)

From Stdlib Require Import QArith.
From S2P Require Import Prelude Exceptions Paths Crypto BlockToken Addresses Auth ShellWords Servicer Tls.
From S2P Require Monitor Replicator Collector BlockStore DataNode.

Local Open Scope Z_scope.

(** A number of the command line with [type=float]. *)
Inductive pyfloat := Finite (q : Q) | Infinite (negative : bool) | NaN.

(** [math.isfinite(f) and f > 0]. *)
Definition finite_positive (f : pyfloat) : option Q :=
  match f with
  | Finite q => if Qle_bool q 0 then None else Some q
  | _ => None
  end.

(** * Secrets *)

(** The newlines of a file opened as text. *)
Fixpoint universal_newlines (s : string) : string :=
  match s with
  | EmptyString => EmptyString
  | String a rest =>
      if Ascii.eqb a "013" then
        match rest with
        | String "010" _ => universal_newlines rest
        | _ => String "010" (universal_newlines rest)
        end
      else String a (universal_newlines rest)
  end.

(** [read_text(encoding="utf-8")] of what a file holds. *)
Definition read_text (content : string) : result exn string :=
  if valid_utf8 (bytes_of content) then Ok (universal_newlines content) else Err PyError.

Definition load_raft_password (content : string) : result exn string :=
  text ← read_text content;
  let password := str_strip text in
  if Z.of_nat (char_count password) <? 32 then Err PyError else Ok password.

Definition load_jwt_secret (content : string) : result exn string :=
  let secret := strip_space content in
  if Z.of_nat (String.length secret) <? MIN_JWT_SECRET_BYTES then Err PyError else Ok secret.

Definition load_admin_password (content : string) : result exn string :=
  text ← read_text content;
  let password := str_strip text in
  if bool_decide (password = "") then Err PyError else Ok password.

(** * [serve] of a ControlNode *)

Definition validate_datanode_configuration (datanode_addresses : list string)
    (replication_factor min_write_replicas : Z) : result exn unit :=
  _ ← require_r (negb (bool_decide (datanode_addresses = []))) PyError;
  _ ← require_r (1 <=? replication_factor) PyError;
  _ ← require_r ((1 <=? min_write_replicas) && (min_write_replicas <=? replication_factor)) PyError;
  require_r (min_write_replicas <=? zlen datanode_addresses) PyError.

Definition _split_addresses (value : string) : list string :=
  filter (λ a, a ≠ "") (str_strip <$> split_on comma value).

Record ServeArgs := mkServe {
  sv_host : string;
  sv_port : Z;
  sv_raft_self : string;
  sv_raft_peers : list string;
  sv_data_dir : option string;
  sv_config : Config;
  sv_heartbeat_interval : Z;
  sv_dead_after : Z;
  sv_rereplication_interval : Z;
  sv_rereplication_delay : Z;
  sv_rereplication_max : Z;
  sv_gc_interval : Z;
  sv_gc_grace : Z;
  sv_tls : option TlsConfig;
  sv_raft_password : option string;
  sv_admin_password : option string
}.

Record ControlNode := mkControlNode {
  n_config : Config;
  n_monitor : Monitor.MonitorState;
  n_rereplicator : Replicator.RepConfig;
  n_collector : Collector.GcConfig;
  n_channel : string → Channel;
  n_port : Port;
  n_bound : Z;
  n_self : string;
  n_peers : list string;
  n_raft_conf : RaftConf;
  n_bootstrap : option string
}.

Definition DEFAULT_PING_TIMEOUT_S : Z := 1.
Definition DEFAULT_GC_RPC_TIMEOUT_S : Z := 30.
Definition DEFAULT_BLOCK_TRANSFER_BASE_TIMEOUT_S : Z := 5.
Definition DEFAULT_MIN_TRANSFER_THROUGHPUT_BYTES_PER_S : Z := 1048576.
Definition REREPLICATOR_MAX_ATTEMPTS : nat := 3.

Section node.
Context (read_bytes : string → option string) (mkdir : string → bool) (bind : Port → option Z).

Definition make_dirs (path : string) : Start unit :=
  _ ← log_event (EvMkdir path); raises_unless (mkdir path).

(** [str(directory / name)]. *)
Definition path_in (directory name : string) : string := path_str (posix_join directory name).

Definition build_raft_conf (data_dir raft_password : option string) : Start RaftConf :=
  let pass := if truthy raft_password then raft_password else None in
  match data_dir with
  | None => mret (mkRaftConf false pass None None)
  | Some d =>
      _ ← make_dirs (path_str d);
      mret (mkRaftConf false pass (Some (path_in d "raft.journal")) (Some (path_in d "raft.dump")))
  end.

Definition host_port (host : string) (port : Z) : string := host +:+ ":" +:+ str_of_Z port.

Definition serve (sv : ServeArgs) : Start ControlNode :=
  let cfg := sv_config sv in
  _ ← or_raise (validate_datanode_configuration (c_datanodes cfg) (c_replication_factor cfg) (c_min_write_replicas cfg));
  _ ← or_raise (validate_public_addresses (c_public_addresses cfg) (c_datanodes cfg));
  conf ← build_raft_conf (sv_data_dir sv) (sv_raft_password sv);
  _ ← log_event (EvRaft (sv_raft_self sv) (sv_raft_peers sv) conf);
  monitor ← or_raise (Monitor.monitor_init (c_datanodes cfg) (sv_heartbeat_interval sv) (sv_dead_after sv) DEFAULT_PING_TIMEOUT_S);
  cfg ← or_raise (servicer_init cfg);
  rep ← or_raise (Replicator.rep_init (c_replication_factor cfg) (sv_rereplication_interval sv) (sv_rereplication_delay sv)
          (sv_rereplication_max sv) DEFAULT_BLOCK_TRANSFER_BASE_TIMEOUT_S DEFAULT_MIN_TRANSFER_THROUGHPUT_BYTES_PER_S
          REREPLICATOR_MAX_ATTEMPTS (c_capability_key cfg));
  gc ← or_raise (Collector.gc_init (sv_gc_interval sv) (sv_gc_grace sv) DEFAULT_GC_RPC_TIMEOUT_S (c_capability_key cfg));
  port ← add_port (host_port (sv_host sv) (sv_port sv)) (sv_tls sv);
  bound ← get_or Raises (bind port);
  _ ← log_event (EvStart GrpcServer);
  _ ← log_event (EvStart MonitorThread);
  _ ← log_event (EvStart RereplicatorThread);
  _ ← log_event (EvStart CollectorThread);
  _ ← (if sv_admin_password sv then log_event (EvStart BootstrapThread) else mret tt);
  mret (mkControlNode cfg monitor rep gc (channel_factory (sv_tls sv)) port bound
    (sv_raft_self sv) (sv_raft_peers sv) conf (sv_admin_password sv)).

(** [stop_with_cleanup]. *)
Definition stop_node (n : ControlNode) : Start unit :=
  _ ← log_event (EvStop GrpcServer);
  _ ← (if n_bootstrap n then log_event (EvStop BootstrapThread) else mret tt);
  _ ← log_event (EvStop CollectorThread);
  _ ← log_event (EvStop RereplicatorThread);
  _ ← log_event (EvStop MonitorThread);
  log_event EvClose.

(** * [main] of a ControlNode *)

Record ControlArgs := mkControlArgs {
  arg_node_id : Z;
  arg_raft_cluster : string;
  arg_data_dir : string;
  arg_datanode_addresses : string;
  arg_datanode_public_addresses : string;
  arg_host : string;
  arg_port : Z;
  arg_block_size_mb : Z;
  arg_replication_factor : Z;
  arg_min_write_replicas : Z;
  arg_heartbeat_interval : Z;
  arg_datanode_dead_after : Z;
  arg_rereplication_interval : Z;
  arg_rereplication_delay : Z;
  arg_rereplication_max : Z;
  arg_upload_lease : Z;
  arg_lock_lease : Z;
  arg_gc_interval : Z;
  arg_gc_grace : Z;
  arg_raft_password_file : option string;
  arg_jwt_secret_file : option string;
  arg_admin_password_file : option string;
  arg_token_ttl : pyfloat;
  arg_capability_key_file : option string;
  arg_capability_ttl : pyfloat;
  arg_tls : TlsArgs
}.

Definition plain_auth_warning : string :=
  "AVISO: autenticación sin TLS, contraseñas y tokens viajan en claro (solo para desarrollo)".
Definition no_auth_warning : string := "AVISO: sin --jwt-secret-file, ningún RPC exige token (solo para desarrollo)".
Definition open_capabilities_warning : string :=
  "AVISO: capabilities sin autenticación, cualquiera que llegue al ControlNode recibe capabilities de cualquier bloque (solo para desarrollo)".
Definition no_capabilities_warning : string :=
  "AVISO: sin --capability-key-file, los DataNodes no reciben capabilities (solo para desarrollo)".
Definition no_raft_password_warning : string :=
  "AVISO: sin --raft-password-file, el canal Raft va en claro (solo para desarrollo)".

(** A secret whose file cannot be read or is not good enough ends the process. *)
Definition load_secret (file : option string) (load : string → result exn string) : Start string :=
  content ← get_or Exits (read_bytes (default "" file));
  or_exit (load content).

(** The secret of JWT and the password of the first admin. *)
Definition load_auth (args : ControlArgs) (tls : option TlsConfig) : Start (option (string * string)) :=
  if truthy (arg_jwt_secret_file args) then
    secret ← load_secret (arg_jwt_secret_file args) load_jwt_secret;
    admin ← load_secret (arg_admin_password_file args) load_admin_password;
    _ ← (if tls then mret tt else print plain_auth_warning);
    mret (Some (secret, admin))
  else _ ← print no_auth_warning; mret None.

Definition load_capabilities (args : ControlArgs) (auth : bool) : Start (option string) :=
  if truthy (arg_capability_key_file args) then
    key ← load_secret (arg_capability_key_file args) load_capability_key;
    _ ← (if auth then mret tt else print open_capabilities_warning);
    mret (Some key)
  else _ ← print no_capabilities_warning; mret None.

Definition load_raft (args : ControlArgs) : Start (option string) :=
  if truthy (arg_raft_password_file args) then
    pass ← load_secret (arg_raft_password_file args) load_raft_password; mret (Some pass)
  else _ ← print no_raft_password_warning; mret None.

(** [[a for i, a in enumerate(l) if i != k]]. *)
Definition all_but (k : nat) (l : list string) : list string := take k l ++ drop (S k) l.

Definition control_up (args : ControlArgs) : Start ControlNode :=
  tls ← tls_from_args read_bytes (arg_tls args) true;
  _ ← exits_unless (Bool.eqb (truthy (arg_jwt_secret_file args)) (truthy (arg_admin_password_file args)));
  token_ttl ← get_or Exits (finite_positive (arg_token_ttl args));
  auth ← load_auth args tls;
  capability_ttl ← get_or Exits (finite_positive (arg_capability_ttl args));
  capability_key ← load_capabilities args (bool_decide (auth ≠ None));
  raft_password ← load_raft args;
  let cluster := _split_addresses (arg_raft_cluster args) in
  let addresses := _split_addresses (arg_datanode_addresses args) in
  _ ← exits_unless ((0 <=? arg_node_id args) && (arg_node_id args <? zlen cluster));
  _ ← exits_unless (bool_decide (NoDup cluster));
  _ ← or_exit (validate_datanode_configuration addresses (arg_replication_factor args) (arg_min_write_replicas args));
  public_addresses ← or_exit (parse_public_addresses (arg_datanode_public_addresses args));
  _ ← or_exit (validate_public_addresses public_addresses addresses);
  let k := Z.to_nat (arg_node_id args) in
  serve (mkServe (arg_host args) (arg_port args) (default "" (cluster !! k)) (all_but k cluster)
    (Some (arg_data_dir args))
    (mkConfig addresses (arg_block_size_mb args * 1024 * 1024) (arg_replication_factor args)
      (arg_min_write_replicas args) (arg_upload_lease args) (arg_lock_lease args) (fst <$> auth) token_ttl
      capability_key capability_ttl public_addresses true)
    (arg_heartbeat_interval args) (arg_datanode_dead_after args) (arg_rereplication_interval args)
    (arg_rereplication_delay args) (arg_rereplication_max args) (arg_gc_interval args) (arg_gc_grace args)
    tls raft_password (snd <$> auth)).

(** [main]; [interrupted] when the wait ends with an exception. *)
Definition control_main (args : ControlArgs) (interrupted : bool) : Start unit :=
  n ← control_up args;
  _ ← raises_unless (negb (n_bound n =? 0));
  _ ← log_event (EvReady (n_bound n));
  _ ← stop_node n;
  _ ← log_event (EvStop RaftNode);
  raises_unless (negb interrupted).

(** * The DataNode *)

Record DataArgs := mkDataArgs {
  darg_root : string;
  darg_host : string;
  darg_port : Z;
  darg_encryption_key_file : string;
  darg_capability_key_file : option string;
  darg_tls : TlsArgs
}.

Record DataNodeProcess := mkDataNode {
  d_root : string;
  d_key : list Z;
  d_cap : option string;
  d_channel : string → Channel;
  d_port : Port;
  d_bound : Z
}.

Definition no_block_capabilities_warning : string :=
  "AVISO: sin --capability-key-file, este DataNode no exige capabilities (solo para desarrollo)".

Definition datanode_serve (root host : string) (port : Z) (encryption_key : list Z)
    (tls : option TlsConfig) (capability_key : option string) : Start DataNodeProcess :=
  _ ← make_dirs (path_str root);
  p ← add_port (host_port host port) tls;
  bound ← get_or Raises (bind p);
  _ ← log_event (EvStart GrpcServer);
  mret (mkDataNode root encryption_key capability_key (channel_factory tls) p bound).

Definition datanode_up (args : DataArgs) : Start DataNodeProcess :=
  tls ← tls_from_args read_bytes (darg_tls args) true;
  key ← or_raise (BlockStore.load_encryption_key (bytes_of <$> read_bytes (darg_encryption_key_file args)));
  cap ← (if truthy (darg_capability_key_file args) then
           k ← load_secret (darg_capability_key_file args) load_capability_key; mret (Some k)
         else _ ← print no_block_capabilities_warning; mret None);
  datanode_serve (darg_root args) (darg_host args) (darg_port args) key tls cap.

Definition datanode_main (args : DataArgs) (interrupted : bool) : Start unit :=
  n ← datanode_up args;
  _ ← raises_unless (negb (d_bound n =? 0));
  _ ← log_event (EvReady (d_bound n));
  _ ← log_event (EvStop GrpcServer);
  _ ← log_event EvClose;
  raises_unless (negb interrupted).

(** The node of the network a process serves, with the files its directory has. *)
Definition datanode_of (n : DataNodeProcess) (files : BlockStore.Files) : DataNode.DNode :=
  DataNode.mkDNode files (d_key n) (d_cap n).

(** * The non-distributed server (dfsha/server/main.py) *)

Record ServerProcess := mkServerProcess { s_root : string; s_port : Port; s_bound : Z }.

Definition server_serve (root host : string) (port : Z) : Start ServerProcess :=
  _ ← make_dirs (path_str root);
  let p := InsecurePort (host_port host port) in
  bound ← get_or Raises (bind p);
  _ ← log_event (EvStart GrpcServer);
  mret (mkServerProcess root p bound).

Definition server_main (root host : string) (port : Z) (interrupted : bool) : Start unit :=
  n ← server_serve root host port;
  _ ← raises_unless (negb (s_bound n =? 0));
  _ ← log_event (EvReady (s_bound n));
  raises_unless (negb interrupted).
End node.
