(* ===== verification/NodeMainProps.v ===== *)
(** What the entry points guarantee: a node that starts is configured as every other part
    expects, nothing it leaves unprotected goes unannounced, the nodes of one Raft group
    agree on its members, and a process takes down what it brought up. *)

From Stdlib Require Import QArith.
From S2P Require Import Prelude Exceptions Dict Paths Crypto BlockToken Addresses Auth ShellWords Servicer.
From S2P Require Import Tls NodeMain.
From S2P Require Monitor Replicator Collector BlockStore DataNode Handlers ServicerProps.

Local Open Scope Z_scope.

(** * Inversions *)

Lemma or_exit_ok {E A} (r : result E A) s s' a : or_exit r s = (s', Ok a) → r = Ok a ∧ s' = s.
Proof. destruct r; simpl; unfold mret, M_ret, raise; naive_solver. Qed.
Lemma or_raise_ok {E A} (r : result E A) s s' a : or_raise r s = (s', Ok a) → r = Ok a ∧ s' = s.
Proof. destruct r; simpl; unfold mret, M_ret, raise; naive_solver. Qed.
Lemma log_event_ok e s s' u : log_event e s = (s', Ok u) → s' = s ++ [e].
Proof. by intros [= <- _]. Qed.

(** Opens the steps of a start. *)
Ltac start_inv H :=
  minv H;
  repeat match goal with
  | H : or_exit _ _ = (_, Ok _) |- _ => apply or_exit_ok in H as [H ->]
  | H : or_raise _ _ = (_, Ok _) |- _ => apply or_raise_ok in H as [H ->]
  | H : get_or _ _ _ = (_, Ok _) |- _ => apply get_or_ok in H as [H ->]
  | H : log_event _ _ = (_, Ok _) |- _ => apply log_event_ok in H as ->
  | H : print _ _ = (_, Ok _) |- _ => apply log_event_ok in H as ->
  end.

Lemma load_secret_ok rb file load s s' v :
  load_secret rb file load s = (s', Ok v) →
  ∃ content, rb (default "" file) = Some content ∧ load content = Ok v ∧ s' = s.
Proof. unfold load_secret. intros H. start_inv H. eauto. Qed.

(** A warning, when something is off. *)
Definition warn (off : bool) (text : string) : list event := if off then [EvPrint text] else [].

Lemma load_auth_ok rb args tls s s' auth :
  load_auth rb args tls s = (s', Ok auth) →
  match auth with
  | Some (secret, admin) =>
      truthy (arg_jwt_secret_file args) = true
      ∧ (∃ c, rb (default "" (arg_jwt_secret_file args)) = Some c ∧ load_jwt_secret c = Ok secret)
      ∧ (∃ c, rb (default "" (arg_admin_password_file args)) = Some c ∧ load_admin_password c = Ok admin)
  | None => truthy (arg_jwt_secret_file args) = false
  end ∧ s' = s ++ (if auth then warn (bool_decide (tls = None)) plain_auth_warning else [EvPrint no_auth_warning]).
Proof.
  unfold load_auth. destruct (truthy _) eqn:Ht; intros H.
  - start_inv H. apply load_secret_ok in Hm as (c1 & R1 & L1 & ->), Hm0 as (c2 & R2 & L2 & ->).
    split; [eauto 10|]. destruct tls; simpl; start_inv Hm1; by rewrite ?app_nil_r.
  - start_inv H. done.
Qed.

Lemma load_capabilities_ok rb args auth s s' key :
  load_capabilities rb args auth s = (s', Ok key) →
  match key with
  | Some k => ∃ c, rb (default "" (arg_capability_key_file args)) = Some c ∧ load_capability_key c = Ok k
  | None => truthy (arg_capability_key_file args) = false
  end ∧ s' = s ++ (if key then warn (negb auth) open_capabilities_warning else [EvPrint no_capabilities_warning]).
Proof.
  unfold load_capabilities. destruct (truthy _) eqn:Ht; intros H.
  - start_inv H. apply load_secret_ok in Hm as (c1 & R1 & L1 & ->).
    split; [eauto|]. destruct auth; simpl; start_inv Hm0; by rewrite ?app_nil_r.
  - start_inv H. done.
Qed.

Lemma load_raft_ok rb args s s' pass :
  load_raft rb args s = (s', Ok pass) →
  match pass with
  | Some p => ∃ c, rb (default "" (arg_raft_password_file args)) = Some c ∧ load_raft_password c = Ok p
  | None => truthy (arg_raft_password_file args) = false
  end ∧ s' = s ++ (if pass then [] else [EvPrint no_raft_password_warning]).
Proof.
  unfold load_raft. destruct (truthy _) eqn:Ht; intros H.
  - start_inv H. apply load_secret_ok in Hm as (c1 & R1 & L1 & ->). split; [eauto|by rewrite app_nil_r].
  - start_inv H. done.
Qed.

(** * What a node leaves in the trace *)

Definition silent_event (e : event) : Prop :=
  match e with EvPrint _ | EvMkdir _ => True | _ => False end.
(** [s'] is [s] with some warnings and directories more. *)
Definition prepares (s s' : list event) : Prop := ∃ q, s' = s ++ q ∧ Forall silent_event q.
#[global] Instance prepares_preorder : PreOrder prepares.
Proof.
  split.
  - intros s. exists []. by rewrite app_nil_r.
  - intros s1 s2 s3 (q1 & -> & H1) (q2 & -> & H2). exists (q1 ++ q2). rewrite <-app_assoc, Forall_app. done.
Qed.

Lemma prepares_event e : silent_event e → moves prepares (log_event e).
Proof. intros He s. exists [e]. auto using Forall_cons_2. Qed.
Lemma prepares_print text : moves prepares (print text).
Proof. by apply prepares_event. Qed.
Lemma prepares_get_or {A} e (o : option A) : moves prepares (get_or e o).
Proof. destruct o; simpl; [apply moves_ret, _|apply moves_raise, _]. Qed.
Lemma prepares_or_exit {E A} (r : result E A) : moves prepares (or_exit r).
Proof. destruct r; simpl; [apply moves_ret, _|apply moves_raise, _]. Qed.
Lemma prepares_or_raise {E A} (r : result E A) : moves prepares (or_raise r).
Proof. destruct r; simpl; [apply moves_ret, _|apply moves_raise, _]. Qed.
Lemma prepares_exits b : moves prepares (exits_unless b).
Proof. apply moves_ensure, _. Qed.
Lemma prepares_raises b : moves prepares (raises_unless b).
Proof. apply moves_ensure, _. Qed.

Ltac prepares_steps :=
  repeat first
    [ apply moves_bind; [apply _| |intros ?]
    | apply prepares_get_or | apply prepares_or_exit | apply prepares_or_raise | apply prepares_exits
    | apply prepares_raises | apply prepares_print | (apply prepares_event; exact I)
    | (apply moves_ret; apply _) | (apply moves_raise; apply _)
    | match goal with |- moves prepares (match ?x with _ => _ end) => destruct x end ].

Lemma prepares_tls rb args server : moves prepares (tls_from_args rb args server).
Proof. unfold tls_from_args, load_tls, read_if. prepares_steps. Qed.
Lemma prepares_add_port a tls : moves prepares (add_port a tls).
Proof. unfold add_port. prepares_steps. Qed.
Lemma prepares_secret rb file load : moves prepares (load_secret rb file load).
Proof. unfold load_secret. prepares_steps. Qed.
Lemma prepares_auth rb args tls : moves prepares (load_auth rb args tls).
Proof. unfold load_auth. prepares_steps; apply prepares_secret. Qed.
Lemma prepares_capabilities rb args auth : moves prepares (load_capabilities rb args auth).
Proof. unfold load_capabilities. prepares_steps; apply prepares_secret. Qed.
Lemma prepares_raft rb args : moves prepares (load_raft rb args).
Proof. unfold load_raft. prepares_steps; apply prepares_secret. Qed.
Lemma prepares_raft_conf mk d p : moves prepares (build_raft_conf mk d p).
Proof. unfold build_raft_conf, make_dirs. prepares_steps. Qed.

(** What [serve] starts, in order. *)
Definition starts (bootstrap : option string) : list event :=
  EvStart <$> [GrpcServer; MonitorThread; RereplicatorThread; CollectorThread] ++
    (if bootstrap then [BootstrapThread] else []).
(** What stopping the node stops, and the Raft node after it. *)
Definition stops (bootstrap : option string) : list event :=
  (EvStop <$> GrpcServer :: (if bootstrap then [BootstrapThread] else []) ++
    [CollectorThread; RereplicatorThread; MonitorThread]) ++ [EvClose; EvStop RaftNode].

(** A trace of [serve] from [s]: it fails before anything but the Raft node runs. *)
Definition serve_trace (s s' : list event) (r : result start_error ControlNode) : Prop :=
  match r with
  | Ok n => ∃ s1, prepares s s1 ∧ s' = s1 ++ EvRaft (n_self n) (n_peers n) (n_raft_conf n) :: starts (n_bootstrap n)
  | Err e => e = Raises ∧ (prepares s s' ∨ ∃ s1 self peers conf, prepares s s1 ∧ s' = s1 ++ [EvRaft self peers conf])
  end.

(** The raised case of a bind whose head fails unchanged, and the state after its head. *)
Lemma or_raise_bind {E A B} (r : result E A) (k : A → Start B) s s' out :
  (a ← or_raise r; k a) s = (s', out) →
  (s' = s ∧ out = Err Raises) ∨ ∃ a, r = Ok a ∧ k a s = (s', out).
Proof. unfold mbind, M_bind. destruct r; simpl; [eauto|]. intros [= <- <-]. eauto. Qed.
Lemma get_or_bind {A B} (o : option A) (k : A → Start B) s s' out :
  (a ← get_or Raises o; k a) s = (s', out) →
  (s' = s ∧ out = Err Raises) ∨ ∃ a, o = Some a ∧ k a s = (s', out).
Proof. unfold mbind, M_bind. destruct o; simpl; [eauto|]. intros [= <- <-]. eauto. Qed.
Lemma port_bind {B} a tls (k : Port → Start B) s s' out :
  (p ← add_port a tls; k p) s = (s', out) →
  (s' = s ∧ out = Err Raises) ∨ ∃ p, add_port a tls s = (s, Ok p) ∧ k p s = (s', out).
Proof.
  unfold mbind, M_bind, add_port. destruct tls as [t|]; [|by eauto].
  destruct (cert_chain t), (private_key t); unfold raise; intros H; simplify_eq; eauto.
Qed.

(** A node that [serve] starts: what it was built from. *)
Record served (bind : Port → option Z) (sv : ServeArgs) (n : ControlNode) : Prop := {
  sd_datanodes : validate_datanode_configuration (c_datanodes (sv_config sv)) (c_replication_factor (sv_config sv))
                   (c_min_write_replicas (sv_config sv)) = Ok tt;
  sd_public : validate_public_addresses (c_public_addresses (sv_config sv)) (c_datanodes (sv_config sv)) = Ok tt;
  sd_config : n_config n = sv_config sv ∧ servicer_init (sv_config sv) = Ok (sv_config sv);
  sd_monitor : Monitor.monitor_init (c_datanodes (sv_config sv)) (sv_heartbeat_interval sv) (sv_dead_after sv)
                 DEFAULT_PING_TIMEOUT_S = Ok (n_monitor n);
  sd_rereplicator : Replicator.rep_init (c_replication_factor (sv_config sv)) (sv_rereplication_interval sv)
                      (sv_rereplication_delay sv) (sv_rereplication_max sv) DEFAULT_BLOCK_TRANSFER_BASE_TIMEOUT_S
                      DEFAULT_MIN_TRANSFER_THROUGHPUT_BYTES_PER_S REREPLICATOR_MAX_ATTEMPTS
                      (c_capability_key (sv_config sv)) = Ok (n_rereplicator n);
  sd_collector : Collector.gc_init (sv_gc_interval sv) (sv_gc_grace sv) DEFAULT_GC_RPC_TIMEOUT_S
                   (c_capability_key (sv_config sv)) = Ok (n_collector n);
  sd_port : (∀ s, add_port (host_port (sv_host sv) (sv_port sv)) (sv_tls sv) s = (s, Ok (n_port n)))
            ∧ bind (n_port n) = Some (n_bound n);
  sd_channel : n_channel n = channel_factory (sv_tls sv);
  sd_conf : password (n_raft_conf n) = (if truthy (sv_raft_password sv) then sv_raft_password sv else None);
  sd_raft : n_self n = sv_raft_self sv ∧ n_peers n = sv_raft_peers sv ∧ n_bootstrap n = sv_admin_password sv
}.

Lemma servicer_init_same cfg cfg' : servicer_init cfg = Ok cfg' → cfg' = cfg.
Proof. unfold servicer_init. by destruct (_ || _); intros [= <-]. Qed.
Lemma add_port_state a tls s p s' : add_port a tls s = (s, Ok p) → add_port a tls s' = (s', Ok p).
Proof. unfold add_port, mret, M_ret, raise. repeat case_match; naive_solver. Qed.

Lemma raft_conf_password mk d pass s s' conf :
  build_raft_conf mk d pass s = (s', Ok conf) → password conf = if truthy pass then pass else None.
Proof. unfold build_raft_conf. destruct d as [d|]; intros H; start_inv H; done. Qed.
Lemma raft_conf_err mk d pass s s' e : build_raft_conf mk d pass s = (s', Err e) → e = Raises.
Proof.
  unfold build_raft_conf, make_dirs, raises_unless, ensure. destruct d as [d|]; [|done].
  unfold mbind, M_bind. simpl. destruct (mk (path_str d)); [done|]. by intros [= _ <-].
Qed.

Lemma serve_run mk bind sv s s' r :
  serve mk bind sv s = (s', r) → serve_trace s s' r ∧ ∀ n, r = Ok n → served bind sv n.
Proof.
  unfold serve. intros H.
  apply or_raise_bind in H as [[-> ->]|([] & E1 & H)]; [split; [split; [done|left; reflexivity]|done]|].
  apply or_raise_bind in H as [[-> ->]|([] & E2 & H)]; [split; [split; [done|left; reflexivity]|done]|].
  unfold mbind at 1, M_bind at 1 in H. pose proof (prepares_raft_conf mk (sv_data_dir sv) (sv_raft_password sv) s) as Hp.
  destruct (build_raft_conf mk (sv_data_dir sv) (sv_raft_password sv) s) as [s1 [conf|e]] eqn:Ec; simpl in Hp.
  2: { simplify_eq. split; [|done]. split; [|by left].
       by eapply raft_conf_err. }
  unfold mbind at 1, M_bind at 1 in H. simpl in H.
  set (s2 := s1 ++ _) in H.
  assert (serve_trace s s2 (Err Raises)) as Hfail.
  { split; [done|right]. exists s1. eauto. }
  apply or_raise_bind in H as [[-> ->]|(monitor & E3 & H)]; [done|].
  apply or_raise_bind in H as [[-> ->]|(cfg & E4 & H)]; [done|].
  pose proof (servicer_init_same _ _ E4) as ->.
  apply or_raise_bind in H as [[-> ->]|(rep & E5 & H)]; [done|].
  apply or_raise_bind in H as [[-> ->]|(gc & E6 & H)]; [done|].
  apply port_bind in H as [[-> ->]|(port & E7 & H)]; [done|].
  apply get_or_bind in H as [[-> ->]|(bound & E8 & H)]; [done|].
  destruct (sv_admin_password sv) as [p|] eqn:Eb; unfold mbind, M_bind, log_event, modify, mret, M_ret in H; simpl in H;
    injection H as <- <-; split.
  1,3: exists s1; split; [exact Hp|]; unfold s2, starts; simpl; rewrite <-!app_assoc; done.
  all: intros n [= <-]; split; simpl; eauto using add_port_state, raft_conf_password.
Qed.

(** * From the arguments to the node *)

(** The group of Raft nodes a node belongs to, itself first. *)
Definition group_of (n : ControlNode) : list string := n_self n :: n_peers n.

Lemma all_but_perm (l : list string) k x : l !! k = Some x → x :: all_but k l ≡ₚ l.
Proof.
  intros H. unfold all_but. rewrite <-(take_drop_middle l k x H) at 3. apply Permutation_middle.
Qed.

(** A node that started: what its arguments and files had to be. *)
Record configured (rb : string → option string) (args : ControlArgs) (n : ControlNode) : Prop := {
  cf_datanodes : c_datanodes (n_config n) = _split_addresses (arg_datanode_addresses args);
  cf_replicas : 1 ≤ c_min_write_replicas (n_config n) ≤ c_replication_factor (n_config n);
  cf_enough : c_min_write_replicas (n_config n) ≤ zlen (c_datanodes (n_config n));
  cf_block_size : c_block_size (n_config n) = arg_block_size_mb args * 1024 * 1024;
  (** a public address for each DataNode and no two the same, or none at all *)
  cf_public : c_public_addresses (n_config n) = [] ∨
    (∀ a, a ∈ (c_public_addresses (n_config n)).*1 ↔ a ∈ c_datanodes (n_config n)) ∧ NoDup (c_public_addresses (n_config n)).*2;
  cf_lifetimes : (0 < c_token_ttl (n_config n))%Q ∧ (0 < c_capability_ttl (n_config n))%Q;
  (** authentication comes with a first admin, or not at all; no secret is short *)
  cf_auth : c_jwt_secret (n_config n) = None ↔ n_bootstrap n = None;
  cf_jwt : ∀ k, c_jwt_secret (n_config n) = Some k → MIN_JWT_SECRET_BYTES ≤ Z.of_nat (String.length k);
  cf_admin : ∀ p, n_bootstrap n = Some p → p ≠ "";
  cf_key : ∀ k, c_capability_key (n_config n) = Some k → MIN_KEY_BYTES ≤ Z.of_nat (String.length k);
  (** the group is the cluster of the command line, once each *)
  cf_group : group_of n ≡ₚ _split_addresses (arg_raft_cluster args) ∧ NoDup (group_of n)
    ∧ _split_addresses (arg_raft_cluster args) !! Z.to_nat (arg_node_id args) = Some (n_self n) ∧ 0 ≤ arg_node_id args;
  (** the monitor, the collector and the re-replicator work for the same cluster *)
  cf_monitor : Monitor.addresses (n_monitor n) = c_datanodes (n_config n) ∧ c_monitored (n_config n) = true;
  cf_rereplicator : Replicator.replication_factor (n_rereplicator n) = c_replication_factor (n_config n)
    ∧ Replicator.rep_key (n_rereplicator n) = c_capability_key (n_config n);
  cf_collector : Collector.gc_key (n_collector n) = c_capability_key (n_config n) ∧ 0 ≤ Collector.gc_grace_s (n_collector n)
}.

Lemma validate_datanode_ok l f m :
  validate_datanode_configuration l f m = Ok tt → l ≠ [] ∧ 1 ≤ m ≤ f ∧ m ≤ zlen l.
Proof.
  unfold validate_datanode_configuration, require_r.
  destruct (bool_decide_reflect (l = [])); simpl; [done|].
  destruct (Z.leb_spec 1 f); simpl; [|done]. destruct (Z.leb_spec 1 m), (Z.leb_spec m f); simpl; try done.
  destruct (Z.leb_spec m (zlen l)); [|done]. done.
Qed.

Lemma finite_positive_ok f q : finite_positive f = Some q → f = Finite q ∧ (0 < q)%Q.
Proof.
  destruct f as [q'| |]; simpl; [|done..]. destruct (Qle_bool q' 0) eqn:E; [done|]. intros [= ->]. split; [done|].
  apply Qnot_le_lt. intros H%Qle_bool_iff. congruence.
Qed.

Lemma jwt_secret_long c k : load_jwt_secret c = Ok k → MIN_JWT_SECRET_BYTES ≤ Z.of_nat (String.length k).
Proof. unfold load_jwt_secret. case_match eqn:E; [done|]. intros [= <-]. by apply Z.ltb_ge in E. Qed.
Lemma capability_key_long c k : load_capability_key c = Ok k → MIN_KEY_BYTES ≤ Z.of_nat (String.length k).
Proof. unfold load_capability_key. case_match eqn:E; [done|]. intros [= <-]. by apply Z.ltb_ge in E. Qed.
Lemma admin_password_given c p : load_admin_password c = Ok p → p ≠ "".
Proof.
  unfold load_admin_password. destruct (read_text c) as [t|]; [|done]. simpl.
  case_bool_decide; [done|]. by intros [= <-].
Qed.
Lemma raft_password_long c p : load_raft_password c = Ok p → 32 ≤ Z.of_nat (char_count p).
Proof.
  unfold load_raft_password. destruct (read_text c) as [t|]; [|done]. simpl.
  case_match eqn:E; [done|]. intros [= <-]. by apply Z.ltb_ge in E.
Qed.

(** The steps of [control_up] before [serve]. *)
Record prepared (rb : string → option string) (args : ControlArgs) (s s1 : list event) (sv : ServeArgs) : Prop := {
  pr_tls : tls_choice rb (arg_tls args) true (sv_tls sv);
  pr_pair : c_jwt_secret (sv_config sv) = None ↔ sv_admin_password sv = None;
  pr_jwt : ∀ k, c_jwt_secret (sv_config sv) = Some k → ∃ c, load_jwt_secret c = Ok k;
  pr_admin : ∀ p, sv_admin_password sv = Some p → ∃ c, load_admin_password c = Ok p;
  pr_key : ∀ k, c_capability_key (sv_config sv) = Some k → ∃ c, load_capability_key c = Ok k;
  pr_raft : ∀ p, sv_raft_password sv = Some p → ∃ c, load_raft_password c = Ok p;
  pr_ttl : (0 < c_token_ttl (sv_config sv))%Q ∧ (0 < c_capability_ttl (sv_config sv))%Q;
  pr_node : 0 ≤ arg_node_id args < zlen (_split_addresses (arg_raft_cluster args)) ∧ NoDup (_split_addresses (arg_raft_cluster args));
  pr_fields : c_datanodes (sv_config sv) = _split_addresses (arg_datanode_addresses args)
    ∧ c_block_size (sv_config sv) = arg_block_size_mb args * 1024 * 1024 ∧ c_monitored (sv_config sv) = true
    ∧ sv_raft_self sv = default "" (_split_addresses (arg_raft_cluster args) !! Z.to_nat (arg_node_id args))
    ∧ sv_raft_peers sv = all_but (Z.to_nat (arg_node_id args)) (_split_addresses (arg_raft_cluster args));
  (** what is off is announced *)
  pr_events : s1 = s ++ (if sv_tls sv then [] else [EvPrint no_tls_warning])
    ++ (if c_jwt_secret (sv_config sv) then warn (bool_decide (sv_tls sv = None)) plain_auth_warning else [EvPrint no_auth_warning])
    ++ (if c_capability_key (sv_config sv) then warn (bool_decide (c_jwt_secret (sv_config sv) = None)) open_capabilities_warning
        else [EvPrint no_capabilities_warning])
    ++ (if sv_raft_password sv then [] else [EvPrint no_raft_password_warning])
}.

Lemma control_up_prepared rb mk bind args s s' n :
  control_up rb mk bind args s = (s', Ok n) →
  ∃ s1 sv, prepared rb args s s1 sv ∧ serve mk bind sv s1 = (s', Ok n).
Proof.
  unfold control_up, exits_unless. intros H. start_inv H.
  apply tls_from_args_ok in Hm as [Htls ->]. apply load_auth_ok in Hm2 as [Hauth ->].
  apply load_capabilities_ok in Hm4 as [Hcap ->]. apply load_raft_ok in Hm5 as [Hraft ->].
  match type of Hauth with match ?x with _ => _ end => rename x into auth end.
  eexists _, _. split; [|exact H]. clear H. split; simpl.
  - done.
  - by destruct auth as [[k p]|].
  - destruct auth as [[k p]|]; [|done]. destruct Hauth as (_ & (c & _ & Hc) & _). intros k' [= <-]. eauto.
  - destruct auth as [[k p]|]; [|done]. destruct Hauth as (_ & _ & (c & _ & Hc)). intros p' [= <-]. eauto.
  - intros k ->. destruct Hcap as (c & _ & Hc). eauto.
  - intros p ->. destruct Hraft as (c & _ & Hc). eauto.
  - by split; eapply finite_positive_ok.
  - repeat match goal with H : _ && _ = true |- _ => apply andb_true_iff in H as [? ?] | H : bool_decide _ = true |- _ => apply bool_decide_eq_true in H end.
    split; [lia|done].
  - done.
  - rewrite <-!app_assoc. destruct auth as [[k p]|]; reflexivity.
Qed.

Lemma rep_init_fields f i d m b t a k c : Replicator.rep_init f i d m b t a k = Ok c →
  Replicator.replication_factor c = f ∧ Replicator.rep_key c = k.
Proof. unfold Replicator.rep_init. case_match; [done|]. by intros [= <-]. Qed.
Lemma gc_init_fields i g t k c : Collector.gc_init i g t k = Ok c → Collector.gc_key c = k ∧ 0 ≤ Collector.gc_grace_s c.
Proof.
  unfold Collector.gc_init. case_match eqn:E; [done|]. intros [= <-]. simpl. split; [done|].
  apply orb_false_iff in E as [[_ E]%orb_false_iff _]. by apply Z.ltb_ge in E.
Qed.
Lemma monitor_init_fields l i d t m : Monitor.monitor_init l i d t = Ok m → Monitor.addresses m = l.
Proof. unfold Monitor.monitor_init. case_match; [done|]. by intros [= <-]. Qed.

Lemma started_group rb mk bind args s s' n :
  control_up rb mk bind args s = (s', Ok n) →
  group_of n ≡ₚ _split_addresses (arg_raft_cluster args) ∧ NoDup (group_of n)
  ∧ _split_addresses (arg_raft_cluster args) !! Z.to_nat (arg_node_id args) = Some (n_self n) ∧ 0 ≤ arg_node_id args.
Proof.
  intros H. apply control_up_prepared in H as (s1 & sv & Hp & Hs).
  apply serve_run in Hs as [_ Hs]. specialize (Hs n eq_refl). destruct Hp, Hs.
  destruct sd_raft0 as (Hself & Hpeers & _), pr_fields0 as (_ & _ & _ & Hrs & Hrp), pr_node0 as [Hk Hnd].
  destruct (lookup_lt_is_Some_2 (_split_addresses (arg_raft_cluster args)) (Z.to_nat (arg_node_id args))) as [x Hx];
    [unfold zlen in *; lia|].
  assert (group_of n ≡ₚ _split_addresses (arg_raft_cluster args)) as Hg.
  { unfold group_of. rewrite Hself, Hpeers, Hrs, Hrp, Hx. by apply all_but_perm. }
  split_and!; [done|by rewrite Hg|by rewrite Hself, Hrs, Hx|lia].
Qed.

(** C33. A ControlNode that starts is configured as its parts expect: there are DataNodes for
    the copies every write needs, the public addresses are a bijection, no secret is short
    and authentication comes with its first admin, the node and its peers are exactly the
    cluster of the command line, once each, and the monitor, the re-replicator and the
    collector work on the same DataNodes with the same key. *)
Theorem started_node_is_configured rb mk bind args s s' n :
  control_up rb mk bind args s = (s', Ok n) → configured rb args n.
Proof.
  intros H. pose proof (started_group _ _ _ _ _ _ _ H) as Hg. apply control_up_prepared in H as (s1 & sv & Hp & Hs).
  apply serve_run in Hs as [_ Hs]. specialize (Hs n eq_refl). destruct Hp, Hs.
  destruct sd_config0 as [Hc _], sd_raft0 as (_ & _ & Hboot), pr_fields0 as (Hd & Hb & Hm & _ & _).
  apply validate_datanode_ok in sd_datanodes0 as (_ & Hr & He). apply valid_mapping_bijective in sd_public0.
  split; rewrite ?Hc, ?Hboot; try done.
  - destruct sd_public0 as [?|(_ & ? & ?)]; auto.
  - intros k Hk'. destruct (pr_jwt0 k Hk') as [c Hl]. by eapply jwt_secret_long.
  - intros p Hp'. destruct (pr_admin0 p Hp') as [c Hl]. by eapply admin_password_given.
  - intros k Hk'. destruct (pr_key0 k Hk') as [c Hl]. by eapply capability_key_long.
  - split; [by apply monitor_init_fields in sd_monitor0|done].
  - by apply rep_init_fields in sd_rereplicator0.
  - by apply gc_init_fields in sd_collector0.
Qed.

(** The ControlNodes that start from the same list of addresses form one Raft group: the
    members are the same for all of them, and two nodes with different numbers are
    different members, each a peer of the other. *)
Theorem raft_group_agrees rb1 mk1 bind1 args1 s1 t1 n1 rb2 mk2 bind2 args2 s2 t2 n2 :
  control_up rb1 mk1 bind1 args1 s1 = (t1, Ok n1) → control_up rb2 mk2 bind2 args2 s2 = (t2, Ok n2) →
  arg_raft_cluster args1 = arg_raft_cluster args2 →
  group_of n1 ≡ₚ group_of n2 ∧
  (arg_node_id args1 ≠ arg_node_id args2 → n_self n1 ≠ n_self n2 ∧ n_self n1 ∈ n_peers n2 ∧ n_self n2 ∈ n_peers n1).
Proof.
  intros H1%started_group H2%started_group Heq.
  destruct H1 as (P1 & N1 & L1 & K1), H2 as (P2 & N2 & L2 & K2). rewrite Heq in *.
  assert (group_of n1 ≡ₚ group_of n2) as Hg by (by rewrite P1, P2). split; [done|]. intros Hid.
  assert (n_self n1 ≠ n_self n2) as Hne.
  { intros Hs. rewrite <-Hs in L2. assert (Z.to_nat (arg_node_id args1) = Z.to_nat (arg_node_id args2)); [|lia].
    eapply NoDup_lookup; [|exact L1|exact L2]. by rewrite <-P1. }
  assert (n_self n1 ∈ group_of n2) as [?|?]%elem_of_cons by (rewrite <-Hg; by left); [done|].
  assert (n_self n2 ∈ group_of n1) as [?|?]%elem_of_cons by (rewrite Hg; by left); [done|]. done.
Qed.

(** What a process does with its TLS files: none given, a warning and every link in clear;
    or all of them given and readable, and then the port shows the certificate of the node
    and every channel trusts only the CA and the fixed name. *)
Inductive links (rb : string → option string) (args : TlsArgs) (tr : list event) (channel : string → Channel) (port : Port) : Prop :=
| InClear address :
    Forall (λ f, truthy f = false) (tls_files args true) → EvPrint no_tls_warning ∈ tr →
    (∀ a, channel a = InsecureChannel a) → port = InsecurePort address → links rb args tr channel port
| Encrypted address ca cert key ca' cert' key' :
    args = mkTlsArgs (Some ca) (Some cert) (Some key) →
    rb ca = Some ca' → rb cert = Some cert' → rb key = Some key' →
    (∀ a, channel a = SecureChannel a ca' NODE_TLS_NAME) → port = SecurePort address key' cert' →
    links rb args tr channel port.

Lemma links_choice rb args tr tls address port s :
  tls_choice rb args true tls → (tls = None → EvPrint no_tls_warning ∈ tr) →
  add_port address tls s = (s, Ok port) → links rb args tr (channel_factory tls) port.
Proof.
  intros Ht Hw Hp. destruct Ht as [Hf|ca cert key ca' cert' key' _ Ha H1 H2 H3|]; [| |done].
  - injection Hp as <-. eapply InClear; eauto.
  - injection Hp as <-. by eapply Encrypted.
Qed.

Lemma encryption_key_length content key : BlockStore.load_encryption_key content = Ok key → zlen key = 32.
Proof.
  destruct content as [k|]; simpl; [|done]. destruct (Z.eqb_spec (zlen k) 32); [|done]. by intros [= <-].
Qed.

Lemma datanode_up_ok rb mk bind args s s' n :
  datanode_up rb mk bind args s = (s', Ok n) →
  ∃ tls t address, tls_choice rb (darg_tls args) true tls ∧ d_channel n = channel_factory tls
    ∧ add_port address tls t = (t, Ok (d_port n)) ∧ zlen (d_key n) = 32
    ∧ (∀ k, d_cap n = Some k → ∃ c, load_capability_key c = Ok k)
    ∧ ∃ q, s' = s ++ (if tls then [] else [EvPrint no_tls_warning])
         ++ (if d_cap n then [] else [EvPrint no_block_capabilities_warning]) ++ q.
Proof.
  unfold datanode_up, datanode_serve, make_dirs, raises_unless. intros H. start_inv H.
  apply tls_from_args_ok in Hm as [Htls ->]. rename a into tls.
  assert (∀ t p t', add_port (host_port (darg_host args) (darg_port args)) tls t = (t', Ok p) → t' = t) as Hst.
  { unfold add_port. intros t p t'. repeat case_match; by intros [= <-]. }
  match goal with H : add_port _ _ _ = _ |- _ => pose proof (Hst _ _ _ H) as ->; rename H into Hport end.
  match goal with H : BlockStore.load_encryption_key _ = Ok _ |- _ => rename H into Hkey end.
  assert (zlen a0 = 32) as Hlen.
  { by eapply encryption_key_length. }
  match goal with H : ensure _ _ _ = _ |- _ => apply ensure_ok_inv in H as [_ ->] end.
  destruct (truthy (darg_capability_key_file args)) eqn:Ht.
  - minv Hm1. apply load_secret_ok in Hm as (c & _ & Hc & ->).
    eexists tls, _, _. split_and!; simpl; eauto.
    + intros k [= <-]. eauto.
    + eexists. rewrite <-!app_assoc. reflexivity.
  - start_inv Hm1. eexists tls, _, _. split_and!; simpl; eauto; [done|].
    eexists. rewrite <-!app_assoc. reflexivity.
Qed.

(** C34. Nothing is left unprotected in silence.  A ControlNode or a DataNode that starts uses
    TLS on every link, with the certificates of its files, or has said it does not; a
    ControlNode says when no call needs a token, when the DataNodes get no capability and
    when Raft is in clear, a DataNode when it asks for no capability; and the secrets in
    use are never shorter than their minimum. *)
Theorem nothing_unprotected_in_silence rb mk bind :
  (∀ args s s' n, control_up rb mk bind args s = (s', Ok n) →
     links rb (arg_tls args) s' (n_channel n) (n_port n)
     ∧ (c_jwt_secret (n_config n) = None → EvPrint no_auth_warning ∈ s')
     ∧ (c_capability_key (n_config n) = None → EvPrint no_capabilities_warning ∈ s')
     ∧ match password (n_raft_conf n) with
       | Some p => 32 ≤ Z.of_nat (char_count p)
       | None => EvPrint no_raft_password_warning ∈ s'
       end)
  ∧ (∀ args s s' n, datanode_up rb mk bind args s = (s', Ok n) →
     links rb (darg_tls args) s' (d_channel n) (d_port n) ∧ zlen (d_key n) = 32
     ∧ match d_cap n with
       | Some k => MIN_KEY_BYTES ≤ Z.of_nat (String.length k)
       | None => EvPrint no_block_capabilities_warning ∈ s'
       end).
Proof.
  split; intros args s s' n H.
  - apply control_up_prepared in H as (s1 & sv & Hp & Hs). apply serve_run in Hs as [Htr Hs].
    specialize (Hs n eq_refl). destruct Hp, Hs. destruct sd_config0 as [-> _], sd_port0 as [Hport _].
    destruct Htr as (s2 & (q & -> & _) & ->).
    split_and!.
    + rewrite sd_channel0. eapply links_choice; [done| |apply (Hport [])]. intros Hn. rewrite Hn in pr_events0. set_solver.
    + intros Hn. rewrite Hn in pr_events0. set_solver.
    + intros Hn. rewrite Hn in pr_events0. set_solver.
    + rewrite sd_conf0. destruct (sv_raft_password sv) as [p|] eqn:E; [|simpl; set_solver].
      destruct (pr_raft0 p eq_refl) as [c Hc]. apply raft_password_long in Hc as Hlen.
      destruct p; [simpl in Hlen; lia|done].
  - apply datanode_up_ok in H as (tls & t & address & Ht & -> & Hport & Hk & Hcap & q & ->).
    split_and!; [|done|].
    + eapply links_choice; [done| |done]. intros ->. set_solver.
    + destruct (d_cap n) as [k|]; [|set_solver]. destruct (Hcap k eq_refl) as [c Hc]. by eapply capability_key_long.
Qed.

(** * Up and down *)

(** What runs after a trace, from what ran before. *)
Definition run_event (l : list Component) (e : event) : list Component :=
  match e with
  | EvRaft _ _ _ => RaftNode :: l
  | EvStart c => c :: l
  | EvStop c => filter (λ d, d ≠ c) l
  | _ => l
  end.
Definition running : list event → list Component := foldl run_event [].

(** What a part calls while it runs: the collector asks the re-replicator for the copies
    in flight, both ask the monitor, and everything commits through Raft. *)
Definition uses (c : Component) : list Component :=
  match c with
  | RaftNode | MonitorThread => []
  | GrpcServer | BootstrapThread => [RaftNode]
  | RereplicatorThread => [MonitorThread; RaftNode]
  | CollectorThread => [RereplicatorThread; MonitorThread; RaftNode]
  end.

(** Nothing is stopped, and the servicer is not closed, under a part that uses it. *)
Definition allowed (l : list Component) (e : event) : bool :=
  match e with
  | EvStop c => forallb (λ d, negb (bool_decide (c ∈ uses d))) l
  | EvClose => forallb (λ d, bool_decide (d = RaftNode)) l
  | _ => true
  end.
Fixpoint orderly_from (l : list Component) (tr : list event) : bool :=
  match tr with
  | [] => true
  | e :: tr' => allowed l e && orderly_from (run_event l e) tr'
  end.
Definition orderly : list event → bool := orderly_from [].

Lemma silent_running l q : Forall silent_event q → foldl run_event l q = l.
Proof. induction 1 as [|e q He _ IH]; simpl; [done|]. by destruct e. Qed.
Lemma silent_orderly l q rest : Forall silent_event q → orderly_from l (q ++ rest) = orderly_from l rest.
Proof. induction 1 as [|e q He _ IH]; simpl; [done|]. by destruct e. Qed.
Lemma prepares_init tr : prepares [] tr → Forall silent_event tr.
Proof. by intros (q & -> & H). Qed.
Lemma running_silent q rest : Forall silent_event q → running (q ++ rest) = running rest.
Proof. intros H. unfold running. rewrite foldl_app. by rewrite (silent_running [] q). Qed.

(** What a start of a ControlNode leaves when it fails or returns. *)
Definition up_trace (s s' : list event) (r : result start_error ControlNode) : Prop :=
  match r with
  | Ok _ => serve_trace s s' r
  | Err e => prepares s s' ∨ (e = Raises ∧ ∃ s1 self peers conf, prepares s s1 ∧ s' = s1 ++ [EvRaft self peers conf])
  end.

Lemma up_trace_bind {A} (m : Start A) (k : A → Start ControlNode) s s' r :
  moves prepares m → (∀ a s1, k a s1 = (s', r) → up_trace s1 s' r) → (a ← m; k a) s = (s', r) → up_trace s s' r.
Proof.
  intros Hm Hk. specialize (Hm s). unfold mbind, M_bind. destruct (m s) as [s1 [a|e]]; simpl in Hm.
  - intros H%Hk. destruct r as [n|e]; simpl in *.
    + destruct H as (s2 & H & ->). exists s2. split; [by etrans|done].
    + destruct H as [H|(-> & s2 & self & peers & conf & H & ->)]; [left; by etrans|right].
      split; [done|]. exists s2, self, peers, conf. split; [by etrans|done].
  - intros [= <- <-]. by left.
Qed.

Lemma control_up_trace rb mk bind args s s' r : control_up rb mk bind args s = (s', r) → up_trace s s' r.
Proof.
  unfold control_up.
  repeat (apply up_trace_bind;
    [first [apply prepares_tls|apply prepares_auth|apply prepares_capabilities|apply prepares_raft
           |apply prepares_get_or|apply prepares_or_exit|apply prepares_exits]|intros ? ?]).
  intros H. apply serve_run in H as [Ht _]. destruct r as [n|e]; [done|].
  destruct Ht as [-> [H|H]]; [by left|by right].
Qed.

(** [main] of a ControlNode after its start. *)
Definition life (bootstrap : option string) (bound : Z) (interrupted : bool) : list event * result start_error unit :=
  if bound =? 0 then ([], Err Raises)
  else (EvReady bound :: stops bootstrap, if interrupted then Err Raises else Ok tt).

Lemma control_main_run rb mk bind args interrupted s :
  control_main rb mk bind args interrupted s =
  match control_up rb mk bind args s with
  | (s', Ok n) => (s' ++ (life (n_bootstrap n) (n_bound n) interrupted).1, (life (n_bootstrap n) (n_bound n) interrupted).2)
  | (s', Err e) => (s', Err e)
  end.
Proof.
  unfold control_main. unfold mbind at 1, M_bind at 1. destruct (control_up rb mk bind args s) as [s' [n|e]]; [|done].
  unfold raises_unless, ensure, life. unfold mbind at 1, M_bind at 1.
  destruct (n_bound n =? 0); simpl; [by rewrite app_nil_r|].
  unfold stop_node, mbind, M_bind, log_event, modify, mret, M_ret, raise.
  destruct (n_bootstrap n), interrupted; simpl; rewrite <-!app_assoc; done.
Qed.

(** A process takes down what it brought up.  Whatever its arguments, its files and the
    network do, [main] of a ControlNode never stops a part another one still uses; when it
    gives up on its arguments nothing was running, and any other failure of the start
    leaves at most the Raft node; and once it listens it ends with nothing running.  Only
    a port gRPC reports as 0 leaves the started parts behind. *)
Theorem process_takes_down_what_it_started rb mk bind args interrupted tr r :
  control_main rb mk bind args interrupted [] = (tr, r) →
  orderly tr = true
  ∧ (r = Err Exits → running tr = [])
  ∧ match control_up rb mk bind args [] with
    | (_, Err _) => running tr = [] ∨ running tr = [RaftNode]
    | (_, Ok n) => if n_bound n =? 0 then r = Err Raises ∧ GrpcServer ∈ running tr ∧ CollectorThread ∈ running tr
                   else running tr = []
    end.
Proof.
  rewrite control_main_run. destruct (control_up rb mk bind args []) as [s' [n|e]] eqn:Hup;
    apply control_up_trace in Hup as Ht; simpl in Ht.
  - destruct Ht as (q & Hq%prepares_init & ->). intros [= <- <-]. rewrite <-app_assoc, running_silent by done.
    unfold orderly. rewrite silent_orderly by done. unfold life, starts, stops.
    destruct (n_bootstrap n), (n_bound n =? 0), interrupted; simpl; split_and!; try done; set_solver.
  - intros [= <- <-]. destruct Ht as [Hq%prepares_init|(-> & q & self & peers & conf & Hq%prepares_init & ->)].
    + rewrite <-(app_nil_r s'), running_silent by done. unfold orderly. rewrite silent_orderly by done. split_and!; auto.
    + rewrite running_silent by done. unfold orderly. rewrite silent_orderly by done. split_and!; [done|done|by right].
Qed.

(** * Witnesses *)

Definition secret32 : string := "0123456789abcdef0123456789abcdef".
Definition demo_files (f : string) : option string :=
  dict_get f [("raft", secret32 +:+ String "010" ""); ("jwt", secret32); ("admin", "clave"); ("caps", secret32);
    ("ca.pem", "CA"); ("cert.pem", "CERT"); ("key.pem", "KEY"); ("disk", secret32)].
Definition demo_tls : TlsArgs := mkTlsArgs (Some "ca.pem") (Some "cert.pem") (Some "key.pem").
Definition demo_bind (p : Port) : option Z := Some 50051.
Definition demo_args (id : Z) (datanodes : string) (tls : TlsArgs) : ControlArgs :=
  mkControlArgs id "c1:50051, c2:50051,c3:50051" "/data" datanodes "" "0.0.0.0" 50051 128 2 1 2 6 5 30 4 100 50 60 3600
    (Some "raft") (Some "jwt") (Some "admin") (Finite 3600) (Some "caps") (Finite 600) tls.
Definition demo_up (id : Z) : list event * result start_error ControlNode :=
  control_up demo_files (λ _, true) demo_bind (demo_args id "d1:1,d2:1,d3:1" demo_tls) [].

Lemma started_node_is_configured_witness :
  ∃ n, (demo_up 1).2 = Ok n ∧ n_self n = "c2:50051" ∧ n_peers n = ["c1:50051"; "c3:50051"]
    ∧ configured demo_files (demo_args 1 "d1:1,d2:1,d3:1" demo_tls) n.
Proof.
  destruct (demo_up 1) as [tr r] eqn:E. pose proof E as E2. vm_compute in E2. injection E2 as _ <-.
  eexists. split; [reflexivity|]. split; [reflexivity|]. split; [reflexivity|].
  exact (started_node_is_configured demo_files (λ _, true) demo_bind (demo_args 1 "d1:1,d2:1,d3:1" demo_tls) [] tr _ E).
Defined.

Lemma raft_group_agrees_witness :
  ∃ n1 n2, (demo_up 0).2 = Ok n1 ∧ (demo_up 2).2 = Ok n2 ∧ n_self n1 ∈ n_peers n2 ∧ n_self n2 ∈ n_peers n1.
Proof.
  destruct (demo_up 0) as [t1 r1] eqn:E1. destruct (demo_up 2) as [t2 r2] eqn:E2.
  pose proof E1 as F1. vm_compute in F1. injection F1 as _ <-.
  pose proof E2 as F2. vm_compute in F2. injection F2 as _ <-.
  eexists _, _. split; [reflexivity|]. split; [reflexivity|].
  destruct (raft_group_agrees demo_files (λ _, true) demo_bind (demo_args 0 "d1:1,d2:1,d3:1" demo_tls) [] t1 _
    demo_files (λ _, true) demo_bind (demo_args 2 "d1:1,d2:1,d3:1" demo_tls) [] t2 _ E1 E2 eq_refl) as [_ H].
  assert (0 ≠ 2) as Hid by lia. destruct (H Hid) as (_ & H1 & H2). split; [exact H1|exact H2].
Defined.

Lemma nothing_unprotected_in_silence_witness :
  ∃ n tr, demo_up 1 = (tr, Ok n) ∧ tr = [EvMkdir "/data"; EvRaft (n_self n) (n_peers n) (n_raft_conf n)] ++ starts (Some "clave")
    ∧ links demo_files demo_tls tr (n_channel n) (n_port n).
Proof.
  destruct (demo_up 1) as [tr r] eqn:E. pose proof E as E2. vm_compute in E2. injection E2 as <- <-.
  eexists _, _. split; [reflexivity|]. split; [reflexivity|].
  destruct (nothing_unprotected_in_silence demo_files (λ _, true) demo_bind) as [H _].
  exact (proj1 (H (demo_args 1 "d1:1,d2:1,d3:1" demo_tls) [] _ _ E)).
Defined.

Definition demo_process : list event * result start_error unit :=
  control_main demo_files (λ _, true) demo_bind (demo_args 1 "d1:1,d2:1,d3:1" demo_tls) true [].

Lemma process_takes_down_what_it_started_witness :
  demo_process.2 = Err Raises ∧ length demo_process.1 = 15%nat ∧ orderly demo_process.1 = true.
Proof.
  split; [vm_compute; reflexivity|]. split; [vm_compute; reflexivity|].
  exact (proj1 (process_takes_down_what_it_started demo_files (λ _, true) demo_bind (demo_args 1 "d1:1,d2:1,d3:1" demo_tls)
    true _ _ (surjective_pairing demo_process))).
Defined.

Definition plain_args (datanodes : string) : ControlArgs :=
  mkControlArgs 0 "c1:50051" "/data" datanodes "" "0.0.0.0" 50051 128 2 1 2 6 5 30 4 100 50 60 3600
    None None None (Finite 3600) None (Finite 600) (mkTlsArgs None None None).

(** A DataNode named twice on the command line is accepted: with a replication factor of
    two, an upload then puts both copies of its block on that one DataNode, although
    [main] refuses a repeated address in the cluster of ControlNodes. *)
Theorem repeated_datanode_holds_every_copy :
  ∃ tr n, control_up demo_files (λ _, true) demo_bind (plain_args "d1:50061,d1:50061") [] = (tr, Ok n)
    ∧ c_replication_factor (n_config n) = 2
    ∧ ∀ clock uuid,
        let env := mkEnv (λ _, true) (λ _, []) (λ _, RaftOk) clock inject_Z uuid (λ _, "salt")
                     (λ _, Monitor.alive_addresses (n_monitor n)) (λ _, Ok []) in
        ∃ bid, (@Handlers.BeginUpload Auth.toy_jwt (n_config n) env (mkCtx [] "peer") "op" "/a" 5 ServicerProps.demo_node).2
               = Ok [Handlers.mkLocation bid ["d1:50061"; "d1:50061"] 5 ""].
Proof.
  destruct (control_up demo_files (λ _, true) demo_bind (plain_args "d1:50061,d1:50061") []) as [tr r] eqn:E.
  vm_compute in E. injection E as <- <-.
  eexists _, _. split; [reflexivity|]. split; [reflexivity|].
  intros clock uuid env. eexists. vm_compute. reflexivity.
Qed.
