(* ===== verification/Bootstrap.v ===== *)
(** The first admin of a cluster (the thread [bootstrap_admin] of [serve],
    dfsha/control_node/main.py, over [ensure_admin] of the servicer): every ControlNode
    tries, at each turn, until the cluster has users.

    The loop is given the number of turns it is watched for; [stopped k] is the flag at the
    start of the [k]-th.  The waiting between two turns changes nothing. *)

From S2P Require Import Prelude Exceptions Dict Paths TreeData Tree TreeFacts Replicated TreeErrors.
From S2P Require Import Crypto BlockToken Addresses Auth Servicer Handlers.
From S2P Require ServicerProps.

Local Open Scope nat_scope.

(** How the thread is after the turns watched. *)
Inductive boot_end := BootDone | BootStopped | BootRunning.

Section bootstrap.
Context (env : Env).

Fixpoint bootstrap_loop (turns : nat) (stopped : nat → bool) (k : nat) (password_hash salt : string) : H boot_end :=
  match turns with
  | O => mret BootRunning
  | S turns' =>
      if stopped k then mret BootStopped
      else λ s,
        match ensure_admin env password_hash salt s with
        | (s', Ok true) => (s', Ok BootDone)
        | (s', _) => bootstrap_loop turns' stopped (S k) password_hash salt s'
        end
  end.

Definition bootstrap_admin (admin_password salt : string) (turns : nat) (stopped : nat → bool) : H boot_end :=
  let hs := hash_password admin_password salt in bootstrap_loop turns stopped 0 hs.1 hs.2.
End bootstrap.

(** * Users are never removed *)

Definition users_kept (t t' : TreeState) : Prop := dom (t_users t) ⊆ dom (t_users t').
#[global] Instance users_kept_preorder : PreOrder users_kept.
Proof. split; [intros ?; unfold users_kept; done|intros ??? ??; unfold users_kept in *; by etrans]. Qed.

Lemma kept_same t t' : t_users t' = t_users t → users_kept t t'.
Proof. unfold users_kept. by intros ->. Qed.
Lemma kept_has_users t t' : users_kept t t' → has_users t = true → has_users t' = true.
Proof.
  unfold users_kept, has_users. rewrite !bool_decide_eq_true. intros Hd Hne He. apply Hne.
  rewrite He, dom_empty_L in Hd. apply dom_empty_inv_L. set_solver.
Qed.

Lemma kept_modify (f : TreeState → TreeState) : (∀ t, t_users (f t) = t_users t) → moves (E:=exn) users_kept (modify f).
Proof. intros H. apply moves_modify. intros t. by apply kept_same. Qed.
Lemma kept_users (f : gmap string UserRecord → gmap string UserRecord) :
  (∀ u, dom u ⊆ dom (f u)) → moves (E:=exn) users_kept (modify (λ t, with_users (f (t_users t)) t)).
Proof. intros H. apply moves_modify. intros t. apply H. Qed.

Ltac kept :=
  repeat first
    [ apply moves_bind; [apply _| |intros ?]
    | solve [auto with dfs]
    | apply kept_modify; intros ?; by rewrite ?alter_tree_users
    | apply kept_users; intros ?; rewrite dom_insert; set_solver
    | match goal with |- moves users_kept (match ?x with _ => _ end) => destruct x end
    | match goal with |- moves users_kept (if ?x then _ else _) => destruct x end ].

Lemma kept_walk_create caller rest : ∀ prefix created, moves users_kept (walk_create caller prefix rest created).
Proof.
  induction rest as [|part rest IH]; intros prefix created; simpl; unfold require, dir_at, set_child; kept; apply IH.
Qed.

Lemma kept_command c : moves users_kept (run_command c).
Proof.
  destruct c; simpl; unfold as_none, as_blocks.
  all: try unfold make_dir; try unfold remove_dir; try unfold remove_file; try unfold begin_upload;
    try unfold confirm_block; try unfold complete_upload; try unfold abort_upload; try unfold acquire_lock;
    try unfold renew_lock; try unfold release_lock; try unfold update_block_replicas; try unfold begin_write;
    try unfold commit_write; try unfold abort_write; try unfold create_user; try unfold change_password;
    try unfold chmod; try unfold chown.
  all: unfold _cleanup_expired_writes, _cleanup_expired_locks, _require_write_lock, find_reservation, _get_committed_file,
    _get_pending_file, _require_upload_owner, require, dir_at, set_child, del_child, set_file, put_holder; kept.
  all: try apply kept_walk_create.
Qed.

(** * The key of the bootstrap *)

(** The answer the log remembers for the bootstrap is there only once there are users. *)
Definition boot_ok (s : ReplicatedTree) : Prop :=
  BOOTSTRAP_ADMIN_OP_ID ∈ dict_keys (applied_ops s) → has_users (tree s) = true.

(** What the other nodes and the clients put in the log: the key of the bootstrap only
    with its command (ServicerProps: no call of a user has that key). *)
Definition boot_command (e : string * command) : Prop :=
  e.1 = BOOTSTRAP_ADMIN_OP_ID → ∃ hash salt, e.2 = CCreateUser ADMIN_USERNAME hash salt [ADMIN_USERNAME] true.
Definition boot_log (env : Env) : Prop := ∀ n, Forall boot_command (others_at env n).

Lemma dispatch_kept c t : users_kept t (dispatch c t).1.
Proof. unfold dispatch. case_bool_decide; simpl; [apply (kept_command c)|by apply kept_same]. Qed.

(** Creating the admin leaves the cluster with users, whatever it answers. *)
Lemma create_admin_users hash salt t :
  has_users (dispatch (CCreateUser ADMIN_USERNAME hash salt [ADMIN_USERNAME] true) t).1 = true.
Proof.
  assert (∀ u : gmap string UserRecord, ADMIN_USERNAME ∈ dom u → bool_decide (u ≠ ∅) = true) as Hin.
  { intros u Hu. apply bool_decide_eq_true. intros ->. set_solver. }
  unfold dispatch. rewrite bool_decide_true by (apply (bool_decide_unpack _); vm_compute; exact I).
  unfold run_command, as_none, create_user, has_users. unfold mbind, M_bind, ensure, gets, modify, mret, M_ret, raise. simpl.
  destruct (decide (t_users t !! ADMIN_USERNAME = None)) as [He|He].
  - rewrite (bool_decide_true (t_users t !! ADMIN_USERNAME = None)) by done. simpl. apply Hin. rewrite dom_insert. set_solver.
  - rewrite (bool_decide_false (t_users t !! ADMIN_USERNAME = None)) by done. simpl. apply Hin. by apply elem_of_dom, not_eq_None_Some.
Qed.

Lemma evict_keys k ops : k ∈ dict_keys (evict ops) → k ∈ dict_keys ops.
Proof.
  unfold evict, dict_keys. rewrite !list_elem_of_fmap. intros (p & -> & Hp). exists p. split; [done|].
  rewrite <-(take_drop (Z.to_nat (zlen ops - MAX_APPLIED_OPS)) ops). apply elem_of_app. by right.
Qed.

Lemma boot_ok_apply op c s : boot_ok s → boot_command (op, c) → boot_ok (apply op c s).1.
Proof.
  intros Hs Hc. unfold apply. destruct (dict_get op (applied_ops s)) as [o|] eqn:E; [done|].
  intros Hk. cbn [fst applied_ops tree] in *. apply evict_keys, dict_set_keys_elem in Hk as [Hk|Hk].
  - destruct (Hc (eq_sym Hk)) as (hash & salt & Heq). simpl in Heq. subst c. apply create_admin_users.
  - eapply kept_has_users; [apply dispatch_kept|by apply Hs].
Qed.
Lemma boot_ok_log l s : boot_ok s → Forall boot_command l → boot_ok (apply_log l s).
Proof.
  unfold apply_log. intros Hs Hl. revert s Hs.
  induction Hl as [|[op c] l Hc _ IH]; intros s Hs; simpl; [done|]. apply IH. by apply boot_ok_apply.
Qed.
Lemma users_log l s : has_users (tree s) = true → has_users (tree (apply_log l s)) = true.
Proof.
  unfold apply_log. revert s. induction l as [|[op c] l IH]; intros s Hs; simpl; [done|]. apply IH.
  unfold apply. destruct (dict_get op (applied_ops s)); [done|]. simpl.
  eapply kept_has_users; [apply dispatch_kept|done].
Qed.

(** The command of the bootstrap. *)
Definition boot_sent (hash salt : string) : sent_event :=
  Sent BOOTSTRAP_ADMIN_OP_ID (CCreateUser ADMIN_USERNAME hash salt [ADMIN_USERNAME] true).
Lemma sent_boot hash salt before :
  ∃ l, before ++ [boot_sent hash salt] = before ++ l ∧ Forall (λ e, e = boot_sent hash salt) l.
Proof. exists [boot_sent hash salt]. auto. Qed.

(** One turn of the thread. *)
Lemma ensure_admin_run env hash salt s s' r :
  boot_log env → boot_ok (replicated s) → ensure_admin env hash salt s = (s', r) →
  boot_ok (replicated s') ∧ (∃ b, r = Ok b)
  ∧ (r = Ok true → has_users (tree (replicated s')) = true)
  ∧ (r = Ok true ∨ S (tick s) ≤ tick s')
  ∧ (leader_at env (tick s) = true → leader_at env (S (tick s)) = true → raft_at env (S (S (tick s))) = RaftOk → r = Ok true)
  ∧ (∃ l, sent s' = sent s ++ l ∧
Forall (λ e, e = boot_sent hash salt) l).
Proof.
  intros Hlog Hs. unfold ensure_admin. unfold mbind at 1, M_bind at 1, gets. simpl.
  destruct (has_users (tree (replicated s))) eqn:Hu.
  { intros [= <- <-]. split_and!; eauto. exists []. by rewrite app_nil_r. }
  unfold mbind at 1, M_bind at 1, observe. simpl.
  destruct (leader_at env (tick s)) eqn:L1; simpl.
  2: { intros [= <- <-]. simpl. split_and!; eauto; try done. exists []. by rewrite app_nil_r. }
  unfold _commit_raw, observe. unfold mbind, M_bind. simpl.
  destruct (leader_at env (S (tick s))) eqn:L2; simpl.
  2: { intros [= <- <-]. simpl. split_and!; eauto; try done; try (right; lia). exists []. by rewrite app_nil_r. }
  assert (boot_ok (apply_log (others_at env (S (S (tick s)))) (replicated s))) as Hb by (by apply boot_ok_log).
  assert (boot_command (BOOTSTRAP_ADMIN_OP_ID, CCreateUser ADMIN_USERNAME hash salt [ADMIN_USERNAME] true)) as Hc.
  { intros _. eauto. }
  destruct (raft_at env (S (S (tick s)))) eqn:R; simpl; intros [= <- <-]; simpl.
  - split; [by apply boot_ok_apply|]. split; [eauto|]. split; [|split_and!; eauto using (sent_boot hash salt)].
    intros _. unfold apply. destruct (dict_get _ _) as [o|] eqn:E.
    + apply Hb. apply dict_get_elem in E. unfold dict_keys. apply list_elem_of_fmap. eexists. split; [|exact E]. done.
    + apply create_admin_users.
  - split; [by apply boot_ok_apply|]. split_and!; eauto using sent_boot; try done; right; lia.
  - split_and!; eauto using sent_boot; try done; right; lia.
Qed.

(** C35. The cluster gets its admin.  On a log where the key of the bootstrap carries only its
    command, the thread sends nothing but that command, it never raises, it is done only
    when the cluster has users, and it stops before only when it is told to.  From the
    moment this node stays the leader and Raft confirms, it is done within as many turns
    as the clock of the node was short of that moment, plus one. *)
Theorem cluster_gets_its_admin env admin_password salt turns stopped s s' r :
  boot_log env → boot_ok (replicated s) →
  bootstrap_admin env admin_password salt turns stopped s = (s', r) →
  let hs := hash_password admin_password salt in
  (∃ l, sent s' = sent s ++ l ∧ Forall (λ e, e = boot_sent hs.1 hs.2) l)
  ∧ (r = Ok BootDone → has_users (tree (replicated s')) = true)
  ∧ (r = Ok BootStopped → ∃ k, k < turns ∧ stopped k = true)
  ∧ (∃ b, r = Ok b)
  ∧ ∀ moment, (∀ t, moment ≤ t → leader_at env t = true ∧ raft_at env t = RaftOk) → (∀ k, stopped k = false) →
      moment - tick s < turns → r = Ok BootDone.
Proof.
  intros Hlog Hs H. unfold bootstrap_admin in H. cbv zeta. generalize dependent (hash_password admin_password salt).
  intros [hash slt]. cbn [fst snd]. intros H.
  enough (∀ k, bootstrap_loop env turns stopped k hash slt s = (s', r) →
    (∃ l, sent s' = sent s ++ l ∧ Forall (λ e, e = boot_sent hash slt) l)
    ∧ (r = Ok BootDone → has_users (tree (replicated s')) = true)
    ∧ (r = Ok BootStopped → ∃ j, j < turns ∧ stopped (k + j) = true) ∧ (∃ b, r = Ok b)
    ∧ ∀ moment, (∀ t, moment ≤ t → leader_at env t = true ∧ raft_at env t = RaftOk) → (∀ j, stopped j = false) →
        moment - tick s < turns → r = Ok BootDone) as Hall by exact (Hall 0 H).
  clear H. revert s Hs. induction turns as [|turns IH]; intros s Hs k; simpl.
  { intros [= <- <-]. split; [exists []; by rewrite app_nil_r|]. split_and!; [done|done|eauto|lia]. }
  destruct (stopped k) eqn:Hst.
  { intros [= <- <-]. split; [exists []; by rewrite app_nil_r|]. split_and!; [done| |eauto|congruence].
    intros _. exists 0. rewrite Nat.add_0_r. split; [lia|done]. }
  destruct (ensure_admin env hash slt s) as [s1 r1] eqn:He.
  apply ensure_admin_run in He as (Hs1 & [b ->] & Hu & Ht & Hl & (l1 & Hsent1 & Hl1)); [|done..].
  destruct b.
  { intros [= <- <-]. split; [eauto|]. split_and!; [auto|done|eauto|done]. }
  intros H. destruct (IH s1 Hs1 (S k) H) as ((l2 & Hsent2 & Hl2) & H1 & H2 & H3 & H4). split_and!.
  - exists (l1 ++ l2). rewrite Hsent2, Hsent1, <-app_assoc, Forall_app. done.
  - done.
  - intros (j & Hj & Hsj)%H2. exists (S j). rewrite Nat.add_succ_r. split; [lia|done].
  - done.
  - intros moment Hm Hns Hlt. destruct Ht as [?|Ht]; [done|]. apply (H4 moment Hm Hns).
    destruct (decide (moment ≤ tick s)); [|lia].
    assert (Ok (E:=rpc_exn) false = Ok true); [|done].
    apply Hl; [by apply Hm|apply Hm; lia|apply Hm; lia].
Qed.

Lemma cluster_gets_its_admin_witness :
  boot_log ServicerProps.demo_env ∧ boot_ok replicated_init ∧
  ∃ s', bootstrap_admin ServicerProps.demo_env "clave" "salt" 2 (λ _, false) ServicerProps.demo_node = (s', Ok BootDone)
    ∧ has_users (tree (replicated s')) = true.
Proof.
  assert (boot_log ServicerProps.demo_env) as Hlog by (intros n; constructor).
  assert (boot_ok replicated_init) as Hs by (intros Hk; set_solver).
  split; [exact Hlog|]. split; [exact Hs|].
  destruct (bootstrap_admin ServicerProps.demo_env "clave" "salt" 2 (λ _, false) ServicerProps.demo_node) as [s' r] eqn:E.
  destruct (cluster_gets_its_admin ServicerProps.demo_env "clave" "salt" 2 (λ _, false) ServicerProps.demo_node s' r Hlog Hs E)
    as (_ & Hu & _ & _ & Hdone).
  assert (r = Ok BootDone) as -> by (apply (Hdone 0); [by intros t _|done|vm_compute; lia]).
  exists s'. split; [reflexivity|by apply Hu].
Defined.
