(* ===== verification/ShellMain.v ===== *)
(** The entry point of the shell (dfsha/client/distributed_shell_main.py): its arguments,
    the client it builds and the session it runs with it.

    [connect] builds the client from the addresses of the ControlNodes, the TLS material,
    the number of transfers in parallel and the view of the addresses; what happens next is
    [run_repl] of the shell.  Argument errors and the events of a start are those of
    [Tls]. *)

From S2P Require Import Prelude Exceptions Paths Addresses ShellWords Shell Tls.
From S2P Require NodeMain.

Local Open Scope Z_scope.

Record ShellArgs := mkShellArgs {
  control_nodes : string;
  parallel_transfers : Z;
  internal_addresses : bool;
  shell_tls : TlsArgs
}.

Section shell_main.
Context {C : Type} {SC : ShellClient C} (read_bytes : string → option string).
Context (connect : list string → option TlsConfig → Z → bool → C).

(** Up to the client: [None] of TLS is a shell in clear. *)
Definition build_client (args : ShellArgs) : Start C :=
  let addresses := NodeMain._split_addresses (control_nodes args) in
  _ ← exits_unless (negb (bool_decide (addresses = [])));
  _ ← exits_unless (1 <=? parallel_transfers args);
  tls ← tls_from_args read_bytes (shell_tls args) false;
  mret (connect addresses tls (parallel_transfers args) (internal_addresses args)).

(** [try: run_repl(client) finally: client.close()]. *)
Definition run_session (lines : list string) : M (C * Console) shell_exn (list string) := λ s,
  let out := run_repl lines s in
  let closed := client c_close out.1 in
  (closed.1, match closed.2 with Ok _ => out.2 | Err x => Err x end).

(** What the session leaves, or how the start failed, with what was printed before it. *)
Definition shell_main (args : ShellArgs) (console : Console) (lines : list string)
    : list event * result start_error ((C * Console) * result shell_exn (list string)) :=
  match build_client args [] with
  | (tr, Ok c) => (tr, Ok (run_session lines (c, console)))
  | (tr, Err e) => (tr, Err e)
  end.

(** The shell talks to at least one ControlNode, moves at least one block at a time and
    uses TLS when it is given a CA, or says it does not; and whatever its session does, an
    exception nobody catches included, the client is closed last. *)
Theorem shell_closes_its_client args console lines tr s r :
  shell_main args console lines = (tr, Ok (s, r)) →
  (∃ tls, tls_choice read_bytes (shell_tls args) false tls
     ∧ tr = (if tls then [] else [EvPrint no_tls_warning])
     ∧ NodeMain._split_addresses (control_nodes args) ≠ [] ∧ 1 ≤ parallel_transfers args
     ∧ ∃ s0, s0 = (run_repl lines (connect (NodeMain._split_addresses (control_nodes args)) tls
                     (parallel_transfers args) (internal_addresses args), console)).1
           ∧ s = ((c_close s0.1).1, s0.2)).
Proof.
  unfold shell_main. destruct (build_client args []) as [tr' [c|e]] eqn:Hb; [|done].
  unfold run_session, client. simpl. intros [= <- <- _].
  unfold build_client, exits_unless in Hb. minv Hb. apply tls_from_args_ok in Hm1 as [Htls ->].
  apply negb_true_iff, bool_decide_eq_false in Hm. apply Z.leb_le in Hm0.
  eexists. split_and!; eauto.
Qed.
End shell_main.
