(* ===== verification/Secrets.v ===== *)
(** The secrets of a cluster (scripts/generate_secrets.py): the files of the secrets
    directory, the views each role mounts, and the script that creates what is missing.

    A file is its bytes, its mode and its owner; the directories themselves have no mode
    here.  What is random is numbered: the [n]-th draw of each generator.

    A run may be cut short before any of its actions on the disk, which are counted
    ([steps_left]): a write is two, the [os.open] that creates or empties the file and the
    writing of its bytes.  An exception (Ctrl-C) that falls in the second is caught by
    [_write], which removes the file; a process that is killed there leaves the first bytes
    of it.  The unlinking of the extra files of a view counts as one action, and an
    exception between the [os.open] and the [try] of [_write], or a kill between [os.open]
    and [fchmod], as one just after. *)

From S2P Require Import Prelude Exceptions BlockToken Tls.

Local Open Scope nat_scope.

Record File := mkFile { content : string; mode : Z; owner : Z * Z }.

(** What a view may hold: besides its files, a directory somebody left there. *)
Inductive item := ItFile (f : File) | ItDir.

Record Vault := mkVault {
  files : gmap string File;
  mounts : gmap string (gmap string item)
}.

(** How a run is cut: by an exception, or killed, when a write that was under way has put
    that many bytes on the disk. *)
Inductive cut := Interrupt | Killed (torn : nat).

Record Run := mkRun {
  vault : Vault;
  draws : nat;
  clock : Z;
  steps_left : option nat;
  broken : cut
}.

(** [SystemExit], an exception nobody catches, or the end of a run cut short. *)
Inductive failure := Exit | Uncaught | Cut.

(** Where a file is: in the secrets directory, or in a view of [mounts/]. *)
Inductive place := Top (name : string) | InView (view name : string).

(** The generators of the standard library. *)
Class Randomness := {
  urandom32 : nat → string;
  token_hex : nat → string;
  token_urlsafe : nat → string
}.

(** The modes 0600 and 0644. *)
Definition PRIVATE : Z := 384.
Definition PUBLIC : Z := 420.

Definition DEFAULT_DATANODES : nat := 3.
Definition _AUTH_SECRETS : list string := ["jwt.secret"; "admin.password"; "capability.key"].
Definition _NODE_TLS : list string := ["ca.crt"; "node.crt"; "node.key"].

Definition dn_name (i : nat) : string := "dn" +:+ str_of_Z (Z.of_nat i).
Definition key_name (i : nat) : string := dn_name i +:+ ".key".

(** [range(1, datanodes + 1)]. *)
Definition datanode_numbers (datanodes : nat) : list nat := seq 1 datanodes.

Definition mount_views (datanodes : nat) : list (string * list string) :=
  ((λ i, (dn_name i, _NODE_TLS ++ [key_name i; "capability.key"])) <$> datanode_numbers datanodes) ++
  [("control", _NODE_TLS ++ "raft.password" :: _AUTH_SECRETS);
   ("client", ["ca.crt"]);
   ("inspect", ["ca.crt"; "admin.password"])].

(** * The disk *)

Definition lookup_place (p : place) (v : Vault) : option item :=
  match p with
  | Top name => ItFile <$> files v !! name
  | InView view name => m ← mounts v !! view; m !! name
  end.
Definition put (p : place) (f : File) (v : Vault) : Vault :=
  match p with
  | Top name => mkVault (<[name := f]> (files v)) (mounts v)
  | InView view name =>
      mkVault (files v) (<[view := <[name := ItFile f]> (default ∅ (mounts v !! view))]> (mounts v))
  end.
Definition unlink (p : place) (v : Vault) : Vault :=
  match p with
  | Top name => mkVault (delete name (files v)) (mounts v)
  | InView view name => mkVault (files v) (<[view := delete name (default ∅ (mounts v !! view))]> (mounts v))
  end.

Definition in_vault (f : Vault → Vault) (r : Run) : Run :=
  mkRun (f (vault r)) (draws r) (clock r) (steps_left r) (broken r).

Notation G := (M Run failure).

Section secrets.
Context {RN : Randomness} {XC : X509} (chown_works : bool) (me : Z * Z).

(** One action on the disk. *)
Definition change (f : Vault → Vault) : G unit := λ r,
  match steps_left r with
  | Some 0 => (r, Err Cut)
  | budget => (mkRun (f (vault r)) (draws r) (clock r) (pred <$> budget) (broken r), Ok tt)
  end.
Definition read_vault {A} (f : Vault → A) : G A := gets (λ r, f (vault r)).

(** The next draw of a generator. *)
Definition draw {A} (f : nat → A) : G A := λ r,
  (mkRun (vault r) (S (draws r)) (clock r) (steps_left r) (broken r), Ok (f (draws r))).

(** The body of the [try]: the bytes go to the file that was opened. *)
Definition fill (p : place) (bytes : string) (md : Z) (own : Z * Z) : G unit := λ r,
  match steps_left r, broken r with
  | Some 0, Interrupt => (in_vault (unlink p) r, Err Cut)
  | Some 0, Killed torn => (in_vault (put p (mkFile (String.substring 0 torn bytes) md own)) r, Err Cut)
  | _, _ => change (put p (mkFile bytes md own)) r
  end.

(** Opening a directory for writing fails; the file is emptied and the mode is set before
    the bytes, the owner of a file that was there stays. *)
Definition write_file (p : place) (bytes : string) (md : Z) : G unit :=
  old ← read_vault (lookup_place p);
  match old with
  | Some ItDir => raise Uncaught
  | _ =>
      let own := match old with Some (ItFile f) => owner f | _ => me end in
      _ ← change (put p (mkFile "" md own));
      fill p bytes md own
  end.

Definition _write (p : place) (bytes : string) (md : Z) (force : bool) : G bool :=
  there ← read_vault (λ v, bool_decide (lookup_place p v ≠ None));
  if (there : bool) && negb force then mret false
  else _ ← write_file p bytes md; mret true.

Definition chown_file (own : Z * Z) (f : File) : File := mkFile (content f) (mode f) own.

Definition _chown (p : place) (own : option (Z * Z)) : G unit :=
  match own with
  | Some o =>
      if chown_works then
        change (λ v, match lookup_place p v with Some (ItFile f) => put p (chown_file o f) v | _ => v end)
      else mret tt
  | None => mret tt
  end.

Fixpoint each {A} (m : A → G unit) (l : list A) : G unit :=
  match l with
  | [] => mret tt
  | x :: l' => _ ← m x; each m l'
  end.

(** The names in the secrets directory. *)
Definition listing (v : Vault) : list string := (map_to_list (files v)).*1.

Definition exists_top (name : string) (v : Vault) : bool := bool_decide (files v !! name ≠ None).
Definition read_top (name : string) : G string :=
  f ← read_vault (λ v, files v !! name);
  match f with Some f => mret (content f) | None => raise Uncaught end.

(** * The script *)

(** The keys of the DataNodes and the password of Raft. *)
Definition first_secrets (force : bool) (datanodes : nat) : G unit :=
  _ ← each (λ i, key ← draw urandom32; _ ← _write (Top (key_name i)) key PRIVATE force; mret tt) (datanode_numbers datanodes);
  pass ← draw token_hex;
  _ ← _write (Top "raft.password") pass PRIVATE force;
  mret tt.

(** A new CA, when there is none or all is replaced. *)
Definition renew_ca (new_ca : bool) : G unit :=
  if new_ca then
    now ← gets clock;
    ck ← draw (λ n, generate_ca n now);
    _ ← _write (Top "ca.key") ck.2 PRIVATE true;
    _ ← _write (Top "ca.crt") ck.1 PUBLIC true;
    mret tt
  else mret tt.

(** A certificate of the nodes from the CA in the directory. *)
Definition renew_node (new_node : bool) : G unit :=
  if new_node then
    ca_crt ← read_top "ca.crt";
    ca_key ← read_top "ca.key";
    now ← gets clock;
    ck ← draw (λ n, issue_node_cert ca_crt ca_key n now);
    match ck with
    | Some (cert, key) =>
        _ ← _write (Top "node.key") key PRIVATE true;
        _ ← _write (Top "node.crt") cert PUBLIC true;
        mret tt
    | None => raise Uncaught
    end
  else mret tt.

Definition generate (force : bool) (own : option (Z * Z)) (datanodes : nat) : G unit :=
  _ ← first_secrets force datanodes;
  new_ca ← read_vault (λ v, force || negb (exists_top "ca.crt" v) || negb (exists_top "ca.key" v));
  _ ← renew_ca new_ca;
  new_node ← read_vault (λ v, new_ca || negb (exists_top "node.crt" v) || negb (exists_top "node.key" v));
  _ ← renew_node new_node;
  names ← read_vault listing;
  each (λ name, _chown (Top name) own) names.

Definition generate_auth_secrets (force : bool) (own : option (Z * Z)) : G unit :=
  secret ← draw token_hex;
  _ ← _write (Top "jwt.secret") secret PRIVATE force;
  pass ← draw token_urlsafe;
  _ ← _write (Top "admin.password") pass PRIVATE force;
  key ← draw token_hex;
  _ ← _write (Top "capability.key") key PRIVATE force;
  each (λ name, _chown (Top name) own) _AUTH_SECRETS.

(** The copy of one secret in a view, when it is not there already. *)
Definition sync_file (view name : string) : G unit :=
  f ← read_vault (λ v, files v !! name);
  match f with
  | None => raise Uncaught
  | Some f =>
      target ← read_vault (lookup_place (InView view name));
      match target with
      | Some (ItFile g) =>
          if decide (content g = content f) then mret tt
          else _ ← _write (InView view name) (content f) (mode f) true; mret tt
      | _ => _ ← _write (InView view name) (content f) (mode f) true; mret tt
      end
  end.

Definition mkdir_view (view : string) (v : Vault) : Vault :=
  mkVault (files v) (<[view := default ∅ (mounts v !! view)]> (mounts v)).
Definition keep_only (view : string) (names : list string) (v : Vault) : Vault :=
  mkVault (files v) (alter (filter (λ p : string * item, p.1 ∈ names)) view (mounts v)).
Definition view_listing (view : string) (v : Vault) : list string :=
  (map_to_list (default ∅ (mounts v !! view))).*1.

Definition sync_view (own : option (Z * Z)) (vn : string * list string) : G unit :=
  _ ← change (mkdir_view vn.1);
  _ ← each (sync_file vn.1) vn.2;
  _ ← change (keep_only vn.1 vn.2);
  names ← read_vault (view_listing vn.1);
  each (λ name, _chown (InView vn.1 name) own) names.

Definition sync_mount_views (own : option (Z * Z)) (datanodes : nat) : G unit :=
  let views := mount_views datanodes in
  missing ← read_vault (λ v, existsb (λ name, negb (exists_top name v)) (concat views.*2));
  if (missing : bool) then raise Uncaught
  else each (sync_view own) views.

(** [main] without [--writable-dir]. *)
Definition main (force : bool) (own : option (Z * Z)) (datanodes : Z) : G unit :=
  if (datanodes <? 1)%Z then raise Exit
  else
    let n := Z.to_nat datanodes in
    _ ← generate force own n;
    _ ← generate_auth_secrets force own;
    sync_mount_views own n.
End secrets.
