(* ===== verification/SecretsProps.v ===== *)
(** What generate_secrets.py guarantees: the certificates it leaves fit together even after
    a run that an exception cut, each role sees its own secrets and no other, and running it
    again changes nothing. *)

From S2P Require Import Prelude Exceptions Paths Crypto BlockToken Addresses ShellWords Tls NodeMain Secrets.
From S2P Require BlockStore.

Local Open Scope nat_scope.

(** The bytes of a file of the secrets directory. *)
Definition text (v : Vault) (name : string) : option string := content <$> files v !! name.
(** The bytes a container reads in its view. *)
Definition mounted (view : string) (v : Vault) (name : string) : option string :=
  match lookup_place (InView view name) v with
  | Some (ItFile f) => Some (content f)
  | _ => None
  end.

#[local] Arguments put : simpl never.
#[local] Arguments unlink : simpl never.

Lemma text_put_top n f v m : text (put (Top n) f v) m = if decide (n = m) then Some (content f) else text v m.
Proof. unfold text, put. simpl. case_decide as E; [subst; by rewrite lookup_insert_eq|by rewrite lookup_insert_ne]. Qed.
Lemma text_put_view a n f v m : text (put (InView a n) f v) m = text v m.
Proof. done. Qed.
Lemma text_unlink_top n v m : text (unlink (Top n) v) m = if decide (n = m) then None else text v m.
Proof. unfold text, unlink. simpl. case_decide as E; [subst; by rewrite lookup_delete_eq|by rewrite lookup_delete_ne]. Qed.

Section props.
Context {RN : Randomness} {XC : X509} (chown_works : bool) (me : Z * Z).

(** * Steps *)

Lemma put_put p f g v : put p f (put p g v) = put p f v.
Proof.
  destruct p as [n|a n]; unfold put; simpl; f_equal; [apply insert_insert_eq|].
  rewrite lookup_insert_eq. simpl. rewrite insert_insert_eq. f_equal. apply insert_insert_eq.
Qed.
Lemma unlink_put p f v : unlink p (put p f v) = unlink p v.
Proof.
  destruct p as [n|a n]; unfold unlink, put; simpl; f_equal; [apply delete_insert_eq|].
  rewrite lookup_insert_eq. simpl. rewrite insert_insert_eq. f_equal. apply delete_insert_eq.
Qed.

(** How a write ends: it did nothing, it put the file there, or the run was cut before it
    or in the middle of it, by an exception or dead. *)
Inductive write_end (p : place) (bytes : string) (md : Z) (r : Run) : Run → result failure bool → Prop :=
| WriteSkips : lookup_place p (vault r) ≠ None → write_end p bytes md r r (Ok false)
| WritePuts o r' : vault r' = put p (mkFile bytes md o) (vault r) → broken r' = broken r → write_end p bytes md r r' (Ok true)
| WriteNotBegun : steps_left r = Some 0 → write_end p bytes md r r (Err Cut)
| WriteInterrupted r' : broken r = Interrupt → vault r' = unlink p (vault r) → broken r' = broken r →
    write_end p bytes md r r' (Err Cut)
| WriteTorn torn o r' : broken r = Killed torn → vault r' = put p (mkFile (String.substring 0 torn bytes) md o) (vault r) →
    broken r' = broken r → write_end p bytes md r r' (Err Cut)
| WriteOnDir : lookup_place p (vault r) = Some ItDir → write_end p bytes md r r (Err Uncaught).

(** The two steps of a write over a file or nothing. *)
Lemma write_steps p bytes md o r r' out :
  (_ ← change (put p (mkFile "" md o)); _ ← fill p bytes md o; mret true) r = (r', out) → write_end p bytes md r r' out.
Proof.
  unfold mbind, M_bind, change, fill. destruct (steps_left r) as [[|[|k]]|] eqn:Hs; cbn.
  - intros [= <- <-]. by apply WriteNotBegun.
  - destruct (broken r) as [|torn] eqn:Hb; cbn; intros [= <- <-].
    + by apply WriteInterrupted; cbn; rewrite ?unlink_put.
    + by apply (WriteTorn _ _ _ _ torn o); cbn; rewrite ?put_put.
  - intros [= <- <-]. by apply (WritePuts _ _ _ _ o); cbn; rewrite ?put_put.
  - intros [= <- <-]. by apply (WritePuts _ _ _ _ o); cbn; rewrite ?put_put.
Qed.
Lemma write_ends p bytes md force r r' out :
  _write me p bytes md force r = (r', out) → write_end p bytes md r r' out.
Proof.
  assert (∀ o, lookup_place p (vault r) = o →
    (_ ← write_file me p bytes md; mret true) r =
    match o with
    | Some ItDir => (r, Err Uncaught)
    | _ => (_ ← change (put p (mkFile "" md (match o with Some (ItFile f) => owner f | _ => me end)));
            _ ← fill p bytes md (match o with Some (ItFile f) => owner f | _ => me end); mret true) r
    end) as Hw.
  { intros o <-. unfold write_file, read_vault, gets, mbind, M_bind. destruct (lookup_place p (vault r)) as [[f|]|]; try done;
      by destruct (change _ r) as [r1 [[]|e]]. }
  unfold _write, read_vault, gets. unfold mbind at 1, M_bind at 1. cbn [fst snd].
  destruct (bool_decide (lookup_place p (vault r) ≠ None) && negb force) eqn:Hskip.
  - apply andb_true_iff in Hskip as [Hin%bool_decide_eq_true _]. intros [= <- <-]. by apply WriteSkips.
  - rewrite (Hw _ eq_refl). destruct (lookup_place p (vault r)) as [[f|]|] eqn:Hl; [apply write_steps| |apply write_steps].
    intros [= <- <-]. by apply WriteOnDir.
Qed.

(** A forced write always writes. *)
Lemma write_forced p bytes md r r' : _write me p bytes md true r = (r', Ok false) → False.
Proof.
  unfold _write, read_vault, gets. unfold mbind at 1, M_bind at 1. cbn. rewrite andb_false_r.
  unfold mbind, M_bind. destruct (write_file me p bytes md r) as [r1 [u|e]]; done.
Qed.

(** * Texts nobody else touches *)

(** [keeps ns r r']: the files [ns] of the directory are as they were, and the end of the
    run is the same. *)
Definition keeps (ns : list string) (r r' : Run) : Prop :=
  broken r' = broken r ∧ ∀ n, n ∈ ns → text (vault r') n = text (vault r) n.
#[global] Instance keeps_preorder ns : PreOrder (keeps ns).
Proof.
  split; [by split|]. intros r1 r2 r3 [B1 H1] [B2 H2]. split; [congruence|]. intros n Hn. rewrite H2, H1; done.
Qed.

Lemma keeps_write ns p bytes md force : (∀ n, p = Top n → n ∉ ns) → moves (keeps ns) (_write me p bytes md force).
Proof.
  intros Hp r. destruct (_write me p bytes md force r) as [r' out] eqn:E. apply write_ends in E. simpl.
  destruct E as [ |o r' Hv Hb| |r' _ Hv Hb|torn o r' _ Hv Hb| ]; try done; (split; [done|]); intros n Hn; rewrite Hv;
    (destruct p as [m|a m]; [|done]); rewrite ?text_put_top, ?text_unlink_top, decide_False; try done; intros ->; by apply (Hp n).
Qed.
Lemma keeps_change ns f : (∀ v n, text (f v) n = text v n) → moves (keeps ns) (change f).
Proof.
  intros Hf r. unfold change. destruct (steps_left r) as [[|k]|]; [by split|..]; (split; [done|]); intros n _; apply Hf.
Qed.
Lemma keeps_chown ns p own : moves (keeps ns) (_chown chown_works p own).
Proof.
  unfold _chown. destruct own as [o|]; [|apply moves_ret, _]. destruct chown_works; [|apply moves_ret, _].
  apply keeps_change. intros v n. destruct p as [m|a m]; simpl.
  - destruct (files v !! m) as [f|] eqn:E; [|done]. simpl. rewrite (text_put_top m (chown_file o f)).
    case_decide as Hm; [|done]. subst. unfold text. by rewrite E.
  - destruct (mounts v !! a ≫= (λ m', m' !! m)) as [[]|]; done.
Qed.
Lemma keeps_draw {A} ns (f : nat → A) : moves (keeps ns) (draw f).
Proof. by intros r. Qed.
Lemma keeps_read {A} ns (f : Vault → A) : moves (keeps ns) (read_vault f).
Proof. by intros r. Qed.
Lemma moves_each {A} (R : relation Run) {PR : PreOrder R} (m : A → G unit) l : (∀ x, x ∈ l → moves R (m x)) → moves R (each m l).
Proof.
  induction l as [|x l IH]; intros H; simpl; [apply moves_ret, _|].
  apply moves_bind; [apply _|apply H; by left|intros _]. apply IH. intros y Hy. apply H. by right.
Qed.
End props.

#[export] Hint Resolve keeps_draw keeps_read keeps_chown : dfs.

(** * The certificates fit together *)

Definition certificate_files : list string := ["ca.crt"; "ca.key"; "node.crt"; "node.key"].

Section certificates.
Context {RN : Randomness} {XC : X509} {XL : X509Laws} (chown_works : bool) (me : Z * Z).

(** The CA is one the script made, and the certificate of the nodes is one it issued from
    it, as far as the files are there. *)
Record paired (v : Vault) : Prop := {
  paired_ca : ∀ crt key, text v "ca.crt" = Some crt → text v "ca.key" = Some key → ∃ k now, generate_ca k now = (crt, key);
  paired_node : ∀ crt key cert nkey, text v "ca.crt" = Some crt → text v "ca.key" = Some key →
    text v "node.crt" = Some cert → text v "node.key" = Some nkey →
    ∃ n now, issue_node_cert crt key n now = Some (cert, nkey)
}.

Lemma paired_keeps r r' : keeps certificate_files r r' → paired (vault r) → paired (vault r').
Proof.
  intros [_ H] [P1 P2]. unfold certificate_files in H. split.
  - intros crt key. rewrite !H by set_solver. apply P1.
  - intros crt key cert nkey. rewrite !H by set_solver. apply P2.
Qed.

(** The files are made in this order: a certificate comes after what it is made of. *)
Record staged (v : Vault) : Prop := {
  staged_ca : is_Some (text v "ca.crt") → is_Some (text v "ca.key");
  staged_key : is_Some (text v "node.key") → is_Some (text v "ca.crt");
  staged_node : is_Some (text v "node.crt") → is_Some (text v "node.key")
}.
Record fits (v : Vault) : Prop := { fits_paired : paired v; fits_staged : staged v }.

Lemma fits_keeps r r' : keeps certificate_files r r' → fits (vault r) → fits (vault r').
Proof.
  intros K [P [S1 S2 S3]]. split; [by eapply paired_keeps|]. destruct K as [_ H]. unfold certificate_files in H.
  split; rewrite !H by set_solver; done.
Qed.

(** A write: it ends, with the file there, or it is cut, and by an exception the file is as
    it was or gone. *)
Lemma write_cut n bytes md r r' out :
  _write me (Top n) bytes md true r = (r', out) →
  broken r' = broken r ∧
  (out = Ok true ∧ (∀ m, text (vault r') m = if decide (n = m) then Some bytes else text (vault r) m)
   ∨ out = Err Cut ∧ (broken r = Interrupt → ∀ m, text (vault r') m = text (vault r) m ∨ n = m ∧ text (vault r') m = None)).
Proof.
  intros Hw. pose proof (write_ends _ _ _ _ _ _ _ _ Hw) as E. destruct E as [ |o r' Hv Hb'|Hs|r' Hp Hv Hb'|torn o r' Hp Hv Hb'|Hd].
  - by apply write_forced in Hw.
  - split; [done|left]. split; [done|]. intros m. by rewrite Hv, text_put_top.
  - split; [done|right]. split; [done|]. by left.
  - split; [done|right]. split; [done|]. intros _ m. rewrite Hv, text_unlink_top. case_decide; [by right|by left].
  - split; [done|right]. split; [done|]. congruence.
  - simpl in Hd. by destruct (files (vault r) !! n).
Qed.

(** The renewal of the CA: an exception leaves a part of it at most, over no certificate. *)
Lemma renew_ca_ok b r r' : renew_ca me b r = (r', Ok tt) →
  broken r' = broken r ∧
  if b then (∃ k now, text (vault r') "ca.crt" = Some (generate_ca k now).1 ∧ text (vault r') "ca.key" = Some (generate_ca k now).2)
            ∧ ∀ n, n ∈ ["node.crt"; "node.key"] → text (vault r') n = text (vault r) n
  else r' = r.
Proof.
  unfold renew_ca. destruct b; [|by intros [= <-]]. unfold mbind, M_bind, gets, draw. cbn [fst snd].
  set (ca := generate_ca (draws r) (clock r)). set (r0 := mkRun _ _ _ _ _).
  destruct (_write me (Top "ca.key") ca.2 PRIVATE true r0) as [r1 o1] eqn:W1.
  apply write_cut in W1 as (B1 & [[-> T1]|[-> _]]); [|done].
  destruct (_write me (Top "ca.crt") ca.1 PUBLIC true r1) as [r2 o2] eqn:W2.
  apply write_cut in W2 as (B2 & [[-> T2]|[-> _]]); [|done].
  intros [= <-]. split; [by rewrite B2, B1|]. split.
  - exists (draws r), (clock r). rewrite !T2, !T1. done.
  - intros n Hn. rewrite T2, T1. rewrite !decide_False; [done|..]; intros <-; set_solver.
Qed.
Lemma renew_ca_cut b r r' e : broken r = Interrupt → renew_ca me b r = (r', Err e) → fits (vault r) →
  text (vault r) "ca.crt" = None ∨ text (vault r) "ca.key" = None → fits (vault r').
Proof.
  intros Hb. unfold renew_ca. destruct b; [|done]. unfold mbind, M_bind, gets, draw. cbn [fst snd].
  set (ca := generate_ca (draws r) (clock r)). set (r0 := mkRun _ _ _ _ _). intros H [P [S1 S2 S3]] Hmiss.
  assert (text (vault r) "ca.crt" = None) as Ncrt.
  { destruct Hmiss as [?|Hk]; [done|]. apply eq_None_not_Some. intros [? Hk']%S1. congruence. }
  assert (text (vault r) "node.key" = None) as Nkey by (apply eq_None_not_Some; intros [? ?]%S2; congruence).
  assert (text (vault r) "node.crt" = None) as Nnode by (apply eq_None_not_Some; intros [? ?]%S3; congruence).
  assert (∀ v, text v "ca.crt" = None → text v "node.key" = None → text v "node.crt" = None → fits v) as Hfit.
  { intros v E1 E2 E3. split; split; rewrite ?E1, ?E2, ?E3; try done; by intros [? [=]]. }
  destruct (_write me (Top "ca.key") ca.2 PRIVATE true r0) as [r1 o1] eqn:W1.
  apply write_cut in W1 as (B1 & [[-> T1]|[-> T1]]).
  2: { injection H as <- <-. specialize (T1 Hb).
       apply Hfit; [destruct (T1 "ca.crt") as [->|[[=] _]]|destruct (T1 "node.key") as [->|[[=] _]]|destruct (T1 "node.crt") as [->|[[=] _]]]; done. }
  destruct (_write me (Top "ca.crt") ca.1 PUBLIC true r1) as [r2 o2] eqn:W2.
  apply write_cut in W2 as (B2 & [[-> T2]|[-> T2]]); [done|].
  injection H as <- <-. assert (broken r1 = Interrupt) as Hb1 by (rewrite B1; done). specialize (T2 Hb1).
  apply Hfit.
  - destruct (T2 "ca.crt") as [->|[_ ->]]; [by rewrite T1|done].
  - destruct (T2 "node.key") as [->|[_ ->]]; [by rewrite T1|done].
  - destruct (T2 "node.crt") as [->|[_ ->]]; [by rewrite T1|done].
Qed.

Lemma read_top_run name r r' out : read_top name r = (r', out) →
  r' = r ∧ out = match text (vault r) name with Some t => Ok t | None => Err Uncaught end.
Proof.
  unfold read_top, read_vault, gets, mbind, M_bind, text. destruct (files (vault r) !! name); simpl; by intros [= <- <-].
Qed.

(** The renewal of the certificate of the nodes, from a CA the script made. *)
Definition made_ca (v : Vault) : Prop :=
  ∃ k now, text v "ca.crt" = Some (generate_ca k now).1 ∧ text v "ca.key" = Some (generate_ca k now).2.
Lemma made_fits v : made_ca v → (text v "node.crt" = None) → fits v.
Proof.
  intros (k & now & Hcrt & Hkey) Hn. split; split; rewrite ?Hcrt, ?Hkey, ?Hn; try done; try (by intros [? [=]]).
  intros crt key [= <-] [= <-]. by exists k, now.
Qed.
Lemma renew_node_cut r r' e : broken r = Interrupt → made_ca (vault r) → text (vault r) "node.crt" = None →
  renew_node me true r = (r', Err e) → fits (vault r').
Proof.
  intros Hb Hca Hn. pose proof Hca as (k & now & Hcrt & Hkey). unfold renew_node, mbind, M_bind, gets, draw.
  destruct (read_top "ca.crt" r) as [ra oa] eqn:Ra. apply read_top_run in Ra as [-> ->]. rewrite Hcrt.
  destruct (read_top "ca.key" r) as [rb ob] eqn:Rb. apply read_top_run in Rb as [-> ->]. rewrite Hkey.
  cbn [fst snd]. set (r0 := mkRun _ _ _ _ _).
  assert (∀ v, text v "ca.crt" = text (vault r) "ca.crt" → text v "ca.key" = text (vault r) "ca.key" →
    text v "node.crt" = None → fits v) as Hfit.
  { intros v E1 E2 E3. apply made_fits; [|done]. exists k, now. by rewrite E1, E2. }
  destruct (issue_node_cert (generate_ca k now).1 (generate_ca k now).2 (draws r) (clock r)) as [[cert nkey]|].
  2: { intros [= <- _]. by apply Hfit. }
  destruct (_write me (Top "node.key") nkey PRIVATE true r0) as [r1 o1] eqn:W1.
  apply write_cut in W1 as (B1 & [[-> T1]|[-> T1]]).
  2: { intros [= <- _]. specialize (T1 Hb).
       apply Hfit; [destruct (T1 "ca.crt") as [->|[[=] _]]|destruct (T1 "ca.key") as [->|[[=] _]]|destruct (T1 "node.crt") as [->|[[=] _]]]; done. }
  destruct (_write me (Top "node.crt") cert PUBLIC true r1) as [r2 o2] eqn:W2.
  apply write_cut in W2 as (B2 & [[-> T2]|[-> T2]]); [done|]. intros [= <- _].
  assert (broken r1 = Interrupt) as Hb1 by (rewrite B1; done). specialize (T2 Hb1). apply Hfit.
  - destruct (T2 "ca.crt") as [->|[[=] _]]. by rewrite T1.
  - destruct (T2 "ca.key") as [->|[[=] _]]. by rewrite T1.
  - destruct (T2 "node.crt") as [->|[_ ->]]; [by rewrite T1|done].
Qed.
Lemma renew_node_ok b r r' : renew_node me b r = (r', Ok tt) → made_ca (vault r) →
  broken r' = broken r ∧ if b then made_ca (vault r') ∧ fits (vault r') ∧ ∀ name, name ∈ certificate_files → is_Some (text (vault r') name) else r' = r.
Proof.
  intros H (k & now & Hcrt & Hkey). revert H. unfold renew_node. destruct b; [|by intros [= <-]]. unfold mbind, M_bind, gets, draw.
  destruct (read_top "ca.crt" r) as [ra oa] eqn:Ra. apply read_top_run in Ra as [-> ->]. rewrite Hcrt.
  destruct (read_top "ca.key" r) as [rb ob] eqn:Rb. apply read_top_run in Rb as [-> ->]. rewrite Hkey.
  cbn [fst snd]. set (r0 := mkRun _ _ _ _ _).
  destruct (issue_node_cert (generate_ca k now).1 (generate_ca k now).2 (draws r) (clock r)) as [[cert nkey]|] eqn:Hi; [|done].
  destruct (_write me (Top "node.key") nkey PRIVATE true r0) as [r1 o1] eqn:W1.
  apply write_cut in W1 as (B1 & [[-> T1]|[-> _]]); [|done].
  destruct (_write me (Top "node.crt") cert PUBLIC true r1) as [r2 o2] eqn:W2.
  apply write_cut in W2 as (B2 & [[-> T2]|[-> _]]); [|done]. intros [= <-]. split; [by rewrite B2, B1|].
  assert (text (vault r2) "ca.crt" = Some (generate_ca k now).1 ∧ text (vault r2) "ca.key" = Some (generate_ca k now).2
    ∧ text (vault r2) "node.crt" = Some cert ∧ text (vault r2) "node.key" = Some nkey) as (E1 & E2 & E3 & E4)
    by (rewrite !T2, !T1; cbn; done).
  split; [by exists k, now|]. split.
  - split; split; rewrite ?E1, ?E2, ?E3, ?E4; try done.
    + intros crt key [= <-] [= <-]. by exists k, now.
    + intros crt key cert' nkey' [= <-] [= <-] [= <-] [= <-]. eauto.
  - intros name. unfold certificate_files. intros Hn.
    repeat (apply elem_of_cons in Hn as [->|Hn]; [rewrite ?E1, ?E2, ?E3, ?E4; eauto|]). by apply not_elem_of_nil in Hn.
Qed.

Lemma bind_cases {A B} (m : G A) (k : A → G B) r r' out : (a ← m; k a) r = (r', out) →
  (∃ e, m r = (r', Err e) ∧ out = Err e) ∨ ∃ a r1, m r = (r1, Ok a) ∧ k a r1 = (r', out).
Proof. unfold mbind, M_bind. destruct (m r) as [r1 [a|e]]; [eauto|]. intros [= <- <-]. eauto. Qed.

Lemma read_bind {A B} (f : Vault → A) (k : A → G B) r : (a ← read_vault f; k a) r = k (f (vault r)) r.
Proof. done. Qed.

Lemma key_name_other i : key_name i ∉ certificate_files.
Proof. unfold certificate_files, key_name, dn_name. intros H. repeat (apply elem_of_cons in H as [H|H]; [discriminate H|]). by apply not_elem_of_nil in H. Qed.

Lemma keeps_top_write ns n bytes md force : n ∉ ns → moves (keeps ns) (_write me (Top n) bytes md force).
Proof. intros Hn. apply keeps_write. by intros m [= ->]. Qed.
Lemma keeps_view_write ns a n bytes md force : moves (keeps ns) (_write me (InView a n) bytes md force).
Proof. by apply keeps_write. Qed.

Ltac keeps_steps :=
  repeat first
    [ apply keeps_view_write
    | (apply keeps_top_write; solve [apply key_name_other | unfold certificate_files; set_solver])
    | apply moves_bind; [apply _| |intros ?]
    | apply keeps_draw | apply keeps_read | apply keeps_chown
    | (apply moves_ret; apply _) | (apply moves_raise; apply _)
    | match goal with |- moves _ (match ?x with _ => _ end) => destruct x end ].

Lemma keeps_first force n : moves (keeps certificate_files) (first_secrets me force n).
Proof. unfold first_secrets. keeps_steps. apply moves_each; [apply _|]. intros i _. keeps_steps. Qed.
Lemma keeps_auth force own : moves (keeps certificate_files) (generate_auth_secrets chown_works me force own).
Proof. unfold generate_auth_secrets. keeps_steps. Qed.
Lemma sync_keeps ns own n : moves (keeps ns) (sync_mount_views chown_works me own n).
Proof.
  unfold sync_mount_views. keeps_steps. apply moves_each; [apply _|]. intros [view names] _.
  unfold sync_view, sync_file. keeps_steps.
  - by apply keeps_change.
  - apply moves_each; [apply _|]. intros name _. keeps_steps.
  - by apply keeps_change.
  - apply moves_each; [apply _|]. intros name _. apply keeps_chown.
Qed.

Lemma exists_text name v : exists_top name v = true ↔ is_Some (text v name).
Proof. unfold exists_top, text. rewrite bool_decide_eq_true, fmap_is_Some. apply not_eq_None_Some. Qed.

Lemma exists_none name v : exists_top name v = false → text v name = None.
Proof. intros H. apply eq_None_not_Some. intros Hs%exists_text. congruence. Qed.

(** [generate] cut by an exception, without [--force]. *)
Lemma generate_cut own n r r' e : fits (vault r) → broken r = Interrupt →
  generate chown_works me false own n r = (r', Err e) → fits (vault r').
Proof.
  intros Hf Hb H. unfold generate in H. apply bind_cases in H as [(e' & H & _)|([] & r1 & H1 & H)].
  { eapply fits_keeps; [|done]. exact (moves_inv _ _ _ _ _ (keeps_first false n) H). }
  pose proof (moves_inv _ _ _ _ _ (keeps_first false n) H1) as K1.
  assert (broken r1 = Interrupt) as B1 by (by rewrite (proj1 K1)). pose proof (fits_keeps _ _ K1 Hf) as F1. clear Hf Hb H1 K1 r.
  rewrite read_bind in H. set (new_ca := false || _ || _) in H. apply bind_cases in H as [(e' & H & _)|([] & r2 & H2 & H)].
  { destruct new_ca eqn:E; [|done]. eapply renew_ca_cut; [done|done|done|]. unfold new_ca in E. simpl in E.
    apply orb_true_iff in E as [E|E]; [left|right]; by apply exists_none, negb_true_iff. }
  apply renew_ca_ok in H2 as [B2 P2]. rewrite read_bind in H. set (new_node := new_ca || _ || _) in H.
  assert (made_ca (vault r2) ∧ (text (vault r2) "node.crt" = None ∨ r2 = r1)) as [Hca Hnode].
  { destruct new_ca eqn:E.
    - destruct P2 as [Hca Hsame]. split; [done|]. left. rewrite Hsame by set_solver. unfold new_ca in E. simpl in E.
      destruct F1 as [_ [S1 S2 S3]]. apply eq_None_not_Some. intros Hs. apply S3, S2 in Hs as Hcrt. apply S1 in Hcrt as Hkey.
      apply exists_text in Hcrt, Hkey. by rewrite Hcrt, Hkey in E.
    - split; [|by right]. subst r2. unfold new_ca in E. simpl in E.
      apply orb_false_iff in E as [E1%negb_false_iff E2%negb_false_iff]. apply exists_text in E1 as [crt Hcrt], E2 as [key Hkey].
      destruct (paired_ca _ (fits_paired _ F1) crt key Hcrt Hkey) as (k & now & Hk). exists k, now. by rewrite Hk. }
  apply bind_cases in H as [(e' & H & _)|([] & r3 & H3 & H)].
  { destruct new_node eqn:E; [|done]. eapply renew_node_cut; [by rewrite B2|done| |done]. destruct Hnode as [?| ->]; [done|].
    apply eq_None_not_Some. intros Hs. pose proof (staged_node _ (fits_staged _ F1) Hs) as Hk. apply exists_text in Hs, Hk.
    unfold new_node in E. rewrite Hs, Hk in E. simpl in E. rewrite !orb_false_r in E. rewrite E in P2.
    destruct P2 as [_ Hsame]. unfold new_ca in E. simpl in E.
    destruct F1 as [_ [S1 S2 S3]]. apply exists_text in Hk as Hk'. apply S2 in Hk' as Hcrt. apply S1 in Hcrt as Hkey.
    apply exists_text in Hcrt, Hkey. by rewrite Hcrt, Hkey in E. }
  assert (fits (vault r3)) as F3.
  { destruct new_node eqn:E; [apply renew_node_ok in H3 as (_ & _ & F & _); done|]. injection H3 as <-.
    destruct Hnode as [Hn| ->]; [|done]. by apply made_fits. }
  eapply fits_keeps; [|exact F3].
  assert (moves (keeps certificate_files) (names ← read_vault listing; each (λ name, _chown chown_works (Top name) own) names)) as Hm.
  { keeps_steps. apply moves_each; [apply _|]. intros name _. apply keeps_chown. }
  exact (moves_inv _ _ _ _ _ Hm H).
Qed.

(** [generate] to its end. *)
Lemma generate_ok force own n r r' : generate chown_works me force own n r = (r', Ok tt) →
  force = true ∨ paired (vault r) →
  broken r' = broken r ∧ paired (vault r') ∧ (∀ name, name ∈ certificate_files → is_Some (text (vault r') name))
  ∧ (fits (vault r) → fits (vault r')).
Proof.
  intros H Hp. unfold generate in H. apply bind_ok_inv in H as (r1 & [] & H1 & H).
  pose proof (moves_inv _ _ _ _ _ (keeps_first force n) H1) as K1.
  rewrite read_bind in H. set (new_ca := force || _ || _) in H. apply bind_ok_inv in H as (r2 & [] & H2 & H).
  apply renew_ca_ok in H2 as [B2 P2]. rewrite read_bind in H. set (new_node := new_ca || _ || _) in H.
  assert (new_ca = false → r2 = r1 ∧ paired (vault r1) ∧ is_Some (text (vault r1) "ca.crt") ∧ is_Some (text (vault r1) "ca.key")) as Hold.
  { intros E. rewrite E in P2. split; [done|]. unfold new_ca in E.
    apply orb_false_iff in E as [[Ef E1%negb_false_iff]%orb_false_iff E2%negb_false_iff]. subst force.
    split; [|by rewrite <-!exists_text]. destruct Hp as [?|Hp]; [done|]. by eapply paired_keeps. }
  assert (made_ca (vault r2)) as Hca.
  { destruct new_ca eqn:E; [apply P2|]. destruct (Hold eq_refl) as (-> & Hpr & [crt Hcrt] & [key Hkey]).
    destruct (paired_ca _ Hpr crt key Hcrt Hkey) as (k & now & Hk). exists k, now. by rewrite Hk. }
  apply bind_ok_inv in H as (r3 & [] & H3 & H). apply renew_node_ok in H3 as [B3 P3]; [|done].
  assert (moves (keeps certificate_files) (names ← read_vault listing; each (λ name, _chown chown_works (Top name) own) names)) as Hm.
  { keeps_steps. apply moves_each; [apply _|]. intros name _. apply keeps_chown. }
  pose proof (moves_inv _ _ _ _ _ Hm H) as K. split; [by rewrite (proj1 K), B3, B2, (proj1 K1)|].
  assert (paired (vault r3) ∧ (∀ name, name ∈ certificate_files → is_Some (text (vault r3) name)) ∧ (fits (vault r1) → fits (vault r3))) as (P & A & F).
  { destruct new_node eqn:E; [destruct P3 as (_ & F & A); by split_and!; [apply F|..]|]. subst r3. unfold new_node in E.
    apply orb_false_iff in E as [[E E1%negb_false_iff]%orb_false_iff E2%negb_false_iff].
    destruct (Hold E) as (-> & Hpr & Hcrt & Hkey). split_and!; [done| |done]. apply exists_text in E1, E2.
    intros name. unfold certificate_files. intros Hn. repeat (apply elem_of_cons in Hn as [->|Hn]; [done|]). by apply not_elem_of_nil in Hn. }
  split_and!; [by eapply paired_keeps| |].
  - intros name Hn. rewrite (proj2 K name Hn). by apply A.
  - intros Hf. eapply fits_keeps; [exact K|]. by eapply F, fits_keeps.
Qed.

(** A complete pair, as its loaders read it. *)
Lemma accepted_pair v : paired v → (∀ name, name ∈ certificate_files → is_Some (text v name)) →
  ∃ crt key cert nkey ca c n,
    text v "ca.crt" = Some crt ∧ text v "ca.key" = Some key ∧ text v "node.crt" = Some cert ∧ text v "node.key" = Some nkey
    ∧ load_pem_x509_certificate crt = Some ca ∧ load_pem_x509_certificate cert = Some c ∧ accepts ca c
    ∧ load_pem_private_key nkey = Some (ec_key n) ∧ cert_public_key c = public_key (ec_key n).
Proof.
  intros P A.
  destruct (A "ca.crt") as [crt Hcrt]; [unfold certificate_files; set_solver|].
  destruct (A "ca.key") as [key Hkey]; [unfold certificate_files; set_solver|].
  destruct (A "node.crt") as [cert Hcert]; [unfold certificate_files; set_solver|].
  destruct (A "node.key") as [nkey Hnkey]; [unfold certificate_files; set_solver|].
  destruct (paired_ca _ P _ _ Hcrt Hkey) as (k & now & Hk).
  destruct (paired_node _ P _ _ _ _ Hcrt Hkey Hcert Hnkey) as (n & now' & Hi).
  assert (crt = (generate_ca k now).1 ∧ key = (generate_ca k now).2) as [-> ->] by (by rewrite Hk).
  apply issued_is_accepted in Hi as (ca & c & H1' & H2' & H3' & H4' & H5').
  exists (generate_ca k now).1, (generate_ca k now).2, cert, nkey, ca, c, n. done.
Qed.

(** C37. The certificates fit together.  A run without [--force] that an exception cuts at any
    point (Ctrl-C, a full disk), over what such runs left, leaves files that fit: the
    certificate of the nodes, if it is there, was issued by the CA that is there, and no
    file is there without those it was made from, so that the next run makes what is
    missing.  And a run that ends, forced or over such files, leaves a CA and a certificate
    it accepts under the fixed name, with the key of that certificate.  (Not so one that
    is killed, or cut while it replaces everything: [stale_certificate_stays].  An exception
    in the [os.open] of a write counts as one just after it.) *)
Theorem certificates_survive_interrupts force own datanodes r r' out :
  main chown_works me force own datanodes r = (r', out) →
  (force = false → broken r = Interrupt → fits (vault r) → fits (vault r')) ∧
  (out = Ok tt → force = true ∨ paired (vault r) → ∃ crt key cert nkey ca c n,
     text (vault r') "ca.crt" = Some crt ∧ text (vault r') "ca.key" = Some key
     ∧ text (vault r') "node.crt" = Some cert ∧ text (vault r') "node.key" = Some nkey
     ∧ load_pem_x509_certificate crt = Some ca ∧ load_pem_x509_certificate cert = Some c ∧ accepts ca c
     ∧ load_pem_private_key nkey = Some (ec_key n) ∧ cert_public_key c = public_key (ec_key n)).
Proof.
  unfold main. case_match eqn:Hd; [by intros [= <- <-]|]. intros H.
  apply bind_cases in H as [(e & H & ->)|([] & r1 & H1 & H)].
  { split; [|done]. intros -> Hb Hf. by eapply generate_cut. }
  assert (moves (keeps certificate_files)
    (_ ← generate_auth_secrets chown_works me force own; sync_mount_views chown_works me own (Z.to_nat datanodes))) as Hm.
  { apply moves_bind; [apply _|apply keeps_auth|intros _; apply sync_keeps]. }
  pose proof (moves_inv _ _ _ _ _ Hm H) as K. split.
  { intros -> Hb Hf. eapply fits_keeps; [exact K|]. eapply generate_ok; [done|right; apply Hf|done]. }
  intros _ Hp. destruct (generate_ok _ _ _ _ _ H1 Hp) as (_ & P1 & A1 & _). eapply accepted_pair; [by eapply paired_keeps|].
  intros name Hn. rewrite (proj2 K name Hn). by apply A1.
Qed.
End certificates.

(** * The views *)

(** What a place holds: the bytes of a file, or a directory. *)
Definition holds (p : place) (v : Vault) : option (option string) :=
  (λ it, match it with ItFile f => Some (content f) | ItDir => None end) <$> lookup_place p v.

(** A view has exactly its files, as they are in the secrets directory. *)
Definition exact_view (view : string) (names : list string) (v : Vault) : Prop :=
  ∀ name, holds (InView view name) v = if decide (name ∈ names) then Some <$> text v name else None.

Section views.
Context {RN : Randomness} {XC : X509} (chown_works : bool) (me : Z * Z).

Lemma holds_put_view a n f v b m :
  holds (InView b m) (put (InView a n) f v) = if decide (a = b ∧ n = m) then Some (Some (content f)) else holds (InView b m) v.
Proof.
  unfold holds, put. simpl. destruct (decide (a = b)) as [->|Ha].
  - rewrite lookup_insert_eq. simpl. destruct (decide (n = m)) as [->|Hn].
    + rewrite lookup_insert_eq. by rewrite decide_True.
    + rewrite lookup_insert_ne, decide_False by naive_solver. by destruct (mounts v !! b).
  - by rewrite lookup_insert_ne, decide_False by naive_solver.
Qed.

(** Two runs whose files hold the same bytes everywhere. *)
Definition same_bytes (r r' : Run) : Prop := ∀ p, holds p (vault r') = holds p (vault r).
#[local] Instance same_bytes_preorder : PreOrder same_bytes.
Proof. split; [by intros r p|]. intros r1 r2 r3 H1 H2 p. by rewrite H2, H1. Qed.

Lemma holds_text v n : holds (Top n) v = Some <$> text v n.
Proof. unfold holds, text. simpl. by destruct (files v !! n). Qed.
Lemma same_bytes_text r r' n : same_bytes r r' → text (vault r') n = text (vault r) n.
Proof.
  intros H. specialize (H (Top n)). rewrite !holds_text in H.
  by destruct (text (vault r') n), (text (vault r) n); simplify_eq/=.
Qed.

Lemma change_run f r r' out : change f r = (r', out) →
  out = Err Cut ∧ r' = r ∨ out = Ok tt ∧ vault r' = f (vault r) ∧ steps_left r' = pred <$> steps_left r.
Proof. unfold change. destruct (steps_left r) as [[|k]|] eqn:Hs; intros [= <- <-]; [by left|by right..]. Qed.

Lemma chown_same_bytes p own : moves same_bytes (_chown chown_works p own).
Proof.
  unfold _chown. destruct own as [o|]; [|apply moves_ret, _]. destruct chown_works; [|apply moves_ret, _].
  intros r q. destruct (change _ r) as [r' out] eqn:Hc. apply change_run in Hc as [[_ ->]|(_ & Hv & _)]; [done|]. cbn [fst]. rewrite Hv. clear Hv.
  destruct (lookup_place p (vault r)) as [[f|]|] eqn:E; [|done..].
  destruct p as [m|a m], q as [m'|a' m']; try done.
  - rewrite !holds_text, text_put_top. case_decide; [|done]. subst. simpl in E. unfold text.
    destruct (files (vault r) !! m'); by simplify_eq/=.
  - rewrite holds_put_view. case_decide as Hd; [|done]. destruct Hd as [-> ->]. unfold holds. by rewrite E.
Qed.

(** A loop that returns has done every turn, when no turn undoes another. *)
Lemma each_ok {A} (I : Run → Prop) (P : A → Run → Prop) (m : A → G unit) l r r' :
  (∀ x r r', x ∈ l → m x r = (r', Ok tt) → I r → I r' ∧ P x r') →
  (∀ x y r r', x ∈ l → y ∈ l → m y r = (r', Ok tt) → I r → P x r → P x r') →
  each m l r = (r', Ok tt) → I r → I r' ∧ ∀ x, x ∈ l → P x r'.
Proof.
  intros Hm Hk. cut (∀ done_ l', (∀ x, x ∈ done_ → x ∈ l ∧ P x r) → (∀ x, x ∈ l' → x ∈ l) → each m l' r = (r', Ok tt) → I r →
    I r' ∧ ∀ x, x ∈ done_ ++ l' → P x r').
  { intros Hcut H HI. apply (Hcut [] l); [by intros x Hx%not_elem_of_nil|done|done|done]. }
  intros done_ l'. revert done_ r. induction l' as [|y l' IH]; intros done_ r Hdone Hl H HI.
  - injection H as <-. split; [done|]. intros x. rewrite app_nil_r. intros Hx. by apply Hdone.
  - simpl in H. apply bind_ok_inv in H as (r1 & [] & H1 & H). assert (y ∈ l) as Hy by (apply Hl; by left).
    destruct (Hm y r r1 Hy H1 HI) as [HI1 HP]. rewrite cons_middle, app_assoc. apply (IH (done_ ++ [y]) r1); [|by intros x Hx; apply Hl; right|done|done].
    intros x [Hx|Hx%list_elem_of_singleton]%elem_of_app; [|by subst].
    destruct (Hdone x Hx) as [Hxl HPx]. split; [done|]. by apply (Hk x y r r1).
Qed.
(** One file of a view. *)
Lemma sync_file_ok view name r r' :
  sync_file me view name r = (r', Ok tt) →
  (∀ n, text (vault r') n = text (vault r) n)
  ∧ holds (InView view name) (vault r') = Some <$> text (vault r) name ∧ is_Some (text (vault r) name)
  ∧ ∀ b m, (b, m) ≠ (view, name) → holds (InView b m) (vault r') = holds (InView b m) (vault r).
Proof.
  unfold sync_file. rewrite read_bind. destruct (files (vault r) !! name) as [f|] eqn:Hf; [|done].
  assert (text (vault r) name = Some (content f)) as Ht by (unfold text; by rewrite Hf).
  assert (∀ md r'', (_ ← _write me (InView view name) (content f) md true; mret tt) r = (r'', Ok tt) →
    (∀ n, text (vault r'') n = text (vault r) n) ∧ holds (InView view name) (vault r'') = Some <$> text (vault r) name
    ∧ is_Some (text (vault r) name) ∧ ∀ b m, (b, m) ≠ (view, name) → holds (InView b m) (vault r'') = holds (InView b m) (vault r)) as Hw.
  { intros md r'' (r1 & b & Hw & H)%bind_ok_inv. injection H as <-. pose proof (write_ends _ _ _ _ _ _ _ _ Hw) as E.
    inversion E as [ |o r1' Hv| | | | ]; subst; [by apply write_forced in Hw|].
    rewrite Hv, Ht. split_and!; [intros n; apply text_put_view| |done|].
    - by rewrite holds_put_view, decide_True.
    - intros b m Hne. rewrite holds_put_view, decide_False; [done|]. intros [-> ->]. done. }
  rewrite read_bind. destruct (lookup_place (InView view name) (vault r)) as [[g|]|] eqn:Hl; try apply Hw.
  destruct (decide (content g = content f)) as [He|He]; [|apply Hw].
  intros [= <-]. split_and!; [done| |by rewrite Ht|done]. unfold holds. rewrite Hl, Ht. simpl. by rewrite He.
Qed.

Lemma holds_mkdir a b m v : holds (InView b m) (mkdir_view a v) = holds (InView b m) v.
Proof.
  unfold holds, mkdir_view. simpl. destruct (decide (a = b)) as [->|]; [|by rewrite lookup_insert_ne].
  rewrite lookup_insert_eq. simpl. destruct (mounts v !! b); simpl; [done|]. by rewrite lookup_empty.
Qed.
Lemma holds_keep_only a ns b m v :
  holds (InView b m) (keep_only a ns v) = if decide (a = b ∧ m ∉ ns) then None else holds (InView b m) v.
Proof.
  unfold holds, keep_only. simpl. destruct (decide (a = b)) as [->|].
  - rewrite lookup_alter_eq. destruct (mounts v !! b) as [mp|]; simpl; [|by case_decide].
    rewrite map_lookup_filter. destruct (decide (m ∈ ns)).
    + rewrite decide_False by naive_solver. destruct (mp !! m); simpl; [|done]. by rewrite option_guard_True.
    + rewrite decide_True by done. destruct (mp !! m); simpl; [|done]. by rewrite option_guard_False.
  - rewrite lookup_alter_ne by done. by rewrite decide_False by naive_solver.
Qed.

(** One view: it is exact then, and nothing else has changed. *)
Lemma sync_view_ok own view names r r' :
  sync_view chown_works me own (view, names) r = (r', Ok tt) →
  (∀ n, text (vault r') n = text (vault r) n) ∧ exact_view view names (vault r')
  ∧ (∀ name, name ∈ names → is_Some (text (vault r) name))
  ∧ ∀ b m, b ≠ view → holds (InView b m) (vault r') = holds (InView b m) (vault r).
Proof.
  unfold sync_view. cbn [fst snd]. intros (r1 & [] & [[[=] _]|(_ & V1 & _)]%change_run & H)%bind_ok_inv.
  apply bind_ok_inv in H as (r2 & [] & H2 & H). apply bind_ok_inv in H as (r3 & [] & [[[=] _]|(_ & V3 & _)]%change_run & H).
  rewrite read_bind in H.
  apply (each_ok (λ s, (∀ n, text (vault s) n = text (vault r) n) ∧ ∀ b m, b ≠ view → holds (InView b m) (vault s) = holds (InView b m) (vault r))
    (λ name s, holds (InView view name) (vault s) = Some <$> text (vault r) name ∧ is_Some (text (vault r) name))) in H2 as [[T2 O2] P2].
  - assert (moves same_bytes (each (λ name, _chown chown_works (InView view name) own) (view_listing view (vault r3)))) as Hch.
    { apply moves_each; [apply _|]. intros x _. apply chown_same_bytes. }
    pose proof (moves_inv _ _ _ _ _ Hch H) as K.
    split_and!.
    + intros n. rewrite (same_bytes_text _ _ _ K), V3. apply T2.
    + intros name. rewrite (K (InView view name)), (same_bytes_text _ _ _ K), V3.
      rewrite holds_keep_only. destruct (decide (name ∈ names)) as [Hn|Hn].
      * rewrite decide_False by naive_solver. destruct (P2 name Hn) as [-> _].
        by rewrite <-T2.
      * by rewrite decide_True.
    + intros name Hn. by apply P2.
    + intros b m Hb. rewrite (K (InView b m)), V3, holds_keep_only, decide_False by naive_solver.
      by apply O2.
  - intros name s s' Hn Hs [T O]. apply sync_file_ok in Hs as (T' & Hh & Hsome & O'). split; [split|].
    + intros n. by rewrite T'.
    + intros b m Hb. rewrite O' by naive_solver. by apply O.
    + by rewrite Hh, T, <-T.
  - intros name name' s s' _ _ Hs [T O] [Hp Hsome]. apply sync_file_ok in Hs as (T' & Hh & _ & O'). split; [|done].
    destruct (decide (name = name')) as [->|Hne]; [by rewrite Hh, T|]. rewrite O' by naive_solver. done.
  - rewrite V1. split; [done|]. intros b m _. apply holds_mkdir.
Qed.

(** ** Which view has what *)

Lemma dn_name_inj i j : dn_name i = dn_name j → i = j.
Proof.
  unfold dn_name. rewrite !append_cons, !append_nil_l. intros [= H].
  pose proof (proj2 (str_of_Z_char (Z.of_nat i) ltac:(lia))) as Hi. rewrite H in Hi.
  rewrite (proj2 (str_of_Z_char (Z.of_nat j) ltac:(lia))) in Hi. injection Hi. lia.
Qed.
Lemma key_name_inj i j : key_name i = key_name j → i = j.
Proof. intros H%append_cancel_r. by apply dn_name_inj. Qed.

(** What a DataNode reads. *)
Definition datanode_files (i : nat) : list string := _NODE_TLS ++ [key_name i; "capability.key"].
Definition control_files : list string := _NODE_TLS ++ "raft.password" :: _AUTH_SECRETS.

(** The roles of a cluster of [n] DataNodes. *)
Inductive role (n : nat) : string → list string → Prop :=
| DataNodeRole i : 1 ≤ i ≤ n → role n (dn_name i) (datanode_files i)
| ControlRole : role n "control" control_files
| ClientRole : role n "client" ["ca.crt"]
| InspectRole : role n "inspect" ["ca.crt"; "admin.password"].

Lemma in_mount_views n view names : (view, names) ∈ mount_views n ↔ role n view names.
Proof.
  unfold mount_views, datanode_numbers. rewrite elem_of_app, list_elem_of_fmap. split.
  - intros [(i & [= -> ->] & Hi%elem_of_seq)|H].
    + apply DataNodeRole. lia.
    + repeat (apply elem_of_cons in H as [[= -> ->]|H]; [constructor|]). by apply not_elem_of_nil in H.
  - intros [i Hi| | |]; [left|right..].
    + exists i. split; [done|]. apply elem_of_seq. lia.
    + by left.
    + right. by left.
    + right. right. by left.
Qed.

(** A view has one list of files. *)
Lemma role_unique n view names names' : role n view names → role n view names' → names = names'.
Proof.
  intros H H'. remember view as view' eqn:E in H'. destruct H, H'; try done; try discriminate E. by apply dn_name_inj in E as ->.
Qed.

(** The views after the script copied them. *)
Lemma synced own n r r' : sync_mount_views chown_works me own n r = (r', Ok tt) →
  (∀ name, text (vault r') name = text (vault r) name) ∧
  ∀ view names, role n view names → exact_view view names (vault r') ∧ ∀ name, name ∈ names → is_Some (text (vault r) name).
Proof.
  unfold sync_mount_views. rewrite read_bind. destruct (existsb _ _); [done|]. intros H.
  apply (each_ok (λ s, ∀ name, text (vault s) name = text (vault r) name)
    (λ vn s, exact_view vn.1 vn.2 (vault s) ∧ ∀ name, name ∈ vn.2 → is_Some (text (vault r) name))) in H as [T P]; [| | |done].
  - split; [done|]. intros view names Hr. apply (P (view, names)). by apply in_mount_views.
  - intros [view names] s s' _ Hs T. apply sync_view_ok in Hs as (T' & He & Hsome & _). split; [|split; [done|]].
    + intros name. by rewrite T', T.
    + intros name Hn. rewrite <-T. by apply Hsome.
  - intros [view names] [view' names'] s s' Hx%in_mount_views Hy%in_mount_views Hs T [He Hsome]. split; [|done]. cbn [fst snd] in *.
    apply sync_view_ok in Hs as (T' & He' & _ & O).
    destruct (decide (view = view')) as [<-|Hne]; [by rewrite (role_unique n view names names')|].
    intros name. rewrite O by done. rewrite T'. apply He.
Qed.

(** The views after a run. *)
Lemma main_synced force own datanodes r r' : main chown_works me force own datanodes r = (r', Ok tt) →
  ∀ view names, role (Z.to_nat datanodes) view names →
    exact_view view names (vault r') ∧ ∀ name, name ∈ names → is_Some (text (vault r') name).
Proof.
  unfold main. case_match eqn:Hd; [done|]. intros (r1 & [] & _ & H)%bind_ok_inv. apply bind_ok_inv in H as (r2 & [] & _ & H).
  apply synced in H as [T P]. intros view names Hr. destruct (P view names Hr) as [He Hs]. split; [done|].
  intros name Hn. rewrite T. by apply Hs.
Qed.

Lemma exact_view_hides view names v name : exact_view view names v → name ∉ names → holds (InView view name) v = None.
Proof. intros H Hn. rewrite H. by rewrite decide_False. Qed.

(** [name] is in no role's list but those of [views]. *)
Ltac not_listed H :=
  repeat (apply elem_of_cons in H as [H|H]; [first [discriminate H | solve [by apply key_name_inj in H]]|]);
  by apply not_elem_of_nil in H.

(** C38. After a run, each role reads in its view exactly the files of its role, as they are in
    the secrets directory.  The key of the CA is in no view; a DataNode reads neither the
    password of Raft, nor the secret of the sessions, nor the password of the admin, nor the
    key of another DataNode; a client reads the certificate of the CA and nothing else; and
    neither a client nor the inspector reads the key of the capabilities. *)
Theorem each_role_sees_its_own force own datanodes r r' :
  main chown_works me force own datanodes r = (r', Ok tt) →
  let n := Z.to_nat datanodes in
  (∀ view names, (view, names) ∈ mount_views n →
     exact_view view names (vault r') ∧ (∀ name, name ∈ names → is_Some (text (vault r') name))
     ∧ holds (InView view "ca.key") (vault r') = None) ∧
  (∀ i, 1 ≤ i ≤ n → Forall (λ name, holds (InView (dn_name i) name) (vault r') = None) ["raft.password"; "jwt.secret"; "admin.password"]) ∧
  (∀ i j, 1 ≤ i ≤ n → i ≠ j → holds (InView (dn_name i) (key_name j)) (vault r') = None) ∧
  (∀ name, name ≠ "ca.crt" → holds (InView "client" name) (vault r') = None) ∧
  holds (InView "inspect" "capability.key") (vault r') = None.
Proof.
  intros H n. pose proof (main_synced _ _ _ _ _ H) as P. fold n in P.
  assert (∀ view names name, role n view names → name ∉ names → holds (InView view name) (vault r') = None) as Hide.
  { intros view names name Hr Hn. by eapply exact_view_hides; [apply P|]. }
  split_and!.
  - intros view names Hr%in_mount_views. destruct (P view names Hr) as [He Hs]. split_and!; [done|done|].
    apply (Hide view names); [done|]. destruct Hr; intros Hn; not_listed Hn.
  - intros i Hi. repeat constructor; (apply (Hide _ (datanode_files i)); [by constructor|]); intros Hn; not_listed Hn.
  - intros i j Hi Hij. apply (Hide _ (datanode_files i)); [by constructor|]. intros Hn. not_listed Hn.
  - intros name Hn. apply (Hide "client" ["ca.crt"]); [by constructor|]. by rewrite list_elem_of_singleton.
  - apply (Hide "inspect" ["ca.crt"; "admin.password"]); [by constructor|]. intros Hn. not_listed Hn.
Qed.
End views.

(** * Running it again *)

Section again.
Context {RN : Randomness} {XC : X509} (chown_works : bool) (me : Z * Z).

(** A step that, when it returns, has lost no file of the directory. *)
Definition grows {A} (m : G A) : Prop :=
  ∀ r r' a, m r = (r', Ok a) → ∀ n, is_Some (text (vault r) n) → is_Some (text (vault r') n).

Lemma grows_keeps {A} (m : G A) : (∀ ns, moves (keeps ns) m) → grows m.
Proof. intros H r r' a E n. rewrite (proj2 (moves_inv _ _ _ _ _ (H [n]) E) n); [done|by left]. Qed.
Lemma grows_bind {A B} (m : G A) (k : A → G B) : grows m → (∀ a, grows (k a)) → grows (a ← m; k a).
Proof. intros Hm Hk r r' b (r1 & a & H1 & H2)%bind_ok_inv n Hn. eapply Hk, Hm; done. Qed.
Lemma grows_ret {A} (a : A) : grows (mret a).
Proof. by intros r r' b [= <- <-]. Qed.
Lemma grows_raise {A} e : grows (A:=A) (raise e).
Proof. done. Qed.
Lemma grows_gets {A} (f : Run → A) : grows (gets f).
Proof. by intros r r' b [= <- <-]. Qed.
Lemma grows_each {A} (m : A → G unit) l : (∀ x, grows (m x)) → grows (each m l).
Proof. intros Hm. induction l as [|x l IH]; simpl; [apply grows_ret|]. by apply grows_bind. Qed.

(** A write that returns: the file is there, and no other is lost. *)
Lemma write_there n bytes md force r r' b : _write me (Top n) bytes md force r = (r', Ok b) → is_Some (text (vault r') n).
Proof.
  intros H. pose proof (write_ends _ _ _ _ _ _ _ _ H) as E. inversion E as [Hin|o r1 Hv| | | | ]; subst.
  - unfold text. simpl in Hin. destruct (files (vault r') !! n); [by eexists|done].
  - rewrite Hv, text_put_top, decide_True by done. by eexists.
Qed.
Lemma grows_write n bytes md force : grows (_write me (Top n) bytes md force).
Proof.
  intros r r' b H m Hm. pose proof (write_ends _ _ _ _ _ _ _ _ H) as E. inversion E as [Hin|o r1 Hv| | | | ]; subst; [done|].
  rewrite Hv, text_put_top. case_decide; [by eexists|done].
Qed.

Ltac grow_steps :=
  repeat first
    [ apply grows_write
    | (apply grows_keeps; intros ns; first [apply keeps_draw | apply keeps_read | apply keeps_chown | apply sync_keeps])
    | apply grows_ret | apply grows_raise | apply grows_gets
    | apply grows_bind; [|intros ?]
    | (apply grows_each; intros ?)
    | match goal with |- grows (match ?x with _ => _ end) => destruct x end ].

Lemma grows_renew_node b : grows (renew_node me b).
Proof. unfold renew_node, read_top. grow_steps. Qed.
Lemma grows_auth force own : grows (generate_auth_secrets chown_works me force own).
Proof. unfold generate_auth_secrets. grow_steps. Qed.

Lemma renew_ca_there b r r' : renew_ca me b r = (r', Ok tt) →
  (b = false → is_Some (text (vault r) "ca.crt") ∧ is_Some (text (vault r) "ca.key")) →
  is_Some (text (vault r') "ca.crt") ∧ is_Some (text (vault r') "ca.key").
Proof.
  unfold renew_ca. destruct b; [|intros [= <-]; auto]. intros H _.
  apply bind_ok_inv in H as (r1 & now & _ & H). apply bind_ok_inv in H as (r2 & ck & _ & H).
  apply bind_ok_inv in H as (r3 & b1 & W1 & H). apply bind_ok_inv in H as (r4 & b2 & W2 & H). injection H as <-.
  split; [by eapply write_there|]. eapply grows_write; [done|]. by eapply write_there.
Qed.
Lemma renew_node_there b r r' : renew_node me b r = (r', Ok tt) →
  (b = false → is_Some (text (vault r) "node.crt") ∧ is_Some (text (vault r) "node.key")) →
  is_Some (text (vault r') "node.crt") ∧ is_Some (text (vault r') "node.key").
Proof.
  unfold renew_node. destruct b; [|intros [= <-]; auto]. intros H _.
  apply bind_ok_inv in H as (r1 & crt & _ & H). apply bind_ok_inv in H as (r2 & key & _ & H).
  apply bind_ok_inv in H as (r3 & now & _ & H). apply bind_ok_inv in H as (r4 & [[cert nkey]|] & _ & H); [|done].
  apply bind_ok_inv in H as (r5 & b1 & W1 & H). apply bind_ok_inv in H as (r6 & b2 & W2 & H). injection H as <-.
  split; [by eapply write_there|]. eapply grows_write; [done|]. by eapply write_there.
Qed.

(** The certificates are there after a run that ends. *)
Lemma generate_there force own n r r' : generate chown_works me force own n r = (r', Ok tt) →
  ∀ name, name ∈ certificate_files → is_Some (text (vault r') name).
Proof.
  intros H. unfold generate in H. apply bind_ok_inv in H as (r1 & [] & _ & H). rewrite read_bind in H.
  set (new_ca := force || _ || _) in H. apply bind_ok_inv in H as (r2 & [] & H2 & H). rewrite read_bind in H.
  set (new_node := new_ca || _ || _) in H. apply bind_ok_inv in H as (r3 & [] & H3 & H). rewrite read_bind in H.
  assert (grows (each (λ name, _chown chown_works (Top name) own) (listing (vault r3)))) as G4 by grow_steps.
  apply renew_ca_there in H2 as [C1 C2].
  2: { unfold new_ca. rewrite !orb_false_iff, !negb_false_iff, !exists_text. tauto. }
  pose proof (grows_renew_node _ _ _ _ H3) as G3. apply renew_node_there in H3 as [N1 N2].
  2: { unfold new_node. rewrite !orb_false_iff, !negb_false_iff, !exists_text. tauto. }
  unfold certificate_files. intros name Hn. eapply G4; [done|].
  repeat (apply elem_of_cons in Hn as [->|Hn]; [auto|]). by apply not_elem_of_nil in Hn.
Qed.

(** ** Owners *)

#[local] Instance place_eq_dec : EqDecision place.
Proof. solve_decision. Defined.

Lemma lookup_put p q f v : lookup_place q (put p f v) = if decide (p = q) then Some (ItFile f) else lookup_place q v.
Proof.
  destruct p as [m|a m], q as [n|b n]; unfold put; simpl; try done.
  - destruct (decide (m = n)) as [->|Hn]; [by rewrite lookup_insert_eq, decide_True|].
    rewrite lookup_insert_ne, decide_False by congruence. done.
  - destruct (decide (a = b)) as [->|Ha]; [|by rewrite lookup_insert_ne, decide_False by congruence].
    rewrite lookup_insert_eq. simpl. destruct (decide (m = n)) as [->|Hn]; [by rewrite lookup_insert_eq, decide_True|].
    rewrite lookup_insert_ne, decide_False by congruence. destruct (mounts v !! b); [done|apply lookup_empty].
Qed.
Lemma lookup_unlink p q v : p ≠ q → lookup_place q (unlink p v) = lookup_place q v.
Proof.
  destruct p as [m|a m], q as [n|b n]; unfold unlink; simpl; intros Hne; try done.
  - by rewrite lookup_delete_ne by congruence.
  - destruct (decide (a = b)) as [->|Ha]; [|by rewrite lookup_insert_ne].
    rewrite lookup_insert_eq. simpl. rewrite lookup_delete_ne by congruence. destruct (mounts v !! b); [done|apply lookup_empty].
Qed.
Lemma put_same p f v : lookup_place p v = Some (ItFile f) → put p f v = v.
Proof.
  destruct v as [fs ms], p as [n|a n]; unfold put; simpl.
  - destruct (fs !! n) eqn:E; [|done]. intros [= ->]. by rewrite insert_id.
  - destruct (ms !! a) as [m|] eqn:E; [|done]. simpl. intros Hn. rewrite (insert_id m) by done. by rewrite insert_id.
Qed.

(** A vault without its owners: the bytes, the modes and the directories. *)
Definition unowned_item (it : item) : item := match it with ItFile f => ItFile (chown_file (0, 0)%Z f) | ItDir => ItDir end.
Definition unowned_view (m : gmap string item) : gmap string item := unowned_item <$> m.
Definition unowned (v : Vault) : Vault := mkVault (chown_file (0, 0)%Z <$> files v) (unowned_view <$> mounts v).

Lemma unowned_place p v : lookup_place p (unowned v) = unowned_item <$> lookup_place p v.
Proof.
  destruct p as [n|a n]; simpl; [rewrite lookup_fmap; by destruct (files v !! n)|].
  rewrite lookup_fmap. destruct (mounts v !! a) as [m|]; [|done]. simpl. unfold unowned_view. by rewrite lookup_fmap.
Qed.
Lemma unowned_holds v v' : unowned v' = unowned v → ∀ p, holds p v' = holds p v.
Proof.
  intros E p. assert (∀ w, holds p w = holds p (unowned w)) as H.
  { intros w. unfold holds. rewrite unowned_place. by destruct (lookup_place p w) as [[f|]|]. }
  by rewrite (H v'), E, <-H.
Qed.
Lemma unowned_chown p o f v : lookup_place p v = Some (ItFile f) → unowned (put p (chown_file o f) v) = unowned v.
Proof.
  intros Hp. rewrite <-(put_same p (chown_file (0, 0)%Z f) (unowned v)) by (by rewrite unowned_place, Hp).
  destruct v as [fs ms], p as [n|a n]; unfold put, unowned; simpl; f_equal; [by rewrite fmap_insert|].
  rewrite fmap_insert, lookup_fmap. f_equal. unfold unowned_view. rewrite fmap_insert. destruct (ms !! a); simpl; [done|]. by rewrite fmap_empty.
Qed.

(** The places a run looks after, and who owns the files there. *)
Definition covered (n : nat) (p : place) : Prop :=
  match p with Top _ => True | InView view _ => ∃ names, role n view names end.
Definition owned (n : nat) (o : Z * Z) (v : Vault) : Prop :=
  ∀ p f, covered n p → lookup_place p v = Some (ItFile f) → owner f = o.

(** [away S]: nothing changes outside of [S]. *)
Definition away (S : place → Prop) (r r' : Run) : Prop := ∀ q, ¬ S q → lookup_place q (vault r') = lookup_place q (vault r).
#[local] Instance away_preorder S : PreOrder (away S).
Proof. split; [by intros r q|]. intros r1 r2 r3 H1 H2 q Hq. by rewrite H2, H1. Qed.

Lemma away_change (S : place → Prop) f : (∀ v q, ¬ S q → lookup_place q (f v) = lookup_place q v) → moves (away S) (change f).
Proof.
  intros Hf r. destruct (change f r) as [r' out] eqn:Hc. apply change_run in Hc as [[_ ->]|(_ & Hv & _)]; [done|].
  intros q Hq. cbn [fst]. by rewrite Hv, Hf.
Qed.
Lemma away_write (S : place → Prop) p bytes md force : S p → moves (away S) (_write me p bytes md force).
Proof.
  intros Hp r. destruct (_write me p bytes md force r) as [r' out] eqn:E. apply write_ends in E. cbn [fst]. intros q Hq.
  assert (p ≠ q) as Hne by (by intros ->).
  destruct E as [ |o r' Hv Hb| |r' _ Hv Hb|torn o r' _ Hv Hb| ]; try done; rewrite Hv, ?lookup_put, ?lookup_unlink by done;
    rewrite ?decide_False by done; done.
Qed.
Lemma away_chown (S : place → Prop) p own : S p → moves (away S) (_chown chown_works p own).
Proof.
  intros Hp. unfold _chown. destruct own as [o|]; [|apply moves_ret, _]. destruct chown_works; [|apply moves_ret, _].
  apply away_change. intros v q Hq. destruct (lookup_place p v) as [[f|]|]; [|done..]. rewrite lookup_put, decide_False; [done|by intros ->].
Qed.

(** Giving away a list of files. *)
Definition reown (o : Z * Z) (it : item) : item := match it with ItFile f => ItFile (chown_file o f) | ItDir => ItDir end.
Lemma chown_each_lookup (pl : string → place) o l r r' : chown_works = true →
  each (λ x, _chown chown_works (pl x) (Some o)) l r = (r', Ok tt) →
  ∀ q, lookup_place q (vault r') = (if decide (q ∈ pl <$> l) then reown o <$> lookup_place q (vault r) else lookup_place q (vault r)).
Proof.
  intros Hw. revert r. induction l as [|x l IH]; intros r; simpl; [by intros [= <-]|].
  intros (r1 & [] & H1 & H)%bind_ok_inv q. rewrite (IH _ H q). clear IH H.
  assert (lookup_place q (vault r1) = if decide (pl x = q) then reown o <$> lookup_place q (vault r) else lookup_place q (vault r)) as ->.
  { unfold _chown in H1. rewrite Hw in H1. apply change_run in H1 as [[[=] _]|(_ & Hv & _)]. rewrite Hv.
    destruct (lookup_place (pl x) (vault r)) as [[f|]|] eqn:E.
    - rewrite lookup_put. case_decide as Hq; [|done]. subst q. by rewrite E.
    - case_decide as Hq; [|done]. subst q. by rewrite E.
    - case_decide as Hq; [|done]. subst q. by rewrite E. }
  destruct (decide (pl x = q)) as [<-|Hne].
  - destruct (decide (pl x ∈ pl x :: _)) as [_|Hn]; [|by destruct Hn; left]. case_decide; [|done].
    by destruct (lookup_place (pl x) (vault r)) as [[f|]|].
  - apply decide_ext. rewrite elem_of_cons. naive_solver.
Qed.
Lemma reowned o (o' : option item) f : reown o <$> o' = Some (ItFile f) → owner f = o.
Proof. destruct o' as [[g|]|]; simpl; intros; by simplify_eq/=. Qed.

Lemma listing_all v name : name ∈ listing v ↔ is_Some (files v !! name).
Proof.
  unfold listing. rewrite list_elem_of_fmap. split.
  - intros ([k f] & -> & H%elem_of_map_to_list). eauto.
  - intros [f Hf]. exists (name, f). split; [done|]. by apply elem_of_map_to_list.
Qed.
Lemma view_listing_all view v name : name ∈ view_listing view v ↔ is_Some (lookup_place (InView view name) v).
Proof.
  unfold view_listing. rewrite list_elem_of_fmap. simpl. split.
  - intros ([k f] & -> & H%elem_of_map_to_list). destruct (mounts v !! view) as [m|]; simpl in *; [eauto|]. by rewrite lookup_empty in H.
  - intros [f Hf]. destruct (mounts v !! view) as [m|]; [|done]. exists (name, f). split; [done|]. by apply elem_of_map_to_list.
Qed.

(** After a run that ends and can give files away, the owner asked for has them all. *)
Lemma generate_owned force o n r r' : chown_works = true → generate chown_works me force (Some o) n r = (r', Ok tt) →
  ∀ name f, lookup_place (Top name) (vault r') = Some (ItFile f) → owner f = o.
Proof.
  intros Hw H name f. unfold generate in H. apply bind_ok_inv in H as (r1 & [] & _ & H). rewrite read_bind in H.
  apply bind_ok_inv in H as (r2 & [] & _ & H). rewrite read_bind in H. apply bind_ok_inv in H as (r3 & [] & _ & H). rewrite read_bind in H.
  rewrite (chown_each_lookup Top o _ _ _ Hw H). destruct (decide _) as [Hin|Hin]; [apply reowned|]. intros Hf. exfalso. apply Hin.
  apply list_elem_of_fmap. exists name. split; [done|]. apply listing_all. simpl in Hf. by destruct (files (vault r3) !! name).
Qed.
Definition auth_place (q : place) : Prop := ∃ name, name ∈ _AUTH_SECRETS ∧ q = Top name.
Lemma auth_owned force o r r' : chown_works = true → generate_auth_secrets chown_works me force (Some o) r = (r', Ok tt) →
  (∀ name f, lookup_place (Top name) (vault r) = Some (ItFile f) → owner f = o) →
  ∀ name f, lookup_place (Top name) (vault r') = Some (ItFile f) → owner f = o.
Proof.
  intros Hw H Ho name f. unfold generate_auth_secrets in H.
  apply bind_ok_inv in H as (r1 & k1 & H1 & H). apply bind_ok_inv in H as (r2 & b2 & H2 & H).
  apply bind_ok_inv in H as (r3 & k3 & H3 & H). apply bind_ok_inv in H as (r4 & b4 & H4 & H).
  apply bind_ok_inv in H as (r5 & k5 & H5 & H). apply bind_ok_inv in H as (r6 & b6 & H6 & H).
  injection H1 as <- _. injection H3 as <- _. injection H5 as <- _.
  assert (∀ name bytes md r s b, name ∈ _AUTH_SECRETS → _write me (Top name) bytes md force r = (s, Ok b) → away auth_place r s) as Hm.
  { intros nm bytes md s0 s b Hn E. refine (moves_inv (away auth_place) _ _ _ _ _ E). apply away_write. by exists nm. }
  apply Hm in H2; [|unfold _AUTH_SECRETS; set_solver]. apply Hm in H4; [|unfold _AUTH_SECRETS; set_solver]. apply Hm in H6; [|unfold _AUTH_SECRETS; set_solver].
  rewrite (chown_each_lookup Top o _ _ _ Hw H). destruct (decide _) as [Hin|Hin]; [apply reowned|].
  assert (¬ auth_place (Top name)) as Hn by (intros (nm & Hnm & [= ->]); apply Hin, list_elem_of_fmap; eauto).
  rewrite (H6 _ Hn). cbn [vault]. rewrite (H4 _ Hn). cbn [vault]. rewrite (H2 _ Hn). apply Ho.
Qed.

Definition in_view (view : string) (q : place) : Prop := ∃ name, q = InView view name.
Lemma away_sync_view own view names : moves (away (in_view view)) (sync_view chown_works me own (view, names)).
Proof.
  assert (∀ name, in_view view (InView view name)) as Hin by (intros name; by exists name).
  unfold sync_view. cbn [fst snd]. apply moves_bind; [apply _| |intros _; apply moves_bind; [apply _| |intros _; apply moves_bind; [apply _| |intros _]]].
  - apply away_change. intros v [m|b m] _; [done|]. simpl. destruct (decide (view = b)) as [->|]; [|by rewrite lookup_insert_ne].
    rewrite lookup_insert_eq. simpl. destruct (mounts v !! b); [done|apply lookup_empty].
  - apply moves_each; [apply _|]. intros name _. unfold sync_file. apply moves_bind; [apply _|by intros r|intros [f|]]; [|apply moves_raise, _].
    apply moves_bind; [apply _|by intros r|intros target].
    assert (∀ md, moves (away (in_view view)) (_ ← _write me (InView view name) (content f) md true; mret tt)) as Hw.
    { intros md. apply moves_bind; [apply _|by apply away_write|intros _; apply moves_ret, _]. }
    destruct target as [[g|]|]; try apply Hw. destruct (decide _); [apply moves_ret, _|apply Hw].
  - apply away_change. intros v [m|b m] Hq; [done|]. simpl. rewrite lookup_alter_ne; [done|]. intros ->. by apply Hq.
  - apply moves_bind; [apply _|by intros r|intros l]. apply moves_each; [apply _|]. intros name _. by apply away_chown.
Qed.
Lemma sync_view_owned o view names r r' : chown_works = true → sync_view chown_works me (Some o) (view, names) r = (r', Ok tt) →
  ∀ name f, lookup_place (InView view name) (vault r') = Some (ItFile f) → owner f = o.
Proof.
  intros Hw H name f. unfold sync_view in H. cbn [fst snd] in H. apply bind_ok_inv in H as (r1 & [] & _ & H).
  apply bind_ok_inv in H as (r2 & [] & _ & H). apply bind_ok_inv in H as (r3 & [] & _ & H). rewrite read_bind in H.
  rewrite (chown_each_lookup (InView view) o _ _ _ Hw H). destruct (decide _) as [Hin|Hin]; [apply reowned|]. intros Hf. exfalso. apply Hin.
  apply list_elem_of_fmap. exists name. split; [done|]. apply view_listing_all. by eexists.
Qed.

Lemma main_owned force o datanodes r r' : chown_works = true → main chown_works me force (Some o) datanodes r = (r', Ok tt) →
  owned (Z.to_nat datanodes) o (vault r').
Proof.
  intros Hw. unfold main. case_match eqn:Hd; [done|]. intros (r1 & [] & H1 & H)%bind_ok_inv. apply bind_ok_inv in H as (r2 & [] & H2 & H).
  pose proof (auth_owned _ _ _ _ Hw H2 (generate_owned _ _ _ _ _ Hw H1)) as Ho. clear H1 H2.
  unfold sync_mount_views in H. rewrite read_bind in H. destruct (existsb _ _); [done|]. set (n := Z.to_nat datanodes) in *.
  apply (each_ok (λ s, ∀ name, lookup_place (Top name) (vault s) = lookup_place (Top name) (vault r2))
    (λ vn s, ∀ name f, lookup_place (InView vn.1 name) (vault s) = Some (ItFile f) → owner f = o)) in H as [T P]; [| | |done].
  - intros [name|view name] f Hc Hf.
    + rewrite T in Hf. by eapply Ho.
    + destruct Hc as [names Hr%in_mount_views]. exact (P (view, names) Hr name f Hf).
  - intros [view names] s s' _ Hs T. split; [|by eapply sync_view_owned].
    intros name. rewrite <-T. refine (moves_inv (away (in_view view)) _ _ _ _ (away_sync_view _ _ _) Hs _ _). by intros (nm & [=]).
  - intros [view names] [view' names'] s s' _ _ Hs _ P name f. cbn [fst] in *.
    destruct (decide (view = view')) as [->|Hne]; [by eapply sync_view_owned|].
    rewrite (moves_inv (away (in_view view')) _ _ _ _ (away_sync_view _ _ _) Hs); [apply P|]. intros (nm & [=]). congruence.
Qed.

(** ** Nothing to do *)

(** Nothing is missing: the certificates are there, and every view is as it should be. *)
Record settled (n : nat) (v : Vault) : Prop := {
  settled_certificates : ∀ name, name ∈ certificate_files → is_Some (text v name);
  settled_views : ∀ view names, role n view names → exact_view view names v ∧ ∀ name, name ∈ names → is_Some (text v name)
}.

(** The owner asked for has everything already, or nothing is given away. *)
Definition idle (own : option (Z * Z)) (n : nat) (v : Vault) : Prop := chown_works = true → ∀ o, own = Some o → owned n o v.

(** Nothing but owners changes, and not even them when there is nothing to give away. *)
Definition unmoved (own : option (Z * Z)) (n : nat) (r r' : Run) : Prop :=
  unowned (vault r') = unowned (vault r) ∧ steps_left r' = steps_left r ∧ (idle own n (vault r) → vault r' = vault r).
#[local] Instance unmoved_preorder own n : PreOrder (unmoved own n).
Proof.
  split; [by split|]. intros r1 r2 r3 (U1 & S1 & I1) (U2 & S2 & I2). split_and!; [congruence..|].
  intros Hi. rewrite I2; [by apply I1|]. by rewrite I1.
Qed.

Lemma settled_same n v v' : unowned v' = unowned v → settled n v → settled n v'.
Proof.
  intros U [Hc Hv]. pose proof (unowned_holds _ _ U) as K.
  assert (∀ name, text v' name = text v name) as T.
  { intros name. pose proof (K (Top name)) as E. rewrite !holds_text in E. by destruct (text v' name), (text v name); simplify_eq/=. }
  split.
  - intros name Hn. rewrite T. by apply Hc.
  - intros view names Hr. destruct (Hv view names Hr) as [He Hs]. split; [|intros name Hn; rewrite T; by apply Hs].
    intros name. rewrite (K (InView view name)), T. apply He.
Qed.

(** A step of an uncut run that finds nothing to do: it returns. *)
Definition quiet {A} (own : option (Z * Z)) (n : nat) (m : G A) : Prop :=
  ∀ r, settled n (vault r) → steps_left r = None → ∃ r' a, m r = (r', Ok a) ∧ unmoved own n r r'.

Lemma quiet_ret {A} own n (a : A) : quiet own n (mret a).
Proof. intros r _ _. by exists r, a. Qed.
Lemma quiet_bind {A B} own n (m : G A) (k : A → G B) : quiet own n m → (∀ a, quiet own n (k a)) → quiet own n (a ← m; k a).
Proof.
  intros Hm Hk r Hs Hl. destruct (Hm r Hs Hl) as (r1 & a & E1 & S1). pose proof S1 as (U1 & L1 & _).
  destruct (Hk a r1) as (r2 & b & E2 & S2); [by eapply settled_same|congruence|].
  exists r2, b. split; [|by etrans]. unfold mbind, M_bind. by rewrite E1.
Qed.
Lemma quiet_read {A B} own n (f : Vault → A) (k : A → G B) :
  (∀ v, settled n v → quiet own n (k (f v))) → quiet own n (a ← read_vault f; k a).
Proof. intros H r Hs Hl. apply (H (vault r) Hs r Hs Hl). Qed.
Lemma quiet_draw {A} own n (f : nat → A) : quiet own n (draw f).
Proof. intros r _ _. by eexists _, _. Qed.
Lemma quiet_each {A} own n (m : A → G unit) l : (∀ x, x ∈ l → quiet own n (m x)) → quiet own n (each m l).
Proof.
  induction l as [|x l IH]; intros H; simpl; [apply quiet_ret|]. apply quiet_bind; [apply H; by left|].
  intros _. apply IH. intros y Hy. apply H. by right.
Qed.
Lemma quiet_change own n f : (∀ v, settled n v → unowned (f v) = unowned v ∧ (idle own n v → f v = v)) → quiet own n (change f).
Proof.
  intros Hf r Hs Hl. unfold change. rewrite Hl. eexists _, tt. split; [done|]. destruct (Hf _ Hs) as [U I].
  split_and!; [done|by rewrite Hl|done].
Qed.
Lemma quiet_chown own n p : covered n p → quiet own n (_chown chown_works p own).
Proof.
  intros Hp. unfold _chown. destruct own as [o|]; [|apply quiet_ret]. destruct chown_works eqn:Hw; [|apply quiet_ret].
  apply quiet_change. intros v _. destruct (lookup_place p v) as [[f|]|] eqn:E; [|done..]. split; [by apply unowned_chown|].
  intros Hi. apply put_same. rewrite E. do 2 f_equal. destruct f as [c md ow]. unfold chown_file. simpl. f_equal.
  exact (Hi Hw o eq_refl p _ Hp E).
Qed.
(** What is there is not written again. *)
Lemma quiet_write own n name bytes md : (∀ v, settled n v → is_Some (text v name)) → quiet own n (_write me (Top name) bytes md false).
Proof.
  intros Hn r Hs _. exists r, false. split; [|done]. apply Hn, exists_text in Hs. unfold exists_top in Hs.
  unfold _write. rewrite read_bind. simpl. rewrite bool_decide_true; [done|].
  apply bool_decide_eq_true in Hs. by destruct (files (vault r) !! name).
Qed.
Lemma quiet_write_with {A} own n name bytes md (a : A) :
  (∀ v, settled n v → is_Some (text v name)) → quiet own n (_ ← _write me (Top name) bytes md false; mret a).
Proof. intros H. apply quiet_bind; [by apply quiet_write|intros _; apply quiet_ret]. Qed.

Lemma settled_role n view names name : role n view names → name ∈ names → ∀ v, settled n v → is_Some (text v name).
Proof. intros Hr Hn v [_ Hv]. by apply (Hv view names). Qed.

Lemma quiet_first own n : quiet own n (first_secrets me false n).
Proof.
  unfold first_secrets. apply quiet_bind.
  - apply quiet_each. intros i Hi%elem_of_seq. apply quiet_bind; [apply quiet_draw|intros key].
    apply quiet_write_with, (settled_role _ (dn_name i) (datanode_files i)); [constructor; lia|]. unfold datanode_files. set_solver.
  - intros _. apply quiet_bind; [apply quiet_draw|intros pass].
    apply quiet_write_with, (settled_role _ "control" control_files); [constructor|]. unfold control_files. set_solver.
Qed.
Lemma quiet_auth own n : quiet own n (generate_auth_secrets chown_works me false own).
Proof.
  assert (∀ name bytes md, name ∈ _AUTH_SECRETS → quiet own n (_write me (Top name) bytes md false)) as Hw.
  { intros name bytes md Hn. apply quiet_write, (settled_role _ "control" control_files); [constructor|]. unfold control_files. set_solver. }
  unfold generate_auth_secrets.
  do 3 (apply quiet_bind; [apply quiet_draw|intros ?]; apply quiet_bind; [apply Hw; unfold _AUTH_SECRETS; set_solver|intros _]).
  apply quiet_each. intros name _. by apply quiet_chown.
Qed.
Lemma settled_exists n v name : settled n v → name ∈ certificate_files → exists_top name v = true.
Proof. intros [Hc _] Hn. by apply exists_text, Hc. Qed.
Lemma quiet_generate own n : quiet own n (generate chown_works me false own n).
Proof.
  unfold generate. apply quiet_bind; [apply quiet_first|intros _]. apply quiet_read. intros v Hv.
  rewrite !(settled_exists n v) by (done || (unfold certificate_files; set_solver)). simpl.
  apply quiet_bind; [apply quiet_ret|intros _]. apply quiet_read. intros v' Hv'.
  rewrite !(settled_exists n v') by (done || (unfold certificate_files; set_solver)). simpl.
  apply quiet_bind; [apply quiet_ret|intros _]. apply quiet_read. intros v'' _. apply quiet_each. intros name _. by apply quiet_chown.
Qed.

(** A copy that has the bytes of its secret is left alone. *)
Lemma quiet_sync_file own n view names name : role n view names → name ∈ names → quiet own n (sync_file me view name).
Proof.
  intros Hr Hn r Hs _. exists r, tt. split; [|done]. destruct (settled_views _ _ Hs view names Hr) as [He Ht].
  specialize (He name). rewrite decide_True in He by done. destruct (Ht name Hn) as [t Hname].
  unfold sync_file. rewrite read_bind. unfold text in Hname, He. destruct (files (vault r) !! name) as [f|]; [|done].
  rewrite read_bind. unfold holds in He. destruct (lookup_place (InView view name) (vault r)) as [[g|]|]; try done.
  simpl in He. injection He as He. by rewrite decide_True.
Qed.

(** A view that is as it should be is neither made nor emptied. *)
Lemma settled_view n view names v : role n view names → settled n v →
  ∃ m, mounts v !! view = Some m ∧ ∀ name it, m !! name = Some it → name ∈ names.
Proof.
  intros Hr Hs. destruct (settled_views _ _ Hs view names Hr) as [He Ht].
  assert ("ca.crt" ∈ names) as Hca by (destruct Hr; unfold datanode_files, control_files, _NODE_TLS; set_solver).
  pose proof (He "ca.crt") as E. destruct (Ht _ Hca) as [c Hc]. rewrite decide_True, Hc in E by done. unfold holds in E. simpl in E.
  destruct (mounts v !! view) as [m|] eqn:Hm; [|done]. exists m. split; [done|]. intros name it Hit. specialize (He name).
  unfold holds in He. simpl in He. rewrite Hm in He. simpl in He. rewrite Hit in He. by destruct (decide (name ∈ names)).
Qed.
Lemma mkdir_settled n view names v : role n view names → settled n v → mkdir_view view v = v.
Proof.
  intros Hr Hs. destruct (settled_view n view names v Hr Hs) as (m & Hm & _). destruct v as [fs ms]. unfold mkdir_view. simpl in *.
  rewrite Hm. simpl. by rewrite insert_id.
Qed.
Lemma keep_only_settled n view names v : role n view names → settled n v → keep_only view names v = v.
Proof.
  intros Hr Hs. destruct (settled_view n view names v Hr Hs) as (m & Hm & Hin). destruct v as [fs ms]. unfold keep_only. simpl in *. f_equal.
  apply map_eq. intros b. destruct (decide (view = b)) as [<-|Hb]; [|by rewrite lookup_alter_ne]. rewrite lookup_alter_eq, Hm. simpl. f_equal.
  apply map_filter_id. intros name it Hit. by eapply Hin.
Qed.

Lemma quiet_sync_view own n view names : role n view names → quiet own n (sync_view chown_works me own (view, names)).
Proof.
  intros Hr. unfold sync_view. cbn [fst snd].
  apply quiet_bind; [|intros _; apply quiet_bind; [|intros _; apply quiet_bind; [|intros _]]].
  - apply quiet_change. intros v Hs. by rewrite (mkdir_settled n view names).
  - apply quiet_each. intros name Hn. by apply (quiet_sync_file own n view names).
  - apply quiet_change. intros v Hs. by rewrite (keep_only_settled n view names).
  - apply quiet_read. intros v _. apply quiet_each. intros name _. apply quiet_chown. by exists names.
Qed.
Lemma quiet_sync own n : quiet own n (sync_mount_views chown_works me own n).
Proof.
  unfold sync_mount_views. apply quiet_read. intros v Hv.
  destruct (existsb _ _) eqn:E.
  - apply existsb_exists in E as (name & Hin & Hm%negb_true_iff). apply in_concat in Hin as (names & Hl%list_elem_of_In & Hn%list_elem_of_In).
    apply list_elem_of_fmap in Hl as ([view names'] & -> & Hr%in_mount_views). apply not_true_iff_false in Hm. exfalso. apply Hm.
    apply exists_text. by apply (settled_role n view names').
  - apply quiet_each. intros [view names] Hr%in_mount_views. by apply quiet_sync_view.
Qed.

(** A run that ended left nothing to do. *)
Lemma main_settles force own datanodes r r1 : main chown_works me force own datanodes r = (r1, Ok tt) →
  (datanodes <? 1)%Z = false ∧ settled (Z.to_nat datanodes) (vault r1).
Proof.
  intros H. assert (∀ view names, role (Z.to_nat datanodes) view names →
    exact_view view names (vault r1) ∧ ∀ name, name ∈ names → is_Some (text (vault r1) name)) as Hv by (by eapply main_synced).
  unfold main in H. case_match eqn:Hd; [done|]. split; [done|]. split; [|exact Hv].
  apply bind_ok_inv in H as (ra & [] & H1 & H). apply bind_ok_inv in H as (rb & [] & H2 & H3). intros name Hn.
  assert (grows (sync_mount_views chown_works me own (Z.to_nat datanodes))) as G3 by (apply grows_keeps; intros ns; apply sync_keeps).
  eapply G3, grows_auth, generate_there; done.
Qed.

(** C39. Running the script again changes nothing.  After a run that ended, another one without
    [--force], whenever it comes and whatever it draws, returns and leaves every file of
    the directory and of the views, with its bytes and its mode, and every directory and
    view as they were; the owners too, unless another one is asked for, who then has every
    file of the directory and of the views of the cluster. *)
Theorem second_run_changes_nothing force own own' datanodes r r1 r2 :
  main chown_works me force own datanodes r = (r1, Ok tt) →
  vault r2 = vault r1 → steps_left r2 = None →
  ∃ r3, main chown_works me false own' datanodes r2 = (r3, Ok tt) ∧
    unowned (vault r3) = unowned (vault r1) ∧
    (chown_works = false ∨ own' = None ∨ own' = own → vault r3 = vault r1) ∧
    (∀ o, chown_works = true → own' = Some o → owned (Z.to_nat datanodes) o (vault r3)).
Proof.
  intros H Hv Hl. set (n := Z.to_nat datanodes). destruct (main_settles _ _ _ _ _ H) as [Hd Hs]. fold n in Hs.
  assert (quiet own' n (main chown_works me false own' datanodes)) as Q.
  { unfold main. rewrite Hd. apply quiet_bind; [apply quiet_generate|intros _]. apply quiet_bind; [apply quiet_auth|intros _]. apply quiet_sync. }
  destruct (Q r2 ltac:(by rewrite Hv) Hl) as (r3 & [] & E & U & _ & I). rewrite Hv in U, I. exists r3. split_and!; [done|done| |].
  - intros Hcase. apply I. intros Hw o ->. destruct Hcase as [?|[?|<-]]; [congruence|done|]. by eapply main_owned.
  - intros o Hw ->. by eapply main_owned.
Qed.
End again.
