(* ===== verification/SecretsLoad.v ===== *)
(** A cluster whose secrets generate_secrets.py made starts on them: every loader of the
    nodes, the shell and the inspector accepts what the view of its role holds, and the
    secrets two roles share are the same.  The witnesses of the theorems on the script are
    here as well, and two examples of what a run that was killed leaves. *)

From S2P Require Import Prelude Exceptions Paths Crypto BlockToken Addresses ShellWords Auth Tls NodeMain Secrets SecretsProps.
From S2P Require BlockStore.

Local Open Scope nat_scope.

(** * Printable texts *)

Definition plain_char (a : ascii) : bool := ((33 <=? N_of_ascii a) && (N_of_ascii a <=? 126))%N.
Definition plain (s : string) : Prop := all_in plain_char s = true.

Lemma plain_cons a s : plain (String a s) ↔ plain_char a = true ∧ plain s.
Proof. unfold plain, all_in. simpl. by rewrite andb_true_iff. Qed.

Lemma plain_space a : plain_char a = true → negb (is_space a) = true ∧ negb (str_space a) = true.
Proof.
  unfold plain_char, is_space, str_space. rewrite andb_true_iff, !N.leb_le. intros [H1 H2].
  split; apply negb_true_iff; repeat (apply orb_false_iff; split); rewrite ?andb_false_iff, ?N.eqb_neq, ?N.leb_gt; lia.
Qed.
Lemma plain_strip s : plain s → strip_space s = s ∧ str_strip s = s.
Proof.
  intros H. split.
  - unfold strip_space. assert (all_in (λ a, negb (is_space a)) s = true) as Hs.
    { revert H. apply all_in_mono. by intros a [? _]%plain_space. }
    rewrite lstrip_by_id by done. by apply rstrip_by_id.
  - apply str_strip_id. revert H. apply all_in_mono. by intros a [_ ?]%plain_space.
Qed.

Lemma plain_utf8 s : plain s → valid_utf8 (bytes_of s) = true.
Proof.
  unfold valid_utf8. induction s as [|a s IH]; [done|]. intros [Ha Hs]%plain_cons.
  change (bytes_of (String a s)) with (Z.of_N (N_of_ascii a) :: bytes_of s). unfold plain_char in Ha.
  apply andb_true_iff in Ha as [Ha1%N.leb_le Ha2%N.leb_le]. simpl valid_from. unfold lead.
  rewrite (proj2 (andb_true_iff _ _)) by (rewrite !Z.leb_le; lia). by apply IH.
Qed.
Lemma plain_newlines s : plain s → universal_newlines s = s.
Proof.
  induction s as [|a s IH]; [done|]. intros [Ha Hs]%plain_cons. simpl.
  destruct (Ascii.eqb_spec a "013") as [->|_]; [done|]. by rewrite IH.
Qed.
Lemma plain_count s : plain s → char_count s = String.length s.
Proof.
  induction s as [|a s IH]; [done|]. intros [Ha Hs]%plain_cons. simpl. unfold plain_char in Ha.
  apply andb_true_iff in Ha as [Ha1%N.leb_le Ha2%N.leb_le].
  destruct (N.leb_spec 128 (N_of_ascii a)); [lia|]. simpl. by rewrite IH.
Qed.

Lemma bytes_of_length s : length (bytes_of s) = String.length s.
Proof. unfold bytes_of. rewrite length_fmap. induction s as [|a s IH]; [done|]. simpl. by rewrite IH. Qed.

Lemma plain_text s : plain s → read_text s = Ok s.
Proof. intros H. unfold read_text. by rewrite plain_utf8, plain_newlines. Qed.

(** What the loaders of a node make of a printable text. *)
Lemma plain_loads s : plain s → 32 ≤ String.length s →
  load_raft_password s = Ok s ∧ load_jwt_secret s = Ok s ∧ load_capability_key s = Ok s.
Proof.
  intros H Hlen. destruct (plain_strip s H) as [H1 H2].
  unfold load_raft_password, load_jwt_secret, load_capability_key, MIN_JWT_SECRET_BYTES, MIN_KEY_BYTES.
  rewrite plain_text, H1 by done. simpl. rewrite H2, plain_count by done.
  by rewrite (proj2 (Z.ltb_ge (Z.of_nat (String.length s)) 32)) by lia.
Qed.
Lemma plain_admin s : plain s → s ≠ "" → load_admin_password s = Ok s.
Proof.
  intros H Hne. destruct (plain_strip s H) as [_ H2]. unfold load_admin_password. rewrite plain_text by done. simpl.
  rewrite H2. by rewrite bool_decide_false.
Qed.

(** * What the generators draw *)

(** Documented behaviour: [os.urandom(32)] has 32 bytes, [token_hex(32)] 64 hexadecimal
    digits, and [token_urlsafe(18)] the 24 characters of a base 64. *)
Class RandomnessLaws `{!Randomness} : Prop := {
  urandom_length : ∀ n, String.length (urandom32 n) = 32;
  hex_length : ∀ n, String.length (token_hex n) = 64;
  hex_plain : ∀ n, all_in is_hex (token_hex n) = true;
  urlsafe_length : ∀ n, String.length (token_urlsafe n) = 24;
  urlsafe_plain : ∀ n, plain (token_urlsafe n)
}.

Definition long_secrets : list string := ["raft.password"; "jwt.secret"; "capability.key"].

(** A secret that can serve. *)
Record good (name bytes : string) : Prop := {
  good_key : ∀ i, name = key_name i → String.length bytes = 32;
  good_long : name ∈ long_secrets → plain bytes ∧ 32 ≤ String.length bytes;
  good_admin : name = "admin.password" → plain bytes ∧ bytes ≠ ""
}.
(** Every secret that is there can serve. *)
Definition sound (v : Vault) : Prop := ∀ name bytes, text v name = Some bytes → good name bytes.

Section sound.
Context {RN : Randomness} {RL : RandomnessLaws} {XC : X509} (chown_works : bool) (me : Z * Z).

(** [safe m]: over sound secrets [m] leaves sound secrets, unless it is killed. *)
Definition safe {A} (m : G A) : Prop :=
  ∀ r r' out, m r = (r', out) → sound (vault r) → broken r = Interrupt ∨ out ≠ Err Cut →
    sound (vault r') ∧ broken r' = broken r.

Lemma safe_ret {A} (a : A) : safe (mret a).
Proof. by intros r r' out [= <- <-]. Qed.
Lemma safe_raise {A} e : safe (A:=A) (raise e).
Proof. by intros r r' out [= <- <-]. Qed.
Lemma safe_bind {A B} (m : G A) (k : A → G B) : safe m → (∀ a, safe (k a)) → safe (a ← m; k a).
Proof.
  intros Hm Hk r r' out [(e & H & ->)|(a & r1 & H1 & H)]%bind_cases Hs Hb.
  - apply (Hm _ _ _ H Hs). destruct Hb as [?|Hb]; [by left|right; congruence].
  - destruct (Hm _ _ _ H1 Hs) as [S1 B1]; [by right|]. rewrite <-B1. apply (Hk a _ _ _ H S1). by rewrite B1.
Qed.
Lemma safe_each {A} (m : A → G unit) l : (∀ x, safe (m x)) → safe (each m l).
Proof. intros Hm. induction l as [|x l IH]; simpl; [apply safe_ret|]. by apply safe_bind. Qed.

Lemma sound_put n f v : good n (content f) → sound v → sound (put (Top n) f v).
Proof. intros Hg Hs m b. rewrite text_put_top. case_decide; [|apply Hs]. subst. by intros [= <-]. Qed.
Lemma sound_unlink n v : sound v → sound (unlink (Top n) v).
Proof. intros Hs m b. rewrite text_unlink_top. case_decide; [done|apply Hs]. Qed.

Lemma safe_write n bytes md force : good n bytes → safe (_write me (Top n) bytes md force).
Proof.
  intros Hg r r' out E Hs Hb. apply write_ends in E.
  destruct E as [ |o r' Hv Hb'| |r' _ Hv Hb'|torn o r' Hk Hv _| ]; try done.
  - split; [|done]. rewrite Hv. by apply sound_put.
  - split; [|done]. rewrite Hv. by apply sound_unlink.
  - destruct Hb as [Hb|Hb]; [congruence|done].
Qed.
Lemma safe_write_with {A} n bytes md force (a : A) : good n bytes →
  safe (_ ← _write me (Top n) bytes md force; mret a).
Proof. intros H. apply safe_bind; [by apply safe_write|intros _; apply safe_ret]. Qed.

(** A secret drawn is put to use at once. *)
Lemma safe_draw {A B} (f : nat → A) (k : A → G B) : (∀ n, safe (k (f n))) → safe (a ← draw f; k a).
Proof. intros H r. apply (H (draws r) (mkRun (vault r) (S (draws r)) (clock r) (steps_left r) (broken r))). Qed.

(** A step that keeps every text. *)
Lemma safe_keeps {A} (m : G A) : (∀ ns, moves (keeps ns) m) → safe m.
Proof.
  intros H r r' out E Hs _. split; [|apply (moves_inv _ _ _ _ _ (H []) E)].
  intros n b. rewrite (proj2 (moves_inv _ _ _ _ _ (H [n]) E) n) by (by left). apply Hs.
Qed.

Lemma good_other name bytes : (∀ i, name ≠ key_name i) → name ∉ "admin.password" :: long_secrets → good name bytes.
Proof. intros H1 H2. split; [by intros i Hi%H1|intros Hn; exfalso; apply H2; by right|intros ->; exfalso; apply H2; by left]. Qed.
Lemma key_name_not_long i : key_name i ∉ long_secrets.
Proof.
  unfold long_secrets, key_name, dn_name. intros H. repeat (apply elem_of_cons in H as [H|H]; [discriminate H|]).
  by apply not_elem_of_nil in H.
Qed.
Lemma good_datanode i n : good (key_name i) (urandom32 n).
Proof. split; [intros _ _; apply urandom_length|by intros H%key_name_not_long|done]. Qed.
Lemma hex_is_plain s : all_in is_hex s = true → plain s.
Proof.
  apply all_in_mono. unfold is_hex, plain_char. intros a. rewrite orb_true_iff, !andb_true_iff, !N.leb_le. lia.
Qed.
Lemma good_hex name n : name ∈ long_secrets → good name (token_hex n).
Proof.
  intros Hn. split.
  - intros i ->. by apply key_name_not_long in Hn.
  - intros _. split; [apply hex_is_plain, hex_plain|]. rewrite hex_length. lia.
  - intros ->. unfold long_secrets in Hn. set_solver.
Qed.
Lemma good_urlsafe n : good "admin.password" (token_urlsafe n).
Proof.
  split; [by intros i [=]|intros Hn; unfold long_secrets in Hn; set_solver|].
  intros _. split; [apply urlsafe_plain|]. intros E. pose proof (urlsafe_length n) as H. by rewrite E in H.
Qed.

Lemma good_certificate name bytes : name ∈ certificate_files → good name bytes.
Proof.
  intros Hn. apply good_other.
  - intros i ->. by apply key_name_other in Hn.
  - unfold certificate_files, long_secrets in *. set_solver.
Qed.

Lemma safe_first force n : safe (first_secrets me force n).
Proof.
  unfold first_secrets. apply safe_bind; [|intros _].
  - apply safe_each. intros i. apply safe_draw. intros k. apply safe_write_with, good_datanode.
  - apply safe_draw. intros k. apply safe_write_with, good_hex. unfold long_secrets. set_solver.
Qed.
Lemma safe_auth force own : safe (generate_auth_secrets chown_works me force own).
Proof.
  unfold generate_auth_secrets.
  apply safe_draw. intros k1. apply safe_bind; [apply safe_write, good_hex; unfold long_secrets; set_solver|intros _].
  apply safe_draw. intros k2. apply safe_bind; [apply safe_write, good_urlsafe|intros _].
  apply safe_draw. intros k3. apply safe_bind; [apply safe_write, good_hex; unfold long_secrets; set_solver|intros _].
  apply safe_each. intros name. apply safe_keeps. intros ns. apply keeps_chown.
Qed.

Ltac safe_steps :=
  repeat first
    [ (apply safe_write; apply good_certificate; unfold certificate_files; set_solver)
    | (apply safe_keeps; intros ns; first [apply keeps_draw | apply keeps_read | apply keeps_chown | apply moves_gets, _])
    | apply safe_ret | apply safe_raise
    | apply safe_bind; [|intros ?]
    | match goal with |- safe (match ?x with _ => _ end) => destruct x end ].

Lemma safe_renew_ca b : safe (renew_ca me b).
Proof. unfold renew_ca. safe_steps. Qed.
Lemma safe_renew_node b : safe (renew_node me b).
Proof. unfold renew_node, read_top. safe_steps. Qed.
Lemma safe_generate force own n : safe (generate chown_works me force own n).
Proof.
  unfold generate. apply safe_bind; [apply safe_first|intros _]. safe_steps;
    [apply safe_renew_ca|apply safe_renew_node|].
  apply safe_each. intros name. safe_steps.
Qed.

Lemma safe_main force own datanodes : safe (main chown_works me force own datanodes).
Proof.
  unfold main. destruct (datanodes <? 1)%Z; [apply safe_raise|].
  apply safe_bind; [apply safe_generate|intros _]. apply safe_bind; [apply safe_auth|intros _].
  apply safe_keeps. intros ns. apply sync_keeps.
Qed.

(** * What each role loads *)

Definition node_args : TlsArgs := mkTlsArgs (Some "ca.crt") (Some "node.crt") (Some "node.key").
Definition client_args : TlsArgs := mkTlsArgs (Some "ca.crt") None None.

(** A file of a view, with what it holds. *)
Lemma role_file n v view names name : role n view names → name ∈ names →
  exact_view view names v → is_Some (text v name) → mounted view v name = text v name.
Proof.
  intros Hr Hn He [t Ht]. specialize (He name). rewrite decide_True, Ht in He by done. rewrite Ht.
  unfold mounted, holds in *. by destruct (lookup_place (InView view name) v) as [[f|]|]; simplify_eq/=.
Qed.

(** A node finds its TLS material in a view that has the three files. *)
Lemma view_tls view v ca cert key s :
  mounted view v "ca.crt" = Some ca → mounted view v "node.crt" = Some cert → mounted view v "node.key" = Some key →
  tls_from_args (mounted view v) node_args true s = (s, Ok (Some (mkTls ca (Some cert) (Some key)))).
Proof.
  intros H1 H2 H3. unfold tls_from_args, exits_unless, load_tls, raises_unless. simpl. unfold mbind, M_bind, ensure. simpl.
  unfold mret, M_ret. rewrite H1. simpl. rewrite H2. simpl. by rewrite H3.
Qed.
Lemma view_ca view v ca s : mounted view v "ca.crt" = Some ca →
  tls_from_args (mounted view v) client_args false s = (s, Ok (Some (mkTls ca None None))).
Proof.
  intros H1. unfold tls_from_args, exits_unless, load_tls, raises_unless. simpl. unfold mbind, M_bind, ensure. simpl.
  unfold mret, M_ret. by rewrite H1.
Qed.

(** What a start needs of the secrets of a cluster of [n] DataNodes. *)
Record starts (n : nat) (v : Vault) : Prop := {
  starts_control : ∃ raft jwt admin,
    mounted "control" v "raft.password" = Some raft ∧ load_raft_password raft = Ok raft
    ∧ mounted "control" v "jwt.secret" = Some jwt ∧ load_jwt_secret jwt = Ok jwt
    ∧ mounted "control" v "admin.password" = Some admin ∧ mounted "inspect" v "admin.password" = Some admin
    ∧ load_admin_password admin = Ok admin;
  starts_capability : ∃ cap, mounted "control" v "capability.key" = Some cap ∧ load_capability_key cap = Ok cap
    ∧ ∀ i, 1 ≤ i ≤ n → mounted (dn_name i) v "capability.key" = Some cap;
  starts_tls : ∃ tls, is_server tls = true
    ∧ (∀ s, tls_from_args (mounted "control" v) node_args true s = (s, Ok (Some tls)))
    ∧ (∀ i s, 1 ≤ i ≤ n → tls_from_args (mounted (dn_name i) v) node_args true s = (s, Ok (Some tls)))
    ∧ ∀ view s, view = "client" ∨ view = "inspect" →
        tls_from_args (mounted view v) client_args false s = (s, Ok (Some (mkTls (ca_cert tls) None None)));
  starts_encryption : ∀ i, 1 ≤ i ≤ n → ∃ key, mounted (dn_name i) v (key_name i) = Some key
    ∧ BlockStore.load_encryption_key (Some (bytes_of key)) = Ok (bytes_of key)
}.

Ltac listed := unfold datanode_files, control_files, _NODE_TLS, _AUTH_SECRETS, long_secrets; simpl;
  repeat (first [apply list_elem_of_here | apply list_elem_of_further]).

Lemma sound_starts n v : sound v →
  (∀ view names, role n view names → exact_view view names v ∧ ∀ name, name ∈ names → is_Some (text v name)) → starts n v.
Proof.
  intros Hs P.
  assert (∀ view names name, role n view names → name ∈ names → ∃ t, mounted view v name = Some t ∧ text v name = Some t ∧ good name t) as R.
  { intros view names name Hr Hn. destruct (P _ _ Hr) as [He Ht]. destruct (Ht name Hn) as [t Hname]. exists t.
    rewrite (role_file n v view names name) by (try done; by eexists). split_and!; [done|done|by apply Hs]. }
  assert (∀ view names name t, role n view names → name ∈ names → text v name = Some t → mounted view v name = Some t) as Same.
  { intros view names name t Hr Hn Ht. destruct (R _ _ _ Hr Hn) as (t' & Hm & Ht' & _). congruence. }
  split.
  - destruct (R _ _ "raft.password" (ControlRole n)) as (raft & M1 & _ & G1); [listed|].
    destruct (R _ _ "jwt.secret" (ControlRole n)) as (jwt & M2 & _ & G2); [listed|].
    destruct (R _ _ "admin.password" (ControlRole n)) as (admin & M3 & T3 & G3); [listed|].
    exists raft, jwt, admin. split_and!; try done.
    + destruct (good_long _ _ G1) as [Hp Hl]; [listed|]. by apply plain_loads.
    + destruct (good_long _ _ G2) as [Hp Hl]; [listed|]. by apply plain_loads.
    + by apply (Same _ _ _ _ (InspectRole n)); [listed|].
    + destruct (good_admin _ _ G3) as [Hp Hl]; [done|]. by apply plain_admin.
  - destruct (R _ _ "capability.key" (ControlRole n)) as (cap & M1 & T1 & G1); [listed|]. exists cap. split_and!; [done| |].
    + destruct (good_long _ _ G1) as [Hp Hl]; [listed|]. by apply plain_loads.
    + intros i Hi. by apply (Same _ _ _ _ (DataNodeRole n i Hi)); [listed|].
  - destruct (R _ _ "ca.crt" (ControlRole n)) as (ca & M1 & T1 & _); [listed|].
    destruct (R _ _ "node.crt" (ControlRole n)) as (cert & M2 & T2 & _); [listed|].
    destruct (R _ _ "node.key" (ControlRole n)) as (key & M3 & T3 & _); [listed|].
    exists (mkTls ca (Some cert) (Some key)). split_and!; [done|intros s; by apply view_tls| |].
    + intros i s Hi. apply view_tls; by (apply (Same _ _ _ _ (DataNodeRole n i Hi)); [listed|]).
    + intros view s [-> | ->]; apply view_ca; [by apply (Same _ _ _ _ (ClientRole n)); [listed|]|].
      by apply (Same _ _ _ _ (InspectRole n)); [listed|].
  - intros i Hi. destruct (R _ _ (key_name i) (DataNodeRole n i Hi)) as (key & M1 & _ & G1); [listed|]. exists key. split; [done|].
    unfold BlockStore.load_encryption_key, zlen. pose proof (good_key _ _ G1 i eq_refl) as Hlen.
    rewrite bytes_of_length, Hlen. done.
Qed.

(** C36. A cluster starts on the secrets the script made: after a run that ended each role
    finds in its view what its process loads, and every loader accepts it.  The nodes share
    one TLS certificate and the CA of the clients, and ControlNodes and DataNodes one key of
    the capabilities; each DataNode has a key of 32 bytes.  This holds for any run over
    sound secrets, and a run that ends, fails or is cut anywhere by an exception leaves
    sound secrets.  (One that is killed may not: [torn_secret_stays].) *)
Theorem cluster_starts_on_its_secrets force own datanodes r r' out :
  sound (vault r) → main chown_works me force own datanodes r = (r', out) →
  broken r = Interrupt ∨ out ≠ Err Cut →
  sound (vault r') ∧ (out = Ok tt → starts (Z.to_nat datanodes) (vault r')).
Proof.
  intros Hs H Hb. destruct (safe_main _ _ _ _ _ _ H Hs Hb) as [Hs' _]. split; [done|]. intros ->. by eapply sound_starts, main_synced.
Qed.
End sound.

(** * A toy cryptography *)

(** Texts of bits. *)
Fixpoint bits (p : positive) : string :=
  match p with xH => EmptyString | xO p => String "0" (bits p) | xI p => String "1" (bits p) end.
Fixpoint of_bits (s : string) : positive :=
  match s with
  | EmptyString => xH
  | String a s => if Ascii.eqb a "0" then xO (of_bits s) else xI (of_bits s)
  end.
Lemma of_bits_bits p : of_bits (bits p) = p.
Proof. induction p as [p IH|p IH|]; simpl; by rewrite ?IH. Qed.

Definition cert_fields (c : Cert) : list positive :=
  [encode (subject_name c); encode (issuer_name c); encode (cert_public_key c); encode (serial_number c);
   encode (not_valid_before c); encode (not_valid_after c); encode (basic_ca c); encode (path_length c);
   encode (dns_names c); encode (server_auth c); encode (key_cert_sign c); encode (signed_with c)].
Definition cert_of_fields (l : list positive) : option Cert :=
  match l with
  | [a; b; c; d; e; f; g; h; i; j; k; l] =>
      a ← decode a; b ← decode b; c ← decode c; d ← decode d; e ← decode e; f ← decode f;
      g ← decode g; h ← decode h; i ← decode i; j ← decode j; k ← decode k; l ← decode l;
      Some (mkCert a b c d e f g h i j k l)
  | _ => None
  end.
Lemma cert_of_fields_ok c : cert_of_fields (cert_fields c) = Some c.
Proof. destruct c. unfold cert_fields. cbn. by rewrite !decode_encode. Qed.

#[local] Instance toy_x509 : X509 := {
  ec_key n := "key" +:+ str_of_Z (Z.of_nat n);
  serial_at n := Z.of_nat n;
  public_key k := "public " +:+ k;
  pem_key k := "PEM " +:+ k;
  load_pem_private_key s := match s with String _ (String _ (String _ (String _ k))) => Some k | _ => None end;
  pem_cert c := bits (encode (cert_fields c));
  load_pem_x509_certificate s := l ← decode (of_bits s); cert_of_fields l
}.
#[local] Instance toy_x509_laws : X509Laws.
Proof.
  split.
  - done.
  - intros c. cbn. rewrite of_bits_bits, decode_encode. apply cert_of_fields_ok.
  - intros i j. cbn. rewrite !append_cons, !append_nil_l. intros [= H].
    pose proof (proj2 (str_of_Z_char (Z.of_nat i) ltac:(lia))) as Hi. rewrite H in Hi.
    rewrite (proj2 (str_of_Z_char (Z.of_nat j) ltac:(lia))) in Hi. injection Hi. lia.
Qed.

#[local] Instance toy_randomness : Randomness := {
  urandom32 _ := repeat_str 32 "k";
  token_hex _ := repeat_str 64 "a";
  token_urlsafe _ := repeat_str 24 "Z"
}.
#[local] Instance toy_randomness_laws : RandomnessLaws.
Proof. by split. Qed.

(** An empty directory; [k] actions complete, if any number is given. *)
Definition fresh (k : option nat) (b : cut) : Run := mkRun (mkVault ∅ ∅) 0 1000000 k b.
(** The first run. *)
Definition first_run (k : option nat) (b : cut) : Run * result failure unit :=
  main true (1000%Z, 1000%Z) false None 3 (fresh k b).
Definition whole_run : Run := (first_run None Interrupt).1.

Lemma empty_fits : fits (mkVault ∅ ∅).
Proof. split; split; try done; by intros [? ?]. Qed.
Lemma empty_sound : sound (mkVault ∅ ∅).
Proof. by intros n b. Qed.

(** The run after it. *)
Definition next_start (r : Run) : Run := mkRun (vault r) 100 2000000 None Interrupt.
Lemma next_vault r : vault (next_start r) = vault r.
Proof. done. Qed.
Definition next_run (own : option (Z * Z)) (r : Run) : Run * result failure unit :=
  main true (1000%Z, 1000%Z) false own 3 (next_start r).

Lemma run_ok {A} (p : Run * result failure A) a : p.2 = Ok a → p = (p.1, Ok a).
Proof. destruct p. simpl. by intros ->. Qed.
Lemma whole_run_ok : first_run None Interrupt = (whole_run, Ok tt).
Proof. assert ((first_run None Interrupt).2 = Ok tt) as E by (by vm_compute). exact (run_ok _ _ E). Qed.

(** A first run interrupted while it wrote the key of the nodes, and the run after it. *)
Lemma certificates_survive_interrupts_witness :
  let cut_run := first_run (Some 13) Interrupt in
  let next := next_run None cut_run.1 in
  cut_run.2 = Err Cut ∧ text (vault cut_run.1) "ca.crt" ≠ None ∧ text (vault cut_run.1) "node.key" = None ∧
  fits (vault cut_run.1) ∧ next.2 = Ok tt ∧
  ∃ crt cert ca c, text (vault next.1) "ca.crt" = Some crt ∧ text (vault next.1) "node.crt" = Some cert
    ∧ load_pem_x509_certificate crt = Some ca ∧ load_pem_x509_certificate cert = Some c ∧ accepts ca c.
Proof.
  intros cut_run next.
  assert (fits (vault cut_run.1)) as F.
  { refine (proj1 (certificates_survive_interrupts true (1000%Z, 1000%Z) false None 3 (fresh (Some 13) Interrupt)
      cut_run.1 cut_run.2 _) eq_refl eq_refl empty_fits). apply surjective_pairing. }
  assert (next.2 = Ok tt) as E by (by vm_compute).
  split; [by vm_compute|]. split; [by vm_compute|]. split; [by vm_compute|]. split; [exact F|]. split; [exact E|].
  assert (main true (1000%Z, 1000%Z) false None 3 (next_start cut_run.1) = (next.1, next.2)) as R by (apply surjective_pairing).
  assert (paired (vault (next_start cut_run.1))) as P by (rewrite next_vault; apply (fits_paired _ F)).
  destruct (proj2 (certificates_survive_interrupts true (1000%Z, 1000%Z) false None 3 (next_start cut_run.1) next.1 next.2 R) E (or_intror P))
    as (crt & key & cert & nkey & ca & c & n & H1 & _ & H3 & _ & H5 & H6 & H7 & _).
  exists crt, cert, ca, c. exact (conj H1 (conj H3 (conj H5 (conj H6 H7)))).
Defined.

Lemma each_role_sees_its_own_witness :
  mounted "client" (vault whole_run) "ca.crt" ≠ None ∧
  mounted "control" (vault whole_run) "jwt.secret" = Some (repeat_str 64 "a") ∧
  holds (InView "dn1" "jwt.secret") (vault whole_run) = None.
Proof.
  destruct (each_role_sees_its_own _ _ _ _ _ _ _ whole_run_ok) as (_ & H & _).
  split; [by vm_compute|]. split; [by vm_compute|].
  assert (1 ≤ 1 ≤ Z.to_nat 3) as Hi by lia. specialize (H 1 Hi). rewrite !Forall_cons in H. apply H.
Defined.

(** The run after one that an exception cut in the middle of the password of Raft. *)
Lemma cluster_starts_on_its_secrets_witness :
  let cut_run := first_run (Some 7) Interrupt in
  let next := next_run None cut_run.1 in
  cut_run.2 = Err Cut ∧ sound (vault cut_run.1) ∧ next.2 = Ok tt ∧ starts 3 (vault next.1).
Proof.
  intros cut_run next.
  assert (sound (vault cut_run.1)) as F.
  { refine (proj1 (cluster_starts_on_its_secrets true (1000%Z, 1000%Z) false None 3 (fresh (Some 7) Interrupt)
      cut_run.1 cut_run.2 empty_sound _ (or_introl eq_refl))). apply surjective_pairing. }
  assert (next.2 = Ok tt) as E by (by vm_compute).
  split; [by vm_compute|]. split; [exact F|]. split; [exact E|].
  assert (main true (1000%Z, 1000%Z) false None 3 (next_start cut_run.1) = (next.1, next.2)) as R by (apply surjective_pairing).
  assert (sound (vault (next_start cut_run.1))) as P by (rewrite next_vault; exact F).
  exact (proj2 (cluster_starts_on_its_secrets true (1000%Z, 1000%Z) false None 3 (next_start cut_run.1) next.1 next.2
    P R (or_introl eq_refl)) E).
Defined.

(** A second run for the same user, and one for another who then has everything. *)
Lemma second_run_changes_nothing_witness :
  (∃ r, next_run None whole_run = (r, Ok tt) ∧ vault r = vault whole_run) ∧
  (∃ r, next_run (Some (5%Z, 5%Z)) whole_run = (r, Ok tt) ∧ unowned (vault r) = unowned (vault whole_run) ∧ owned 3 (5%Z, 5%Z) (vault r)).
Proof.
  split.
  - destruct (second_run_changes_nothing true (1000%Z, 1000%Z) false None None 3 (fresh None Interrupt) whole_run (next_start whole_run)
      whole_run_ok (next_vault _) eq_refl) as (r & E & _ & H & _). exists r. split; [exact E|]. apply H. by right; left.
  - destruct (second_run_changes_nothing true (1000%Z, 1000%Z) false None (Some (5%Z, 5%Z)) 3 (fresh None Interrupt) whole_run (next_start whole_run)
      whole_run_ok (next_vault _) eq_refl) as (r & E & U & _ & O). exists r. split; [exact E|]. split; [exact U|]. by apply O.
Defined.

(** * A machine that stops *)

(** A replacement of every secret ([--force]) on a machine that stops before the key of the
    nodes is opened, and the run after it. *)
Definition replaced : Run :=
  (main true (1000%Z, 1000%Z) true None 3 (mkRun (vault whole_run) 100 2000000 (Some 12) (Killed 0))).1.
Definition started_again : Run * result failure unit :=
  main true (1000%Z, 1000%Z) false None 3 (mkRun (vault replaced) 200 3000000 None (Killed 0)).

(** The run after it ends well and keeps the certificate of the old CA, which the new one
    does not accept: only missing files are looked for. *)
Example stale_certificate_stays : started_again.2 = Ok tt ∧
  ∃ crt cert ca c, text (vault started_again.1) "ca.crt" = Some crt ∧ text (vault started_again.1) "node.crt" = Some cert
    ∧ load_pem_x509_certificate crt = Some ca ∧ load_pem_x509_certificate cert = Some c ∧ ¬ accepts ca c.
Proof.
  split; [by vm_compute|]. eexists _, _, _, _. split; [by vm_compute|]. split; [by vm_compute|].
  split; [by vm_compute|]. split; [by vm_compute|]. intros (_ & _ & _ & H & _). vm_compute in H. discriminate H.
Qed.

(** A first run that is killed after it opened the file of the password of Raft leaves it
    empty; the run after it ends well, keeps it and hands it to the ControlNodes, which
    do not start on it. *)
Example torn_secret_stays :
  let killed := (first_run (Some 7) (Killed 0)).1 in
  let next := next_run None killed in
  next.2 = Ok tt ∧ mounted "control" (vault next.1) "raft.password" = Some "" ∧ ∃ e, load_raft_password "" = Err e.
Proof. split; [by vm_compute|]. split; [by vm_compute|]. by eexists. Qed.
