(* ===== verification/Inspect.v ===== *)
(** The inspector of a cluster (scripts/inspect_cluster.py): who leads, the tree, the blocks
    of a file and the state of each replica, the partition, and the blocks on disk that no
    visible file uses.

    The tool is a program over the interface [Inspected]: a call to a ControlNode, a ping
    and a read of a block of a DataNode.  A gRPC error is its code and its details.  What it
    prints is the list of its lines; the terminal is the passwords somebody types, [None]
    when it is no terminal.  Durations are whole seconds.  [recursion_limit] is how deep a
    function may call itself.

    After the tool: what it lists over a leader that answers from one tree
    ([LeaderShows]), the handlers of the ControlNode as such a leader ([handlers_show]),
    and how its orphans relate to what the collector deletes. *)

From Stdlib Require Import QArith.
From S2P Require Import Prelude Exceptions Dict Paths TreeData Tree TreeFacts TreeInv TreeRefs Crypto BlockToken Addresses Auth ShellWords.
From S2P Require Import Servicer Handlers Session Tls NodeMain ServicerProps ServicerUpload ClusterWorld.
From S2P Require Replicated Collector.

Local Open Scope nat_scope.

Record Failure := mkFailure { f_code : StatusCode; f_details : string }.

Notation Metadata := (list (string * string)).

Class Inspected (W : Type) := {
  node_rpc (address : string) (md : Metadata) (r : request) : W → W * result Failure (answer_of r);
  datanode_ping (address : string) : W → W * result Failure unit;
  datanode_read (address bid capability : string) : W → W * result Failure (list (list Z))
}.

(** How a command stops: [sys.exit] with a text, an [RpcError], or another exception. *)
Inductive stop := SysExit (text : string) | Rpc (f : Failure) | Crash.

(** The globals of the script, the terminal and what was printed. *)
Record Tool (W : Type) := mkTool {
  t_world : W;
  t_username : string;
  t_credentials : option (string * string);
  t_metadata : Metadata;
  t_keyboard : option (list string);
  t_out : list string
}.
Arguments mkTool {W}.
Arguments t_world {W}. Arguments t_username {W}. Arguments t_credentials {W}.
Arguments t_metadata {W}. Arguments t_keyboard {W}. Arguments t_out {W}.

Definition NEEDS_CREDENTIALS : string := "requiere credenciales".
Definition DEFAULT_CN : string := "cn0:50051,cn1:50051,cn2:50051".

Definition _split (value : string) : list string :=
  filter (λ v, v ≠ "") (str_strip <$> split_on comma value).

(** [needle in s]. *)
Fixpoint occurs (needle s : string) : bool :=
  String.prefix needle s || match s with EmptyString => false | String _ s' => occurs needle s' end.

Definition code_name (c : StatusCode) : string :=
  match c with
  | UNKNOWN => "UNKNOWN" | INVALID_ARGUMENT => "INVALID_ARGUMENT" | DEADLINE_EXCEEDED => "DEADLINE_EXCEEDED"
  | NOT_FOUND => "NOT_FOUND" | ALREADY_EXISTS => "ALREADY_EXISTS" | PERMISSION_DENIED => "PERMISSION_DENIED"
  | FAILED_PRECONDITION => "FAILED_PRECONDITION" | ABORTED => "ABORTED" | UNIMPLEMENTED => "UNIMPLEMENTED"
  | UNAVAILABLE => "UNAVAILABLE" | DATA_LOSS => "DATA_LOSS" | UNAUTHENTICATED => "UNAUTHENTICATED"
  end.

(** [f"{n / d:.1f}"]: to the tenth, ties to even; the divisions by 1024 are exact below 2^53. *)
Definition one_decimal (n d : Z) : string :=
  let q := (10 * n / d)%Z in let r := (10 * n mod d)%Z in
  let t := if ((d <? 2 * r) || ((2 * r =? d) && Z.odd q))%Z then (q + 1)%Z else q in
  str_of_Z (t / 10) +:+ "." +:+ str_of_Z (t mod 10).
Definition human (n : Z) : string :=
  if (n <? 1024)%Z then str_of_Z n +:+ " B"
  else if (n <? 1024 ^ 2)%Z then one_decimal n 1024 +:+ " KB"
  else if (n <? 1024 ^ 3)%Z then one_decimal n (1024 ^ 2) +:+ " MB"
  else if (n <? 1024 ^ 4)%Z then one_decimal n (1024 ^ 3) +:+ " GB"
  else one_decimal n (1024 ^ 4) +:+ " TB".

Definition short (address : string) : string :=
  if starts_with "localhost" address then last_str (split_on colon address)
  else default "" (head (split_on colon address)).

(** [f"{s:^width}"]. *)
Definition centered (width : nat) (s : string) : string :=
  let pad := width - ShellWords.char_count s in repeat_str (pad / 2) " " +:+ s +:+ repeat_str (pad - pad / 2) " ".

Definition newline : string := String "010" "".

Section inspector.
Context {W : Type} {IN : Inspected W} (recursion_limit : nat).

Notation I := (M (Tool W) stop).

Definition with_world (w : W) (t : Tool W) : Tool W :=
  mkTool w (t_username t) (t_credentials t) (t_metadata t) (t_keyboard t) (t_out t).
Definition with_token (md : Metadata) (t : Tool W) : Tool W :=
  mkTool (t_world t) (t_username t) (t_credentials t) md (t_keyboard t) (t_out t).
Definition with_credentials (c : option (string * string)) (k : option (list string)) (t : Tool W) : Tool W :=
  mkTool (t_world t) (t_username t) c (t_metadata t) k (t_out t).
Definition say (text : string) : I unit :=
  modify (λ t, mkTool (t_world t) (t_username t) (t_credentials t) (t_metadata t) (t_keyboard t) (t_out t ++ [text])).

(** A call whose [RpcError] is caught, and one whose is not. *)
Definition attempt {A} (f : W → W * result Failure A) : I (result Failure A) := λ t,
  let out := f (t_world t) in (with_world out.1 t, Ok out.2).
Definition answer {A} (f : W → W * result Failure A) : I A :=
  a ← attempt f;
  match a with Ok x => mret x | Err e => raise (Rpc e) end.

Fixpoint collect {A B} (m : A → I B) (l : list A) : I (list B) :=
  match l with
  | [] => mret []
  | x :: l' => b ← m x; bs ← collect m l'; mret (b :: bs)
  end.
Definition for_each {A} (m : A → I unit) (l : list A) : I unit := _ ← collect m l; mret tt.

(** * Roles *)

Definition _ask_password (reason : string) : I bool :=
  keys ← gets t_keyboard;
  match keys with
  | None => mret false
  | Some [] => raise Crash
  | Some (typed :: rest) =>
      user ← gets t_username;
      _ ← modify (with_credentials (Some (user, typed)) (Some rest));
      mret true
  end.

(** What the answer to a probe says of a node; [None]: the cluster has no authentication. *)
Definition role_of (with_login : bool) (f : Failure) : option string :=
  if bool_decide (f_code f = UNAVAILABLE) && occurs "no es el líder" (f_details f) then Some "seguidor"
  else if bool_decide (f_code f = UNAVAILABLE) && occurs "confirmar el liderazgo" (f_details f) then Some "líder SIN mayoría"
  else if bool_decide (f_code f = UNAUTHENTICATED) then Some NEEDS_CREDENTIALS
  else if with_login && bool_decide (f_code f = UNIMPLEMENTED) then None
  else Some "CAÍDO".

Definition probe_listing (address : string) : I string :=
  a ← attempt (node_rpc address [] (RListDir "/"));
  mret (match a with Ok _ => "LIDER" | Err f => default "CAÍDO" (role_of false f) end).

Definition probe (address : string) (with_login : bool) : I string :=
  if with_login then
    creds ← gets t_credentials;
    match creds with
    | None => raise Crash
    | Some (user, password) =>
        a ← attempt (node_rpc address [] (RLogin user password));
        match a with
        | Ok r => _ ← modify (with_token [("authorization", "Bearer " +:+ lr_token r)]); mret "LIDER"
        | Err f => match role_of true f with Some role => mret role | None => probe_listing address end
        end
    end
  else probe_listing address.

Definition probe_all (cn_addresses : list string) : I (list string) :=
  collect (λ address, creds ← gets t_credentials; probe address (bool_decide (creds ≠ None))) cn_addresses.

Definition rejected (user : string) : stop :=
  SysExit ("credenciales del inspector rechazadas para el usuario " +:+ user).

Definition roles (cn_addresses : list string) : I (list string) :=
  found ← probe_all cn_addresses;
  if negb (bool_decide (NEEDS_CREDENTIALS ∈ found)) then mret found
  else
    creds ← gets t_credentials;
    let had_credentials := bool_decide (creds ≠ None) in
    asked ← _ask_password (if had_credentials then "La contraseña guardada fue rechazada" else "El clúster pide credenciales");
    found ← (if (asked : bool) then probe_all cn_addresses else mret found);
    if (asked || had_credentials) && bool_decide (NEEDS_CREDENTIALS ∈ found)
    then user ← gets t_username; raise (rejected user)
    else mret found.

Definition no_credentials_text : string :=
  "El clúster pide credenciales: pasa --password-file, o corre el inspector en una terminal.".

(** The first address whose role is [LIDER]. *)
Definition leader_among (cn_addresses found : list string) : option string :=
  fst <$> head (filter (λ ar, ar.2 = "LIDER") (zip cn_addresses found)).

(** The stub of the leader is its address. *)
Definition leader_stub (cn_addresses : list string) : I string :=
  found ← roles cn_addresses;
  match leader_among cn_addresses found with
  | Some address => mret address
  | None =>
      raise (SysExit (if bool_decide (NEEDS_CREDENTIALS ∈ found) then no_credentials_text
                      else "No hay líder: ¿están caídos 2 de los 3 ControlNodes? Raft necesita mayoría."))
  end.

(** * The tree *)

Definition child_of (path name : string) : string := rstrip slash path +:+ "/" +:+ name.

Fixpoint walk (limit : nat) (stub path : string) : I (list (string * bool * Z)) :=
  match limit with
  | O => raise Crash
  | S limit' =>
      md ← gets t_metadata;
      entries ← answer (node_rpc stub md (RListDir path));
      rows ← collect (λ e : DirEntryData,
        let child := child_of path (e_name e) in
        below ← (if e_is_dir e then walk limit' stub child else mret []);
        mret ((child, e_is_dir e, e_size_bytes e) :: below)) entries;
      mret (concat rows)
  end.

Definition INTERNAL_VIEW_METADATA : Metadata := [(ADDRESS_VIEW_METADATA_KEY, INTERNAL_VIEW)].

Definition blocks_of (stub path : string) : I (list BlockInfo) :=
  md ← gets t_metadata;
  answer (node_rpc stub (md ++ INTERNAL_VIEW_METADATA) (RListBlocks path)).

Definition replica_status (address block_id expected_checksum capability : string) : I string :=
  a ← attempt (datanode_read address block_id capability);
  mret (match a with
        | Ok chunks => if bool_decide (hexdigest (sha256 (concat chunks)) = expected_checksum) then "ok" else "sha distinto"
        | Err f =>
            match f_code f with
            | UNAVAILABLE => "caído"
            | NOT_FOUND => "NO TIENE el bloque"
            | DATA_LOSS => "CORRUPTO"
            | code => code_name code
            end
        end).

(** * Commands *)

(** [enumerate(l)]. *)
Definition enumerated {A} (l : list A) : list (nat * A) := imap pair l.
Definition str_of_nat (n : nat) : string := str_of_Z (Z.of_nat n).

Definition cmd_estado (control_nodes datanodes : string) : I unit :=
  let cns := _split control_nodes in
  let dns := _split datanodes in
  _ ← say (newline +:+ "CONTROLNODES (clúster Raft)");
  found ← roles cns;
  _ ← for_each (λ iar : nat * (string * string),
        say ("  " +:+ (if decide (iar.2.2 = "LIDER") then "★" else " ") +:+ " cn" +:+ str_of_nat iar.1 +:+ "  "
             +:+ pad_right 22 iar.2.1 +:+ " " +:+ iar.2.2)) (enumerated (zip cns found));
  _ ← say (newline +:+ "DATANODES");
  _ ← for_each (λ ia : nat * string,
        a ← attempt (datanode_ping ia.2);
        say ("    dn" +:+ str_of_nat (S ia.1) +:+ "  " +:+ pad_right 22 ia.2 +:+ " "
             +:+ (if is_ok a then "vivo" else "CAÍDO"))) (enumerated dns);
  say "".

Definition cmd_lider (control_nodes : string) : I unit :=
  found ← roles (_split control_nodes);
  match leader_among (_split control_nodes) found with
  | Some address => say (short address)
  | None => raise (SysExit (if bool_decide (NEEDS_CREDENTIALS ∈ found) then no_credentials_text else "no hay líder"))
  end.

(** [s.count(c)]. *)
Definition count_char (c : ascii) (s : string) : nat := length (filter (λ a, a = c) (String.list_ascii_of_string s)).

Definition cmd_arbol (control_nodes : string) : I unit :=
  address ← leader_stub (_split control_nodes);
  _ ← say (newline +:+ "Árbol según el líder (" +:+ address +:+ ")" +:+ newline +:+ "/");
  rows ← walk recursion_limit address "/";
  _ ← for_each (λ row : string * bool * Z,
        let '(path, is_dir, size) := row in
        let depth := (Z.of_nat (count_char slash path) - 1)%Z in
        say (repeat_str (Z.to_nat depth) "   " +:+ (if (0 <=? depth)%Z then "├─ " else "") +:+ last_str (split_on slash path)
             +:+ (if is_dir then "/" else "   (" +:+ human size +:+ ")"))) rows;
  say "".

(** One replica of a block: its state and its cell of the table. *)
Definition replica_cell (verify : bool) (b : BlockInfo) (pa : nat * string) : I (string * string) :=
  status ← (if verify then replica_status pa.2 (i_id b) (i_checksum b) (i_capability b) else mret "?");
  mret (status, short pa.2 +:+ "[" +:+ (if decide (pa.1 = 0) then "cabeza" else "réplica " +:+ str_of_nat (S pa.1))
                +:+ "]=" +:+ status).
Definition without_live_replica (statuses : list string) : bool :=
  bool_decide (statuses ≠ []) && negb (existsb (λ s, bool_decide (s = "ok")) statuses).

Definition cmd_bloques (control_nodes ruta : string) (sin_verificar : bool) : I unit :=
  stub ← leader_stub (_split control_nodes);
  blocks ← blocks_of stub ruta;
  _ ← say (newline +:+ ruta +:+ "  →  " +:+ human (sumZ (i_size <$> blocks)) +:+ " en " +:+ str_of_nat (length blocks)
           +:+ " bloque(s)" +:+ newline);
  _ ← say ("  " +:+ pad_left 3 "#" +:+ "  " +:+ pad_right 10 "block_id" +:+ " " +:+ pad_left 9 "tamaño"
           +:+ "   réplicas (orden de pipeline) → estado verificado por SHA-256");
  _ ← say ("  " +:+ repeat_str 96 "─");
  _ ← for_each (λ ib : nat * BlockInfo,
        cells ← collect (replica_cell (negb sin_verificar) ib.2) (enumerated (i_addresses ib.2));
        say ("  b" +:+ pad_right 2 (str_of_nat ib.1) +:+ "  " +:+ pad_right 10 (String.substring 0 8 (i_id ib.2)) +:+ " "
             +:+ pad_left 9 (human (i_size ib.2)) +:+ "   " +:+ join "  " cells.*2
             +:+ (if without_live_replica cells.*1 then "  ← SIN RÉPLICA VIVA" else ""))) (enumerated blocks);
  _ ← say (match blocks with b :: _ => newline +:+ "  checksum registrado del b0: " +:+ i_checksum b | [] => "" end);
  say "".

(** A row of the partition: the cells, and the counters with the copies of the block. *)
Definition map_cell (b : BlockInfo) (address : string) : string :=
  if decide (address ∈ i_addresses b) then centered 11 (if decide (head (i_addresses b) = Some address) then "C" else "r")
  else centered 11 "·".
Definition count_block (dns : list string) (b : BlockInfo) (per_node : list (string * Z)) : list (string * Z) :=
  foldl (λ d address, if decide (address ∈ i_addresses b) then dict_alter address (λ n, n + 1)%Z d else d) per_node dns.

Definition cmd_mapa (control_nodes datanodes : string) : I unit :=
  let dns := _split datanodes in
  stub ← leader_stub (_split control_nodes);
  rows ← walk recursion_limit stub "/";
  let files := (λ row : string * bool * Z, row.1.1) <$> filter (λ row : string * bool * Z, row.1.2 = false) rows in
  match files with
  | [] => say (newline +:+ "(no hay archivos)" +:+ newline)
  | _ =>
      let header := join " " (centered 11 <$> (short <$> dns)) in
      let rule := "  " +:+ repeat_str (30 + ShellWords.char_count header) "─" in
      _ ← say (newline +:+ "MAPA DE PARTICIONAMIENTO  (C = cabeza del pipeline, r = réplica, · = no está)" +:+ newline);
      _ ← say ("  " +:+ pad_right 29 "archivo / bloque" +:+ " " +:+ header);
      _ ← say rule;
      counted ← collect (λ path,
        _ ← say ("  " +:+ path);
        blocks ← blocks_of stub path;
        _ ← for_each (λ ib : nat * BlockInfo,
              say ("    b" +:+ pad_right 3 (str_of_nat ib.1) +:+ String.substring 0 8 (i_id ib.2) +:+ "  "
                   +:+ pad_left 9 (human (i_size ib.2)) +:+ "     " +:+ join " " (map_cell ib.2 <$> dns))) (enumerated blocks);
        mret blocks) files;
      let per_node := foldl (λ d b, count_block dns b d) (foldl (λ d a, dict_set a 0%Z d) [] dns) (concat counted) in
      _ ← say rule;
      _ ← say ("  " +:+ pad_right 29 "bloques por DataNode" +:+ " "
               +:+ join " " ((λ a, centered 11 (str_of_Z (default 0%Z (dict_get a per_node)))) <$> dns));
      say ""
  end.

(** [assigned.setdefault(block_id, set()).update(addresses)]. *)
Definition assign (b : BlockInfo) (assigned : gmap string (gset string)) : gmap string (gset string) :=
  <[i_id b := default ∅ (assigned !! i_id b) ∪ list_to_set (i_addresses b)]> assigned.
Definition assigned_blocks (stub : string) : I (gmap string (gset string)) :=
  rows ← walk recursion_limit stub "/";
  found ← collect (λ row : string * bool * Z, if row.1.2 then mret [] else blocks_of stub row.1.1) rows;
  mret (foldl (λ d b, assign b d) ∅ (concat found)).

(** Stored blocks: identifier, size and age. *)
Notation Stored := (string * Z * Z)%type.
Definition unused_at (assigned : gmap string (gset string)) (address : string) (stored : list Stored) : list Stored :=
  filter (λ b : Stored, address ∉ default ∅ (assigned !! b.1.1)) stored.
Definition candidates_at (assigned : gmap string (gset string)) (gracia_s : Z) (address : string) (stored : list Stored) : list Stored :=
  filter (λ b : Stored, (gracia_s <= b.2)%Z) (unused_at assigned address stored).

(** The line of a DataNode and its candidates; none when it does not answer. *)
Definition orphans_of (stub : string) (assigned : gmap string (gset string)) (gracia_s : Z) (limite : nat) (address : string)
    : I (list Stored) :=
  md ← gets t_metadata;
  a ← attempt (node_rpc stub md (RDataNodeInventory address));
  match a with
  | Err f => _ ← say ("  " +:+ pad_right 8 (short address) +:+ " no responde (" +:+ code_name (f_code f) +:+ ")"); mret []
  | Ok stored =>
      let unused := unused_at assigned address stored in
      let young := filter (λ b : Stored, (b.2 < gracia_s)%Z) unused in
      let candidates := candidates_at assigned gracia_s address stored in
      _ ← say ("  " +:+ pad_right 8 (short address) +:+ " " +:+ pad_left 4 (str_of_nat (length stored)) +:+ " en disco   "
               +:+ pad_left 4 (str_of_nat (length stored - length unused)) +:+ " en uso   "
               +:+ pad_left 4 (str_of_nat (length young)) +:+ " sin uso visible y jóvenes   "
               +:+ pad_left 4 (str_of_nat (length candidates)) +:+ " a borrar ("
               +:+ human (sumZ ((λ b : Stored, b.1.2) <$> candidates)) +:+ ")");
      _ ← for_each (λ b : Stored, say ("      a borrar " +:+ b.1.1 +:+ "  (" +:+ str_of_Z b.2 +:+ " s)")) (take limite candidates);
      mret candidates
  end.
Definition total_line (total : nat) : string :=
  newline +:+ "  Total a borrar en el próximo ciclo del recolector: " +:+ str_of_nat total +:+ newline.

Definition cmd_huerfanos (control_nodes datanodes : string) (gracia_s : Z) (limite : nat) : I unit :=
  stub ← leader_stub (_split control_nodes);
  assigned ← assigned_blocks stub;
  _ ← say (newline +:+ "Bloques en uso por archivos visibles: " +:+ str_of_nat (size assigned)
           +:+ "   (gracia del recolector: " +:+ str_of_Z gracia_s +:+ " s)" +:+ newline);
  found ← collect (orphans_of stub assigned gracia_s limite) (_split datanodes);
  say (total_line (length (concat found))).

(** * main *)

Inductive subcommand :=
| Estado | Lider | Arbol | Bloques (ruta : string) (sin_verificar : bool) | Mapa | Huerfanos (gracia_s : Z) (limite : nat).
Record InspectArgs := mkInspectArgs {
  ia_control_nodes : string;
  ia_datanodes : string;
  ia_username : string;
  ia_password_file : option string;
  ia_tls_ca_file : option string;
  ia_cmd : subcommand
}.

Definition run_command (args : InspectArgs) : I unit :=
  match ia_cmd args with
  | Estado => cmd_estado (ia_control_nodes args) (ia_datanodes args)
  | Lider => cmd_lider (ia_control_nodes args)
  | Arbol => cmd_arbol (ia_control_nodes args)
  | Bloques ruta sin => cmd_bloques (ia_control_nodes args) ruta sin
  | Mapa => cmd_mapa (ia_control_nodes args) (ia_datanodes args)
  | Huerfanos gracia limite => cmd_huerfanos (ia_control_nodes args) (ia_datanodes args) gracia limite
  end.

Context (read_bytes : string → option string).

(** The stored password: a file that cannot be read is no password. *)
Definition stored_credentials (args : InspectArgs) : result stop (option (string * string)) :=
  match ia_password_file args with
  | Some file =>
      if decide (file = "") then Ok None
      else
        match read_bytes file with
        | None => Ok None
        | Some content =>
            match read_text content with
            | Ok text => Ok (Some (ia_username args, str_strip text))
            | Err _ => Err Crash
            end
        end
  | None => Ok None
  end.

(** [except grpc.RpcError] of [main]. *)
Definition reporting (m : I unit) : I unit := λ t,
  match m t with
  | (t', Err (Rpc f)) =>
      (t', Err (SysExit (newline +:+ "  ✗ " +:+ code_name (f_code f) +:+ ": " +:+ f_details f +:+ newline)))
  | out => out
  end.

Definition inspect_main (args : InspectArgs) : I unit :=
  _ ← (if truthy (ia_tls_ca_file args)
       then ensure (bool_decide (read_bytes (default "" (ia_tls_ca_file args)) ≠ None)) Crash else mret tt);
  creds ← lift (stored_credentials args);
  _ ← modify (λ t : Tool W, mkTool (t_world t) (ia_username args) creds (t_metadata t) (t_keyboard t) (t_out t));
  reporting (run_command args).
End inspector.

(** * Paths *)

Lemma rstrip_nochar c s : s ≠ "" → has_char c s = false → rstrip c s = s.
Proof.
  induction s as [|a s IH]; [done|]. intros _. simpl. intros [Ha Hs]%orb_false_iff.
  destruct s as [|b s]; [simpl; by rewrite Ha|]. by rewrite IH.
Qed.
Lemma rstrip_append c a b : b ≠ "" → has_char c b = false → rstrip c (a +:+ b) = a +:+ b.
Proof.
  intros Hb Hc. induction a as [|x a IH]; [by apply rstrip_nochar|]. rewrite append_cons. simpl. rewrite IH.
  destruct (a +:+ b) eqn:E; [|done]. destruct a; [done|discriminate E].
Qed.

Lemma path_snoc ps x : path_of (ps ++ [x]) = (if decide (ps = []) then "" else path_of ps) +:+ "/" +:+ x.
Proof.
  unfold path_of. destruct ps as [|p ps]; [done|]. rewrite decide_False by done. rewrite append_assoc. f_equal.
  revert p. induction ps as [|q ps IH]; intros p; [done|].
  change ((p :: q :: ps) ++ [x]) with (p :: q :: (ps ++ [x])). rewrite !join_cons2, !append_assoc. do 2 f_equal. apply (IH q).
Qed.

(** A child of a directory, as [walk] writes its path. *)
Lemma child_of_path ps x : Forall comp_ok ps → child_of (path_of ps) x = path_of (ps ++ [x]).
Proof.
  intros Hps. unfold child_of. rewrite path_snoc. f_equal.
  destruct ps as [|p ps] using rev_ind; [done|]. clear IHps. rewrite decide_False by (by destruct ps).
  apply Forall_app in Hps as [_ [(H1 & _ & H3) _]%Forall_cons].
  rewrite path_snoc, <-append_assoc. by apply rstrip_append.
Qed.

(** * Depth of a tree *)

Fixpoint height (n : node) : nat :=
  match n with
  | FileN _ => 1
  | DirN d => S (list_max (map (λ kv, height kv.2) (children d)))
  end.

Lemma height_child d x c : dict_get x (children d) = Some c → height c < height (DirN d).
Proof.
  intros H%dict_get_elem. cbn [height]. apply Nat.lt_succ_r.
  assert (Forall (λ k, k ≤ list_max (map (λ kv, height kv.2) (children d))) (map (λ kv, height kv.2) (children d))) as Hall.
  { apply list.Forall_forall. intros k Hk. apply list_elem_of_In in Hk.
    pose proof (proj1 (list_max_le (map (λ kv, height kv.2) (children d)) _) (le_n _)) as Hm.
    by apply (proj1 (List.Forall_forall _ _) Hm). }
  rewrite Forall_forall in Hall. apply Hall. apply list_elem_of_In, in_map_iff. exists (x, c). split; [done|]. by apply list_elem_of_In.
Qed.

(** * A cycle of the collector *)

(** The inventory of nodes that all answer as they are asked, whatever the capability. *)
Lemma inventory_all cfg w f addrs stored :
  (∀ a md, a ∈ addrs → Collector.w_list w a md = f a) → NoDup (stored.*1 ++ addrs) →
  Collector.inventory cfg w addrs stored = Ok (stored ++ omap (λ a, (λ bl, (a, bl)) <$> f a) addrs).
Proof.
  revert stored. induction addrs as [|a addrs IH]; intros stored Hf Hnd; simpl; [by rewrite app_nil_r|].
  destruct (Collector.list_kwargs_ok cfg (Collector.w_list_time w a)) as [md ->]. unfold mbind, result_bind.
  rewrite Hf by left. apply NoDup_app in Hnd as (Hs & Hd & Ha). apply NoDup_cons in Ha as [Ha Hn].
  destruct (f a) as [bl|]; simpl.
  - assert (a ∉ stored.*1) as Hnew by (intros Hin; apply (Hd a Hin); by left).
    rewrite Replicated.dict_set_fresh by (by apply dict_get_None). rewrite IH; [by rewrite <-app_assoc| |].
    + intros a' md' Ha'. apply Hf. by right.
    + rewrite fmap_app. simpl. rewrite <-app_assoc. simpl. apply NoDup_app. split_and!; [done|set_solver|by apply NoDup_cons].
  - apply IH; [intros a' md' Ha'; apply Hf; by right|]. apply NoDup_app. split_and!; [done|set_solver|done].
Qed.

Lemma flatten_answers (f : string → option (list (string * Z))) addrs :
  Collector.flatten (omap (λ a, (λ bl, (a, bl)) <$> f a) addrs) = concat ((λ a, (λ b, (a, b)) <$> default [] (f a)) <$> addrs).
Proof.
  unfold Collector.flatten. induction addrs as [|a addrs IH]; [done|]. csimpl. rewrite <-IH.
  destruct (f a) as [bl|]; done.
Qed.

(** A sweep that stays leader and can sign deletes every copy that is unused and old. *)
Definition sweeps (cfg : Collector.GcConfig) (w : Collector.GcWorld) (refs : Refs) (x : string * (string * Z)) : Prop :=
  Collector.is_referenced refs x.1 x.2.1 = false ∧ (x.2.1, x.1) ∉ Collector.w_in_flight w ∧ (Collector.gc_grace_s cfg <= x.2.2)%Z.
#[local] Instance sweeps_dec cfg w refs x : Decision (sweeps cfg w refs x).
Proof. unfold sweeps. apply _. Defined.

Lemma sweep_all cfg w refs items n :
  (∀ k, Collector.w_leader_at w k = true) →
  (∀ x k, x ∈ items → ∃ md, Collector.delete_kwargs cfg x.2.1 (Collector.w_time_at w k) = Ok md) →
  (λ c, (c.1.1, c.1.2)) <$> Collector.calls (Collector.sweep cfg w refs items n) =
  (λ x, (x.1, x.2.1)) <$> filter (sweeps cfg w refs) items.
Proof.
  intros Hl. revert n. induction items as [|[a [bid age]] items IH]; intros n Hk; [done|]. cbn [Collector.sweep].
  assert (∀ x k, x ∈ items → ∃ md, Collector.delete_kwargs cfg x.2.1 (Collector.w_time_at w k) = Ok md) as Hk'.
  { intros x k Hx. apply Hk. by right. }
  destruct (Collector.is_referenced refs a bid) eqn:Hr; simpl.
  { rewrite filter_cons_False by (by intros [? _]; simpl in *; congruence). by apply IH. }
  destruct (bool_decide_reflect ((bid, a) ∈ Collector.w_in_flight w)) as [Hin|Hin]; simpl.
  { rewrite filter_cons_False by (by intros (_ & ? & _)). by apply IH. }
  destruct (Z.ltb_spec age (Collector.gc_grace_s cfg)) as [Hage|Hage]; simpl.
  { rewrite filter_cons_False by (intros (_ & _ & ?); simpl in *; lia). by apply IH. }
  rewrite Hl. simpl. destruct (Hk (a, (bid, age)) n) as [md Hmd]; [by left|]. simpl in Hmd. rewrite Hmd.
  rewrite filter_cons_True by (by split_and!). simpl. f_equal. by apply IH.
Qed.

Lemma bind_run {W A B} (m : M (Tool W) stop A) (k : A → M (Tool W) stop B) tl tl' a r :
  m tl = (tl', Ok a) → k a tl' = r → (a ← m; k a) tl = r.
Proof. intros H <-. unfold mbind, M_bind. by rewrite H. Qed.
Lemma rpc_bind {A B} (m : H A) (k : A → H B) s s' a r : m s = (s', Ok a) → k a s' = r → (a ← m; k a) s = r.
Proof. intros E <-. unfold mbind, M_bind. by rewrite E. Qed.

Section props.
Context {W : Type} {IN : Inspected W}.

(** * Runs *)

Lemma collect_run {A B} (J : Tool W → Prop) (Q : A → B → Prop) (m : A → M (Tool W) stop B) l tl :
  J tl → (∀ x tl, x ∈ l → J tl → ∃ tl' b, m x tl = (tl', Ok b) ∧ J tl' ∧ Q x b) →
  ∃ tl' bs, collect m l tl = (tl', Ok bs) ∧ J tl' ∧ Forall2 Q l bs.
Proof.
  revert tl. induction l as [|x l IH]; intros tl HJ Hm; [by exists tl, []|].
  destruct (Hm x tl) as (tl1 & b & E1 & J1 & Q1); [by left|done|].
  destruct (IH tl1 J1) as (tl2 & bs & E2 & J2 & Q2); [intros y tl' Hy; apply Hm; by right|].
  exists tl2, (b :: bs). split_and!; [|done|by constructor].
  cbn [collect]. unfold mbind, M_bind. by rewrite E1, E2.
Qed.

Lemma answer_run {A} (f : W → W * result Failure A) tl w' a :
  f (t_world tl) = (w', Ok a) → answer f tl = (with_world w' tl, Ok a).
Proof. intros E. unfold answer, attempt, mbind, M_bind. by rewrite E. Qed.

(** * What the leader shows *)

(** A block of the answer of ListBlocks, by the internal addresses. *)
Definition same_block (b : BlockRecord) (x : BlockInfo) : Prop :=
  i_id x = block_id b ∧ i_addresses x = datanode_addresses b.

(** The leader answers a in_session from one tree, which allows it everything. *)
Class LeaderShows (t : TreeState) (leader : string) (md : Metadata) (caller : option Caller)
    (inv : string → result Failure (list (string * Z * Z))) (good : W → Prop) : Prop := {
  shows_allowed : ∀ n want, _allows n caller want = true;
  shows_dir : ∀ path w es, good w → (Tree.list_dir path caller t).2 = Ok es →
    ∃ w', node_rpc leader md (RListDir path) w = (w', Ok es) ∧ good w';
  shows_blocks : ∀ path w bs, good w → (Tree.list_blocks path caller t).2 = Ok bs →
    ∃ w' is_, node_rpc leader (md ++ INTERNAL_VIEW_METADATA) (RListBlocks path) w = (w', Ok is_) ∧ good w' ∧ Forall2 same_block bs is_;
  shows_inventory : ∀ a w, good w → ∃ w', node_rpc leader md (RDataNodeInventory a) w = (w', inv a) ∧ good w'
}.

Section shown.
Context (t : TreeState) (leader : string) (md : Metadata) (caller : option Caller)
  (inv : string → result Failure (list (string * Z * Z))) (good : W → Prop).
Context `{LS : !LeaderShows t leader md caller inv good} (Hwf : tree_wf t).

(** The session of the tool, with [o] printed. *)
Definition in_session (o : list string) (tl : Tool W) : Prop := good (t_world tl) ∧ t_metadata tl = md ∧ t_out tl = o.

(** A published entry below a directory, as a row of [walk]. *)
Definition row_below (ps : list string) (row : string * bool * Z) : Prop :=
  ∃ q x n e, row = (path_of (ps ++ q ++ [x]), e_is_dir e, e_size_bytes e) ∧
    view t (ps ++ q ++ [x]) = Some n ∧ listed x n = Some e.

Lemma list_dir_run ps d : Forall comp_ok ps → _get_node ps t = Some (DirN d) →
  Tree.list_dir (path_of ps) caller t = (t, Ok (omap dir_entry (merge_sort name_le (children d)))).
Proof.
  intros Hps Hg. unfold Tree.list_dir, mbind, M_bind, lift, gets. rewrite parts_of_path_of by done. rewrite Hg.
  unfold require, lift, _require, require_r. by rewrite shows_allowed.
Qed.
Lemma list_blocks_run ps f : Forall comp_ok ps → _get_node ps t = Some (FileN f) → f_state f = Committed →
  Tree.list_blocks (path_of ps) caller t = (t, Ok (blocks f)).
Proof.
  intros Hps Hg Hf. unfold Tree.list_blocks, mbind, M_bind, lift, gets. rewrite parts_of_path_of by done. rewrite Hg.
  unfold ensure. rewrite bool_decide_true by done. simpl. unfold require, lift, _require, require_r. by rewrite shows_allowed.
Qed.

Lemma session_world o w tl : good w → in_session o tl → in_session o (with_world w tl).
Proof. intros Hw (_ & H2 & H3). by split. Qed.

(** A row below a directory is its child or is below one of its subdirectories. *)
Lemma row_below_step ps d (es : list DirEntryData) row : _get_node ps t = Some (DirN d) →
  (∀ e, e ∈ es ↔ ∃ x n, view t (ps ++ [x]) = Some n ∧ listed x n = Some e) →
  row_below ps row ↔ ∃ e, e ∈ es ∧ (row = (path_of (ps ++ [e_name e]), e_is_dir e, e_size_bytes e)
                                  ∨ e_is_dir e = true ∧ row_below (ps ++ [e_name e]) row).
Proof.
  intros Hg Hes. split.
  - intros (q & x & n & e & -> & Hv & Hl). destruct q as [|y q].
    + exists e. split; [apply Hes; by exists x, n|left]. by rewrite (listed_name _ _ _ Hl).
    + assert (∃ d', _get_node (ps ++ [y]) t = Some (DirN d')) as [d' Hd'].
      { unfold view, view_from in Hv. replace (ps ++ (y :: q) ++ [x]) with ((ps ++ [y]) ++ q ++ [x]) in Hv by (by rewrite <-app_assoc).
        rewrite node_get_app in Hv. unfold _get_node. destruct (node_get (ps ++ [y]) _) as [[g|d']|]; [|by eexists|done].
        by destruct q. }
      exists (mkEntry y true 0 (d_owner d') (d_group d') (d_mode d')). split.
      * apply Hes. exists y, (EDir (d_owner d') (d_group d') (d_mode d')). split; [|done]. unfold view, view_from. unfold _get_node in Hd'. by rewrite Hd'.
      * right. split; [done|]. cbn [e_name]. exists q, x, n, e.
        replace ((ps ++ [y]) ++ q ++ [x]) with (ps ++ (y :: q) ++ [x]) by (by rewrite <-app_assoc). done.
  - intros (e & (x & n & Hv & Hl)%Hes & [->|[Hd (q & x' & n' & e' & -> & Hv' & Hl')]]).
    + exists [], x, n, e. by rewrite (listed_name _ _ _ Hl).
    + exists (e_name e :: q), x', n', e'.
      replace (ps ++ (e_name e :: q) ++ [x']) with ((ps ++ [e_name e]) ++ q ++ [x']) by (by rewrite <-app_assoc). done.
Qed.

(** [walk] lists what is published below a directory, and nothing else. *)
Lemma walk_run o limit ps d tl :
  Forall comp_ok ps → _get_node ps t = Some (DirN d) → height (DirN d) ≤ limit → in_session o tl →
  ∃ tl' rows, walk limit leader (path_of ps) tl = (tl', Ok rows) ∧ in_session o tl' ∧ ∀ row, row ∈ rows ↔ row_below ps row.
Proof.
  revert ps d tl. induction limit as [|limit IH]; intros ps d tl Hps Hg Hh Hs; [simpl in Hh; lia|].
  pose proof (list_dir_run ps d Hps Hg) as Hl. set (es := omap _ _) in Hl.
  pose proof (list_dir_exact _ _ _ _ _ Hwf Hl) as (_ & ps' & Hps' & Hes & _).
  rewrite parts_of_path_of in Hps' by done. injection Hps' as <-.
  assert ((Tree.list_dir (path_of ps) caller t).2 = Ok es) as Hl2 by (by rewrite Hl).
  destruct (shows_dir (path_of ps) (t_world tl) es (proj1 Hs) Hl2) as (w' & Ew & Gw).
  destruct (collect_run (in_session o)
    (λ e rows, ∀ row, row ∈ rows ↔ row = (path_of (ps ++ [e_name e]), e_is_dir e, e_size_bytes e)
                                 ∨ e_is_dir e = true ∧ row_below (ps ++ [e_name e]) row)
    (λ e : DirEntryData,
        let child := child_of (path_of ps) (e_name e) in
        below ← (if e_is_dir e then walk limit leader child else mret []);
        mret ((child, e_is_dir e, e_size_bytes e) :: below)) es (with_world w' tl)) as (tl' & rows & E & S' & F).
  { by apply session_world. }
  { intros e tl1 (x & n & Hv & Hlist)%Hes S1. cbv zeta. rewrite child_of_path by done.
    pose proof (listed_name _ _ _ Hlist) as Hx. destruct (e_is_dir e) eqn:Hd.
    - destruct n as [f|o' g m]; [simpl in Hlist; destruct (f_state f); first [discriminate Hlist | injection Hlist as <-; discriminate Hd]|].
      assert (∃ c, dict_get x (children d) = Some (DirN c)) as [c Hc].
      { unfold view, view_from in Hv. unfold _get_node in Hg. rewrite node_get_snoc, Hg in Hv.
        destruct (dict_get x (children d)) as [[f|c]|]; [discriminate Hv|by eexists|done]. }
      pose proof (height_child _ _ _ Hc) as Hlt.
      destruct (node_ok_dir_inv d (wf_node _ _ _ Hwf Hg)) as (_ & _ & Hcomps & _).
      destruct (IH (ps ++ [e_name e]) c tl1) as (tl2 & rows & E2 & S2 & R2); [|..|lia|done|].
      + apply Forall_app. split; [done|]. apply Forall_singleton. rewrite Hx.
        rewrite Forall_forall in Hcomps. apply (Hcomps (x, DirN c)). by apply dict_get_elem.
      + unfold _get_node in Hg |- *. by rewrite node_get_snoc, Hg, Hx.
      + exists tl2, ((path_of (ps ++ [e_name e]), true, e_size_bytes e) :: rows).
        split_and!; [unfold mbind, M_bind; by rewrite E2|done|].
        intros row. rewrite elem_of_cons, R2. naive_solver.
    - exists tl1, [(path_of (ps ++ [e_name e]), false, e_size_bytes e)]. split_and!; [done|done|].
      intros row. rewrite list_elem_of_singleton. naive_solver. }
  exists tl', (concat rows). split_and!; [|done|].
  - cbn [walk]. apply (bind_run _ _ _ _ _ _ eq_refl). rewrite (proj1 (proj2 Hs)).
    apply (bind_run _ _ _ _ _ _ (answer_run _ _ _ _ Ew)). by apply (bind_run _ _ _ _ _ _ E).
  - intros row. rewrite (row_below_step ps d es row Hg Hes). rewrite elem_of_concat. split.
    + intros (l & Hl' & Hrow). apply list_elem_of_lookup in Hl' as [i Hi].
      destruct (Forall2_lookup_r _ _ _ _ _ F Hi) as (e & He & HQ). exists e. split; [by eapply list_elem_of_lookup_2|by apply HQ].
    + intros (e & He & HQ). apply list_elem_of_lookup in He as [i Hi].
      destruct (Forall2_lookup_l _ _ _ _ _ F Hi) as (l & Hl' & Hrow). exists l. split; [by apply list_elem_of_lookup_2 in Hl'|by apply Hrow].
Qed.

(** * Blocks in use *)

(** A published file keeps the block at that address. *)
Definition visible_at (bid a : string) : Prop :=
  ∃ ps f b, view t ps = Some (EFile f) ∧ f_state f = Committed ∧ b ∈ blocks f ∧ block_id b = bid ∧ a ∈ datanode_addresses b.

Definition used (d : gmap string (gset string)) (bid a : string) : Prop := a ∈ default ∅ (d !! bid).
#[local] Instance used_dec d bid a : Decision (used d bid a).
Proof. unfold used. apply _. Defined.

Lemma assign_used bs d bid a :
  used (foldl (λ d b, assign b d) d bs) bid a ↔ used d bid a ∨ ∃ b, b ∈ bs ∧ i_id b = bid ∧ a ∈ i_addresses b.
Proof.
  revert d. induction bs as [|b bs IH]; intros d; cbn [foldl].
  - split; [auto|]. intros [H|(b & Hb & _)]; [done|by apply not_elem_of_nil in Hb].
  - rewrite IH. assert (used (assign b d) bid a ↔ used d bid a ∨ i_id b = bid ∧ a ∈ i_addresses b) as ->.
    { unfold used, assign. destruct (decide (i_id b = bid)) as [->|Hne].
      - rewrite lookup_insert_eq. simpl. rewrite elem_of_union, elem_of_list_to_set. naive_solver.
      - rewrite lookup_insert_ne by done. naive_solver. }
    setoid_rewrite elem_of_cons. naive_solver.
Qed.

Lemma blocks_of_run o path tl bs : in_session o tl → (Tree.list_blocks path caller t).2 = Ok bs →
  ∃ tl' is_, blocks_of leader path tl = (tl', Ok is_) ∧ in_session o tl' ∧ Forall2 same_block bs is_.
Proof.
  intros Hs Hl. destruct (shows_blocks path (t_world tl) bs (proj1 Hs) Hl) as (w' & is_ & E & Gw & F).
  exists (with_world w' tl), is_. split_and!; [|by apply session_world|done].
  unfold blocks_of. apply (bind_run _ _ _ _ _ _ eq_refl). rewrite (proj1 (proj2 Hs)). by apply answer_run.
Qed.

(** What [cmd_huerfanos] takes as in use: the blocks of the published files, where they are. *)
Lemma assigned_run o limit tl : height (DirN (t_root t)) ≤ limit → in_session o tl →
  ∃ tl' assigned, assigned_blocks limit leader tl = (tl', Ok assigned) ∧ in_session o tl' ∧ ∀ bid a, used assigned bid a ↔ visible_at bid a.
Proof.
  intros Hh Hs. destruct (walk_run o limit [] (t_root t) tl) as (tl1 & rows & E1 & S1 & R); [done|done|done|done|].
  destruct (collect_run (in_session o)
    (λ (row : string * bool * Z) bl, ∀ bid a, (∃ x, x ∈ bl ∧ i_id x = bid ∧ a ∈ i_addresses x) ↔
       ∃ ps f b, row.1.1 = path_of ps ∧ view t ps = Some (EFile f) ∧ f_state f = Committed ∧ b ∈ blocks f
                 ∧ block_id b = bid ∧ a ∈ datanode_addresses b)
    (λ row : string * bool * Z, if row.1.2 then mret [] else blocks_of leader row.1.1) rows tl1) as (tl2 & found & E2 & S2 & F2); [done| |].
  { intros row tl' (q & x & n & e & -> & Hv & Hl)%R S'. cbn [fst snd]. rewrite app_nil_l in *.
    assert (∀ ps f, view t ps = Some (EFile f) → Forall comp_ok ps) as Hok.
    { intros ps f Hf%view_file. by eapply node_ok_get; [apply Hwf|]. }
    assert (Forall comp_ok (q ++ [x])) as Hc.
    { unfold view, view_from in Hv. destruct (node_get (q ++ [x]) _) as [m|] eqn:Em; [|done]. by eapply node_ok_get; [apply Hwf|]. }
    assert (∀ ps f, path_of (q ++ [x]) = path_of ps → view t ps = Some (EFile f) → ps = q ++ [x]) as Hinj.
    { intros ps f Hp Hf. symmetry. by apply path_of_inj; [..|eapply Hok|]. }
    destruct n as [f|o' g m].
    - simpl in Hl. destruct (f_state f) eqn:Hst; [discriminate Hl|]. injection Hl as <-. cbn [e_is_dir].
      assert (_get_node (q ++ [x]) t = Some (FileN f)) as Hg by (by apply view_file).
      destruct (blocks_of_run o (path_of (q ++ [x])) tl' (blocks f)) as (tl'' & is_ & E & S'' & F); [done|by rewrite (list_blocks_run _ f)|].
      exists tl'', is_. split_and!; [done|done|]. intros bid a. split.
      + intros (y & Hy & <- & Ha). apply list_elem_of_lookup in Hy as [i Hi].
        destruct (Forall2_lookup_r _ _ _ _ _ F Hi) as (b & Hb & H1 & H2). exists (q ++ [x]), f, b.
        rewrite H2 in Ha. rewrite H1. split_and!; try done. by eapply list_elem_of_lookup_2.
      + intros (ps & f' & b & Hp & Hf' & _ & Hb & <- & Ha). pose proof (Hinj ps f' Hp Hf') as ->.
        rewrite Hv in Hf'. injection Hf' as <-. apply list_elem_of_lookup in Hb as [i Hi].
        destruct (Forall2_lookup_l _ _ _ _ _ F Hi) as (y & Hy & H1 & H2). exists y.
        rewrite H1, H2. split_and!; try done. by eapply list_elem_of_lookup_2.
    - injection Hl as <-. cbn [e_is_dir]. exists tl', []. split_and!; [done|done|]. intros bid a. split.
      + intros (y & Hy & _). by apply not_elem_of_nil in Hy.
      + intros (ps & f' & b & Hp & Hf' & _). pose proof (Hinj ps f' Hp Hf') as ->. by rewrite Hv in Hf'. }
  exists tl2, (foldl (λ d b, assign b d) ∅ (concat found)). split_and!; [|done|].
  { unfold assigned_blocks. apply (bind_run _ _ _ _ _ _ E1). by apply (bind_run _ _ _ _ _ _ E2). }
  intros bid a. rewrite assign_used. unfold used at 1. rewrite lookup_empty. split.
  - intros [H|(b & Hb & <- & Ha)]; [by apply not_elem_of_empty in H|]. apply elem_of_concat in Hb as (bl & Hbl & Hb).
    apply list_elem_of_lookup in Hbl as [i Hi]. destruct (Forall2_lookup_r _ _ _ _ _ F2 Hi) as (row & Hrow & HQ).
    destruct (proj1 (HQ (i_id b) a)) as (ps & f & b' & _ & Hb'); [by exists b|]. by exists ps, f, b'.
  - intros (ps & f & b & Hv & Hst & Hb & Hid & Ha). right.
    assert ((path_of ps, false, file_size f) ∈ rows) as Hrow.
    { apply R. destruct ps as [|x q _] using rev_ind; [done|].
      exists q, x, (EFile f), (mkEntry x false (file_size f) (f_owner f) (f_group f) (f_mode f)). simpl. by rewrite Hst. }
    apply list_elem_of_lookup in Hrow as [i Hi]. destruct (Forall2_lookup_l _ _ _ _ _ F2 Hi) as (bl & Hbl & HQ).
    destruct (proj2 (HQ bid a)) as (x & Hx & Hx'); [by exists ps, f, b|]. exists x. split; [|done].
    apply elem_of_concat. exists bl. split; [by eapply list_elem_of_lookup_2|done].
Qed.

(** * Orphans *)

(** What a DataNode stores, when it answers. *)
Definition stored_at (a : string) : list (string * Z * Z) := match inv a with Ok st => st | Err _ => [] end.

(** The tool between two prints: any output, the same in_session. *)
Definition talking (tl : Tool W) : Prop := ∃ o, in_session o tl.
Lemma say_run text tl : talking tl → ∃ tl', say text tl = (tl', Ok tt) ∧ talking tl' ∧ t_out tl' = t_out tl ++ [text].
Proof. intros (o & H1 & H2 & _). eexists. split; [done|]. split; [|done]. eexists. by split. Qed.

Lemma orphans_run assigned g k a tl : talking tl →
  ∃ tl' found, orphans_of leader assigned g k a tl = (tl', Ok found) ∧ talking tl' ∧ found = candidates_at assigned g a (stored_at a).
Proof.
  intros (o & Gw & Hm & Ho). destruct (shows_inventory a (t_world tl) Gw) as (w' & E & Gw').
  assert (attempt (node_rpc leader md (RDataNodeInventory a)) tl = (with_world w' tl, Ok (inv a))) as Ha by (unfold attempt; by rewrite E).
  assert (talking (with_world w' tl)) as T1 by (exists o; by split). unfold orphans_of, stored_at.
  destruct (inv a) as [st|f] eqn:Hi.
  - destruct (say_run ("  " +:+ pad_right 8 (short a) +:+ " " +:+ pad_left 4 (str_of_nat (length st)) +:+ " en disco   "
               +:+ pad_left 4 (str_of_nat (length st - length (unused_at assigned a st))) +:+ " en uso   "
               +:+ pad_left 4 (str_of_nat (length (filter (λ b : string * Z * Z, (b.2 < g)%Z) (unused_at assigned a st)))) +:+ " sin uso visible y jóvenes   "
               +:+ pad_left 4 (str_of_nat (length (candidates_at assigned g a st))) +:+ " a borrar ("
               +:+ human (sumZ ((λ b : string * Z * Z, b.1.2) <$> candidates_at assigned g a st)) +:+ ")") _ T1) as (tl2 & E2 & T2 & _).
    destruct (collect_run talking (λ _ _, True) (λ b : string * Z * Z, say ("      a borrar " +:+ b.1.1 +:+ "  (" +:+ str_of_Z b.2 +:+ " s)"))
      (take k (candidates_at assigned g a st)) tl2 T2) as (tl3 & us & E3 & T3 & _).
    { intros x tl' _ T'. destruct (say_run ("      a borrar " +:+ x.1.1 +:+ "  (" +:+ str_of_Z x.2 +:+ " s)") tl' T') as (tl'' & E' & T'' & _).
      by exists tl'', tt. }
    exists tl3, (candidates_at assigned g a st). split_and!; [|done|done].
    apply (bind_run _ _ _ _ _ _ eq_refl). rewrite Hm. apply (bind_run _ _ _ _ _ _ Ha). cbv zeta.
    apply (bind_run _ _ _ _ _ _ E2). apply (bind_run _ _ _ tl3 tt _); [|done]. unfold for_each. by apply (bind_run _ _ _ _ _ _ E3).
  - destruct (say_run ("  " +:+ pad_right 8 (short a) +:+ " no responde (" +:+ code_name (f_code f) +:+ ")") _ T1) as (tl2 & E2 & T2 & _).
    exists tl2, []. split_and!; [|done|done].
    apply (bind_run _ _ _ _ _ _ eq_refl). rewrite Hm. apply (bind_run _ _ _ _ _ _ Ha). by apply (bind_run _ _ _ _ _ _ E2).
Qed.

(** The whole command, once it found the leader. *)
Lemma huerfanos_run limit cns dns g k tl tl1 :
  height (DirN (t_root t)) ≤ limit → leader_stub (_split cns) tl = (tl1, Ok leader) → talking tl1 →
  ∃ tl' assigned, cmd_huerfanos limit cns dns g k tl = (tl', Ok tt) ∧ (∀ bid a, used assigned bid a ↔ visible_at bid a) ∧
    last (t_out tl') = Some (total_line (length (concat ((λ a, candidates_at assigned g a (stored_at a)) <$> _split dns)))).
Proof.
  intros Hh Hl [o S1]. destruct (assigned_run o limit tl1 Hh S1) as (tl2 & assigned & E2 & S2 & HA).
  destruct (say_run (newline +:+ "Bloques en uso por archivos visibles: " +:+ str_of_nat (size assigned)
           +:+ "   (gracia del recolector: " +:+ str_of_Z g +:+ " s)" +:+ newline) tl2) as (tl3 & E3 & T3 & _); [by exists o|].
  destruct (collect_run talking (λ a found, found = candidates_at assigned g a (stored_at a)) (orphans_of leader assigned g k) (_split dns) tl3 T3)
    as (tl4 & found & E4 & T4 & F4).
  { intros a tl' _ T'. apply orphans_run, T'. }
  destruct (say_run (total_line (length (concat found))) tl4 T4) as (tl5 & E5 & T5 & Hout).
  exists tl5, assigned. split_and!; [|done|].
  - unfold cmd_huerfanos. apply (bind_run _ _ _ _ _ _ Hl). apply (bind_run _ _ _ _ _ _ E2). apply (bind_run _ _ _ _ _ _ E3).
    by apply (bind_run _ _ _ _ _ _ E4).
  - rewrite Hout, last_snoc. do 3 f_equal. apply Forall2_eq_fmap in F4. by rewrite F4.
Qed.

(** Every copy the DataNodes that answer hold, with its place. *)
Definition copies (dns : list string) : list (string * (string * Z * Z)) :=
  concat ((λ a, (λ b, (a, b)) <$> stored_at a) <$> dns).

(** A cycle of the collector of the leader on the same cluster: it looks at the same
    DataNodes, sees what they store, and can sign its calls. *)
Record same_cluster (cfg : Collector.GcConfig) (gw : Collector.GcWorld) (dns : list string) : Prop := {
  sc_leader : Collector.w_leader gw = true;
  sc_leads : ∀ k, Collector.w_leader_at gw k = true;
  sc_barrier : Collector.w_barrier gw = true;
  sc_alive : Collector.w_alive gw = dns;
  sc_list : ∀ a call_md, a ∈ dns → Collector.w_list gw a call_md =
    match inv a with Ok st => Some ((λ b : string * Z * Z, (b.1.1, b.2)) <$> st) | Err _ => None end;
  sc_sign : ∀ p k, p ∈ copies dns → ∃ call_md, Collector.delete_kwargs cfg p.2.1.1 (Collector.w_time_at gw k) = Ok call_md
}.

Lemma candidates_copies assigned g dns :
  concat ((λ a, (λ b, (a, b)) <$> candidates_at assigned g a (stored_at a)) <$> dns) =
  filter (λ p : string * (string * Z * Z), ¬ used assigned p.2.1.1 p.1 ∧ (g <= p.2.2)%Z) (copies dns).
Proof.
  unfold copies. induction dns as [|a dns IH]; [done|]. rewrite !fmap_cons, !concat_cons, IH, filter_app. f_equal. clear IH.
  unfold candidates_at, unused_at. induction (stored_at a) as [|b st IH]; [done|]. rewrite fmap_cons.
  destruct (decide (a ∈ default ∅ (assigned !! b.1.1))) as [Hu|Hu].
  - rewrite filter_cons_False by (by intros ?). rewrite IH. rewrite (filter_cons_False _ (a, b)) by (by intros [? _]). done.
  - rewrite filter_cons_True by done. destruct (decide (g <= b.2)%Z).
    + rewrite filter_cons_True by done. rewrite fmap_cons, IH. by rewrite (filter_cons_True _ (a, b)) by done.
    + rewrite filter_cons_False by done. rewrite IH. rewrite (filter_cons_False _ (a, b)) by (by intros [_ ?]). done.
Qed.

Lemma collector_copies cfg gw dns : same_cluster cfg gw dns → NoDup dns →
  (λ c, (c.1.1, c.1.2)) <$> Collector.calls (Collector.run_cycle cfg gw t) =
  (λ p : string * (string * Z * Z), (p.1, p.2.1.1)) <$>
    filter (λ p, sweeps cfg gw (referenced_blocks (Collector.w_clock gw) t) (p.1, (p.2.1.1, p.2.2))) (copies dns).
Proof.
  intros [H1 H2 H3 H4 H5 H6] Hnd. unfold Collector.run_cycle. rewrite H1, H4. simpl.
  rewrite (inventory_all cfg gw (λ a, match inv a with Ok st => Some ((λ b : string * Z * Z, (b.1.1, b.2)) <$> st) | Err _ => None end))
    by (done || (intros; by apply H5)). rewrite H3. simpl.
  rewrite flatten_answers. assert (concat ((λ a, (λ b, (a, b)) <$> default []
      (match inv a with Ok st => Some ((λ b : string * Z * Z, (b.1.1, b.2)) <$> st) | Err _ => None end)) <$> dns)
    = (λ p : string * (string * Z * Z), (p.1, (p.2.1.1, p.2.2))) <$> copies dns) as ->.
  { unfold copies. clear. induction dns as [|a dns IH]; [done|]. rewrite !fmap_cons, !concat_cons, fmap_app, <-IH. f_equal.
    unfold stored_at. destruct (inv a) as [st|f]; [|done]. simpl. rewrite <-!list_fmap_compose. done. }
  rewrite sweep_all; [|done|].
  - rewrite filter_fmap, <-list_fmap_compose. done.
  - intros x k (p & -> & Hp)%list_elem_of_fmap. by apply H6.
Qed.

(** No upload or write is under way: every file is published and no reservation is live. *)
Definition at_rest (now : Z) : Prop :=
  (∀ q f, view t q = Some (EFile f) → f_state f = Committed) ∧
  (∀ w r, t_writes t !! w = Some r → (w_lease_expires_at r <= now)%Z).

Lemma visible_referenced now bid a : visible_at bid a → Collector.is_referenced (referenced_blocks now t) a bid = true.
Proof.
  intros (ps & f & b & Hv & _ & Hb & Hid & Ha). apply Collector.is_referenced_spec, referenced_blocks_spec; [done|].
  left. by exists ps, f, b.
Qed.
Lemma referenced_visible now bid a : at_rest now → Collector.is_referenced (referenced_blocks now t) a bid = true → visible_at bid a.
Proof.
  intros [H1 H2] [(q & f & b & Hv & Hb & Hid & Ha)|(w & r & s & Hw & Ht & _)]%Collector.is_referenced_spec%referenced_blocks_spec; [| |done].
  - exists q, f, b. split_and!; try done. by eapply H1.
  - specialize (H2 w r Hw). lia.
Qed.

(** C40. The inspector foresees the collector.  Over a cluster whose leader answers from a tree,
    [huerfanos] ends and its last line counts exactly the copies on the disks of the
    DataNodes that answer which are old enough and which no published file keeps there.
    Every DeleteBlock of the collector's next cycle is for one of them, in the same order;
    and when no upload or write is under way they are exactly the ones it deletes. *)
Theorem inspector_foresees_collector limit cns dns g k tl tl1 cfg gw :
  height (DirN (t_root t)) ≤ limit → leader_stub (_split cns) tl = (tl1, Ok leader) → talking tl1 →
  NoDup (_split dns) → same_cluster cfg gw (_split dns) → Collector.gc_grace_s cfg = g →
  ∃ tl' found, cmd_huerfanos limit cns dns g k tl = (tl', Ok tt) ∧ last (t_out tl') = Some (total_line (length found)) ∧
    (∀ p, p ∈ found ↔ p ∈ copies (_split dns) ∧ ¬ visible_at p.2.1.1 p.1 ∧ (g <= p.2.2)%Z) ∧
    let deleted := (λ c, (c.1.1, c.1.2)) <$> Collector.calls (Collector.run_cycle cfg gw t) in
    let announced := (λ p : string * (string * Z * Z), (p.1, p.2.1.1)) <$> found in
    deleted `sublist_of` announced ∧
    (at_rest (Collector.w_clock gw) → Collector.w_in_flight gw = ∅ → deleted = announced).
Proof.
  intros Hh Hl Ht Hnd Hsc Hg. destruct (huerfanos_run limit cns dns g k tl tl1 Hh Hl Ht) as (tl' & assigned & E & HA & Hout).
  set (P := λ p : string * (string * Z * Z), ¬ used assigned p.2.1.1 p.1 ∧ (g <= p.2.2)%Z).
  set (S := λ p : string * (string * Z * Z), sweeps cfg gw (referenced_blocks (Collector.w_clock gw) t) (p.1, (p.2.1.1, p.2.2))).
  assert (∀ p, S p → P p) as HSP.
  { intros p (Hr & _ & Hage). split; [|simpl in Hage; lia]. rewrite HA. intros Hv. by rewrite (visible_referenced _ _ _ Hv) in Hr. }
  exists tl', (filter P (copies (_split dns))). split_and!; [done| | |cbv zeta; split].
  - rewrite Hout. do 2 f_equal. unfold P. rewrite <-(candidates_copies assigned g (_split dns)). clear.
    induction (_split dns) as [|a l IH]; [done|]. rewrite !fmap_cons, !concat_cons, !length_app, length_fmap. by rewrite IH.
  - intros p. rewrite list_elem_of_filter. unfold P. rewrite HA. tauto.
  - rewrite (collector_copies cfg gw (_split dns)) by done. by apply fmap_sublist, filter_mono.
  - intros Hrest Hfl. rewrite (collector_copies cfg gw (_split dns)) by done. f_equal. apply list_filter_iff. intros p. split; [apply HSP|].
    intros [Hu Hage]. split_and!; [|rewrite Hfl; set_solver|by rewrite Hg]. apply not_true_iff_false. intros Hr.
    apply Hu, HA. by apply (referenced_visible (Collector.w_clock gw)).
Qed.
End shown.
End props.

(** * The handlers of a leader *)

Section served.
Context {JW : Jwt} (cfg : Config) (env : Env) (peer_name leader : string).
(** What each DataNode answers to ListStoredBlocks. *)
Context (disks : string → result StatusCode (list (string * Z * Z))).

(** What gRPC reports of an RPC that fails; the texts of the program are not modelled. *)
Definition failure_of (e : rpc_exn) : Failure :=
  match e with
  | Aborted code _ => mkFailure code ""
  | Insufficient | Raised _ => mkFailure UNKNOWN ""
  end.

Definition asking (r : request) : Env :=
  match r with
  | RDataNodeInventory a =>
      mkEnv (leader_at env) (others_at env) (raft_at env) (clock_at env) (seconds env) (uuid_at env) (salt_at env)
        (alive_at env) (λ _, disks a)
  | _ => env
  end.

(** A cluster with one leader that answers; the others say they are not. *)
#[local] Instance served : Inspected Node := {
  node_rpc address md r w :=
    if decide (address = leader) then
      let out := serve_rpc cfg (asking r) (mkCtx md peer_name) r w in
      (out.1, match out.2 with Ok a => Ok a | Err e => Err (failure_of e) end)
    else (w, Err (mkFailure UNAVAILABLE "no es el líder"));
  datanode_ping _ w := (w, Ok tt);
  datanode_read _ _ _ w := (w, Err (mkFailure UNAVAILABLE ""))
}.

Definition disk_answer (a : string) : result Failure (list (string * Z * Z)) :=
  if decide (a ∈ c_datanodes cfg) then
    match disks a with Ok l => Ok l | Err _ => Err (mkFailure UNAVAILABLE "") end
  else Err (mkFailure (status_of InvalidPathError) "").

(** The leader stays so, nobody else writes, and the session is of an admin or of a cluster
    without authentication; the identifiers of the blocks can be signed. *)
Record steady (t : TreeState) (md : Metadata) (p : option Principal) : Prop := {
  st_leader : ∀ n, leader_at env n = true;
  st_raft : ∀ n, raft_at env n = RaftOk;
  st_alone : ∀ n, others_at env n = [];
  st_auth : ∀ e x s, e = env ∨ (∃ a, e = asking (RDataNodeInventory a)) → x = [] ∨ x = INTERNAL_VIEW_METADATA →
    ∃ s', _authenticate cfg e (mkCtx (md ++ x) peer_name) s = (s', Ok p);
  st_admin : match p with Some q => is_admin q = true | None => True end;
  st_ids : ∀ ps f b, view t ps = Some (EFile f) → b ∈ blocks f → c_capability_key cfg = None ∨ is_block_id (block_id b) = true
}.

Section steady.
Context (t : TreeState) (md : Metadata) (p : option Principal) (St : steady t md p).

Definition on_tree (s : Node) : Prop := Replicated.tree (replicated s) = t.

Lemma identified_run e x s : e = env ∨ (∃ a, e = asking (RDataNodeInventory a)) → x = [] ∨ x = INTERNAL_VIEW_METADATA → on_tree s →
  ∃ s', _authenticate cfg e (mkCtx (md ++ x) peer_name) s = (s', Ok p) ∧ on_tree s'.
Proof.
  intros He Hx Hs. destruct (st_auth _ _ _ St e x s He Hx) as [s' E]. exists s'. split; [done|]. unfold on_tree.
  by rewrite (local_run _ _ _ _ (local_auth cfg e _) E).
Qed.
Lemma steady_barrier s : on_tree s → ∃ s', _read_barrier env s = (s', Ok tt) ∧ on_tree s'.
Proof.
  intros Hs. destruct (barrier_run env s (st_leader _ _ _ St) (st_raft _ _ _ St)) as (s' & n & E & Hr & _).
  exists s'. split; [done|]. unfold on_tree. by rewrite Hr, (st_alone _ _ _ St).
Qed.
Lemma read_run {A} es (m : TreeM A) s a : on_tree s → (m t).2 = Ok a → catching es (read_tree m) s = (s, Ok a).
Proof. intros Hs Hm. unfold catching, read_tree. rewrite Hs. destruct (m t) as [t' [x|]]; by simplify_eq/=. Qed.

Lemma caller_allowed n want : _allows n (_caller p) want = true.
Proof. unfold _caller, _allows. pose proof (st_admin _ _ _ St) as H. destruct p as [q|]; [by rewrite H|done]. Qed.

Lemma internal_view addresses x : _for_client cfg (mkCtx (x ++ INTERNAL_VIEW_METADATA) peer_name) addresses false = addresses.
Proof.
  unfold _for_client. destruct (bool_decide (c_public_addresses cfg = [])); [done|].
  unfold meta_get, INTERNAL_VIEW_METADATA. cbn [metadata]. rewrite foldl_app. cbn [foldl fst snd]. rewrite dict_get_set_eq.
  by rewrite bool_decide_true.
Qed.

Lemma infos_run bs ctx s : on_tree s → (∀ b, b ∈ bs → c_capability_key cfg = None ∨ is_block_id (block_id b) = true) →
  ∃ s' is_, infos cfg env ctx bs s = (s', Ok is_) ∧ on_tree s'.
Proof.
  revert s. induction bs as [|b bs IH]; intros s Hs Hb; [by exists s, []|].
  assert (∃ s1 cap, _block_capability cfg env (block_id b) "read" (c_capability_ttl cfg) s = (s1, Ok cap) ∧ on_tree s1) as (s1 & cap & E1 & S1).
  { unfold _block_capability. destruct (Hb b) as [Hk|Hk]; [by left|rewrite Hk; by exists s, ""|].
    destruct (c_capability_key cfg) as [key|]; [|by exists s, ""]. unfold mbind, M_bind, now_, observe. unfold issue_block.
    rewrite bool_decide_true by (unfold BLOCK_OPS; set_solver). rewrite Hk. by eexists _, _. }
  destruct (IH s1 S1) as (s2 & is_ & E2 & S2); [intros b' Hb'; apply Hb; by right|].
  eexists s2, _. split; [|done]. cbn [infos]. apply (rpc_bind _ _ _ _ _ _ E1). by apply (rpc_bind _ _ _ _ _ _ E2).
Qed.

(** The handlers of the ControlNode show their tree. *)
#[local] Instance handlers_show : LeaderShows (IN := served) t leader md (_caller p) disk_answer on_tree.
Proof.
  split.
  - apply caller_allowed.
  - intros path s es Hs Hl. simpl. rewrite decide_True by done.
    destruct (identified_run env [] s) as (s1 & E1 & S1); [by left|by left|done|]. rewrite app_nil_r in E1.
    destruct (steady_barrier s1 S1) as (s2 & E2 & S2).
    assert (ListDir cfg env (mkCtx md peer_name) path s = (s2, Ok es)) as ->; [|by exists s2].
    unfold ListDir. apply (rpc_bind _ _ _ _ _ _ E1). apply (rpc_bind _ _ _ _ _ _ E2). by apply read_run.
  - intros path s bs Hs Hl. simpl. rewrite decide_True by done.
    destruct (identified_run env INTERNAL_VIEW_METADATA s) as (s1 & E1 & S1); [by left|by right|done|].
    destruct (steady_barrier s1 S1) as (s2 & E2 & S2).
    destruct (infos_run bs (mkCtx (md ++ INTERNAL_VIEW_METADATA) peer_name) s2 S2) as (s3 & is_ & E3 & S3).
    { destruct (Tree.list_blocks path (_caller p) t) as [t' r] eqn:Eb. simpl in Hl. subst r.
      apply list_blocks_inv in Eb as (ps & f & _ & Hv & _ & _ & ->). intros b Hb. by apply (st_ids _ _ _ St ps f b). }
    assert (ListBlocks cfg env (mkCtx (md ++ INTERNAL_VIEW_METADATA) peer_name) path s = (s3, Ok is_)) as ->.
    { unfold ListBlocks. apply (rpc_bind _ _ _ _ _ _ E1). apply (rpc_bind _ _ _ _ _ _ E2).
      apply (rpc_bind _ _ _ _ _ _ (read_run _ _ _ _ S2 Hl)). done. }
    exists s3, is_. split_and!; [done|done|]. apply infos_spec in E3. eapply Forall2_impl; [exact E3|].
    intros b x (H1 & H2 & _). split; [done|]. by rewrite H2, internal_view.
  - intros a s Hs. cbn [node_rpc served]. rewrite decide_True by done. cbv zeta. cbn [serve_rpc].
    destruct (identified_run (asking (RDataNodeInventory a)) [] s) as (s1 & E1 & S1); [right; by exists a|by left|done|].
    rewrite app_nil_r in E1.
    assert (∃ s', DataNodeInventory cfg (asking (RDataNodeInventory a)) (mkCtx md peer_name) a s =
      (s', if decide (a ∈ c_datanodes cfg) then match disks a with Ok l => Ok l | Err _ => Err (Aborted UNAVAILABLE None) end
           else Err (Aborted (status_of InvalidPathError) (Some (class_name InvalidPathError)))) ∧ on_tree s') as (s' & E & S').
    { unfold DataNodeInventory. unfold mbind at 1, M_bind at 1. rewrite E1. clear E1.
      assert ((match p with Some q => if is_admin q then mret tt else raise_ AccessDeniedError | None => mret tt end : H unit) = mret tt) as ->.
      { pose proof (st_admin _ _ _ St) as Ha. destruct p as [q|]; [by rewrite Ha|done]. }
      destruct (decide (a ∈ c_datanodes cfg)) as [Hin|Hin].
      - rewrite bool_decide_true by done. cbn.
        destruct (c_capability_key cfg); cbn; destruct (disks a); eexists; by split.
      - rewrite bool_decide_false by done. cbn. eexists. by split. }
    exists s'. split; [|done]. rewrite E. unfold disk_answer. cbn [fst snd]. by destruct (decide _); [destruct (disks a)|].
Qed.
End steady.
End served.

(** * A cluster of two ControlNodes and three DataNodes *)

Definition seen_tree : TreeState := demo 8.
Definition seen_node : Node := mkNode (Replicated.apply_log (take 8 demo_log) Replicated.replicated_init) 0 0 [].
(** Two copies in use, one that nothing names, one that has moved, and a node that is down. *)
Definition seen_disks (a : string) : result StatusCode (list (string * Z * Z)) :=
  if decide (a = "d1") then Ok [("n0", 4, 5000); ("zz", 7, 5000)]%Z
  else if decide (a = "d2") then Ok [("n0", 4, 5000); ("n1", 2, 5000)]%Z
  else Err UNAVAILABLE.
#[local] Instance seen : Inspected Node := @served toy_jwt open_config demo_env "peer" "cn1" seen_disks.
Definition seen_tool : Tool Node := mkTool seen_node "admin" None [] None [].
Definition seen_gc : Collector.GcConfig := Collector.mkGc 60 1200 30 None.
Definition seen_world : Collector.GcWorld :=
  Collector.mkGcWorld true ["d1"; "d2"; "d3"]
    (λ a _, match disk_answer open_config seen_disks a with Ok st => Some ((λ b : string * Z * Z, (b.1.1, b.2)) <$> st) | Err _ => None end)
    (λ _, 0%Q) true ∅ 100 (λ _, true) (λ _, 0%Q) (λ _ _ _, None).

Lemma seen_steady : @steady toy_jwt open_config demo_env "peer" seen_disks seen_tree [] None.
Proof.
  split; try done.
  - intros e x s _ _. by exists s.
  - intros ps f b _ _. by left.
Qed.

Lemma seen_cluster : same_cluster (disk_answer open_config seen_disks) seen_gc seen_world ["d1"; "d2"; "d3"].
Proof. split; try done. intros p k _. by exists []. Qed.

Definition seen_run : Tool Node * result stop unit := cmd_huerfanos 10 "cn0, cn1" "d1,d2,d3" 1200 5 seen_tool.

Lemma inspector_foresees_collector_witness :
  last (t_out seen_run.1) = Some (total_line 2) ∧
  ∃ found, last (t_out seen_run.1) = Some (total_line (length found)) ∧
    (λ c, (c.1.1, c.1.2)) <$> Collector.calls (Collector.run_cycle seen_gc seen_world seen_tree)
      `sublist_of` (λ p : string * (string * Z * Z), (p.1, p.2.1.1)) <$> found.
Proof.
  split; [by vm_compute|].
  assert (height (DirN (t_root seen_tree)) ≤ 10) as Hh by (apply Nat.leb_le; by vm_compute).
  assert (leader_stub (_split "cn0, cn1") seen_tool = ((leader_stub (_split "cn0, cn1") seen_tool).1, Ok "cn1")) as Hl by (by vm_compute).
  assert (talking [] (on_tree seen_tree) (leader_stub (_split "cn0, cn1") seen_tool).1) as Ht by (exists []; by split_and!; vm_compute).
  destruct (inspector_foresees_collector seen_tree "cn1" [] None (disk_answer open_config seen_disks) (on_tree seen_tree)
    (LS := handlers_show (JW := toy_jwt) open_config demo_env "peer" "cn1" seen_disks seen_tree [] None seen_steady)
    (demo_ok 8) 10 "cn0, cn1" "d1,d2,d3" 1200 5 seen_tool _ seen_gc seen_world Hh Hl Ht) as (tl' & found & E & Hlast & _ & Hsub & _).
  - apply (bool_decide_unpack _). by vm_compute.
  - exact seen_cluster.
  - done.
  - exists found. split; [|exact Hsub]. assert (seen_run = (tl', Ok tt)) as -> by exact E. exact Hlast.
Defined.
